(** * Buscaminas inteligente: modelo y verificación

    Inmersión superficial de los módulos [Celda], [Tablero],
    [GestorBanderas], [MotorProbabilidad], [GestorMemoria], [Juego] y
    [AnalizadorCeldas].

    Convenciones del modelo:
    - un [number] de JavaScript que el código usa como real es un [float]
      (binary64, las mismas operaciones IEEE que ejecuta el programa);
    - un [number] que el código usa como entero (coordenadas, contadores,
      dígitos) es un [Z], convertido con [JS.num] donde entra en una
      operación real;
    - las celdas son objetos compartidos por referencia: el tablero es el
      almacén y una "referencia a celda" es su coordenada, releída del
      almacén en cada uso;
    - una clave de texto [`${fila},${columna}`] es el par [(fila, columna)]. *)

From Stdlib Require Import ZArith List Bool Lia String Floats Sorted
  Permutation.
From stdpp Require Import base option list gmap.
Import ListNotations.

Set Warnings "-inexact-float".

Local Open Scope Z_scope.

(** ** Números de JavaScript *)

Module JS.

Definition numero := float.

(** Conversión exacta de un entero (|z| < 2^53) a [number]. *)
Definition num (z : Z) : float :=
  if z <? 0 then PrimFloat.opp (PrimFloat.of_uint63 (Uint63.of_Z (- z)))
  else PrimFloat.of_uint63 (Uint63.of_Z z).

(** [a > b], [a < b], [a >= b], [a <= b], [a === b] sobre [number]. *)
Definition mayor (a b : float) : bool := PrimFloat.ltb b a.
Definition menor (a b : float) : bool := PrimFloat.ltb a b.
Definition mayorIgual (a b : float) : bool := PrimFloat.leb b a.
Definition menorIgual (a b : float) : bool := PrimFloat.leb a b.
Definition igual (a b : float) : bool := PrimFloat.eqb a b.

(** [Math.min] y [Math.max] de dos argumentos. *)
Definition min (a b : float) : float :=
  if PrimFloat.is_nan a || PrimFloat.is_nan b then PrimFloat.nan
  else if PrimFloat.ltb a b then a
  else if PrimFloat.ltb b a then b
  else if PrimFloat.get_sign a then a else b.

Definition max (a b : float) : float :=
  if PrimFloat.is_nan a || PrimFloat.is_nan b then PrimFloat.nan
  else if PrimFloat.ltb a b then b
  else if PrimFloat.ltb b a then a
  else if PrimFloat.get_sign a then b else a.

Definition abs (a : float) : float := PrimFloat.abs a.
Definition sqrt (a : float) : float := PrimFloat.sqrt a.

(** Parte entera inferior de [m * 2^e] con signo [s]. *)
Definition sueloZ (s : bool) (m : positive) (e : Z) : Z :=
  let v := if s then Z.neg m else Z.pos m in
  if 0 <=? e then v * 2 ^ e else v / 2 ^ (- e).

(** [Math.floor]. *)
Definition floor (a : float) : float :=
  match Prim2SF a with
  | S754_finite s m e => if 0 <=? e then a else
      let z := sueloZ s m e in
      if (z =? 0) && s then PrimFloat.neg_zero else num z
  | _ => a
  end.

(** [Math.floor] de un valor no negativo, leído como entero. *)
Definition floorZ (a : float) : Z :=
  match Prim2SF a with
  | S754_finite s m e => sueloZ s m e
  | _ => 0
  end.

(** [Math.round]: el entero más cercano, los empates hacia +infinito. *)
Definition round (a : float) : float :=
  match Prim2SF a with
  | S754_finite s m e => if 0 <=? e then a else
      let v := if s then Z.neg m else Z.pos m in
      let z := (2 * v + 2 ^ (- e)) / 2 ^ (- e + 1) in
      if (z =? 0) && s then PrimFloat.neg_zero else num z
  | _ => a
  end.

Definition roundZ (a : float) : Z :=
  match Prim2SF a with
  | S754_finite s m e =>
      let v := if s then Z.neg m else Z.pos m in
      if 0 <=? e then v * 2 ^ e
      else (2 * v + 2 ^ (- e)) / 2 ^ (- e + 1)
  | _ => 0
  end.

End JS.

(** Coordenada de una celda: (fila, columna). *)
Definition Pos : Type := (Z * Z)%type.

Definition mismaPos (a b : Pos) : bool :=
  (fst a =? fst b) && (snd a =? snd b).

(** ** Celda *)

Module Celda.

(** Valor de una celda: [null], [''], un dígito ['0'..'8'] o ['M']. *)
Inductive Valor : Type :=
| Nulo
| Vacia
| Numero (n : Z)
| Mina.

Definition valor_eqb (a b : Valor) : bool :=
  match a, b with
  | Nulo, Nulo | Vacia, Vacia | Mina, Mina => true
  | Numero x, Numero y => x =? y
  | _, _ => false
  end.

Record Calculo : Type := {
  c_probabilidadMina : float;
  c_probabilidadSegura : float;
  c_confianza : float;
  c_origen : string
}.

Record Probabilidades : Type := {
  probabilidadMina : float;
  probabilidadSegura : float;
  confianza : float;
  origen : string;
  calculosAnteriores : list Calculo
}.

Record Restriccion : Type := {
  celdaOrigen : Pos;
  r_valor : Z;
  banderasColocadas : Z;
  minasRestantes : Z;
  celdasAfectadas : list Pos
}.

Record t : Type := {
  fila : Z;
  columna : Z;
  descubierta : bool;
  tieneBandera : bool;
  valor : Valor;
  restricciones : list Restriccion;
  probabilidades : Probabilidades;
  analizada : bool;
  iteracionAnalisis : Z;
  esEsquina : bool;
  esBorde : bool;
  distanciaBorde : Z
}.

Definition pos (c : t) : Pos := (fila c, columna c).

Definition constructor (f c : Z) : t := {|
  fila := f;
  columna := c;
  descubierta := false;
  tieneBandera := false;
  valor := Nulo;
  restricciones := [];
  probabilidades := {|
    probabilidadMina := 0.5%float;
    probabilidadSegura := 0.5%float;
    confianza := 0%float;
    origen := "inicial";
    calculosAnteriores := [] |};
  analizada := false;
  iteracionAnalisis := 0;
  esEsquina := false;
  esBorde := false;
  distanciaBorde := 0
|}.

Definition conProbabilidades (c : t) (p : Probabilidades) : t := {|
  fila := fila c; columna := columna c;
  descubierta := descubierta c; tieneBandera := tieneBandera c;
  valor := valor c; restricciones := restricciones c;
  probabilidades := p;
  analizada := analizada c; iteracionAnalisis := iteracionAnalisis c;
  esEsquina := esEsquina c; esBorde := esBorde c;
  distanciaBorde := distanciaBorde c |}.

Definition conRestricciones (c : t) (rs : list Restriccion) : t := {|
  fila := fila c; columna := columna c;
  descubierta := descubierta c; tieneBandera := tieneBandera c;
  valor := valor c; restricciones := rs;
  probabilidades := probabilidades c;
  analizada := analizada c; iteracionAnalisis := iteracionAnalisis c;
  esEsquina := esEsquina c; esBorde := esBorde c;
  distanciaBorde := distanciaBorde c |}.

Definition conGeometria (c : t) (esq bor : bool) (d : Z) : t := {|
  fila := fila c; columna := columna c;
  descubierta := descubierta c; tieneBandera := tieneBandera c;
  valor := valor c; restricciones := restricciones c;
  probabilidades := probabilidades c;
  analizada := analizada c; iteracionAnalisis := iteracionAnalisis c;
  esEsquina := esq; esBorde := bor; distanciaBorde := d |}.

(** [establecerValor(valor)] *)
Definition establecerValor (c : t) (v : Valor) : t :=
  let p := probabilidades c in
  let esMina := valor_eqb v Mina in {|
  fila := fila c; columna := columna c;
  descubierta := true; tieneBandera := tieneBandera c;
  valor := v; restricciones := restricciones c;
  probabilidades := {|
    probabilidadMina := if esMina then 1%float else 0%float;
    probabilidadSegura := if esMina then 0%float else 1%float;
    confianza := 1%float;
    origen := "revelada";
    calculosAnteriores := calculosAnteriores p |};
  analizada := analizada c; iteracionAnalisis := iteracionAnalisis c;
  esEsquina := esEsquina c; esBorde := esBorde c;
  distanciaBorde := distanciaBorde c |}.

(** [establecerBandera(tieneBandera)] *)
Definition establecerBandera (c : t) (b : bool) : t :=
  let p := probabilidades c in {|
  fila := fila c; columna := columna c;
  descubierta := descubierta c; tieneBandera := b;
  valor := valor c; restricciones := restricciones c;
  probabilidades := {|
    probabilidadMina := if b then 1%float else probabilidadMina p;
    probabilidadSegura := if b then 0%float else probabilidadSegura p;
    confianza := if b then 1%float else confianza p;
    origen := if b then "bandera"%string else origen p;
    calculosAnteriores := calculosAnteriores p |};
  analizada := analizada c; iteracionAnalisis := iteracionAnalisis c;
  esEsquina := esEsquina c; esBorde := esBorde c;
  distanciaBorde := distanciaBorde c |}.

(** [agregarRestriccion(restriccion)]: sin duplicar el origen. *)
Definition agregarRestriccion (c : t) (r : Restriccion) : t :=
  let existeRestriccion :=
    existsb (fun r' => mismaPos (celdaOrigen r') (celdaOrigen r))
            (restricciones c) in
  if negb existeRestriccion then conRestricciones c (restricciones c ++ [r])
  else c.

(** La tabla [jerarquia] de [esOrigenMasConfiable]. *)
Definition jerarquia : list (string * Z) :=
  [ ("revelada", 10); ("bandera", 9); ("analisis100", 8);
    ("restricciones", 7); ("patron", 6); ("subconjunto", 5);
    ("probabilidad", 4); ("memoria", 3); ("estrategia", 2);
    ("inicial", 1) ]%string.

(** [jerarquia] es un objeto literal: además de sus diez propiedades
    propias, [jerarquia[clave]] encuentra las que hereda de
    [Object.prototype]. Son funciones nativas (aquí, la clave y el nombre
    de la función), salvo [__proto__], que devuelve el propio prototipo. *)
Definition heredadas : list (string * string) :=
  [ ("constructor", "Object");
    ("hasOwnProperty", "hasOwnProperty");
    ("isPrototypeOf", "isPrototypeOf");
    ("propertyIsEnumerable", "propertyIsEnumerable");
    ("toLocaleString", "toLocaleString");
    ("toString", "toString");
    ("valueOf", "valueOf");
    ("__defineGetter__", "__defineGetter__");
    ("__defineSetter__", "__defineSetter__");
    ("__lookupGetter__", "__lookupGetter__");
    ("__lookupSetter__", "__lookupSetter__") ]%string.

(** El valor de [jerarquia[origen] || 0]. *)
Inductive Rango : Type :=
| Nivel (n : Z)
| FuncionNativa (nombre : string)
| Prototipo.

Fixpoint buscar {A : Type} (tabla : list (string * A)) (clave : string)
  : option A :=
  match tabla with
  | [] => None
  | (k, v) :: resto => if String.eqb k clave then Some v else buscar resto clave
  end.

(** [jerarquia[o] || 0]: la propiedad propia, si no la heredada, y [0]
    cuando la clave no existe ([undefined || 0]). *)
Definition rango (o : string) : Rango :=
  match buscar jerarquia o with
  | Some n => Nivel n
  | None =>
      match buscar heredadas o with
      | Some nombre => FuncionNativa nombre
      | None => if String.eqb o "__proto__" then Prototipo else Nivel 0
      end
  end.

(** El texto al que [>] convierte un operando que no es número: el de una
    función nativa (lo que sigue al nombre varía entre motores y nunca
    decide una comparación) o [[object Object]]. *)
Definition textoDe (r : Rango) : string :=
  match r with
  | Nivel _ => EmptyString
  | FuncionNativa nombre =>
      String.append "function "
        (String.append nombre "() { [native code] }")
  | Prototipo => "[object Object]"
  end.

(** [a > b]: entre dos números, su orden; entre dos textos, el orden de
    los textos; entre un número y un texto, el texto vale [NaN] y la
    comparación es falsa. *)
Definition mayorQue (a b : Rango) : bool :=
  match a, b with
  | Nivel x, Nivel y => y <? x
  | Nivel _, _ => false
  | _, Nivel _ => false
  | _, _ => String.ltb (textoDe b) (textoDe a)
  end.

Definition esOrigenMasConfiable (origenNuevo origenActual : string) : bool :=
  mayorQue (rango origenNuevo) (rango origenActual).

(** La condición de escritura de [actualizarProbabilidades]. *)
Definition debeActualizar (p : Probabilidades) (conf : float) (o : string)
  : bool :=
  JS.mayor conf (confianza p)
  || (JS.igual conf (confianza p) && esOrigenMasConfiable o (origen p)).

(** Historial tras [push] y, con más de 5 entradas, [shift]. *)
Definition empujarCalculo (h : list Calculo) (x : Calculo) : list Calculo :=
  let h' := h ++ [x] in
  if (5 <? Z.of_nat (length h')) then tail h' else h'.

(** [actualizarProbabilidades(probMina, confianza, origen)] *)
Definition actualizarProbabilidades (c : t) (probMina conf : float)
  (o : string) : t :=
  let p := probabilidades c in
  if debeActualizar p conf o then
    conProbabilidades c {|
      probabilidadMina := probMina;
      probabilidadSegura := (1 - probMina)%float;
      confianza := conf;
      origen := o;
      calculosAnteriores :=
        empujarCalculo (calculosAnteriores p) {|
          c_probabilidadMina := probabilidadMina p;
          c_probabilidadSegura := probabilidadSegura p;
          c_confianza := confianza p;
          c_origen := origen p |} |}
  else c.

(** [tieneValorNumerico()] *)
Definition tieneValorNumerico (c : t) : bool :=
  descubierta c &&
  match valor c with
  | Numero _ => true
  | _ => false
  end.

(** [obtenerValorNumerico()] *)
Definition obtenerValorNumerico (c : t) : option Z :=
  match valor c with
  | Vacia => Some 0
  | Numero n => if (n =? 0) then Some 0
                else if descubierta c then Some n else None
  | _ => None
  end.

(** [es100PorCientoSegura()] y [es100PorCientoMina()] *)
Definition es100PorCientoSegura (c : t) : bool :=
  JS.igual (probabilidadSegura (probabilidades c)) 1
  && JS.igual (confianza (probabilidades c)) 1.

Definition es100PorCientoMina (c : t) : bool :=
  JS.igual (probabilidadMina (probabilidades c)) 1
  && JS.igual (confianza (probabilidades c)) 1.

End Celda.

(** ** Tablero *)

Module Tablero.

(** El campo [valor] de [ultimoCambio]: [null], un valor de celda o el
    booleano de una bandera. *)
Inductive ValorCambio : Type :=
| SinValor
| ValorCelda (v : Celda.Valor)
| ValorBandera (b : bool).

Record Cambio : Type := {
  tipo : string;
  c_fila : option Z;
  c_columna : option Z;
  c_valor : ValorCambio
}.

Record t : Type := {
  filas : Z;
  columnas : Z;
  celdas : list (list Celda.t);
  contadorDescubiertas : Z;
  contadorBanderas : Z;
  restriccionesActualizadas : bool;
  ultimoCambio : Cambio
}.

(** Los índices [0 .. n-1] de un bucle [for]. *)
Definition indices (n : Z) : list Z :=
  map Z.of_nat (seq 0 (Z.to_nat n)).

(** Las posiciones del doble bucle fila/columna, por filas. *)
Definition posiciones (tb : t) : list Pos :=
  flat_map (fun f => map (fun c => (f, c)) (indices (columnas tb)))
           (indices (filas tb)).

Definition cambioInicial : Cambio :=
  {| tipo := "inicial"; c_fila := None; c_columna := None;
     c_valor := SinValor |}.

(** [marcarCeldasEspeciales(tablero)] *)
Definition marcarCeldasEspeciales (nf nc : Z) (tablero : list (list Celda.t))
  : list (list Celda.t) :=
  map (map (fun celda =>
    let fila := Celda.fila celda in
    let columna := Celda.columna celda in
    Celda.conGeometria celda
      (((fila =? 0) || (fila =? nf - 1))
       && ((columna =? 0) || (columna =? nc - 1)))
      ((fila =? 0) || (fila =? nf - 1)
       || (columna =? 0) || (columna =? nc - 1))
      (Z.min (Z.min fila (nf - 1 - fila))
             (Z.min columna (nc - 1 - columna)))))
    tablero.

(** [inicializarTablero()] *)
Definition inicializarTablero (nf nc : Z) : list (list Celda.t) :=
  marcarCeldasEspeciales nf nc
    (map (fun fila => map (fun columna => Celda.constructor fila columna)
                          (indices nc))
         (indices nf)).

Definition constructor (nf nc : Z) : t := {|
  filas := nf;
  columnas := nc;
  celdas := inicializarTablero nf nc;
  contadorDescubiertas := 0;
  contadorBanderas := 0;
  restriccionesActualizadas := false;
  ultimoCambio := cambioInicial
|}.

(** [reiniciar()] *)
Definition reiniciar (tb : t) : t := constructor (filas tb) (columnas tb).

(** [esPosicionValida(fila, columna)] *)
Definition esPosicionValida (tb : t) (fila columna : Z) : bool :=
  (0 <=? fila) && (fila <? filas tb) && (0 <=? columna)
  && (columna <? columnas tb).

(** [obtenerCelda(fila, columna)]: [None] es el [null] que devuelve el
    código para una posición fuera de los límites. *)
Definition obtenerCelda (tb : t) (fila columna : Z) : option Celda.t :=
  if esPosicionValida tb fila columna then
    match celdas tb !! Z.to_nat fila with
    | Some filaCeldas => filaCeldas !! Z.to_nat columna
    | None => None
    end
  else None.

Definition conCeldas (tb : t) (cs : list (list Celda.t)) : t := {|
  filas := filas tb; columnas := columnas tb; celdas := cs;
  contadorDescubiertas := contadorDescubiertas tb;
  contadorBanderas := contadorBanderas tb;
  restriccionesActualizadas := restriccionesActualizadas tb;
  ultimoCambio := ultimoCambio tb |}.

(** Mutación de un objeto celda alcanzado por referencia: la celda de la
    posición [p] pasa a ser [g celda]. *)
Definition modificarCelda (tb : t) (p : Pos) (g : Celda.t -> Celda.t) : t :=
  conCeldas tb
    (alter (alter g (Z.to_nat (snd p))) (Z.to_nat (fst p)) (celdas tb)).

(** [establecerValorCelda(fila, columna, valor)] *)
Definition establecerValorCelda (tb : t) (fila columna : Z)
  (valor : Celda.Valor) : t * bool :=
  match obtenerCelda tb fila columna with
  | Some celda =>
      if negb (Celda.descubierta celda) then
        let t1 := modificarCelda tb (fila, columna)
                    (fun c => Celda.establecerValor c valor) in
        ({| filas := filas t1; columnas := columnas t1;
            celdas := celdas t1;
            contadorDescubiertas := contadorDescubiertas t1 + 1;
            contadorBanderas := contadorBanderas t1;
            restriccionesActualizadas := false;
            ultimoCambio := {| tipo := "descubierta";
                               c_fila := Some fila;
                               c_columna := Some columna;
                               c_valor := ValorCelda valor |} |}, true)
      else (tb, false)
  | None => (tb, false)
  end.

(** [establecerBandera(fila, columna, tieneBandera)] *)
Definition establecerBandera (tb : t) (fila columna : Z)
  (tieneBandera : bool) : t * bool :=
  match obtenerCelda tb fila columna with
  | Some celda =>
      if negb (Celda.descubierta celda) then
        if negb (Bool.eqb (Celda.tieneBandera celda) tieneBandera) then
          let t1 := modificarCelda tb (fila, columna)
                      (fun c => Celda.establecerBandera c tieneBandera) in
          ({| filas := filas t1; columnas := columnas t1;
              celdas := celdas t1;
              contadorDescubiertas := contadorDescubiertas t1;
              contadorBanderas :=
                contadorBanderas t1 + (if tieneBandera then 1 else -1);
              restriccionesActualizadas := false;
              ultimoCambio := {| tipo := "bandera";
                                 c_fila := Some fila;
                                 c_columna := Some columna;
                                 c_valor := ValorBandera tieneBandera |} |},
           true)
        else (tb, false)
      else (tb, false)
  | None => (tb, false)
  end.

(** Los desplazamientos del doble bucle [i, j = -1..1], sin el (0,0). *)
Definition desplazamientos : list (Z * Z) :=
  [(-1, -1); (-1, 0); (-1, 1); (0, -1); (0, 1); (1, -1); (1, 0); (1, 1)].

(** [obtenerCeldasAdyacentes(fila, columna)] *)
Definition obtenerCeldasAdyacentes (tb : t) (fila columna : Z)
  : list Celda.t :=
  omap (fun d => obtenerCelda tb (fila + fst d) (columna + snd d))
       desplazamientos.

(** Todas las celdas, en el orden del doble bucle. *)
Definition todas (tb : t) : list Celda.t :=
  omap (fun p => obtenerCelda tb (fst p) (snd p)) (posiciones tb).

Definition contar {A} (f : A -> bool) (l : list A) : Z :=
  Z.of_nat (length (filter (fun x => f x = true) l)).

(** Cuerpo del bucle de [actualizarRestricciones] para una celda numérica. *)
Definition restringirDesde (tb : t) (p : Pos) : t :=
  match obtenerCelda tb (fst p) (snd p) with
  | Some celda =>
      if Celda.tieneValorNumerico celda then
        match Celda.obtenerValorNumerico celda with
        | Some valor =>
            let celdasAdyacentes :=
              obtenerCeldasAdyacentes tb (fst p) (snd p) in
            let celdasSinRevolar :=
              List.filter (fun c => negb (Celda.descubierta c))
                          celdasAdyacentes in
            if 0 <? Z.of_nat (length celdasSinRevolar) then
              let banderasColocadas :=
                Z.of_nat (length (List.filter Celda.tieneBandera
                                              celdasAdyacentes)) in
              let restriccion := {|
                Celda.celdaOrigen := p;
                Celda.r_valor := valor;
                Celda.banderasColocadas := banderasColocadas;
                Celda.minasRestantes := valor - banderasColocadas;
                Celda.celdasAfectadas := map Celda.pos celdasSinRevolar |} in
              fold_left (fun tb' celdaAfectada =>
                           modificarCelda tb' (Celda.pos celdaAfectada)
                             (fun c => Celda.agregarRestriccion c restriccion))
                        celdasSinRevolar tb
            else tb
        | None => tb
        end
      else tb
  | None => tb
  end.

Definition conActualizadas (tb : t) (b : bool) : t := {|
  filas := filas tb; columnas := columnas tb; celdas := celdas tb;
  contadorDescubiertas := contadorDescubiertas tb;
  contadorBanderas := contadorBanderas tb;
  restriccionesActualizadas := b;
  ultimoCambio := ultimoCambio tb |}.

(** [actualizarRestricciones()] *)
Definition actualizarRestricciones (tb : t) : t :=
  if restriccionesActualizadas tb then tb
  else
    let limpio :=
      conCeldas tb (map (map (fun c => Celda.conRestricciones c []))
                       (celdas tb)) in
    conActualizadas (fold_left restringirDesde (posiciones tb) limpio) true.

(** Consultas globales. *)
Definition obtenerCeldasSinRevolar (tb : t) : list Celda.t :=
  List.filter (fun c => negb (Celda.descubierta c)) (todas tb).

Definition obtenerCeldasConBandera (tb : t) : list Celda.t :=
  List.filter Celda.tieneBandera (todas tb).

Definition obtenerCeldasReveladas (tb : t) : list Celda.t :=
  List.filter Celda.descubierta (todas tb).

Definition obtenerCeldasNumericas (tb : t) : list Celda.t :=
  List.filter Celda.tieneValorNumerico (todas tb).

Definition obtenerCeldasConCertezaDeMina (tb : t) : list Celda.t :=
  List.filter (fun c => negb (Celda.descubierta c)
                        && negb (Celda.tieneBandera c)
                        && Celda.es100PorCientoMina c) (todas tb).

Definition obtenerCeldasConCertezaDeSeguridad (tb : t) : list Celda.t :=
  List.filter (fun c => negb (Celda.descubierta c)
                        && negb (Celda.tieneBandera c)
                        && Celda.es100PorCientoSegura c) (todas tb).

(** [obtenerEstadoParaMemoria()] *)
Record EstadoParaMemoria : Type := {
  e_filas : Z;
  e_columnas : Z;
  e_contadorDescubiertas : Z;
  e_contadorBanderas : Z;
  e_celdasReveladas : list (Z * Z * Celda.Valor);
  e_celdasConBandera : list Pos;
  e_timestamp : Z
}.

Definition obtenerEstadoParaMemoria (tb : t) (ahora : Z)
  : EstadoParaMemoria := {|
  e_filas := filas tb;
  e_columnas := columnas tb;
  e_contadorDescubiertas := contadorDescubiertas tb;
  e_contadorBanderas := contadorBanderas tb;
  e_celdasReveladas :=
    map (fun c => (Celda.fila c, Celda.columna c, Celda.valor c))
        (List.filter Celda.descubierta (todas tb));
  e_celdasConBandera :=
    map Celda.pos
        (List.filter (fun c => negb (Celda.descubierta c)
                               && Celda.tieneBandera c) (todas tb));
  e_timestamp := ahora |}.

End Tablero.

(** ** Resultado de una llamada que puede lanzar una excepción *)

Inductive Resultado (A : Type) : Type :=
| Devuelve (a : A)
| LanzaTypeError
| SinCombustible.

Arguments Devuelve {A} a.
Arguments LanzaTypeError {A}.
Arguments SinCombustible {A}.

#[global] Instance resultado_ret : MRet Resultado := fun _ a => Devuelve a.

#[global] Instance resultado_bind : MBind Resultado := fun _ _ k r =>
  match r with
  | Devuelve a => k a
  | LanzaTypeError => LanzaTypeError
  | SinCombustible => SinCombustible
  end.

(** [forEach] con un cuerpo que puede lanzar. *)
Fixpoint plegarR {A S} (f : S -> A -> Resultado S) (l : list A) (s : S)
  : Resultado S :=
  match l with
  | [] => Devuelve s
  | x :: resto => s' ← f s x; plegarR f resto s'
  end.

(** [null] leído como número en una resta. *)
Definition numeroDe (o : option Z) : Z := default 0 o.

(** Los índices [a .. b-1] de un bucle [for]. *)
Definition desdeHasta (a b : nat) : list nat := seq a (b - a).

Definition enumerar {A} (l : list A) : list (nat * A) :=
  combine (seq 0 (length l)) l.

Definition largo {A} (l : list A) : Z := Z.of_nat (length l).

(** ** Matrices de [number] como arrays de arrays *)

Definition Matriz : Type := list (list float).

(** [matriz[i][j]]; fuera del rango es [undefined], que toda operación
    numérica lee como [NaN]. *)
Definition leer (a : Matriz) (i j : nat) : float :=
  match a !! i with
  | Some fila => default PrimFloat.nan (fila !! j)
  | None => PrimFloat.nan
  end.

Definition escribir (a : Matriz) (i j : nat) (x : float) : Matriz :=
  alter (fun fila => <[j := x]> fila) i a.

(** Intercambio de las filas [i] y [k]. *)
Definition intercambiar (a : Matriz) (i k : nat) : Matriz :=
  match a !! i, a !! k with
  | Some fi, Some fk => <[k := fi]> (<[i := fk]> a)
  | _, _ => a
  end.

(** [soluciones[i] = x] sobre un array de JavaScript: crece si [i] está
    más allá del final. *)
Definition asignar (l : list float) (i : nat) (x : float) : list float :=
  if (i <? length l)%nat then <[i := x]> l
  else l ++ replicate (i - length l) PrimFloat.nan ++ [x].

Definition epsilon : float := 1e-10%float.

(** ** GestorBanderas *)

Module GestorBanderas.

(** El texto [origen] de una bandera, con las coordenadas que interpola. *)
Inductive OrigenBandera : Type :=
| AnalisisBasico (p : Pos)
| AnalisisSubconjunto (p q : Pos)
| AnalisisInterseccion (p q : Pos)
| Patron121 (p : Pos)
| Patron11Esquina (p q : Pos)
| PatronBorde (p : Pos)
| SistemaEcuaciones.

Record Bandera : Type := {
  b_fila : Z;
  b_columna : Z;
  b_origen : OrigenBandera;
  iteracion : Z
}.

Record t : Type := {
  tablero : Tablero.t;
  banderasColocadas : list Bandera;
  ultimaIteracion : Z
}.

Definition constructor (tb : Tablero.t) : t :=
  {| tablero := tb; banderasColocadas := []; ultimaIteracion := 0 |}.

Definition conTablero (g : t) (tb : Tablero.t) : t :=
  {| tablero := tb; banderasColocadas := banderasColocadas g;
     ultimaIteracion := ultimaIteracion g |}.

Definition conBanderas (g : t) (bs : list Bandera) : t :=
  {| tablero := tablero g; banderasColocadas := bs;
     ultimaIteracion := ultimaIteracion g |}.

(** [banderasColocadas.some(b => b.fila === c.fila && b.columna === c.columna)] *)
Definition enLista (bs : list Bandera) (c : Celda.t) : bool :=
  existsb (fun b => (b_fila b =? Celda.fila c)
                    && (b_columna b =? Celda.columna c)) bs.

(** [conjunto.some(x => x.fila === c.fila && x.columna === c.columna)] *)
Definition contiene (conjunto : list Celda.t) (c : Celda.t) : bool :=
  existsb (fun x => mismaPos (Celda.pos x) (Celda.pos c)) conjunto.

Definition sinRevelar (l : list Celda.t) : list Celda.t :=
  List.filter (fun c => negb (Celda.descubierta c)) l.

Definition sinRevelarSinBandera (l : list Celda.t) : list Celda.t :=
  List.filter (fun c => negb (Celda.descubierta c)
                        && negb (Celda.tieneBandera c)) l.

Definition conBandera (l : list Celda.t) : list Celda.t :=
  List.filter Celda.tieneBandera l.

(** [marcarParaBandera(celda, origen)] *)
Definition marcarParaBandera (g : t) (celda : Celda.t)
  (o : OrigenBandera) : t :=
  conBanderas g (banderasColocadas g ++
    [{| b_fila := Celda.fila celda; b_columna := Celda.columna celda;
        b_origen := o; iteracion := ultimaIteracion g |}]).

(** El recuento de banderas de una restricción en
    [esSeguroColocarBandera]: las ya puestas o las ya anotadas. *)
Definition banderasEnTorno (g : t) (origen : Pos) : Z :=
  largo (List.filter
           (fun c => Celda.tieneBandera c || enLista (banderasColocadas g) c)
           (Tablero.obtenerCeldasAdyacentes (tablero g)
              (fst origen) (snd origen))).

(** [esSeguroColocarBandera(celda, origen)] *)
Definition esSeguroColocarBandera (g : t) (celda : Celda.t) : bool :=
  if Celda.tieneBandera celda || Celda.descubierta celda then false
  else
    let celdasAdyacentes :=
      Tablero.obtenerCeldasAdyacentes (tablero g)
        (Celda.fila celda) (Celda.columna celda) in
    if existsb (fun adyacente =>
                  Celda.descubierta adyacente
                  && (Celda.valor_eqb (Celda.valor adyacente) Celda.Vacia
                      || Celda.valor_eqb (Celda.valor adyacente)
                                         (Celda.Numero 0)
                      || match Celda.obtenerValorNumerico adyacente with
                         | Some v => v =? 0
                         | None => false
                         end))
               celdasAdyacentes
    then false
    else
      forallb (fun restriccion =>
        match Tablero.obtenerCelda (tablero g)
                (fst (Celda.celdaOrigen restriccion))
                (snd (Celda.celdaOrigen restriccion)) with
        | Some celdaRestriccion =>
            if Celda.tieneValorNumerico celdaRestriccion then
              let valor :=
                numeroDe (Celda.obtenerValorNumerico celdaRestriccion) in
              negb (valor <=? banderasEnTorno g (Celda.celdaOrigen restriccion))
            else true
        | None => true
        end) (Celda.restricciones celda).

(** El bloque que repiten todos los análisis:
    [if (esSeguroColocarBandera(celda)) { celda.actualizarProbabilidades(1, 1, fuente); marcarParaBandera(celda, origen) }] *)
Definition marcarSiEsSeguro (g : t) (celda : Celda.t) (fuente : string)
  (o : OrigenBandera) : t :=
  if esSeguroColocarBandera g celda then
    marcarParaBandera
      (conTablero g
         (Tablero.modificarCelda (tablero g) (Celda.pos celda)
            (fun c => Celda.actualizarProbabilidades c 1 1 fuente)))
      celda o
  else g.

(** [analizarRestriccionesBasicas()] *)
Definition analizarRestriccionesBasicas (g : t) : t :=
  let celdasNumericas := Tablero.obtenerCeldasNumericas (tablero g) in
  fold_left (fun g celdaNumerica =>
    let valor := numeroDe (Celda.obtenerValorNumerico celdaNumerica) in
    let celdasAdyacentes :=
      Tablero.obtenerCeldasAdyacentes (tablero g)
        (Celda.fila celdaNumerica) (Celda.columna celdaNumerica) in
    let celdasSinRevolarSinBandera :=
      sinRevelarSinBandera celdasAdyacentes in
    let banderas := largo (conBandera celdasAdyacentes) in
    let minasFaltantes := valor - banderas in
    if (largo celdasSinRevolarSinBandera =? minasFaltantes)
       && (0 <? minasFaltantes)
    then
      fold_left (fun g celda =>
                   marcarSiEsSeguro g celda "analisis100"
                     (AnalisisBasico (Celda.pos celdaNumerica)))
                celdasSinRevolarSinBandera g
    else g) celdasNumericas g.

(** [esSubconjunto(conjuntoA, conjuntoB)] *)
Definition esSubconjunto (conjuntoA conjuntoB : list Celda.t) : bool :=
  if largo conjuntoB <? largo conjuntoA then false
  else forallb (fun celdaA => contiene conjuntoB celdaA) conjuntoA.

(** [aplicarAnalisisSubconjunto(...)] *)
Definition aplicarAnalisisSubconjunto (g : t)
  (celdaSubconjunto celdaSuperconjunto : Celda.t)
  (adyacentesSubconjunto adyacentesSuperconjunto : list Celda.t) : t :=
  let banderasSubconjunto := largo (conBandera adyacentesSubconjunto) in
  let banderasSuperconjunto := largo (conBandera adyacentesSuperconjunto) in
  let valorSubconjunto :=
    numeroDe (Celda.obtenerValorNumerico celdaSubconjunto) in
  let valorSuperconjunto :=
    numeroDe (Celda.obtenerValorNumerico celdaSuperconjunto) in
  let minasFaltantesSubconjunto := valorSubconjunto - banderasSubconjunto in
  let minasFaltantesSuperconjunto :=
    valorSuperconjunto - banderasSuperconjunto in
  let celdasDiferencia :=
    List.filter (fun celdaSuper =>
                   negb (contiene adyacentesSubconjunto celdaSuper))
                adyacentesSuperconjunto in
  let minasDiferencia :=
    minasFaltantesSuperconjunto - minasFaltantesSubconjunto in
  if (largo celdasDiferencia =? minasDiferencia) && (0 <? minasDiferencia)
  then
    fold_left (fun g celda =>
      if negb (Celda.tieneBandera celda) && negb (Celda.descubierta celda)
      then marcarSiEsSeguro g celda "analisis100"
             (AnalisisSubconjunto (Celda.pos celdaSubconjunto)
                                  (Celda.pos celdaSuperconjunto))
      else g) celdasDiferencia g
  else g.

(** [celda.actualizarProbabilidades(0, 1, 'analisis100')] sobre las celdas
    exclusivas sin revelar y sin bandera. *)
Definition declararSeguras (g : t) (celdas : list Celda.t) : t :=
  fold_left (fun g celda =>
    if negb (Celda.descubierta celda) && negb (Celda.tieneBandera celda)
    then conTablero g
           (Tablero.modificarCelda (tablero g) (Celda.pos celda)
              (fun c => Celda.actualizarProbabilidades c 0 1 "analisis100"))
    else g) celdas g.

(** [analizarInterseccionParcial(celdaA, celdaB, adyacentesA, adyacentesB)] *)
Definition analizarInterseccionParcial (g : t) (celdaA celdaB : Celda.t)
  (adyacentesA adyacentesB : list Celda.t) : t :=
  let celdasInterseccion :=
    List.filter (fun a => contiene adyacentesB a) adyacentesA in
  if (0 <? largo celdasInterseccion)
     && (largo celdasInterseccion <? largo adyacentesA)
     && (largo celdasInterseccion <? largo adyacentesB)
  then
    let banderasA := largo (conBandera adyacentesA) in
    let banderasB := largo (conBandera adyacentesB) in
    let banderasInterseccion := largo (conBandera celdasInterseccion) in
    let valorA := numeroDe (Celda.obtenerValorNumerico celdaA) in
    let valorB := numeroDe (Celda.obtenerValorNumerico celdaB) in
    let minasFaltantesA := valorA - banderasA in
    let minasFaltantesB := valorB - banderasB in
    let celdasSoloA :=
      List.filter (fun a => negb (contiene celdasInterseccion a))
                  adyacentesA in
    let celdasSoloB :=
      List.filter (fun b => negb (contiene celdasInterseccion b))
                  adyacentesB in
    let g1 :=
      if (minasFaltantesA <=? largo celdasInterseccion - banderasInterseccion)
         && (0 <? largo celdasSoloA)
      then declararSeguras g celdasSoloA else g in
    let g2 :=
      if (minasFaltantesB <=? largo celdasInterseccion - banderasInterseccion)
         && (0 <? largo celdasSoloB)
      then declararSeguras g1 celdasSoloB else g1 in
    let minasMaxInterseccion := Z.min minasFaltantesA minasFaltantesB in
    let minasMinA := Z.max 0 (minasFaltantesA - largo celdasSoloA) in
    let minasMinB := Z.max 0 (minasFaltantesB - largo celdasSoloB) in
    let minasMinInterseccion := Z.max minasMinA minasMinB in
    if (minasMinInterseccion =? minasMaxInterseccion)
       && (minasMinInterseccion
           =? largo celdasInterseccion - banderasInterseccion)
    then
      fold_left (fun g celda =>
        if negb (Celda.descubierta celda) && negb (Celda.tieneBandera celda)
        then marcarSiEsSeguro g celda "analisis100"
               (AnalisisInterseccion (Celda.pos celdaA) (Celda.pos celdaB))
        else g) celdasInterseccion g2
    else g2
  else g.

(** [analizarSubconjuntos()] *)
Definition analizarSubconjuntos (g : t) : t :=
  let celdasNumericas := Tablero.obtenerCeldasNumericas (tablero g) in
  fold_left (fun g '(i, celdaA) =>
    fold_left (fun g '(j, celdaB) =>
      if Nat.eqb i j then g
      else
        let adyacentesA :=
          sinRevelar (Tablero.obtenerCeldasAdyacentes (tablero g)
                        (Celda.fila celdaA) (Celda.columna celdaA)) in
        let adyacentesB :=
          sinRevelar (Tablero.obtenerCeldasAdyacentes (tablero g)
                        (Celda.fila celdaB) (Celda.columna celdaB)) in
        let g1 :=
          if esSubconjunto adyacentesA adyacentesB then
            aplicarAnalisisSubconjunto g celdaA celdaB adyacentesA adyacentesB
          else if esSubconjunto adyacentesB adyacentesA then
            aplicarAnalisisSubconjunto g celdaB celdaA adyacentesB adyacentesA
          else g in
        analizarInterseccionParcial g1 celdaA celdaB adyacentesA adyacentesB)
      (enumerar celdasNumericas) g)
    (enumerar celdasNumericas) g.

(** [buscarPatron121()]. En un tablero rectangular las tres celdas
    existen siempre que pasan la comprobación de espacio. *)
Definition buscarPatron121 (g : t) : t :=
  let direcciones : list (Z * Z) := [(1, 0); (0, 1)] in
  fold_left (fun g '(fila, columna) =>
    fold_left (fun g '(dx, dy) =>
      if (fila + 2 * dy <? Tablero.filas (tablero g))
         && (columna + 2 * dx <? Tablero.columnas (tablero g))
      then
        match Tablero.obtenerCelda (tablero g) fila columna,
              Tablero.obtenerCelda (tablero g) (fila + dy) (columna + dx),
              Tablero.obtenerCelda (tablero g)
                (fila + 2 * dy) (columna + 2 * dx) with
        | Some celda1, Some celda2, Some celda3 =>
            if Celda.tieneValorNumerico celda1
               && bool_decide (Celda.obtenerValorNumerico celda1 = Some 1)
               && Celda.tieneValorNumerico celda2
               && bool_decide (Celda.obtenerValorNumerico celda2 = Some 2)
               && Celda.tieneValorNumerico celda3
               && bool_decide (Celda.obtenerValorNumerico celda3 = Some 1)
            then
              let adyacentes1 :=
                Tablero.obtenerCeldasAdyacentes (tablero g)
                  (Celda.fila celda1) (Celda.columna celda1) in
              let adyacentes2 :=
                Tablero.obtenerCeldasAdyacentes (tablero g)
                  (Celda.fila celda2) (Celda.columna celda2) in
              let adyacentes3 :=
                Tablero.obtenerCeldasAdyacentes (tablero g)
                  (Celda.fila celda3) (Celda.columna celda3) in
              let celdasSoloDel2 :=
                List.filter (fun celda =>
                               negb (contiene adyacentes1 celda)
                               && negb (contiene adyacentes3 celda)
                               && negb (Celda.descubierta celda))
                            adyacentes2 in
              if largo celdasSoloDel2 =? 2 then
                fold_left (fun g celda =>
                  if negb (Celda.tieneBandera celda) then
                    marcarSiEsSeguro g celda "patron"
                      (Patron121 (Celda.pos celda2))
                  else g) celdasSoloDel2 g
              else g
            else g
        | _, _, _ => g
        end
      else g) direcciones g)
    (Tablero.posiciones (tablero g)) g.

(** [buscarPatron11Esquina()] *)
Definition buscarPatron11Esquina (g : t) : t :=
  let esquinas : list (Z * Z * Z * Z) :=
    [(0, -1, -1, 0); (0, -1, 1, 0); (0, 1, -1, 0); (0, 1, 1, 0)] in
  fold_left (fun g '(fila, columna) =>
    fold_left (fun g '(dx1, dy1, dx2, dy2) =>
      let nf := Tablero.filas (tablero g) in
      let nc := Tablero.columnas (tablero g) in
      if (0 <=? fila + dy1) && (fila + dy1 <? nf)
         && (0 <=? columna + dx1) && (columna + dx1 <? nc)
         && (0 <=? fila + dy2) && (fila + dy2 <? nf)
         && (0 <=? columna + dx2) && (columna + dx2 <? nc)
      then
        match Tablero.obtenerCelda (tablero g) fila columna,
              Tablero.obtenerCelda (tablero g) (fila + dy1) (columna + dx1),
              Tablero.obtenerCelda (tablero g) (fila + dy2) (columna + dx2)
        with
        | Some celdaCentral, Some celda1, Some celda2 =>
            if Celda.tieneValorNumerico celda1
               && bool_decide (Celda.obtenerValorNumerico celda1 = Some 1)
               && Celda.tieneValorNumerico celda2
               && bool_decide (Celda.obtenerValorNumerico celda2 = Some 1)
               && negb (Celda.descubierta celdaCentral)
               && negb (Celda.tieneBandera celdaCentral)
            then
              let adyacentes1 :=
                sinRevelarSinBandera
                  (Tablero.obtenerCeldasAdyacentes (tablero g)
                     (Celda.fila celda1) (Celda.columna celda1)) in
              let adyacentes2 :=
                sinRevelarSinBandera
                  (Tablero.obtenerCeldasAdyacentes (tablero g)
                     (Celda.fila celda2) (Celda.columna celda2)) in
              match adyacentes1, adyacentes2 with
              | [a1], [a2] =>
                  if mismaPos (Celda.pos a1) (Celda.pos celdaCentral)
                     && mismaPos (Celda.pos a2) (Celda.pos celdaCentral)
                  then marcarSiEsSeguro g celdaCentral "patron"
                         (Patron11Esquina (Celda.pos celda1)
                                          (Celda.pos celda2))
                  else g
              | _, _ => g
              end
            else g
        | _, _, _ => g
        end
      else g) esquinas g)
    (Tablero.posiciones (tablero g)) g.

(** [buscarPatronBorde()] *)
Definition buscarPatronBorde (g : t) : t :=
  fold_left (fun g '(fila, columna) =>
    match Tablero.obtenerCelda (tablero g) fila columna with
    | Some celda =>
        if Celda.esBorde celda && Celda.tieneValorNumerico celda
           && bool_decide (Celda.obtenerValorNumerico celda = Some 1)
        then
          match sinRevelarSinBandera
                  (Tablero.obtenerCeldasAdyacentes (tablero g) fila columna)
          with
          | [celdaMina] =>
              marcarSiEsSeguro g celdaMina "patron"
                (PatronBorde (Celda.pos celda))
          | _ => g
          end
        else g
    | None => g
    end) (Tablero.posiciones (tablero g)) g.

(** [analizarPatrones()] *)
Definition analizarPatrones (g : t) : t :=
  buscarPatronBorde (buscarPatron11Esquina (buscarPatron121 g)).

(** Una restricción de un grupo: [{ celda, valor }]. *)
Record RestriccionGrupo : Type := {
  rg_celda : Celda.t;
  rg_valor : option Z
}.

Record Grupo : Type := {
  g_restricciones : list RestriccionGrupo;
  g_celdas : list Celda.t
}.

(** [mapaCeldas]: por cada celda sin revelar, las celdas numéricas que la
    restringen, en orden de inserción. *)
Definition construirMapaCeldas (tb : Tablero.t)
  (celdasNumericas : list Celda.t) : gmap Pos (list Celda.t) :=
  fold_left (fun mapa celdaNumerica =>
    let adyacentes :=
      sinRevelar (Tablero.obtenerCeldasAdyacentes tb
                    (Celda.fila celdaNumerica)
                    (Celda.columna celdaNumerica)) in
    if 0 <? largo adyacentes then
      fold_left (fun (mapa : gmap Pos (list Celda.t)) celda =>
                   <[Celda.pos celda :=
                       default [] (mapa !! Celda.pos celda)
                       ++ [celdaNumerica]]> mapa)
                adyacentes mapa
    else mapa) celdasNumericas ∅.

(** Estado del bucle [while] de [obtenerGrupoConectado]. *)
Record EstadoGrupo : Type := {
  cola : list Celda.t;
  procesadas : gset Pos;
  celdasEnGrupo : gset Pos;
  grupo : Grupo
}.

(** Una vuelta del bucle para una restricción aún no procesada. *)
Definition expandirRestriccion (tb : Tablero.t)
  (mapaCeldas : gmap Pos (list Celda.t)) (celdaRestriccion : Celda.t)
  (e : EstadoGrupo) : EstadoGrupo :=
  let procesadas' := {[ Celda.pos celdaRestriccion ]} ∪ procesadas e in
  let restricciones' :=
    g_restricciones (grupo e)
    ++ [{| rg_celda := celdaRestriccion;
           rg_valor := Celda.obtenerValorNumerico celdaRestriccion |}] in
  let adyacentes :=
    sinRevelar (Tablero.obtenerCeldasAdyacentes tb
                  (Celda.fila celdaRestriccion)
                  (Celda.columna celdaRestriccion)) in
  fold_left (fun e celda =>
    let claveCelda := Celda.pos celda in
    if bool_decide (claveCelda ∈ celdasEnGrupo e) then e
    else {|
      cola :=
        cola e ++
        List.filter (fun r => negb (bool_decide (Celda.pos r ∈ procesadas e)))
                    (default [] (mapaCeldas !! claveCelda));
      procesadas := procesadas e;
      celdasEnGrupo := {[ claveCelda ]} ∪ celdasEnGrupo e;
      grupo := {| g_restricciones := g_restricciones (grupo e);
                  g_celdas := g_celdas (grupo e) ++ [celda] |} |})
    adyacentes
    {| cola := cola e; procesadas := procesadas';
       celdasEnGrupo := celdasEnGrupo e;
       grupo := {| g_restricciones := restricciones';
                   g_celdas := g_celdas (grupo e) |} |}.

(** El bucle [while (colaRestricciones.length > 0)]. *)
Fixpoint bucleGrupo (combustible : nat) (tb : Tablero.t)
  (mapaCeldas : gmap Pos (list Celda.t)) (e : EstadoGrupo)
  : Resultado EstadoGrupo :=
  match cola e with
  | [] => Devuelve e
  | celdaRestriccion :: resto =>
      match combustible with
      | O => SinCombustible
      | S combustible' =>
          let e' := {| cola := resto; procesadas := procesadas e;
                       celdasEnGrupo := celdasEnGrupo e;
                       grupo := grupo e |} in
          if bool_decide (Celda.pos celdaRestriccion ∈ procesadas e)
          then bucleGrupo combustible' tb mapaCeldas e'
          else bucleGrupo combustible' tb mapaCeldas
                 (expandirRestriccion tb mapaCeldas celdaRestriccion e')
      end
  end.

(** Cota de vueltas del bucle: cada celda entra una vez en el grupo y
    encola a lo sumo sus ocho restricciones. *)
Definition combustibleGrupo (tb : Tablero.t) : nat :=
  S (8 * length (Tablero.todas tb)).

(** [obtenerGrupoConectado(celdaInicio, mapaCeldas, restriccionesProcesadas)] *)
Definition obtenerGrupoConectado (tb : Tablero.t) (celdaInicio : Celda.t)
  (mapaCeldas : gmap Pos (list Celda.t)) (restriccionesProcesadas : gset Pos)
  : Resultado (Grupo * gset Pos) :=
  e ← bucleGrupo (combustibleGrupo tb) tb mapaCeldas
        {| cola := [celdaInicio]; procesadas := restriccionesProcesadas;
           celdasEnGrupo := ∅;
           grupo := {| g_restricciones := []; g_celdas := [] |} |};
  mret (grupo e, procesadas e).

(** [agruparRestriccionesPorCeldasComunes()] *)
Definition agruparRestriccionesPorCeldasComunes (g : t)
  : Resultado (list Grupo) :=
  let celdasNumericas := Tablero.obtenerCeldasNumericas (tablero g) in
  let mapaCeldas := construirMapaCeldas (tablero g) celdasNumericas in
  r ← plegarR (fun '(grupos, restriccionesProcesadas) celdaNumerica =>
         if bool_decide (Celda.pos celdaNumerica ∈ restriccionesProcesadas)
         then mret (grupos, restriccionesProcesadas)
         else
           '(grupo, procesadas') ←
             obtenerGrupoConectado (tablero g) celdaNumerica mapaCeldas
                                   restriccionesProcesadas;
           if 2 <=? largo (g_restricciones grupo)
           then mret (grupos ++ [grupo], procesadas')
           else mret (grupos, procesadas'))
       celdasNumericas ([], (∅ : gset Pos));
  mret (fst r).

(** *** Eliminación gaussiana *)

(** Una vuelta de la eliminación hacia adelante, para la columna [i]. *)
Definition pasoEliminacion (n m : nat) (a : Matriz) (i : nat) : Matriz :=
  let maxFila :=
    fold_left (fun maxFila j =>
                 if JS.mayor (JS.abs (leer a j i)) (JS.abs (leer a maxFila i))
                 then j else maxFila)
              (desdeHasta (i + 1) n) i in
  let a1 := if negb (Nat.eqb maxFila i) then intercambiar a i maxFila
            else a in
  if JS.menor (JS.abs (leer a1 i i)) epsilon then a1
  else
    let pivote := leer a1 i i in
    let a2 :=
      fold_left (fun a j => escribir a i j (leer a i j / pivote)%float)
                (desdeHasta i (m + 1)) a1 in
    fold_left (fun a j =>
      if negb (Nat.eqb j i) then
        let factor := leer a j i in
        fold_left (fun a k =>
                     escribir a j k
                       (leer a j k - factor * leer a i k)%float)
                  (desdeHasta i (m + 1)) a
      else a) (desdeHasta 0 n) a2.

(** [eliminarGaussiana(matriz, vector)]; [None] es [null]. *)
Definition eliminarGaussiana (matriz : Matriz) (vector : list float)
  : option (list float) :=
  let n := length matriz in
  let m := length (default [] (matriz !! 0%nat)) in
  if (n <? m)%nat then None
  else
    let matrizAumentada :=
      map (fun '(i, fila) => fila ++ [default PrimFloat.nan (vector !! i)])
          (enumerar matriz) in
    let a := fold_left (pasoEliminacion n m) (desdeHasta 0 n)
                       matrizAumentada in
    Some (fold_left (fun soluciones i =>
            let sum :=
              fold_left (fun sum j =>
                if negb (Nat.eqb i j)
                   && JS.mayor (JS.abs (leer a i j)) epsilon
                then (sum - leer a i j
                            * default PrimFloat.nan (soluciones !! j))%float
                else sum) (desdeHasta 0 m) (leer a i m) in
            if JS.mayor (JS.abs (leer a i i)) epsilon
            then asignar soluciones i (sum / leer a i i)%float
            else soluciones)
          (desdeHasta 0 n) (replicate m 0%float)).

(** [resolverSistemaEcuaciones(grupo)]: las soluciones y las celdas. *)
Definition resolverSistemaEcuaciones (g : t) (grupo : Grupo)
  : option (list float * list Celda.t) :=
  let restricciones := g_restricciones grupo in
  let celdas := g_celdas grupo in
  let indiceCeldas : gmap Pos nat :=
    fold_left (fun (mapa : gmap Pos nat) '(indice, celda) =>
                 <[Celda.pos celda := indice]> mapa)
              (enumerar celdas) ∅ in
  let filas :=
    map (fun restriccion =>
      let origen := rg_celda restriccion in
      let todasAdyacentes :=
        Tablero.obtenerCeldasAdyacentes (tablero g)
          (Celda.fila origen) (Celda.columna origen) in
      let fila :=
        fold_left (fun fila celda =>
                     match indiceCeldas !! Celda.pos celda with
                     | Some indice => <[indice := 1%float]> fila
                     | None => fila
                     end)
                  (sinRevelar todasAdyacentes)
                  (replicate (length celdas) 0%float) in
      let banderas := largo (conBandera todasAdyacentes) in
      let valorEfectivo := numeroDe (rg_valor restriccion) - banderas in
      (fila, JS.num valorEfectivo)) restricciones in
  match filas with
  | [] => None
  | _ =>
      match eliminarGaussiana (map fst filas) (map snd filas) with
      | Some soluciones => Some (soluciones, celdas)
      | None => None
      end
  end.

(** [analizarSistemasEcuaciones()]. Leer [celda.tieneBandera] de una
    celda [undefined] lanza [TypeError]. *)
Definition analizarSistemasEcuaciones (g : t) : Resultado t :=
  grupos ← agruparRestriccionesPorCeldasComunes g;
  plegarR (fun g grupo =>
    if 2 <=? largo (g_celdas grupo) then
      match resolverSistemaEcuaciones g grupo with
      | Some (soluciones, celdas) =>
          plegarR (fun g '(i, valor) =>
            if JS.mayorIgual valor 0.99%float then
              match celdas !! i with
              | Some celda =>
                  if negb (Celda.tieneBandera celda)
                     && negb (Celda.descubierta celda)
                  then mret (marcarSiEsSeguro g celda "analisis100"
                               SistemaEcuaciones)
                  else mret g
              | None => LanzaTypeError
              end
            else mret g) (enumerar soluciones) g
      | None => mret g
      end
    else mret g) grupos g.

(** El recuento de [esConsistenteGlobal]: banderas puestas, candidatas
    ya aceptadas y la propia candidata. *)
Definition banderasConCandidata (g : t) (bandera : Bandera) (origen : Pos)
  : Z :=
  largo (List.filter
           (fun c => Celda.tieneBandera c
                     || enLista (banderasColocadas g) c
                     || ((Celda.fila c =? b_fila bandera)
                         && (Celda.columna c =? b_columna bandera)))
           (Tablero.obtenerCeldasAdyacentes (tablero g)
              (fst origen) (snd origen))).

(** [esConsistenteGlobal(bandera)] *)
Definition esConsistenteGlobal (g : t) (bandera : Bandera)
  : Resultado bool :=
  match Tablero.obtenerCelda (tablero g) (b_fila bandera)
          (b_columna bandera) with
  | None => LanzaTypeError
  | Some celda =>
      mret (forallb (fun restriccion =>
        match Tablero.obtenerCelda (tablero g)
                (fst (Celda.celdaOrigen restriccion))
                (snd (Celda.celdaOrigen restriccion)) with
        | Some celdaRestriccion =>
            if Celda.tieneValorNumerico celdaRestriccion then
              let valor :=
                numeroDe (Celda.obtenerValorNumerico celdaRestriccion) in
              negb (valor <? banderasConCandidata g bandera
                               (Celda.celdaOrigen restriccion))
            else true
        | None => true
        end) (Celda.restricciones celda))
  end.

(** [validarConsistenciaGlobal()] *)
Definition validarConsistenciaGlobal (g : t) : Resultado t :=
  let banderasOriginales := banderasColocadas g in
  plegarR (fun g bandera =>
             consistente ← esConsistenteGlobal g bandera;
             if (consistente : bool)
             then mret (conBanderas g (banderasColocadas g ++ [bandera]))
             else mret g)
          banderasOriginales (conBanderas g []).

(** [colocarBanderasSeguras()]: el estado final y la lista devuelta. *)
Definition colocarBanderasSeguras (g : t) : Resultado (t * list Bandera) :=
  let g0 := {| tablero := Tablero.actualizarRestricciones (tablero g);
               banderasColocadas := [];
               ultimaIteracion := ultimaIteracion g + 1 |} in
  let g1 := analizarRestriccionesBasicas g0 in
  let g2 := analizarSubconjuntos g1 in
  let g3 := analizarPatrones g2 in
  g4 ← analizarSistemasEcuaciones g3;
  g5 ← validarConsistenciaGlobal g4;
  mret (g5, banderasColocadas g5).

End GestorBanderas.

(** ** GestorMemoria

    Se modelan el registro de minas, el control de cambios y la lectura del
    mapa de minas conocidas. Los campos [patrones] y [partidas], que estas
    operaciones no leen ni escriben, quedan fuera. El reloj
    ([Date.now()], [new Date().toISOString()]) es un argumento. *)

Module GestorMemoria.

Record PosicionNormalizada : Type := {
  filaNorm : float;
  columnaNorm : float
}.

Record MinaConocida : Type := {
  m_fila : Z;
  m_columna : Z;
  ocurrencias : Z;
  ultimoTablero : Z * Z;
  primeraDeteccion : Z;
  ultimaDeteccion : Z;
  posicionNormalizada : PosicionNormalizada;
  partidasAsociadas : list Z;
  esReciente : bool
}.

Record Contradiccion : Type := {
  h_tipo : string;
  h_timestamp : Z;
  h_idPartida : Z
}.

Record ControlCambios : Type := {
  cc_ultimoTablero : option Z;
  contadorCambios : Z;
  historialCambios : list Contradiccion
}.

Record Estadisticas : Type := {
  partidasJugadas : Z;
  victorias : Z;
  derrotas : Z;
  minasTotales : Z;
  movimientosTotales : Z;
  tiempoTotal : Z
}.

Record Memoria : Type := {
  mapaMinasConocidas : gmap Pos MinaConocida;
  estadisticas : Estadisticas;
  controlCambios : option ControlCambios;
  ultimaActualizacion : Z
}.

(** El gestor: la memoria viva, la copia persistida por
    [guardarMemoria] y el estado de la sesión. *)
Record t : Type := {
  memoria : Memoria;
  almacenamiento : option Memoria;
  idPartidaActual : Z;
  cambiosDetectados : bool
}.

Definition controlInicial : ControlCambios :=
  {| cc_ultimoTablero := None; contadorCambios := 0;
     historialCambios := [] |}.

Definition memoriaInicial (ahora : Z) : Memoria := {|
  mapaMinasConocidas := ∅;
  estadisticas := {| partidasJugadas := 0; victorias := 0; derrotas := 0;
                     minasTotales := 0; movimientosTotales := 0;
                     tiempoTotal := 0 |};
  controlCambios := Some controlInicial;
  ultimaActualizacion := ahora
|}.

(** [cargarMemoria()] y el constructor: la memoria guardada, si la hay. *)
Definition constructor (guardada : option Memoria) (ahora : Z) : t := {|
  memoria := default (memoriaInicial ahora) guardada;
  almacenamiento := guardada;
  idPartidaActual := ahora;
  cambiosDetectados := false
|}.

Definition conMemoria (g : t) (m : Memoria) : t :=
  {| memoria := m; almacenamiento := almacenamiento g;
     idPartidaActual := idPartidaActual g;
     cambiosDetectados := cambiosDetectados g |}.

(** [guardarMemoria()] *)
Definition guardarMemoria (g : t) : t :=
  {| memoria := memoria g; almacenamiento := Some (memoria g);
     idPartidaActual := idPartidaActual g;
     cambiosDetectados := cambiosDetectados g |}.

(** [normalizarPosicion(fila, columna, tablero)] *)
Definition normalizarPosicion (fila columna : Z) (tb : Tablero.t)
  : PosicionNormalizada :=
  let filaNorm :=
    if 1 <? Tablero.filas tb
    then (JS.num fila / JS.num (Tablero.filas tb - 1))%float
    else 0%float in
  let columnaNorm :=
    if 1 <? Tablero.columnas tb
    then (JS.num columna / JS.num (Tablero.columnas tb - 1))%float
    else 0%float in
  let discretizar (valor : float) := (JS.floor (valor * 10) / 10)%float in
  {| filaNorm := discretizar filaNorm;
     columnaNorm := discretizar columnaNorm |}.

(** [registrarMinaEncontrada(fila, columna, tablero)] *)
Definition registrarMinaEncontrada (g : t) (fila columna : Z)
  (tb : Tablero.t) (ahora : Z) : t :=
  let clave : Pos := (fila, columna) in
  let m := memoria g in
  let mapa := mapaMinasConocidas m in
  let mapa' :=
    match mapa !! clave with
    | None =>
        <[clave := {|
            m_fila := fila; m_columna := columna; ocurrencias := 1;
            ultimoTablero := (Tablero.filas tb, Tablero.columnas tb);
            primeraDeteccion := ahora; ultimaDeteccion := ahora;
            posicionNormalizada := normalizarPosicion fila columna tb;
            partidasAsociadas := [idPartidaActual g];
            esReciente := true |}]> mapa
    | Some mina =>
        <[clave := {|
            m_fila := m_fila mina; m_columna := m_columna mina;
            ocurrencias := ocurrencias mina + 1;
            ultimoTablero := ultimoTablero mina;
            primeraDeteccion := primeraDeteccion mina;
            ultimaDeteccion := ahora;
            posicionNormalizada := posicionNormalizada mina;
            partidasAsociadas :=
              if existsb (Z.eqb (idPartidaActual g)) (partidasAsociadas mina)
              then partidasAsociadas mina
              else partidasAsociadas mina ++ [idPartidaActual g];
            esReciente := true |}]> mapa
    end in
  let e := estadisticas m in
  guardarMemoria (conMemoria g {|
    mapaMinasConocidas := mapa';
    estadisticas := {| partidasJugadas := partidasJugadas e;
                       victorias := victorias e; derrotas := derrotas e;
                       minasTotales := minasTotales e + 1;
                       movimientosTotales := movimientosTotales e;
                       tiempoTotal := tiempoTotal e |};
    controlCambios := controlCambios m;
    ultimaActualizacion := ultimaActualizacion m |}).

(** El cuerpo del bucle de [atenuarMemoriaAntigua] para una mina:
    [Math.max(1, Math.floor(mina.ocurrencias * 0.7))] y no reciente. *)
Definition atenuarMina (mina : MinaConocida) : MinaConocida := {|
  m_fila := m_fila mina; m_columna := m_columna mina;
  ocurrencias :=
    Z.max 1 (JS.floorZ (JS.num (ocurrencias mina) * 0.7)%float);
  ultimoTablero := ultimoTablero mina;
  primeraDeteccion := primeraDeteccion mina;
  ultimaDeteccion := ultimaDeteccion mina;
  posicionNormalizada := posicionNormalizada mina;
  partidasAsociadas := partidasAsociadas mina;
  esReciente := false |}.

(** [atenuarMemoriaAntigua()] *)
Definition atenuarMemoriaAntigua (g : t) (ahora : Z) : t :=
  let m := memoria g in
  conMemoria g {|
    mapaMinasConocidas := atenuarMina <$> mapaMinasConocidas m;
    estadisticas := estadisticas m;
    controlCambios :=
      (fun cc => {| cc_ultimoTablero := Some (idPartidaActual g);
                    contadorCambios := contadorCambios cc;
                    historialCambios := historialCambios cc |})
        <$> controlCambios m;
    ultimaActualizacion := ahora |}.

(** [historial.slice(-20)] *)
Definition ultimos (n : nat) {A} (l : list A) : list A :=
  drop (length l - n) l.

(** [registrarContradiccion(contradiccion)] *)
Definition registrarContradiccion (g : t) (tipo : string) (ahora : Z) : t :=
  let m := memoria g in
  let cc := default controlInicial (controlCambios m) in
  let historial :=
    historialCambios cc ++ [{| h_tipo := tipo; h_timestamp := ahora;
                               h_idPartida := idPartidaActual g |}] in
  let cc' := {|
    cc_ultimoTablero := cc_ultimoTablero cc;
    contadorCambios := contadorCambios cc + 1;
    historialCambios :=
      if (20 <? length historial)%nat then ultimos 20 historial
      else historial |} in
  let g1 := conMemoria g {|
    mapaMinasConocidas := mapaMinasConocidas m;
    estadisticas := estadisticas m;
    controlCambios := Some cc';
    ultimaActualizacion := ultimaActualizacion m |} in
  let g2 :=
    if 3 <=? contadorCambios cc' then
      atenuarMemoriaAntigua
        {| memoria := memoria g1; almacenamiento := almacenamiento g1;
           idPartidaActual := idPartidaActual g1;
           cambiosDetectados := true |} ahora
    else g1 in
  guardarMemoria g2.

(** La copia reducida de una mina en [obtenerMapaMinasConocidas]:
    [Math.max(1, Math.floor(mina.ocurrencias * 0.5))] y no reciente. *)
Definition reducirMina (mina : MinaConocida) : MinaConocida := {|
  m_fila := m_fila mina; m_columna := m_columna mina;
  ocurrencias :=
    Z.max 1 (JS.floorZ (JS.num (ocurrencias mina) * 0.5)%float);
  ultimoTablero := ultimoTablero mina;
  primeraDeteccion := primeraDeteccion mina;
  ultimaDeteccion := ultimaDeteccion mina;
  posicionNormalizada := posicionNormalizada mina;
  partidasAsociadas := partidasAsociadas mina;
  esReciente := false |}.

(** [obtenerMapaMinasConocidas()]: el gestor tras la lectura y el mapa
    devuelto. *)
Definition obtenerMapaMinasConocidas (g : t)
  : t * gmap Pos MinaConocida :=
  if cambiosDetectados g
  then (g, reducirMina <$> mapaMinasConocidas (memoria g))
  else (g, mapaMinasConocidas (memoria g)).

(** [reiniciarMemoria()] *)
Definition reiniciarMemoria (g : t) (ahora : Z) : t :=
  guardarMemoria {|
    memoria := memoriaInicial ahora;
    almacenamiento := almacenamiento g;
    idPartidaActual := ahora;
    cambiosDetectados := false |}.

(** Las operaciones de una sesión que no reinician la memoria. *)
Inductive Operacion : Type :=
| MinaEncontrada (fila columna : Z) (tb : Tablero.t) (ahora : Z)
| ContradiccionRegistrada (tipo : string) (ahora : Z)
| LecturaDelMapa.

Definition ejecutar (g : t) (op : Operacion) : t :=
  match op with
  | MinaEncontrada fila columna tb ahora =>
      registrarMinaEncontrada g fila columna tb ahora
  | ContradiccionRegistrada tipo ahora =>
      registrarContradiccion g tipo ahora
  | LecturaDelMapa => fst (obtenerMapaMinasConocidas g)
  end.

Definition ejecutarTodas (g : t) (ops : list Operacion) : t :=
  fold_left ejecutar ops g.

End GestorMemoria.

(** ** MotorProbabilidad

    [Math.random()] es un oráculo [azar]: su k-ésima llamada devuelve
    [azar k]; el motor lleva la cuenta de las llamadas hechas. *)

Module MotorProbabilidad.

Record Registro : Type := {
  timestamp : Z;
  celdasAnalizadas : Z;
  r_casosAnalizados : Z;
  estadoTablero : Tablero.EstadoParaMemoria
}.

Record t : Type := {
  tablero : Tablero.t;
  registroCalculos : list Registro;
  casosAnalizados : Z;
  usosAzar : nat
}.

Definition constructor (tb : Tablero.t) : t :=
  {| tablero := tb; registroCalculos := []; casosAnalizados := 0;
     usosAzar := 0 |}.

Definition conTablero (m : t) (tb : Tablero.t) : t :=
  {| tablero := tb; registroCalculos := registroCalculos m;
     casosAnalizados := casosAnalizados m; usosAzar := usosAzar m |}.

(** La celda viva a la que apunta una referencia. *)
Definition celdaEn (tb : Tablero.t) (p : Pos) : option Celda.t :=
  Tablero.obtenerCelda tb (fst p) (snd p).

(** [celda.actualizarProbabilidades(prob, conf, origen)] sobre la celda
    referida por [p]. *)
Definition actualizar (m : t) (p : Pos) (prob conf : float) (o : string)
  : t :=
  conTablero m
    (Tablero.modificarCelda (tablero m) p
       (fun c => Celda.actualizarProbabilidades c prob conf o)).

(** [celdas.forEach(celda => ...)] sobre referencias a celdas. *)
Definition porCadaCelda (celdas : list Pos) (m : t)
  (cuerpo : t -> Celda.t -> t) : t :=
  fold_left (fun m p =>
               match celdaEn (tablero m) p with
               | Some celda => cuerpo m celda
               | None => m
               end) celdas m.

(** [Math.round(totalCeldas * 0.18)] *)
Definition estimacionMinas (tb : Tablero.t) : float :=
  JS.round (JS.num (Tablero.filas tb * Tablero.columnas tb) * 0.18)%float.

(** [inicializarProbabilidadesBase(celdasSinRevolar)] *)
Definition inicializarProbabilidadesBase (m : t) (celdasSinRevolar : list Pos)
  : t :=
  let banderasColocadas := JS.num (Tablero.contadorBanderas (tablero m)) in
  let minasFaltantes :=
    JS.max 0 (estimacionMinas (tablero m) - banderasColocadas)%float in
  let probabilidadBase :=
    if 0 <? largo celdasSinRevolar
    then JS.min 0.5 (minasFaltantes / JS.num (largo celdasSinRevolar))%float
    else 0.15%float in
  porCadaCelda celdasSinRevolar m (fun m celda =>
    let factorPosicion :=
      if Celda.esEsquina celda then 0.7%float
      else if Celda.esBorde celda then 0.8%float
      else if Celda.distanciaBorde celda =? 1 then 0.9%float
      else 1%float in
    let probAjustada := (probabilidadBase * factorPosicion)%float in
    if JS.menor (Celda.confianza (Celda.probabilidades celda)) 0.5
    then actualizar m (Celda.pos celda) probAjustada 0.3 "base"
    else m).

(** Orden total sobre las claves de restricción, para [sort()]. *)
Definition posMenorIgual (a b : Pos) : bool :=
  (fst a <? fst b) || ((fst a =? fst b) && (snd a <=? snd b)).

Fixpoint insertarOrdenado (p : Pos) (l : list Pos) : list Pos :=
  match l with
  | [] => [p]
  | q :: resto => if posMenorIgual p q then p :: l
                  else q :: insertarOrdenado p resto
  end.

(** La clave de grupo de una celda: los orígenes de sus restricciones,
    ordenados. Dos celdas comparten clave si y solo si las restringen
    las mismas celdas numéricas, que es lo único que el código usa de
    [map(...).sort().join('|')]. *)
Definition claveDeRestricciones (celda : Celda.t) : list Pos :=
  fold_right insertarOrdenado []
             (map Celda.celdaOrigen (Celda.restricciones celda)).

Record GrupoLocal : Type := {
  gl_celdas : list Pos;
  gl_restricciones : list Celda.Restriccion
}.

(** [restriccionesPorCelda], en orden de inserción de las claves. *)
Fixpoint agregarAlGrupo (clave : list Pos) (celda : Celda.t)
  (grupos : list (list Pos * GrupoLocal)) : list (list Pos * GrupoLocal) :=
  match grupos with
  | [] => [(clave, {| gl_celdas := [Celda.pos celda];
                      gl_restricciones := Celda.restricciones celda |})]
  | (k, gr) :: resto =>
      if bool_decide (k = clave)
      then (k, {| gl_celdas := gl_celdas gr ++ [Celda.pos celda];
                  gl_restricciones := gl_restricciones gr |}) :: resto
      else (k, gr) :: agregarAlGrupo clave celda resto
  end.

(** [calcularProbabilidadesLocales(celdasSinRevolar)] *)
Definition calcularProbabilidadesLocales (m : t)
  (celdasSinRevolar : list Pos) : t :=
  let restriccionesPorCelda :=
    fold_left (fun grupos p =>
      match celdaEn (tablero m) p with
      | Some celda =>
          if 0 <? largo (Celda.restricciones celda)
          then agregarAlGrupo (claveDeRestricciones celda) celda grupos
          else grupos
      | None => grupos
      end) celdasSinRevolar [] in
  fold_left (fun m '(_, grupo) =>
    if (0 <? largo (gl_celdas grupo))
       && (0 <? largo (gl_restricciones grupo))
    then
      match gl_restricciones grupo with
      | [restriccion] =>
          let probabilidad :=
            (JS.num (Celda.minasRestantes restriccion)
             / JS.num (largo (gl_celdas grupo)))%float in
          let confianza :=
            (0.5 + 0.3 / JS.sqrt (JS.num (largo (gl_celdas grupo))))%float in
          porCadaCelda (gl_celdas grupo) m (fun m celda =>
            actualizar m (Celda.pos celda) probabilidad confianza
                       "restricciones")
      | _ => m
      end
    else m) restriccionesPorCelda m.

(** Un grupo conexo: sus celdas y sus restricciones [{ celda, valor }]. *)
Record Grupo : Type := {
  g_celdas : list Pos;
  g_restricciones : list (Pos * option Z)
}.

(** Estado del bucle [while] de [obtenerGrupoConexo]. *)
Record EstadoConexo : Type := {
  cola : list Pos;
  visitadas : gset Pos;
  celdasAgrupadas : gset Pos;
  ec_celdas : list Pos;
  ec_restricciones : list Pos
}.

(** [Set.add] sobre un conjunto que conserva el orden de inserción. *)
Definition agregarClave (p : Pos) (l : list Pos) : list Pos :=
  if existsb (mismaPos p) l then l else l ++ [p].

Definition tieneRestriccionDe (celda : Celda.t) (origen : Pos) : bool :=
  existsb (fun r => mismaPos (Celda.celdaOrigen r) origen)
          (Celda.restricciones celda).

(** Una vuelta del bucle para una celda aún no visitada. *)
Definition visitarCelda (tb : Tablero.t) (celdasSinRevolar : list Pos)
  (celda : Celda.t) (e : EstadoConexo) : EstadoConexo :=
  let clave := Celda.pos celda in
  let visitadas' := {[ clave ]} ∪ visitadas e in
  fold_left (fun e restriccion =>
    let origen := Celda.celdaOrigen restriccion in
    let celdasConectadas :=
      List.filter (fun otra =>
        if bool_decide (otra ∈ visitadas') then false
        else match celdaEn tb otra with
             | Some otraCelda => tieneRestriccionDe otraCelda origen
             | None => false
             end) celdasSinRevolar in
    {| cola := cola e ++ celdasConectadas;
       visitadas := visitadas e;
       celdasAgrupadas := celdasAgrupadas e;
       ec_celdas := ec_celdas e;
       ec_restricciones := agregarClave origen (ec_restricciones e) |})
    (Celda.restricciones celda)
    {| cola := cola e; visitadas := visitadas';
       celdasAgrupadas := {[ clave ]} ∪ celdasAgrupadas e;
       ec_celdas := ec_celdas e ++ [clave];
       ec_restricciones := ec_restricciones e |}.

Fixpoint bucleConexo (combustible : nat) (tb : Tablero.t)
  (celdasSinRevolar : list Pos) (e : EstadoConexo)
  : Resultado EstadoConexo :=
  match cola e with
  | [] => Devuelve e
  | p :: resto =>
      match combustible with
      | O => SinCombustible
      | S combustible' =>
          let e' := {| cola := resto; visitadas := visitadas e;
                       celdasAgrupadas := celdasAgrupadas e;
                       ec_celdas := ec_celdas e;
                       ec_restricciones := ec_restricciones e |} in
          if bool_decide (p ∈ visitadas e)
          then bucleConexo combustible' tb celdasSinRevolar e'
          else
            match celdaEn tb p with
            | Some celda =>
                bucleConexo combustible' tb celdasSinRevolar
                  (visitarCelda tb celdasSinRevolar celda e')
            | None => LanzaTypeError
            end
      end
  end.

(** Cota de vueltas: cada celda se visita una vez y encola, por cada una
    de sus restricciones (a lo sumo ocho), a lo sumo todas las celdas. *)
Definition combustibleConexo (celdasSinRevolar : list Pos) : nat :=
  S (8 * length celdasSinRevolar * length celdasSinRevolar).

(** [obtenerGrupoConexo(celdaInicial, celdasSinRevolar, celdasAgrupadas)] *)
Definition obtenerGrupoConexo (tb : Tablero.t) (celdaInicial : Pos)
  (celdasSinRevolar : list Pos) (agrupadas : gset Pos)
  : Resultado (Grupo * gset Pos) :=
  e ← bucleConexo (combustibleConexo celdasSinRevolar) tb celdasSinRevolar
        {| cola := [celdaInicial]; visitadas := ∅;
           celdasAgrupadas := agrupadas; ec_celdas := [];
           ec_restricciones := [] |};
  restricciones ← plegarR (fun acc clave =>
      match celdaEn tb clave with
      | Some celdaRestriccion =>
          mret (acc ++ [(clave, Celda.obtenerValorNumerico celdaRestriccion)])
      | None => LanzaTypeError
      end) (ec_restricciones e) [];
  mret ({| g_celdas := ec_celdas e; g_restricciones := restricciones |},
        celdasAgrupadas e).

(** [obtenerGruposConectados(celdasSinRevolar)] *)
Definition obtenerGruposConectados (tb : Tablero.t)
  (celdasSinRevolar : list Pos) : Resultado (list Grupo) :=
  r ← plegarR (fun '(grupos, agrupadas) p =>
         if bool_decide (p ∈ agrupadas) then mret (grupos, agrupadas)
         else
           match celdaEn tb p with
           | Some celda =>
               if largo (Celda.restricciones celda) =? 0
               then mret (grupos, agrupadas)
               else
                 '(grupo, agrupadas') ←
                   obtenerGrupoConexo tb p celdasSinRevolar agrupadas;
                 if 0 <? largo (g_celdas grupo)
                 then mret (grupos ++ [grupo], agrupadas')
                 else mret (grupos, agrupadas')
           | None => mret (grupos, agrupadas)
           end) celdasSinRevolar ([], (∅ : gset Pos));
  mret (fst r).

(** Una combinación: un 0 o un 1 por celda del grupo. *)
Definition Combinacion : Type := list Z.

(** La combinación que arma la vuelta [i] del muestreo: una llamada a
    [Math.random()] por celda. *)
Definition muestra (azar : nat -> float) (usos n i : nat) : Combinacion :=
  map (fun j => if JS.menor (azar (usos + i * n + j)%nat) 0.5 then 1 else 0)
      (desdeHasta 0 n).

(** La combinación número [i] de la enumeración: el bit [j] de [i] por la
    celda [j]. *)
Definition combinacionDe (n i : nat) : Combinacion :=
  map (fun j =>
         if Z.land (Z.of_nat i) (Z.shiftl 1 (Z.of_nat j)) =? 0
         then 0 else 1)
      (desdeHasta 0 n).

(** [generarCombinacionesMuestreo(n, muestras)]: las combinaciones
    distintas, en orden de primera aparición, y las llamadas consumidas. *)
Definition generarCombinacionesMuestreo (azar : nat -> float) (usos : nat)
  (n muestras : nat) : list Combinacion * nat :=
  let todas := map (muestra azar usos n) (desdeHasta 0 muestras) in
  (fold_left (fun (vistas : list Combinacion) c =>
                if bool_decide (c ∈ vistas) then vistas else vistas ++ [c])
             todas [],
   (usos + muestras * n)%nat).

(** [generarCombinaciones(n)] *)
Definition generarCombinaciones (azar : nat -> float) (m : t) (n : nat)
  : t * list Combinacion :=
  let m1 := {| tablero := tablero m; registroCalculos := registroCalculos m;
               casosAnalizados := casosAnalizados m + 1;
               usosAzar := usosAzar m |} in
  if (10 <? n)%nat then
    let '(combinaciones, usos') :=
      generarCombinacionesMuestreo azar (usosAzar m) n 1000 in
    ({| tablero := tablero m1; registroCalculos := registroCalculos m1;
        casosAnalizados := casosAnalizados m1; usosAzar := usos' |},
     combinaciones)
  else
    (m1, map (combinacionDe n) (desdeHasta 0 (2 ^ n))).

Definition indiceDeCeldas (celdas : list Pos) : gmap Pos nat :=
  fold_left (fun (mapa : gmap Pos nat) '(indice, p) => <[p := indice]> mapa)
            (enumerar celdas) ∅.

(** Las restricciones preparadas por la enumeración: los índices de las
    celdas afectadas y [minasRestantes]. *)
Definition prepararRestricciones (tb : Tablero.t) (grupo : Grupo)
  : list (list nat * Z) :=
  let indiceCeldas := indiceDeCeldas (g_celdas grupo) in
  map (fun '(origen, valor) =>
    let adyacentes :=
      Tablero.obtenerCeldasAdyacentes tb (fst origen) (snd origen) in
    let celdasAfectadas :=
      omap (fun c => indiceCeldas !! Celda.pos c)
           (List.filter (fun c => negb (Celda.descubierta c)) adyacentes) in
    let banderasActuales :=
      largo (List.filter Celda.tieneBandera adyacentes) in
    (celdasAfectadas, numeroDe valor - banderasActuales))
    (g_restricciones grupo).

(** Una combinación es válida si cumple todas las restricciones. *)
Definition esValida (restricciones : list (list nat * Z))
  (combinacion : Combinacion) : bool :=
  forallb (fun '(celdasAfectadas, minasRestantes) =>
    let minasEnRestriccion :=
      fold_left (fun count indice =>
                   count + default 0 (combinacion !! indice))
                celdasAfectadas 0 in
    minasEnRestriccion =? minasRestantes) restricciones.

(** [calcularProbabilidadesPorEnumeracion(grupo)]; [None] es [null]. *)
Definition calcularProbabilidadesPorEnumeracion (azar : nat -> float)
  (m : t) (grupo : Grupo) : t * option (list float) :=
  let n := length (g_celdas grupo) in
  if (12 <? n)%nat then (m, None)
  else
    let restricciones := prepararRestricciones (tablero m) grupo in
    let '(m1, combinaciones) := generarCombinaciones azar m n in
    let combinacionesValidas :=
      List.filter (esValida restricciones) combinaciones in
    if 0 <? largo combinacionesValidas then
      (m1, Some (map (fun i =>
                   let suma :=
                     fold_left (fun suma combinacion =>
                                  suma + default 0 (combinacion !! i))
                               combinacionesValidas 0 in
                   (JS.num suma / JS.num (largo combinacionesValidas))%float)
                 (desdeHasta 0 n)))
    else (m1, None).

(** [resolverSistemaLineal(A, b)] *)
Definition resolverSistemaLineal (A : Matriz) (b : list float)
  : list float :=
  let n := length A in
  let aumentada :=
    map (fun '(i, fila) => fila ++ [default PrimFloat.nan (b !! i)])
        (enumerar A) in
  let eliminada :=
    fold_left (fun a i =>
      let maxRow :=
        fold_left (fun maxRow j =>
                     if JS.mayor (JS.abs (leer a j i))
                                 (JS.abs (leer a maxRow i))
                     then j else maxRow)
                  (desdeHasta (i + 1) n) i in
      let a1 := intercambiar a i maxRow in
      if JS.menor (JS.abs (leer a1 i i)) epsilon then a1
      else
        let a2 :=
          fold_left (fun a j => escribir a i j (leer a i j / leer a i i)%float)
                    (desdeHasta (i + 1) (n + 1)) a1 in
        let a3 := escribir a2 i i 1%float in
        fold_left (fun a j =>
          let factor := leer a j i in
          fold_left (fun a k =>
                       escribir a j k
                         (leer a j k - factor * leer a i k)%float)
                    (desdeHasta i (n + 1)) a)
          (desdeHasta (i + 1) n) a3)
      (desdeHasta 0 n) aumentada in
  fold_left (fun soluciones i =>
    let inicial := <[i := leer eliminada i n]> soluciones in
    fold_left (fun soluciones j =>
      <[i := (default PrimFloat.nan (soluciones !! i)
              - leer eliminada i j
                * default PrimFloat.nan (soluciones !! j))%float]>
        soluciones) (desdeHasta (i + 1) n) inicial)
    (rev (desdeHasta 0 n)) (replicate n 0%float).

(** [resolverMinimosCuadrados(A, b)] *)
Definition resolverMinimosCuadrados (A : Matriz) (b : list float)
  : list float :=
  let m := length A in
  let n := length (default [] (A !! 0%nat)) in
  let ATA :=
    map (fun i =>
      map (fun j =>
        fold_left (fun acc k => (acc + leer A k i * leer A k j)%float)
                  (desdeHasta 0 m) 0%float)
        (desdeHasta 0 n))
      (desdeHasta 0 n) in
  let ATb :=
    map (fun i =>
      fold_left (fun acc k =>
                   (acc + leer A k i * default PrimFloat.nan (b !! k))%float)
                (desdeHasta 0 m) 0%float)
      (desdeHasta 0 n) in
  resolverSistemaLineal ATA ATb.

(** [calcularProbabilidadesPorModeloLineal(grupo)] *)
Definition calcularProbabilidadesPorModeloLineal (m : t) (grupo : Grupo)
  : option (list float) :=
  let celdas := g_celdas grupo in
  let indiceCeldas := indiceDeCeldas celdas in
  let filas :=
    map (fun '(origen, valor) =>
      let adyacentes :=
        Tablero.obtenerCeldasAdyacentes (tablero m)
          (fst origen) (snd origen) in
      let banderasActuales :=
        largo (List.filter Celda.tieneBandera adyacentes) in
      (fold_left (fun fila celda =>
                    match indiceCeldas !! Celda.pos celda with
                    | Some indice => <[indice := 1%float]> fila
                    | None => fila
                    end)
                 (List.filter (fun c => negb (Celda.descubierta c))
                              adyacentes)
                 (replicate (length celdas) 0%float),
       JS.num (numeroDe valor - banderasActuales)))
      (g_restricciones grupo) in
  match filas with
  | [] => None
  | _ =>
      Some (map (fun p => JS.max 0 (JS.min 1 p))
                (resolverMinimosCuadrados (map fst filas) (map snd filas)))
  end.

(** [resultado.probabilidades.forEach((prob, indice) =>
      grupo.celdas[indice].actualizarProbabilidades(prob, conf, 'probabilidad'))] *)
Definition aplicarProbabilidades (m : t) (grupo : Grupo)
  (probabilidades : list float) (conf : float) : Resultado t :=
  plegarR (fun m '(indice, prob) =>
             match g_celdas grupo !! indice with
             | Some p => mret (actualizar m p prob conf "probabilidad")
             | None => LanzaTypeError
             end) (enumerar probabilidades) m.

(** El cuerpo de [grupos.forEach(grupo => ...)] en
    [calcularProbabilidadesGlobales]. *)
Definition procesarGrupo (azar : nat -> float) (m : t) (grupo : Grupo)
  : Resultado t :=
  if largo (g_celdas grupo) <=? 12 then
    match calcularProbabilidadesPorEnumeracion azar m grupo with
    | (m', Some probabilidades) =>
        aplicarProbabilidades m' grupo probabilidades 0.8
    | (m', None) => mret m'
    end
  else
    match calcularProbabilidadesPorModeloLineal m grupo with
    | Some probabilidades =>
        aplicarProbabilidades m grupo probabilidades 0.6
    | None => mret m
    end.

(** [calcularProbabilidadesGlobales(celdasSinRevolar)] *)
Definition calcularProbabilidadesGlobales (azar : nat -> float) (m : t)
  (celdasSinRevolar : list Pos) : Resultado t :=
  grupos ← obtenerGruposConectados (tablero m) celdasSinRevolar;
  m1 ← plegarR (procesarGrupo azar) grupos m;
  mret (porCadaCelda celdasSinRevolar m1 (fun m celda =>
          if largo (Celda.restricciones celda) =? 0
          then actualizar m (Celda.pos celda) 0.1 0.4 "aislada"
          else m)).

(** Es frontera la celda con alguna adyacente revelada. *)
Definition esFrontera (tb : Tablero.t) (p : Pos) : bool :=
  existsb Celda.descubierta
          (Tablero.obtenerCeldasAdyacentes tb (fst p) (snd p)).

(** La influencia de una adyacente revelada sobre una celda de
    frontera: los sumandos de [influenciaTotal] y [factorTotal]. *)
Definition influenciaDe (tb : Tablero.t) (adyacente : Celda.t)
  (acumulado : float * float) : float * float :=
  if Celda.tieneValorNumerico adyacente then
    let valor := numeroDe (Celda.obtenerValorNumerico adyacente) in
    let vecinas :=
      Tablero.obtenerCeldasAdyacentes tb
        (Celda.fila adyacente) (Celda.columna adyacente) in
    let adyacentesSinRevolar :=
      List.filter (fun adj => negb (Celda.descubierta adj)
                              && negb (Celda.tieneBandera adj)) vecinas in
    let banderasColocadas :=
      largo (List.filter Celda.tieneBandera vecinas) in
    let minasRestantes := valor - banderasColocadas in
    if 0 <? largo adyacentesSinRevolar then
      let cuantas := JS.num (largo adyacentesSinRevolar) in
      let probabilidadLocal := (JS.num minasRestantes / cuantas)%float in
      let factorPeso := (1 / cuantas)%float in
      ((fst acumulado + probabilidadLocal * factorPeso)%float,
       (snd acumulado + factorPeso)%float)
    else acumulado
  else acumulado.

(** [calcularProbabilidadesFrontera(celdasSinRevolar)] *)
Definition calcularProbabilidadesFrontera (m : t)
  (celdasSinRevolar : list Pos) : t :=
  let celdasFrontera :=
    List.filter (esFrontera (tablero m)) celdasSinRevolar in
  let m1 :=
    porCadaCelda celdasFrontera m (fun m celda =>
      let adyacentesReveladas :=
        List.filter Celda.descubierta
          (Tablero.obtenerCeldasAdyacentes (tablero m)
             (Celda.fila celda) (Celda.columna celda)) in
      let '(influenciaTotal, factorTotal) :=
        fold_left (fun acumulado adyacente =>
                     influenciaDe (tablero m) adyacente acumulado)
                  adyacentesReveladas (0%float, 0%float) in
      if JS.mayor factorTotal 0 then
        let probabilidadPonderada := (influenciaTotal / factorTotal)%float in
        let confianza :=
          JS.min 0.7 (0.4 + 0.1 * JS.num (largo adyacentesReveladas))%float in
        actualizar m (Celda.pos celda) probabilidadPonderada confianza
                   "frontera"
      else m) in
  let celdasNoFrontera :=
    List.filter (fun p => negb (existsb (mismaPos p) celdasFrontera))
                celdasSinRevolar in
  porCadaCelda celdasNoFrontera m1 (fun m celda =>
    if JS.menor (Celda.confianza (Celda.probabilidades celda)) 0.5 then
      let probabilidadActual :=
        Celda.probabilidadMina (Celda.probabilidades celda) in
      actualizar m (Celda.pos celda) (probabilidadActual * 0.85)%float 0.5
                 "no_frontera"
    else m).

(** [integrarMemoriaHistorica(celdasSinRevolar, gestorMemoria)] *)
Definition integrarMemoriaHistorica (m : t) (celdasSinRevolar : list Pos)
  (gestorMemoria : GestorMemoria.t) : t :=
  let mapaMinasConocidas :=
    snd (GestorMemoria.obtenerMapaMinasConocidas gestorMemoria) in
  porCadaCelda celdasSinRevolar m (fun m celda =>
    match mapaMinasConocidas !! Celda.pos celda with
    | Some infoHistorica =>
        let ocurrencias := GestorMemoria.ocurrencias infoHistorica in
        if 0 <? ocurrencias then
          let factor0 := JS.min 0.8 (0.3 + JS.num ocurrencias * 0.1)%float in
          let confianza0 :=
            JS.min 0.7 (0.3 + JS.num ocurrencias * 0.05)%float in
          let factor1 :=
            if GestorMemoria.esReciente infoHistorica
            then (factor0 + 0.1)%float else factor0 in
          let confianza1 :=
            if GestorMemoria.esReciente infoHistorica
            then (confianza0 + 0.1)%float else confianza0 in
          let factorHistorico := JS.min 0.9 factor1 in
          let confianzaHistorica := JS.min 0.8 confianza1 in
          let probActual :=
            Celda.probabilidadMina (Celda.probabilidades celda) in
          let confActual := Celda.confianza (Celda.probabilidades celda) in
          if JS.mayor confianzaHistorica 0.4
             && JS.mayor confianzaHistorica confActual
          then
            let probCombinada :=
              ((probActual * confActual
                + factorHistorico * confianzaHistorica)
               / (confActual + confianzaHistorica))%float in
            let confCombinada := JS.max confActual confianzaHistorica in
            actualizar m (Celda.pos celda) probCombinada confCombinada
                       "memoria"
          else m
        else m
    | None => m
    end).

(** [identificarCasosConCerteza(celdasSinRevolar)] *)
Definition identificarCasosConCerteza (m : t) (celdasSinRevolar : list Pos)
  : t :=
  porCadaCelda celdasSinRevolar m (fun m celda =>
    let probabilidad := Celda.probabilidadMina (Celda.probabilidades celda) in
    let confianza := Celda.confianza (Celda.probabilidades celda) in
    if JS.mayor probabilidad 0.99 && JS.mayor confianza 0.95
    then actualizar m (Celda.pos celda) 1 1 "analisis100"
    else if JS.menor probabilidad 0.01 && JS.mayor confianza 0.95
    then actualizar m (Celda.pos celda) 0 1 "analisis100"
    else m).

(** [Math.max(1, estimacionMinas - banderasColocadas)] *)
Definition minasFaltantesNormalizacion (tb : Tablero.t) : float :=
  JS.max 1 (estimacionMinas tb - JS.num (Tablero.contadorBanderas tb))%float.

(** La suma de [probabilidadMina] sobre las celdas sin revelar. *)
Definition sumaProbabilidades (tb : Tablero.t) (celdasSinRevolar : list Pos)
  : float :=
  fold_left (fun suma p =>
               match celdaEn tb p with
               | Some celda =>
                   (suma + Celda.probabilidadMina
                             (Celda.probabilidades celda))%float
               | None => suma
               end) celdasSinRevolar 0%float.

(** La condición de normalización:
    [Math.abs(suma - minasFaltantes) > 0.5 * minasFaltantes]. *)
Definition requiereNormalizar (tb : Tablero.t) (celdasSinRevolar : list Pos)
  : bool :=
  let minasFaltantes := minasFaltantesNormalizacion tb in
  JS.mayor (JS.abs (sumaProbabilidades tb celdasSinRevolar - minasFaltantes))
           (0.5 * minasFaltantes)%float.

(** [minasFaltantes / Math.max(0.1, sumaProbabilidades)] *)
Definition factorEscala (tb : Tablero.t) (celdasSinRevolar : list Pos)
  : float :=
  (minasFaltantesNormalizacion tb
   / JS.max 0.1 (sumaProbabilidades tb celdasSinRevolar))%float.

(** [Math.min(0.95, Math.max(0.05, probabilidadMina * factorEscala))] *)
Definition reescalada (factor : float) (celda : Celda.t) : float :=
  JS.min 0.95
    (JS.max 0.05
       (Celda.probabilidadMina (Celda.probabilidades celda) * factor)%float).

(** [normalizarProbabilidades(celdasSinRevolar)] *)
Definition normalizarProbabilidades (m : t) (celdasSinRevolar : list Pos)
  : t :=
  if requiereNormalizar (tablero m) celdasSinRevolar then
    let factor := factorEscala (tablero m) celdasSinRevolar in
    porCadaCelda celdasSinRevolar m (fun m celda =>
      if JS.menor (Celda.confianza (Celda.probabilidades celda)) 0.95 then
        let nuevaProb := reescalada factor celda in
        actualizar m (Celda.pos celda) nuevaProb
                   (Celda.confianza (Celda.probabilidades celda))
                   "normalizado"
      else m)
  else m.

(** [ajustarCasosEspeciales(celdasSinRevolar)] *)
Definition ajustarCasosEspeciales (m : t) (celdasSinRevolar : list Pos)
  : t :=
  porCadaCelda celdasSinRevolar m (fun m celda =>
    let adyacentes :=
      Tablero.obtenerCeldasAdyacentes (tablero m)
        (Celda.fila celda) (Celda.columna celda) in
    let adyacenteVacia :=
      existsb (fun adj =>
                 Celda.descubierta adj
                 && (Celda.valor_eqb (Celda.valor adj) Celda.Vacia
                     || Celda.valor_eqb (Celda.valor adj) (Celda.Numero 0)))
              adyacentes in
    let m1 :=
      if adyacenteVacia
      then actualizar m (Celda.pos celda) 0 1 "analisis100" else m in
    if Celda.esEsquina celda then
      let adyacentesSinDescubrir :=
        List.filter (fun adj => negb (Celda.descubierta adj)) adyacentes in
      if largo adyacentesSinDescubrir =? 1 then
        let hayUnoAdyacente :=
          existsb (fun adj =>
                     Celda.descubierta adj && Celda.tieneValorNumerico adj
                     && bool_decide (Celda.obtenerValorNumerico adj = Some 1))
                  adyacentes in
        if hayUnoAdyacente
        then actualizar m1 (Celda.pos celda) 1 1 "analisis100" else m1
      else m1
    else m1).

(** [ajustarProbabilidadesFinales(celdasSinRevolar)] *)
Definition ajustarProbabilidadesFinales (m : t) (celdasSinRevolar : list Pos)
  : t :=
  ajustarCasosEspeciales
    (normalizarProbabilidades
       (identificarCasosConCerteza m celdasSinRevolar) celdasSinRevolar)
    celdasSinRevolar.

(** [calcularProbabilidades(gestorMemoria)]: el motor tras la pasada y
    las celdas sin revelar que devuelve. [None] es [gestorMemoria = null]. *)
Definition calcularProbabilidades (azar : nat -> float) (ahora : Z) (m : t)
  (gestorMemoria : option GestorMemoria.t) : Resultado (t * list Pos) :=
  let m0 := {| tablero := Tablero.actualizarRestricciones (tablero m);
               registroCalculos := registroCalculos m;
               casosAnalizados := 0;
               usosAzar := usosAzar m |} in
  let celdasSinRevolar :=
    map Celda.pos (Tablero.obtenerCeldasSinRevolar (tablero m0)) in
  let m1 := inicializarProbabilidadesBase m0 celdasSinRevolar in
  let m2 := calcularProbabilidadesLocales m1 celdasSinRevolar in
  m3 ← calcularProbabilidadesGlobales azar m2 celdasSinRevolar;
  let m4 := calcularProbabilidadesFrontera m3 celdasSinRevolar in
  let m5 :=
    match gestorMemoria with
    | Some gm => integrarMemoriaHistorica m4 celdasSinRevolar gm
    | None => m4
    end in
  let m6 := ajustarProbabilidadesFinales m5 celdasSinRevolar in
  let registro :=
    registroCalculos m6 ++
    [{| timestamp := ahora;
        celdasAnalizadas := largo celdasSinRevolar;
        r_casosAnalizados := casosAnalizados m6;
        estadoTablero :=
          Tablero.obtenerEstadoParaMemoria (tablero m6) ahora |}] in
  mret ({| tablero := tablero m6;
           registroCalculos :=
             if (20 <? length registro)%nat then tail registro else registro;
           casosAnalizados := casosAnalizados m6;
           usosAzar := usosAzar m6 |},
        celdasSinRevolar).

End MotorProbabilidad.

(** ** Juego: aplicación de un lote de banderas *)

Module Juego.

(** El bucle de [procesarNuevasBanderas(banderas, razon)] que coloca cada
    bandera en el tablero. *)
Definition procesarNuevasBanderas (tb : Tablero.t)
  (banderas : list GestorBanderas.Bandera) : Tablero.t :=
  fold_left (fun tb bandera =>
    match Tablero.obtenerCelda tb (GestorBanderas.b_fila bandera)
            (GestorBanderas.b_columna bandera) with
    | Some celda =>
        if negb (Celda.descubierta celda) && negb (Celda.tieneBandera celda)
        then fst (Tablero.establecerBandera tb
                    (GestorBanderas.b_fila bandera)
                    (GestorBanderas.b_columna bandera) true)
        else tb
    | None => tb
    end) banderas tb.

(** El valor que devuelve [verificarVictoria()]: hay victoria si el juego
    no ha terminado, hay tantas celdas sin revelar como celdas con bandera
    y todas las celdas sin revelar tienen bandera. Cuando devuelve [true]
    el código ha llamado antes a [terminarJuego(true)]. *)
Definition verificarVictoria (juegoTerminado : bool) (tb : Tablero.t)
  : bool :=
  if juegoTerminado then false
  else
    let celdasSinRevolar := Tablero.obtenerCeldasSinRevolar tb in
    let celdasConBandera := Tablero.obtenerCeldasConBandera tb in
    (largo celdasSinRevolar =? largo celdasConBandera)
    && forallb Celda.tieneBandera celdasSinRevolar.

End Juego.

(** ** AnalizadorCeldas: elección de la celda siguiente *)

Module AnalizadorCeldas.

(** Lo que devuelven las estrategias: [{fila, columna, tipo, razon}]. *)
Record Seleccion : Type := {
  s_fila : Z;
  s_columna : Z;
  s_tipo : string;
  s_razon : string
}.

(** [lista[Math.floor(x)]]: el elemento de ese índice, o [undefined] si el
    índice es negativo, no es finito o cae fuera de la lista. *)
Definition elementoEn {A} (l : list A) (x : float) : option A :=
  match Prim2SF x with
  | S754_zero _ => l !! 0%nat
  | S754_finite s m e =>
      let z := JS.sueloZ s m e in
      if z <? 0 then None else l !! Z.to_nat z
  | _ => None
  end.

(** Una posición está disponible si su celda existe y no está descubierta
    ni tiene bandera. *)
Definition disponible (tb : Tablero.t) (p : Pos) : bool :=
  match Tablero.obtenerCelda tb (fst p) (snd p) with
  | Some celda =>
      negb (Celda.descubierta celda) && negb (Celda.tieneBandera celda)
  | None => false
  end.

(** [disponibles[Math.floor(Math.random() * disponibles.length)]] y el
    objeto que se arma con su fila y su columna; [azar] es el valor de esa
    llamada a [Math.random()]. Leer [.fila] de [undefined] lanza. *)
Definition elegirAlAzar (disponibles : list Pos) (azar : float)
  (tipo razon : string) : Resultado (option Seleccion) :=
  match elementoEn disponibles (azar * JS.num (largo disponibles))%float with
  | Some seleccion =>
      Devuelve (Some {| s_fila := fst seleccion; s_columna := snd seleccion;
                        s_tipo := tipo; s_razon := razon |})
  | None => LanzaTypeError
  end.

(** [seleccionarEsquinaAleatoria()] *)
Definition seleccionarEsquinaAleatoria (tb : Tablero.t) (azar : float)
  : Resultado (option Seleccion) :=
  let esquinas : list Pos :=
    [ (0, 0); (0, Tablero.columnas tb - 1); (Tablero.filas tb - 1, 0);
      (Tablero.filas tb - 1, Tablero.columnas tb - 1) ] in
  let disponibles := List.filter (disponible tb) esquinas in
  if largo disponibles =? 0 then Devuelve None
  else elegirAlAzar disponibles azar "estrategia"
         "Estrategia inicial: esquina".

(** Los índices [a .. b-1] de un bucle [for] sobre enteros. *)
Definition rango (a b : Z) : list Z :=
  map (fun i => a + Z.of_nat i) (seq 0 (Z.to_nat (b - a))).

(** [seleccionarBordeAleatorio()]: el nuevo [ultimoBordeAnalizado] y la
    selección. *)
Definition seleccionarBordeAleatorio (tb : Tablero.t)
  (ultimoBordeAnalizado : Z) (azar : float)
  : Z * Resultado (option Seleccion) :=
  let ultimo := Z.rem (ultimoBordeAnalizado + 1) 4 in
  let bordes : list Pos :=
    if ultimo =? 0 then
      map (fun col => (0, col)) (rango 1 (Tablero.columnas tb - 1))
    else if ultimo =? 1 then
      map (fun fila => (fila, Tablero.columnas tb - 1))
          (rango 1 (Tablero.filas tb - 1))
    else if ultimo =? 2 then
      map (fun col => (Tablero.filas tb - 1, col))
          (rango 1 (Tablero.columnas tb - 1))
    else
      map (fun fila => (fila, 0)) (rango 1 (Tablero.filas tb - 1)) in
  let disponibles := List.filter (disponible tb) bordes in
  (ultimo,
   if largo disponibles =? 0 then Devuelve None
   else elegirAlAzar disponibles azar "estrategia"
          "Estrategia inicial: borde").

(** [seleccionarCeldaInteriorAleatoria()] *)
Definition seleccionarCeldaInteriorAleatoria (tb : Tablero.t) (azar : float)
  : Resultado (option Seleccion) :=
  let interiores :=
    List.filter (fun p =>
      match Tablero.obtenerCelda tb (fst p) (snd p) with
      | Some celda =>
          (1 <=? Celda.distanciaBorde celda)
          && (Celda.distanciaBorde celda <=? 2)
          && negb (Celda.descubierta celda)
          && negb (Celda.tieneBandera celda)
      | None => false
      end) (Tablero.posiciones tb) in
  if largo interiores =? 0 then Devuelve None
  else elegirAlAzar interiores azar "estrategia"
         "Estrategia inicial: interior cercano al borde".

(** [seleccionarCeldaCompletamenteAleatoria()] *)
Definition seleccionarCeldaCompletamenteAleatoria (tb : Tablero.t)
  (azar : float) : Resultado (option Seleccion) :=
  let celdasDisponibles :=
    List.filter (disponible tb) (Tablero.posiciones tb) in
  if largo celdasDisponibles =? 0 then
    Devuelve (Some {| s_fila := 0; s_columna := 0; s_tipo := "error";
                      s_razon := "No hay celdas disponibles" |})
  else elegirAlAzar celdasDisponibles azar "aleatorio" "Celda aleatoria".

(** [calcularDistanciaManhattan(celda1, celda2)] *)
Definition calcularDistanciaManhattan (celda1 celda2 : Pos) : Z :=
  Z.abs (fst celda1 - fst celda2) + Z.abs (snd celda1 - snd celda2).

(** [[...lista].sort((a, b) => clave(a) - clave(b))]: la ordenación de
    [Array.prototype.sort] es estable y, con un comparador coherente como
    la diferencia de una clave entera, su resultado es la lista ordenada
    por la clave con los empates en su orden de llegada. *)
Fixpoint insertarPor {A} (clave : A -> Z) (x : A) (l : list A) : list A :=
  match l with
  | [] => [x]
  | y :: resto =>
      if clave x <? clave y then x :: y :: resto
      else y :: insertarPor clave x resto
  end.

Definition ordenarPor {A} (clave : A -> Z) (l : list A) : list A :=
  fold_left (fun ordenadas x => insertarPor clave x ordenadas) l [].

(** [elegirMejorCeldaSegura(celdasSeguras)], con el historial de
    movimientos del analizador; [None] es [undefined]. *)
Definition elegirMejorCeldaSegura (historialMovimientos : list Pos)
  (celdasSeguras : list Celda.t) : option Celda.t :=
  if largo celdasSeguras =? 1 then celdasSeguras !! 0%nat
  else
    let esquinas := List.filter Celda.esEsquina celdasSeguras in
    if 0 <? largo esquinas then esquinas !! 0%nat
    else
      let bordes := List.filter Celda.esBorde celdasSeguras in
      if 0 <? largo bordes then bordes !! 0%nat
      else
        match last historialMovimientos with
        | Some ultimoMovimiento =>
            ordenarPor (fun c => calcularDistanciaManhattan (Celda.pos c)
                                   ultimoMovimiento)
                       celdasSeguras !! 0%nat
        | None => celdasSeguras !! 0%nat
        end.

(** [clasificarCeldasPorNiveles(celdas)] *)
Record Clasificacion : Type := {
  muySeguras : list Celda.t;
  seguras : list Celda.t;
  bajoRiesgo : list Celda.t;
  riesgoModerado : list Celda.t;
  altoRiesgo : list Celda.t
}.

(** El cuerpo de [celdas.forEach(celda => ...)]: la celda va al final de
    la lista de su nivel. *)
Definition anotar (clasificacion : Clasificacion) (celda : Celda.t)
  : Clasificacion :=
  let prob := Celda.probabilidadMina (Celda.probabilidades celda) in
  if JS.menor prob 0.1 then
    {| muySeguras := muySeguras clasificacion ++ [celda];
       seguras := seguras clasificacion;
       bajoRiesgo := bajoRiesgo clasificacion;
       riesgoModerado := riesgoModerado clasificacion;
       altoRiesgo := altoRiesgo clasificacion |}
  else if JS.menor prob 0.2 then
    {| muySeguras := muySeguras clasificacion;
       seguras := seguras clasificacion ++ [celda];
       bajoRiesgo := bajoRiesgo clasificacion;
       riesgoModerado := riesgoModerado clasificacion;
       altoRiesgo := altoRiesgo clasificacion |}
  else if JS.menor prob 0.3 then
    {| muySeguras := muySeguras clasificacion;
       seguras := seguras clasificacion;
       bajoRiesgo := bajoRiesgo clasificacion ++ [celda];
       riesgoModerado := riesgoModerado clasificacion;
       altoRiesgo := altoRiesgo clasificacion |}
  else if JS.menor prob 0.5 then
    {| muySeguras := muySeguras clasificacion;
       seguras := seguras clasificacion;
       bajoRiesgo := bajoRiesgo clasificacion;
       riesgoModerado := riesgoModerado clasificacion ++ [celda];
       altoRiesgo := altoRiesgo clasificacion |}
  else
    {| muySeguras := muySeguras clasificacion;
       seguras := seguras clasificacion;
       bajoRiesgo := bajoRiesgo clasificacion;
       riesgoModerado := riesgoModerado clasificacion;
       altoRiesgo := altoRiesgo clasificacion ++ [celda] |}.

Definition clasificarCeldasPorNiveles (celdas : list Celda.t)
  : Clasificacion :=
  fold_left anotar celdas
    {| muySeguras := []; seguras := []; bajoRiesgo := [];
       riesgoModerado := []; altoRiesgo := [] |}.

End AnalizadorCeldas.

(** ** Predicados de la especificación *)

(** Lo que una celda es, aparte de sus restricciones y de su registro de
    probabilidades. *)
Definition formaCelda (c : Celda.t)
  : Z * Z * bool * bool * Celda.Valor * (bool * bool * Z) :=
  (Celda.fila c, Celda.columna c, Celda.descubierta c, Celda.tieneBandera c,
   Celda.valor c,
   (Celda.esEsquina c, Celda.esBorde c, Celda.distanciaBorde c)).

(** Lo que una celda es, aparte de su registro de probabilidades. *)
Definition estructuraCelda (c : Celda.t)
  : Z * Z * bool * bool * Celda.Valor * (bool * bool * Z)
    * list Celda.Restriccion :=
  (formaCelda c, Celda.restricciones c).

(** Dos tableros que solo difieren en restricciones y probabilidades. *)
Definition mismaForma (t1 t2 : Tablero.t) : Prop :=
  Tablero.filas t1 = Tablero.filas t2
  /\ Tablero.columnas t1 = Tablero.columnas t2
  /\ forall fila columna,
       option_map formaCelda (Tablero.obtenerCelda t1 fila columna)
       = option_map formaCelda (Tablero.obtenerCelda t2 fila columna).

(** Dos tableros que solo difieren en probabilidades. *)
Definition mismaEstructura (t1 t2 : Tablero.t) : Prop :=
  Tablero.filas t1 = Tablero.filas t2
  /\ Tablero.columnas t1 = Tablero.columnas t2
  /\ forall fila columna,
       option_map estructuraCelda (Tablero.obtenerCelda t1 fila columna)
       = option_map estructuraCelda (Tablero.obtenerCelda t2 fila columna).

(** Tablero rectangular: toda posición válida tiene su celda, y la celda
    lleva sus propias coordenadas. *)
Definition bienFormado (tb : Tablero.t) : Prop :=
  forall fila columna,
    Tablero.esPosicionValida tb fila columna = true ->
    exists celda,
      Tablero.obtenerCelda tb fila columna = Some celda
      /\ Celda.fila celda = fila /\ Celda.columna celda = columna.

Definition bienFormadoB (tb : Tablero.t) : bool :=
  forallb (fun p =>
             match Tablero.obtenerCelda tb (fst p) (snd p) with
             | Some celda => mismaPos (Celda.pos celda) p
             | None => false
             end) (Tablero.posiciones tb).

(** Las restricciones están al día: toda celda sin revelar adyacente a
    una celda numérica lleva la restricción de esa celda. *)
Definition restriccionesCompletas (tb : Tablero.t) : Prop :=
  forall fila columna celdaNumerica vecina,
    Tablero.obtenerCelda tb fila columna = Some celdaNumerica ->
    Celda.tieneValorNumerico celdaNumerica = true ->
    In vecina (Tablero.obtenerCeldasAdyacentes tb fila columna) ->
    Celda.descubierta vecina = false ->
    exists r, In r (Celda.restricciones vecina)
              /\ Celda.celdaOrigen r = (fila, columna).

(** Invariante del tablero entre llamadas: rectangular y, si el indicador
    dice que las restricciones están actualizadas, lo están. *)
Definition coherente (tb : Tablero.t) : Prop :=
  bienFormado tb
  /\ (Tablero.restriccionesActualizadas tb = true -> restriccionesCompletas tb).

(** Una candidata bien fundada: su celda existe en el tablero y no está
    descubierta ni tiene bandera. *)
Definition candidataEn (tb : Tablero.t) (b : GestorBanderas.Bandera) : Prop :=
  exists celda,
    Tablero.obtenerCelda tb (GestorBanderas.b_fila b)
                         (GestorBanderas.b_columna b) = Some celda
    /\ Celda.descubierta celda = false
    /\ Celda.tieneBandera celda = false.

(** Una instantánea de celda tomada de un tablero con la estructura de [tb]. *)
Definition tomadaDe (tb : Tablero.t) (celda : Celda.t) : Prop :=
  exists c0,
    Tablero.obtenerCelda tb (Celda.fila celda) (Celda.columna celda) = Some c0
    /\ estructuraCelda c0 = estructuraCelda celda.

(** Invariante de los análisis respecto al tablero [tb] de partida: solo
    cambian probabilidades, y toda bandera anotada es una candidata bien
    fundada. *)
Definition invariante (tb : Tablero.t) (g : GestorBanderas.t) : Prop :=
  mismaEstructura (GestorBanderas.tablero g) tb
  /\ Forall (candidataEn tb) (GestorBanderas.banderasColocadas g).

(** [t'] tiene la forma de [t] y cada celda conserva, al menos, las
    restricciones que tenía en [t]. *)
Definition crece (t t' : Tablero.t) : Prop :=
  Tablero.filas t = Tablero.filas t'
  /\ Tablero.columnas t = Tablero.columnas t'
  /\ forall fila columna,
       match Tablero.obtenerCelda t fila columna,
             Tablero.obtenerCelda t' fila columna with
       | Some a, Some b =>
           formaCelda a = formaCelda b
           /\ incl (Celda.restricciones a) (Celda.restricciones b)
       | None, None => True
       | _, _ => False
       end.

(** La restricción de la celda numérica de [p] llega a todas sus vecinas
    sin revelar. *)
Definition restriccionCompletaEn (tb : Tablero.t) (p : Pos) : Prop :=
  forall celdaNumerica vecina,
    Tablero.obtenerCelda tb (fst p) (snd p) = Some celdaNumerica ->
    Celda.tieneValorNumerico celdaNumerica = true ->
    In vecina (Tablero.obtenerCeldasAdyacentes tb (fst p) (snd p)) ->
    Celda.descubierta vecina = false ->
    exists r, In r (Celda.restricciones vecina) /\ Celda.celdaOrigen r = p.

(** Banderas puestas o anotadas en [lote] alrededor de la celda [o]. *)
Definition recuento (tb : Tablero.t) (lote : list GestorBanderas.Bandera)
  (o : Pos) : Z :=
  largo (List.filter
           (fun c => Celda.tieneBandera c || GestorBanderas.enLista lote c)
           (Tablero.obtenerCeldasAdyacentes tb (fst o) (snd o))).

(** Banderas ya puestas alrededor de la celda [o]. *)
Definition banderasPuestas (tb : Tablero.t) (o : Pos) : Z :=
  largo (List.filter Celda.tieneBandera
           (Tablero.obtenerCeldasAdyacentes tb (fst o) (snd o))).

(** Ninguna restricción que afecte a una bandera del lote ve superado su
    valor al contar las banderas puestas y las del lote. *)
Definition respetaRestricciones (tb : Tablero.t)
  (lote : list GestorBanderas.Bandera) : Prop :=
  forall b celdaB r celdaO,
    In b lote ->
    Tablero.obtenerCelda tb (GestorBanderas.b_fila b)
                         (GestorBanderas.b_columna b) = Some celdaB ->
    In r (Celda.restricciones celdaB) ->
    Tablero.obtenerCelda tb (fst (Celda.celdaOrigen r))
                         (snd (Celda.celdaOrigen r)) = Some celdaO ->
    Celda.tieneValorNumerico celdaO = true ->
    recuento tb lote (Celda.celdaOrigen r)
    <= numeroDe (Celda.obtenerValorNumerico celdaO).

(** [t'] es [t] con, acaso, más banderas: mismas celdas, mismas
    descubiertas, y ninguna bandera quitada. *)
Definition masBanderas (t t' : Tablero.t) : Prop :=
  Tablero.filas t = Tablero.filas t'
  /\ Tablero.columnas t = Tablero.columnas t'
  /\ forall fila columna,
       match Tablero.obtenerCelda t fila columna,
             Tablero.obtenerCelda t' fila columna with
       | Some a, Some b =>
           Celda.fila a = Celda.fila b
           /\ Celda.columna a = Celda.columna b
           /\ Celda.descubierta a = Celda.descubierta b
           /\ (Celda.tieneBandera a = true -> Celda.tieneBandera b = true)
       | None, None => True
       | _, _ => False
       end.

(** Una asignación de minas a [n] celdas: un 0 o un 1 por celda. *)
Definition esAsignacion (n : nat) (c : MotorProbabilidad.Combinacion)
  : Prop :=
  length c = n /\ Forall (fun x => x = 0 \/ x = 1) c.

(** La fracción de la especificación: de las asignaciones consistentes,
    la parte que pone una mina en la celda de índice [i]. *)
Definition fraccionConMina
  (consistentes : list MotorProbabilidad.Combinacion) (i : nat) : float :=
  let conMina :=
    List.filter (fun c : MotorProbabilidad.Combinacion =>
                   bool_decide (c !! i = Some 1)) consistentes in
  (JS.num (largo conMina) / JS.num (largo consistentes))%float.

(** Los contadores del tablero dicen lo que hay en él: tantas descubiertas
    y tantas banderas como celdas las llevan. *)
Definition contadoresAlDia (tb : Tablero.t) : Prop :=
  Tablero.contadorDescubiertas tb = largo (Tablero.obtenerCeldasReveladas tb)
  /\ Tablero.contadorBanderas tb = largo (Tablero.obtenerCeldasConBandera tb).

(** Las dos mutaciones del estado de juego de un tablero. *)
Inductive Mutacion : Type :=
| Revelar (fila columna : Z) (valor : Celda.Valor)
| Abanderar (fila columna : Z) (tieneBandera : bool).

Definition mutar (tb : Tablero.t) (m : Mutacion) : Tablero.t :=
  match m with
  | Revelar fila columna valor =>
      fst (Tablero.establecerValorCelda tb fila columna valor)
  | Abanderar fila columna tieneBandera =>
      fst (Tablero.establecerBandera tb fila columna tieneBandera)
  end.

(** El nivel de riesgo de una celda según los umbrales 0.1, 0.2, 0.3 y
    0.5 sobre su probabilidad de mina: de 0 (muy segura) a 4 (alto
    riesgo). *)
Definition nivelDeRiesgo (celda : Celda.t) : nat :=
  let prob := Celda.probabilidadMina (Celda.probabilidades celda) in
  if JS.menor prob 0.1 then 0
  else if JS.menor prob 0.2 then 1
  else if JS.menor prob 0.3 then 2
  else if JS.menor prob 0.5 then 3
  else 4.

Definition deNivel (n : nat) (celdas : list Celda.t) : list Celda.t :=
  List.filter (fun celda => Nat.eqb (nivelDeRiesgo celda) n) celdas.

(** La restricción [r], hallada en la celda de la posición [q], dice lo
    que hay en el tablero [tb]: su origen es una celda numérica revelada,
    y lleva el número de esa celda, las banderas puestas a su alrededor,
    las minas que le faltan y las posiciones de sus adyacentes sin
    revelar, entre las que está [q]. *)
Definition restriccionJusta (tb : Tablero.t) (q : Pos)
  (r : Celda.Restriccion) : Prop :=
  let origen := Celda.celdaOrigen r in
  exists celdaNumerica valor,
    Tablero.obtenerCelda tb (fst origen) (snd origen) = Some celdaNumerica
    /\ Celda.tieneValorNumerico celdaNumerica = true
    /\ Celda.obtenerValorNumerico celdaNumerica = Some valor
    /\ Celda.r_valor r = valor
    /\ Celda.banderasColocadas r = banderasPuestas tb origen
    /\ Celda.minasRestantes r = valor - banderasPuestas tb origen
    /\ Celda.celdasAfectadas r
       = map Celda.pos
           (List.filter (fun c => negb (Celda.descubierta c))
              (Tablero.obtenerCeldasAdyacentes tb (fst origen) (snd origen)))
    /\ In q (Celda.celdasAfectadas r).

(** Ninguna celda lleva dos restricciones del mismo origen, y todas las
    que lleva son justas. *)
Definition restriccionesJustas (tb : Tablero.t) : Prop :=
  forall fila columna celda,
    Tablero.obtenerCelda tb fila columna = Some celda ->
    NoDup (map Celda.celdaOrigen (Celda.restricciones celda))
    /\ forall r, In r (Celda.restricciones celda) ->
         restriccionJusta tb (fila, columna) r.

(** Tablero íntegro: rectangular, con los contadores al día y, si el
    indicador dice que las restricciones están actualizadas, con las
    restricciones completas y justas. *)
Definition integro (tb : Tablero.t) : Prop :=
  bienFormado tb /\ contadoresAlDia tb
  /\ (Tablero.restriccionesActualizadas tb = true ->
      restriccionesCompletas tb /\ restriccionesJustas tb).

(** Los tableros que el programa alcanza: el que crea el constructor (o
    [reiniciar]), y los que salen de uno alcanzado al revelar una celda,
    poner o quitar una bandera, actualizar las restricciones o anotar una
    probabilidad en una de sus celdas. *)
Inductive alcanzable : Tablero.t -> Prop :=
| alcanzable_nuevo (nf nc : Z) : alcanzable (Tablero.constructor nf nc)
| alcanzable_reiniciar (tb : Tablero.t) :
    alcanzable tb -> alcanzable (Tablero.reiniciar tb)
| alcanzable_mutar (tb : Tablero.t) (m : Mutacion) :
    alcanzable tb -> alcanzable (mutar tb m)
| alcanzable_restricciones (tb : Tablero.t) :
    alcanzable tb -> alcanzable (Tablero.actualizarRestricciones tb)
| alcanzable_probabilidades (tb : Tablero.t) (fila columna : Z)
    (celda : Celda.t) (prob conf : float) (o : string) :
    alcanzable tb ->
    Tablero.obtenerCelda tb fila columna = Some celda ->
    alcanzable (Tablero.modificarCelda tb (fila, columna)
                  (fun c => Celda.actualizarProbabilidades c prob conf o)).

(** Dos celdas comparten restricción si alguna celda numérica las
    restringe a las dos. *)
Definition comparten (tb : Tablero.t) (p q : Pos) : Prop :=
  exists cp cq o,
    MotorProbabilidad.celdaEn tb p = Some cp
    /\ MotorProbabilidad.celdaEn tb q = Some cq
    /\ In o (map Celda.celdaOrigen (Celda.restricciones cp))
    /\ In o (map Celda.celdaOrigen (Celda.restricciones cq)).

(** Conectadas por una cadena de celdas de [celdas] en la que cada una
    comparte restricción con la siguiente. *)
Inductive conectadas (tb : Tablero.t) (celdas : list Pos) (p : Pos)
  : Pos -> Prop :=
| conectadas_misma : conectadas tb celdas p p
| conectadas_paso (q r : Pos) :
    conectadas tb celdas p q -> In r celdas -> comparten tb q r ->
    conectadas tb celdas p r.

(** El estado del bucle de [obtenerGrupoConexo] tras el [cola.shift()]. *)
Definition trasSacar (e : MotorProbabilidad.EstadoConexo) (resto : list Pos)
  : MotorProbabilidad.EstadoConexo :=
  {| MotorProbabilidad.cola := resto;
     MotorProbabilidad.visitadas := MotorProbabilidad.visitadas e;
     MotorProbabilidad.celdasAgrupadas := MotorProbabilidad.celdasAgrupadas e;
     MotorProbabilidad.ec_celdas := MotorProbabilidad.ec_celdas e;
     MotorProbabilidad.ec_restricciones :=
       MotorProbabilidad.ec_restricciones e |}.

(** El filtro de [celdasConectadas]: la celda [otra] no está visitada y
    lleva una restricción de origen [origen]. *)
Definition enlazada (tb : Tablero.t) (visitadas : gset Pos) (origen : Pos)
  (otra : Pos) : bool :=
  if bool_decide (otra ∈ visitadas) then false
  else match MotorProbabilidad.celdaEn tb otra with
       | Some otraCelda => MotorProbabilidad.tieneRestriccionDe otraCelda origen
       | None => false
       end.

(** Invariante del bucle de [obtenerGrupoConexo] que parte de [inicial]
    con [agrupadas] ya en grupos anteriores. *)
Definition invarianteConexo (tb : Tablero.t) (celdas : list Pos)
  (agrupadas : gset Pos) (inicial : Pos)
  (e : MotorProbabilidad.EstadoConexo) : Prop :=
  (forall p, In p (MotorProbabilidad.cola e) ->
     In p celdas /\ (p ∉ agrupadas) /\ conectadas tb celdas inicial p)
  /\ NoDup (MotorProbabilidad.ec_celdas e)
  /\ (forall p, (p ∈ MotorProbabilidad.visitadas e)
                <-> In p (MotorProbabilidad.ec_celdas e))
  /\ (forall p, In p (MotorProbabilidad.ec_celdas e) ->
        In p celdas /\ (p ∉ agrupadas) /\ conectadas tb celdas inicial p)
  /\ (forall p, (p ∈ MotorProbabilidad.celdasAgrupadas e)
                <-> In p (MotorProbabilidad.ec_celdas e) \/ p ∈ agrupadas)
  /\ NoDup (MotorProbabilidad.ec_restricciones e)
  /\ (forall o, In o (MotorProbabilidad.ec_restricciones e)
                <-> exists p celda,
                      In p (MotorProbabilidad.ec_celdas e)
                      /\ MotorProbabilidad.celdaEn tb p = Some celda
                      /\ In o (map Celda.celdaOrigen
                                   (Celda.restricciones celda)))
  /\ (forall p q, In p (MotorProbabilidad.ec_celdas e) -> In q celdas ->
        comparten tb p q ->
        In q (MotorProbabilidad.ec_celdas e)
        \/ In q (MotorProbabilidad.cola e))
  /\ (In inicial (MotorProbabilidad.ec_celdas e)
      \/ In inicial (MotorProbabilidad.cola e)).

(** Lo que es un grupo conexo del motor sobre [celdas]: la componente
    conexa de una celda de la lista que tiene restricciones, sin celdas
    repetidas, con los orígenes de las restricciones de sus celdas, una
    vez cada uno y cada uno con su número. *)
Definition esGrupoConexo (tb : Tablero.t) (celdas : list Pos)
  (grupo : MotorProbabilidad.Grupo) : Prop :=
  NoDup (MotorProbabilidad.g_celdas grupo)
  /\ (exists inicial celdaInicial,
        In inicial celdas
        /\ MotorProbabilidad.celdaEn tb inicial = Some celdaInicial
        /\ Celda.restricciones celdaInicial <> []
        /\ forall p, In p (MotorProbabilidad.g_celdas grupo)
                     <-> conectadas tb celdas inicial p)
  /\ NoDup (map fst (MotorProbabilidad.g_restricciones grupo))
  /\ (forall o, In o (map fst (MotorProbabilidad.g_restricciones grupo))
                <-> exists p celda,
                      In p (MotorProbabilidad.g_celdas grupo)
                      /\ MotorProbabilidad.celdaEn tb p = Some celda
                      /\ In o (map Celda.celdaOrigen
                                   (Celda.restricciones celda)))
  /\ (forall o v, In (o, v) (MotorProbabilidad.g_restricciones grupo) ->
        exists celdaNumerica valor,
          MotorProbabilidad.celdaEn tb o = Some celdaNumerica
          /\ Celda.obtenerValorNumerico celdaNumerica = Some valor
          /\ v = Some valor).

(** Invariante del [forEach] de [obtenerGruposConectados] cuando ha
    pasado por las celdas [hechas]. *)
Definition invarianteGrupos (tb : Tablero.t) (celdas hechas : list Pos)
  (estado : list MotorProbabilidad.Grupo * gset Pos) : Prop :=
  let todas := concat (map MotorProbabilidad.g_celdas (fst estado)) in
  NoDup todas
  /\ (forall p, (p ∈ snd estado) <-> In p todas)
  /\ (forall grupo, In grupo (fst estado) -> esGrupoConexo tb celdas grupo)
  /\ (forall p celda, In p hechas ->
        MotorProbabilidad.celdaEn tb p = Some celda ->
        Celda.restricciones celda <> [] -> p ∈ snd estado)
  /\ (forall p q, p ∈ snd estado -> In q celdas -> comparten tb p q ->
        q ∈ snd estado).

(** De [m] a [m'] el motor solo ha anotado probabilidades, y solo en
    celdas de la lista [celdas]: el tablero conserva su estructura, sus
    contadores y su indicador, las celdas de fuera de la lista son las
    mismas, y el registro de cálculos no cambia. *)
Definition soloProbabilidades (celdas : list Pos)
  (m m' : MotorProbabilidad.t) : Prop :=
  mismaEstructura (MotorProbabilidad.tablero m') (MotorProbabilidad.tablero m)
  /\ (forall fila columna, ~ In (fila, columna) celdas ->
        Tablero.obtenerCelda (MotorProbabilidad.tablero m') fila columna
        = Tablero.obtenerCelda (MotorProbabilidad.tablero m) fila columna)
  /\ MotorProbabilidad.registroCalculos m'
     = MotorProbabilidad.registroCalculos m
  /\ Tablero.contadorDescubiertas (MotorProbabilidad.tablero m')
     = Tablero.contadorDescubiertas (MotorProbabilidad.tablero m)
  /\ Tablero.contadorBanderas (MotorProbabilidad.tablero m')
     = Tablero.contadorBanderas (MotorProbabilidad.tablero m)
  /\ Tablero.restriccionesActualizadas (MotorProbabilidad.tablero m')
     = Tablero.restriccionesActualizadas (MotorProbabilidad.tablero m).

(** La bandera [b] se anotó tras pasar [esSeguroColocarBandera]: hay un
    estado del gestor, con la estructura del tablero [tb], y una
    instantánea de la celda de la bandera que pasaron la comprobación. *)
Definition marcadaConSeguridad (tb : Tablero.t) (b : GestorBanderas.Bandera)
  : Prop :=
  exists g celda,
    mismaEstructura (GestorBanderas.tablero g) tb
    /\ tomadaDe tb celda
    /\ GestorBanderas.esSeguroColocarBandera g celda = true
    /\ GestorBanderas.b_fila b = Celda.fila celda
    /\ GestorBanderas.b_columna b = Celda.columna celda.

(** Invariante de los análisis: solo cambian probabilidades, y toda
    bandera anotada pasó [esSeguroColocarBandera]. *)
Definition invarianteMarcas (tb : Tablero.t) (g : GestorBanderas.t) : Prop :=
  mismaEstructura (GestorBanderas.tablero g) tb
  /\ Forall (marcadaConSeguridad tb) (GestorBanderas.banderasColocadas g).

(** La celda numérica [celdaNumerica] tiene una adyacente sin revelar en
    la posición [clave]. *)
Definition restringeA (tb : Tablero.t) (clave : Pos)
  (celdaNumerica : Celda.t) : bool :=
  existsb (fun celda => mismaPos (Celda.pos celda) clave)
          (GestorBanderas.sinRevelar
             (Tablero.obtenerCeldasAdyacentes tb
                (Celda.fila celdaNumerica) (Celda.columna celdaNumerica))).

(** Invariante del bucle de [obtenerGrupoConectado]: las celdas del grupo
    son celdas sin revelar del tablero, de posiciones distintas, y
    [celdasEnGrupo] son sus posiciones. *)
Definition invarianteGrupo (tb : Tablero.t)
  (e : GestorBanderas.EstadoGrupo) : Prop :=
  let celdas := GestorBanderas.g_celdas (GestorBanderas.grupo e) in
  NoDup (map Celda.pos celdas)
  /\ (forall p, (p ∈ GestorBanderas.celdasEnGrupo e)
                <-> In p (map Celda.pos celdas))
  /\ (forall celda, In celda celdas ->
        Tablero.obtenerCelda tb (Celda.fila celda) (Celda.columna celda)
        = Some celda
        /\ Celda.descubierta celda = false).

(** Lo que se puede decir de todo grupo que devuelve
    [agruparRestriccionesPorCeldasComunes]. *)
Definition grupoDeRestricciones (tb : Tablero.t)
  (grupo : GestorBanderas.Grupo) : Prop :=
  (2 <= length (GestorBanderas.g_restricciones grupo))%nat
  /\ NoDup (map Celda.pos (GestorBanderas.g_celdas grupo))
  /\ (forall celda, In celda (GestorBanderas.g_celdas grupo) ->
        Tablero.obtenerCelda tb (Celda.fila celda) (Celda.columna celda)
        = Some celda
        /\ Celda.descubierta celda = false).







(** Una disposición de minas compatible con lo que el tablero enseña:
    ninguna celda revelada es una mina y cada celda numérica tiene a su
    alrededor tantas minas como dice su número. *)
Definition disposicionCompatible (tb : Tablero.t) (minas : list Pos) : bool :=
  forallb (fun celda =>
    if Celda.descubierta celda then
      negb (existsb (mismaPos (Celda.pos celda)) minas)
      && (if Celda.tieneValorNumerico celda then
            match Celda.obtenerValorNumerico celda with
            | Some valor =>
                largo (List.filter
                         (fun adj => existsb (mismaPos (Celda.pos adj)) minas)
                         (Tablero.obtenerCeldasAdyacentes tb
                            (Celda.fila celda) (Celda.columna celda)))
                =? valor
            | None => true
            end
          else true)
    else true) (Tablero.todas tb).

(** La candidata [b], contada con las banderas ya puestas y con las
    candidatas ya aceptadas, haría pasar de su dígito a alguna de las
    restricciones que la referencian. *)
Definition superaAlguna (tb : Tablero.t)
  (aceptadas : list GestorBanderas.Bandera) (b : GestorBanderas.Bandera)
  : Prop :=
  exists celdaB r celdaO,
    Tablero.obtenerCelda tb (GestorBanderas.b_fila b)
                         (GestorBanderas.b_columna b) = Some celdaB
    /\ In r (Celda.restricciones celdaB)
    /\ Tablero.obtenerCelda tb (fst (Celda.celdaOrigen r))
                            (snd (Celda.celdaOrigen r)) = Some celdaO
    /\ Celda.tieneValorNumerico celdaO = true
    /\ numeroDe (Celda.obtenerValorNumerico celdaO)
       < recuento tb (aceptadas ++ [b]) (Celda.celdaOrigen r).

(** La revisión que pide la especificación: las candidatas se repasan en
    orden; la que haría superar su dígito a alguna restricción se
    descarta, y las demás se aceptan y cuentan para las siguientes.
    [revisadas tb aceptadas candidatas lote]: partiendo de [aceptadas], la
    revisión de [candidatas] deja el lote [lote]. *)
Inductive revisadas (tb : Tablero.t)
  : list GestorBanderas.Bandera -> list GestorBanderas.Bandera ->
    list GestorBanderas.Bandera -> Prop :=
| revisadas_fin aceptadas : revisadas tb aceptadas [] aceptadas
| revisadas_acepta aceptadas b resto lote :
    ~ superaAlguna tb aceptadas b ->
    revisadas tb (aceptadas ++ [b]) resto lote ->
    revisadas tb aceptadas (b :: resto) lote
| revisadas_descarta aceptadas b resto lote :
    superaAlguna tb aceptadas b ->
    revisadas tb aceptadas resto lote ->
    revisadas tb aceptadas (b :: resto) lote.

(** El índice de la celda [p] entre las celdas del grupo. *)
Fixpoint indiceEn (celdas : list Pos) (p : Pos) : option nat :=
  match celdas with
  | [] => None
  | q :: resto =>
      if mismaPos q p then Some 0%nat else option_map S (indiceEn resto p)
  end.

(** La mina (0 o 1) que la asignación pone en la celda [p]; ninguna si
    [p] no es una celda del grupo. *)
Definition minaAsignada (celdas : list Pos)
  (asignacion : MotorProbabilidad.Combinacion) (p : Pos) : Z :=
  match indiceEn celdas p with
  | Some i => default 0 (asignacion !! i)
  | None => 0
  end.

(** Las minas que la asignación pone alrededor de la celda numérica
    [origen]: las de sus adyacentes sin revelar. *)
Definition minasEnTorno (tb : Tablero.t) (celdas : list Pos)
  (asignacion : MotorProbabilidad.Combinacion) (origen : Pos) : Z :=
  fold_right Z.add 0
    (map (fun vecina => minaAsignada celdas asignacion (Celda.pos vecina))
         (List.filter (fun c => negb (Celda.descubierta c))
            (Tablero.obtenerCeldasAdyacentes tb (fst origen) (snd origen)))).

(** La asignación es consistente con todas las restricciones del grupo:
    alrededor de cada celda numérica pone tantas minas como dice su
    número. *)
Definition consistenteCon (tb : Tablero.t) (grupo : MotorProbabilidad.Grupo)
  (asignacion : MotorProbabilidad.Combinacion) : bool :=
  forallb (fun '(origen, valor) =>
             minasEnTorno tb (MotorProbabilidad.g_celdas grupo) asignacion
                          origen
             =? numeroDe valor)
          (MotorProbabilidad.g_restricciones grupo).

(** Ninguna celda tiene bandera alrededor de las restricciones del
    grupo. *)
Definition sinBanderasEnTorno (tb : Tablero.t)
  (grupo : MotorProbabilidad.Grupo) : Prop :=
  forall origen valor,
    In (origen, valor) (MotorProbabilidad.g_restricciones grupo) ->
    banderasPuestas tb origen = 0.

(** El grupo es cerrado: sus celdas son distintas y del tablero, cada
    restricción lleva el número que enseña su celda, y toda adyacente sin
    revelar de una restricción es una celda del grupo. *)
Definition grupoCerrado (tb : Tablero.t) (grupo : MotorProbabilidad.Grupo)
  : Prop :=
  NoDup (MotorProbabilidad.g_celdas grupo)
  /\ (forall p, In p (MotorProbabilidad.g_celdas grupo) ->
        Tablero.esPosicionValida tb (fst p) (snd p) = true)
  /\ (forall origen valor,
        In (origen, valor) (MotorProbabilidad.g_restricciones grupo) ->
        exists celdaNumerica numero,
          Tablero.obtenerCelda tb (fst origen) (snd origen)
          = Some celdaNumerica
          /\ Celda.tieneValorNumerico celdaNumerica = true
          /\ Celda.obtenerValorNumerico celdaNumerica = Some numero
          /\ valor = Some numero)
  /\ (forall origen valor vecina,
        In (origen, valor) (MotorProbabilidad.g_restricciones grupo) ->
        In vecina (Tablero.obtenerCeldasAdyacentes tb
                     (fst origen) (snd origen)) ->
        Celda.descubierta vecina = false ->
        In (Celda.pos vecina) (MotorProbabilidad.g_celdas grupo)).

(** La celda de la posición [p] no guarda aún una certeza: su confianza
    no pasa de 0.95, el umbral con que el motor separa las certezas. *)
Definition sinCertezaEn (tb : Tablero.t) (p : Pos) : Prop :=
  exists celda,
    Tablero.obtenerCelda tb (fst p) (snd p) = Some celda
    /\ JS.menorIgual (Celda.confianza (Celda.probabilidades celda)) 0.95
       = true.

(** La celda guarda la anulación absoluta: probabilidad de mina 0 con
    confianza 1 y origen 'analisis100'. *)
Definition anulada (celda : Celda.t) : Prop :=
  Celda.probabilidadMina (Celda.probabilidades celda) = 0%float
  /\ Celda.probabilidadSegura (Celda.probabilidades celda) = 1%float
  /\ Celda.confianza (Celda.probabilidades celda) = 1%float
  /\ Celda.origen (Celda.probabilidades celda) = "analisis100"%string.

(** Lo que conservan las etapas previas al ajuste final, respecto al
    tablero [tb0] con que empieza la pasada: su estructura, y que la
    celda de [p] sigue sin certeza. *)
Definition sinCertezaTras (tb0 : Tablero.t) (p : Pos)
  (m : MotorProbabilidad.t) : Prop :=
  mismaEstructura (MotorProbabilidad.tablero m) tb0
  /\ sinCertezaEn (MotorProbabilidad.tablero m) p.

(** La celda [celda] está junto a una celda revelada como vacía o como
    "0". *)
Definition juntoAUnCero (tb : Tablero.t) (celda : Celda.t) : Prop :=
  exists adyacente,
    In adyacente (Tablero.obtenerCeldasAdyacentes tb
                    (Celda.fila celda) (Celda.columna celda))
    /\ Celda.descubierta adyacente = true
    /\ (Celda.valor adyacente = Celda.Vacia
        \/ Celda.valor adyacente = Celda.Numero 0).

(** Lo que cumple un grupo de [restriccionesPorCelda] cuando quedan por
    repasar las celdas [pendientes]: sus celdas son distintas, ya
    repasadas y todas con la clave del grupo, y sus restricciones son las
    de una celda con esa clave. *)
Definition grupoLocalSano (tb : Tablero.t) (pendientes : list Pos)
  (clave : list Pos) (grupo : MotorProbabilidad.GrupoLocal) : Prop :=
  NoDup (MotorProbabilidad.gl_celdas grupo)
  /\ (forall q, In q (MotorProbabilidad.gl_celdas grupo) ->
        ~ In q pendientes
        /\ exists celda,
             MotorProbabilidad.celdaEn tb q = Some celda
             /\ MotorProbabilidad.claveDeRestricciones celda = clave)
  /\ exists celda0,
       MotorProbabilidad.claveDeRestricciones celda0 = clave
       /\ MotorProbabilidad.gl_restricciones grupo
          = Celda.restricciones celda0.

(** ** Entradas concretas de los testigos y contraejemplos *)

Definition tablero_C9 : Tablero.t := Tablero.constructor 8 8.

(** Un tablero 8x8 con una bandera en (2,3). *)
Definition tablero_C10 : Tablero.t :=
  fst (Tablero.establecerBandera (Tablero.constructor 8 8) 2 3 true).


(** Una sesión nueva sin memoria guardada, con una mina registrada en
    (0,0) de un tablero 8x8. *)
Definition gestor_C7 : GestorMemoria.t :=
  GestorMemoria.registrarMinaEncontrada
    (GestorMemoria.constructor None 0) 0 0 (Tablero.constructor 8 8) 1.

(** La misma sesión tras tres contradicciones. *)
Definition gestor_C7_tras_tres : GestorMemoria.t :=
  GestorMemoria.registrarContradiccion
    (GestorMemoria.registrarContradiccion
       (GestorMemoria.registrarContradiccion gestor_C7 "a" 2) "b" 3) "c" 4.

(** Un tablero 8x8 recién creado y todas sus posiciones: la masa de
    probabilidad (64 x 0.5) se aleja más de un 50 % de las 12 minas que
    estima la densidad. *)
Definition motor_C4 : MotorProbabilidad.t :=
  MotorProbabilidad.constructor (Tablero.constructor 8 8).

Definition celdas_C4 : list Pos :=
  Tablero.posiciones (Tablero.constructor 8 8).

(** Un tablero 8x8 con (0,0) revelada como "0", y la pasada del motor de
    probabilidad sobre él, sin memoria. *)
Definition tablero_esquina_cero : Tablero.t :=
  fst (Tablero.establecerValorCelda (Tablero.constructor 8 8) 0 0
         (Celda.Numero 0)).

Definition pasada_esquina_cero
  : Resultado (MotorProbabilidad.t * list Pos) :=
  MotorProbabilidad.calcularProbabilidades (fun _ => 0%float) 0
    (MotorProbabilidad.constructor tablero_esquina_cero) None.

(** Un tablero 2x4 coherente con las minas en (0,0), (0,1) y (0,3):
<<
      ? ? 2 ?
      2 2 2 ?
>> *)
Definition tablero_dos_pasadas : Tablero.t :=
  fold_left (fun tb '(fila, columna, n) =>
               fst (Tablero.establecerValorCelda tb fila columna
                      (Celda.Numero n)))
            [(0, 2, 2); (1, 0, 2); (1, 1, 2); (1, 2, 2)]
            (Tablero.constructor 2 4).

Definition gestor_dos_pasadas : GestorBanderas.t :=
  GestorBanderas.constructor tablero_dos_pasadas.

(** Las posiciones de un lote de banderas. *)
Definition posicionesDe (lote : list GestorBanderas.Bandera) : list Pos :=
  map (fun b => (GestorBanderas.b_fila b, GestorBanderas.b_columna b)) lote.

(** La segunda pasada del gestor: sobre el tablero que deja la primera,
    con su lote ya colocado por [procesarNuevasBanderas]. *)
Definition segundaPasada (g1 : GestorBanderas.t)
  (lote1 : list GestorBanderas.Bandera)
  : Resultado (GestorBanderas.t * list GestorBanderas.Bandera) :=
  GestorBanderas.colocarBanderasSeguras
    (GestorBanderas.conTablero g1
       (Juego.procesarNuevasBanderas (GestorBanderas.tablero g1) lote1)).

(** Un tablero 8x8 con tres unos revelados en la primera fila: las once
    celdas sin revelar que los rodean forman un solo grupo conexo.
<<
      ? 1 ? 1 ? 1 ? ?
      ? ? ? ? ? ? ? ?
>> *)
Definition tablero_muestreo : Tablero.t :=
  fold_left (fun tb '(fila, columna, n) =>
               fst (Tablero.establecerValorCelda tb fila columna
                      (Celda.Numero n)))
            [(0, 1, 1); (0, 3, 1); (0, 5, 1)]
            (Tablero.constructor 8 8).

(** El motor al llegar a la etapa global: restricciones al día y etapas
    base y local ya corridas. *)
Definition motor_muestreo : MotorProbabilidad.t :=
  let m0 :=
    MotorProbabilidad.constructor
      (Tablero.actualizarRestricciones tablero_muestreo) in
  let celdasSinRevolar :=
    map Celda.pos
        (Tablero.obtenerCeldasSinRevolar (MotorProbabilidad.tablero m0)) in
  MotorProbabilidad.calcularProbabilidadesLocales
    (MotorProbabilidad.inicializarProbabilidadesBase m0 celdasSinRevolar)
    celdasSinRevolar.

Definition celdas_muestreo : list Pos :=
  map Celda.pos
      (Tablero.obtenerCeldasSinRevolar
         (MotorProbabilidad.tablero motor_muestreo)).

Definition grupo_muestreo : MotorProbabilidad.Grupo :=
  {| MotorProbabilidad.g_celdas :=
       [(0, 0); (0, 2); (1, 0); (1, 1); (1, 2); (0, 4); (1, 3); (1, 4);
        (0, 6); (1, 5); (1, 6)];
     MotorProbabilidad.g_restricciones :=
       [((0, 1), Some 1); ((0, 3), Some 1); ((0, 5), Some 1)] |}.

(** Un [Math.random()] que hace de la muestra [i] los bits de [i]: la
    llamada [k] decide la celda [k mod 11] de la muestra [k / 11]. *)
Definition azar_por_bits (k : nat) : float :=
  if Z.testbit (Z.of_nat (k / 11)) (Z.of_nat (k mod 11))
  then 0.25%float else 0.75%float.

(** Las combinaciones consistentes del grupo, de entre las muestreadas. *)
Definition consistentes_muestreo : list MotorProbabilidad.Combinacion :=
  List.filter
    (MotorProbabilidad.esValida
       (MotorProbabilidad.prepararRestricciones
          (MotorProbabilidad.tablero motor_muestreo) grupo_muestreo))
    (snd (MotorProbabilidad.generarCombinaciones azar_por_bits
            motor_muestreo 11)).

(** Lo que guarda la celda [p]: probabilidad de mina, confianza y
    origen. *)
Definition guardado (tb : Tablero.t) (p : Pos)
  : option (float * float * string) :=
  option_map (fun celda =>
                (Celda.probabilidadMina (Celda.probabilidades celda),
                 Celda.confianza (Celda.probabilidades celda),
                 Celda.origen (Celda.probabilidades celda)))
             (MotorProbabilidad.celdaEn tb p).

(** La etapa global sobre ese motor: las llamadas al azar consumidas y lo
    que guardan las celdas (0,0) y (1,3). *)
Definition etapa_global_muestreo
  : Resultado (Z * option (float * float * string)
               * option (float * float * string)) :=
  m ← MotorProbabilidad.calcularProbabilidadesGlobales azar_por_bits
        motor_muestreo celdas_muestreo;
  mret (Z.of_nat (MotorProbabilidad.usosAzar m),
        guardado (MotorProbabilidad.tablero m) (0, 0),
        guardado (MotorProbabilidad.tablero m) (1, 3)).

(** Una jugada de la partida: la respuesta del usuario revela la celda
    ([procesarRespuesta]) y el movimiento siguiente corre el gestor de
    banderas y, si este no halla banderas, el motor de probabilidad con la
    memoria de la sesión (pasos 2 y 3 de [seleccionarMejorCelda]); si las
    halla, se colocan ([procesarNuevasBanderas]). *)
Definition jugada (tb : Tablero.t) (respuesta : Z * Z * Z)
  : Resultado Tablero.t :=
  let '(fila, columna, n) := respuesta in
  let tb1 :=
    fst (Tablero.establecerValorCelda tb fila columna (Celda.Numero n)) in
  r ← GestorBanderas.colocarBanderasSeguras (GestorBanderas.constructor tb1);
  match snd r with
  | [] =>
      p ← MotorProbabilidad.calcularProbabilidades (fun _ => 0%float) 0
            (MotorProbabilidad.constructor (GestorBanderas.tablero (fst r)))
            (Some (GestorMemoria.constructor None 0));
      mret (MotorProbabilidad.tablero (fst p))
  | lote =>
      mret (Juego.procesarNuevasBanderas (GestorBanderas.tablero (fst r)) lote)
  end.

(** Una partida 3x3 con minas en (0,0) y (0,1), tras tres respuestas:
<<
      ? ? 1
      2 2 ?
      ? ? ?
>> *)
Definition respuestas_tres_por_tres : list (Z * Z * Z) :=
  [(0, 2, 1); (1, 0, 2); (1, 1, 2)].

Definition partida_tres_por_tres : Resultado Tablero.t :=
  plegarR jugada respuestas_tres_por_tres (Tablero.constructor 3 3).

(** Un tablero 3x2 con un 2 y un 1 revelados, y una sola pasada del motor
    de probabilidad:
<<
      2 ?
      ? ?
      1 ?
>> *)
Definition tablero_tres_por_dos : Tablero.t :=
  fold_left (fun tb '(fila, columna, n) =>
               fst (Tablero.establecerValorCelda tb fila columna
                      (Celda.Numero n)))
            [(0, 0, 2); (2, 0, 1)]
            (Tablero.constructor 3 2).

Definition pasada_tres_por_dos
  : Resultado (MotorProbabilidad.t * list Pos) :=
  MotorProbabilidad.calcularProbabilidades (fun _ => 0%float) 0
    (MotorProbabilidad.constructor tablero_tres_por_dos) None.

(** Una sesión con dos contradicciones ya registradas y guardadas. *)
Definition gestor_dos_contradicciones : GestorMemoria.t :=
  GestorMemoria.registrarContradiccion
    (GestorMemoria.registrarContradiccion gestor_C7 "a" 2) "b" 3.

(** Una celda con una restricción de origen (1,1). *)
Definition restriccion_E2 (origen : Pos) (minas : Z) : Celda.Restriccion :=
  {| Celda.celdaOrigen := origen; Celda.r_valor := minas;
     Celda.banderasColocadas := 0; Celda.minasRestantes := minas;
     Celda.celdasAfectadas := [(0, 0)] |}.

Definition celda_E2 : Celda.t :=
  Celda.agregarRestriccion (Celda.constructor 0 0) (restriccion_E2 (1, 1) 1).

(** El tablero 8x8 con bandera en (2,3), con esa celda revelada después. *)
Definition tablero_bandera_revelada : Tablero.t :=
  fst (Tablero.establecerValorCelda tablero_C10 2 3 (Celda.Numero 1)).

(** Un tablero 8x8 con la esquina (0,0) revelada y bandera en (0,7). *)
Definition tablero_esquinas : Tablero.t :=
  fst (Tablero.establecerBandera tablero_esquina_cero 0 7 true).

(** Tres celdas seguras del interior de un tablero 8x8. *)
Definition seguras_E8 : list Celda.t :=
  omap (fun p : Pos => Tablero.obtenerCelda tablero_C9 (fst p) (snd p))
       [(5, 5); (2, 3); (3, 2)].

(** Un tablero 3x3 con el centro revelado como "1" y una bandera en
    (0,0), con las restricciones por actualizar. *)
Definition tablero_E9 : Tablero.t :=
  fst (Tablero.establecerBandera
         (fst (Tablero.establecerValorCelda (Tablero.constructor 3 3) 1 1
                 (Celda.Numero 1))) 0 0 true).

(** Un gestor con dos candidatas, (0,0) y (0,1), junto al 1 del centro de
    un tablero 3x3: la segunda no cabe. *)
Definition gestor_revision : GestorBanderas.t :=
  {| GestorBanderas.tablero :=
       Tablero.actualizarRestricciones
         (fst (Tablero.establecerValorCelda (Tablero.constructor 3 3) 1 1
                 (Celda.Numero 1)));
     GestorBanderas.banderasColocadas :=
       [ {| GestorBanderas.b_fila := 0; GestorBanderas.b_columna := 0;
            GestorBanderas.b_origen := GestorBanderas.AnalisisBasico (1, 1);
            GestorBanderas.iteracion := 1 |};
         {| GestorBanderas.b_fila := 0; GestorBanderas.b_columna := 1;
            GestorBanderas.b_origen := GestorBanderas.AnalisisBasico (1, 1);
            GestorBanderas.iteracion := 1 |} ];
     GestorBanderas.ultimaIteracion := 1 |}.


(** * Propiedades *)

(** ** Lemas sobre el tablero como almacén de celdas *)

Lemma obtenerCelda_valida tb fila columna celda :
  Tablero.obtenerCelda tb fila columna = Some celda ->
  Tablero.esPosicionValida tb fila columna = true.
Proof.
  unfold Tablero.obtenerCelda.
  destruct (Tablero.esPosicionValida tb fila columna); [reflexivity|discriminate].
Qed.

Lemma obtenerCelda_invalida tb fila columna :
  Tablero.esPosicionValida tb fila columna = false ->
  Tablero.obtenerCelda tb fila columna = None.
Proof. unfold Tablero.obtenerCelda. intros ->. reflexivity. Qed.

Lemma esPosicionValida_modificar tb p g fila columna :
  Tablero.esPosicionValida (Tablero.modificarCelda tb p g) fila columna
  = Tablero.esPosicionValida tb fila columna.
Proof. reflexivity. Qed.

Lemma obtenerCelda_modificar_misma tb fila columna g celda :
  Tablero.obtenerCelda tb fila columna = Some celda ->
  Tablero.obtenerCelda (Tablero.modificarCelda tb (fila, columna) g)
                       fila columna = Some (g celda).
Proof.
  unfold Tablero.obtenerCelda.
  rewrite esPosicionValida_modificar.
  destruct (Tablero.esPosicionValida tb fila columna); [|discriminate].
  cbn [Tablero.modificarCelda Tablero.conCeldas Tablero.celdas fst snd].
  rewrite list_lookup_alter_eq.
  destruct (Tablero.celdas tb !! Z.to_nat fila) as [filaCeldas|];
    cbn; [|discriminate].
  rewrite list_lookup_alter_eq. intros ->. reflexivity.
Qed.

Lemma obtenerCelda_modificar_otra tb p g fila columna :
  Tablero.esPosicionValida tb (fst p) (snd p) = true ->
  (fila, columna) <> p ->
  Tablero.obtenerCelda (Tablero.modificarCelda tb p g) fila columna
  = Tablero.obtenerCelda tb fila columna.
Proof.
  intros Hp Hne. unfold Tablero.obtenerCelda.
  rewrite esPosicionValida_modificar.
  destruct (Tablero.esPosicionValida tb fila columna) eqn:Hv; [|reflexivity].
  destruct p as [pf pc]. cbn [fst snd] in *.
  unfold Tablero.esPosicionValida in Hp, Hv.
  cbn [Tablero.modificarCelda Tablero.conCeldas Tablero.celdas fst snd].
  destruct (decide (Z.to_nat fila = Z.to_nat pf)) as [Hf|Hf].
  - rewrite Hf, list_lookup_alter_eq.
    destruct (Tablero.celdas tb !! Z.to_nat pf); cbn; [|reflexivity].
    apply list_lookup_alter_ne. intros Hc. apply Hne. f_equal; lia.
  - rewrite list_lookup_alter_ne by congruence. reflexivity.
Qed.

Lemma indices_spec n x : In x (Tablero.indices n) <-> 0 <= x < n.
Proof.
  unfold Tablero.indices. rewrite in_map_iff. split.
  - intros (k & <- & Hk). apply in_seq in Hk. lia.
  - intros H. exists (Z.to_nat x). split; [lia|]. apply in_seq. lia.
Qed.

Lemma posiciones_spec tb fila columna :
  In (fila, columna) (Tablero.posiciones tb)
  <-> Tablero.esPosicionValida tb fila columna = true.
Proof.
  unfold Tablero.posiciones, Tablero.esPosicionValida.
  rewrite in_flat_map. split.
  - intros (f & Hf & Hc). apply in_map_iff in Hc as (c & Heq & Hc).
    inversion Heq; subst. apply indices_spec in Hf, Hc. lia.
  - intros H. exists fila. split; [apply indices_spec; lia|].
    apply in_map_iff. exists columna. split; [reflexivity|].
    apply indices_spec. lia.
Qed.

Lemma bienFormadoB_correcto tb : bienFormadoB tb = true -> bienFormado tb.
Proof.
  unfold bienFormadoB, bienFormado. rewrite forallb_forall.
  intros H fila columna Hv. apply posiciones_spec in Hv.
  specialize (H _ Hv). cbn [fst snd] in H.
  destruct (Tablero.obtenerCelda tb fila columna) as [celda|]; [|discriminate].
  exists celda. unfold mismaPos, Celda.pos in H. cbn [fst snd] in H.
  split; [reflexivity|]. lia.
Qed.

Lemma en_todas tb fila columna celda :
  Tablero.obtenerCelda tb fila columna = Some celda ->
  In celda (Tablero.todas tb).
Proof.
  intros H. unfold Tablero.todas. apply list_elem_of_In, list_elem_of_omap.
  exists (fila, columna). split; [|exact H].
  apply list_elem_of_In, posiciones_spec. eapply obtenerCelda_valida; eauto.
Qed.

Lemma probabilidades_eta p :
  {| Celda.probabilidadMina := Celda.probabilidadMina p;
     Celda.probabilidadSegura := Celda.probabilidadSegura p;
     Celda.confianza := Celda.confianza p;
     Celda.origen := Celda.origen p;
     Celda.calculosAnteriores := Celda.calculosAnteriores p |} = p.
Proof. destruct p; reflexivity. Qed.

(** ** C9 *)

(** C9: una posición fuera de rango hace fallar [obtenerCelda] (devuelve
    [null]) y [establecerValorCelda] la rechaza sin tocar el tablero; en una
    posición válida de un tablero rectangular, [establecerValorCelda] no
    hace nada y devuelve [false] si la celda ya está descubierta, y si no
    fija el valor, marca la celda descubierta, deja las restricciones por
    actualizar y devuelve [true]. *)
Theorem C9_obtener_y_revelar (tb : Tablero.t) (fila columna : Z)
    (valor : Celda.Valor) :
  (Tablero.esPosicionValida tb fila columna = false ->
     Tablero.obtenerCelda tb fila columna = None
     /\ Tablero.establecerValorCelda tb fila columna valor = (tb, false))
  /\ (bienFormado tb ->
      Tablero.esPosicionValida tb fila columna = true ->
      exists celda,
        Tablero.obtenerCelda tb fila columna = Some celda
        /\ (Celda.descubierta celda = true ->
            Tablero.establecerValorCelda tb fila columna valor = (tb, false))
        /\ (Celda.descubierta celda = false ->
            exists tb' celda',
              Tablero.establecerValorCelda tb fila columna valor = (tb', true)
              /\ Tablero.obtenerCelda tb' fila columna = Some celda'
              /\ Celda.valor celda' = valor
              /\ Celda.descubierta celda' = true
              /\ Tablero.restriccionesActualizadas tb' = false
              /\ Tablero.contadorDescubiertas tb'
                 = Tablero.contadorDescubiertas tb + 1)).
Proof.
  split.
  - intros Hinv. pose proof (obtenerCelda_invalida _ _ _ Hinv) as Hnone.
    split; [exact Hnone|].
    unfold Tablero.establecerValorCelda. rewrite Hnone. reflexivity.
  - intros Hbf Hv. destruct (Hbf _ _ Hv) as (celda & Hcel & _ & _).
    exists celda. split; [exact Hcel|]. split.
    + intros Hd. unfold Tablero.establecerValorCelda.
      rewrite Hcel, Hd. reflexivity.
    + intros Hd. unfold Tablero.establecerValorCelda.
      rewrite Hcel, Hd. cbn [negb].
      eexists _, (Celda.establecerValor celda valor).
      split; [reflexivity|].
      split.
      { pose proof (obtenerCelda_modificar_misma tb fila columna
                      (fun c => Celda.establecerValor c valor) celda Hcel) as H.
        exact H. }
      repeat split.
Qed.

Lemma C9_obtener_y_revelar_testigo :
  (Tablero.obtenerCelda tablero_C9 8 0 = None
   /\ Tablero.establecerValorCelda tablero_C9 8 0 (Celda.Numero 1)
      = (tablero_C9, false))
  /\ exists celda,
       Tablero.obtenerCelda tablero_C9 2 3 = Some celda
       /\ exists tb' celda',
            Tablero.establecerValorCelda tablero_C9 2 3 (Celda.Numero 1)
            = (tb', true)
            /\ Tablero.obtenerCelda tb' 2 3 = Some celda'
            /\ Celda.valor celda' = Celda.Numero 1
            /\ Celda.descubierta celda' = true.
Proof.
  destruct (C9_obtener_y_revelar tablero_C9 8 0 (Celda.Numero 1)) as [H1 _].
  destruct (C9_obtener_y_revelar tablero_C9 2 3 (Celda.Numero 1)) as [_ H2].
  split; [apply H1; reflexivity|].
  destruct H2 as (celda & Hc & _ & Hno).
  - apply bienFormadoB_correcto. vm_compute. reflexivity.
  - reflexivity.
  - exists celda. split; [exact Hc|].
    assert (Hd : Celda.descubierta celda = false).
    { vm_compute in Hc. injection Hc as <-. reflexivity. }
    destruct (Hno Hd) as (tb' & celda' & He & Hg & Hv & Hd' & _).
    exists tb', celda'. repeat split; assumption.
Defined.

(** ** C10 *)

(** C10: quitar la bandera de una celda sin revelar que la tiene cambia, en
    la celda, solo el bit [tieneBandera]; el contador de banderas baja en
    uno y las demás celdas no cambian. El registro de probabilidades queda
    intacto: si era el (1, 1, 'bandera') que dejó la colocación, sigue
    siéndolo, y la celda sigue figurando como mina segura. *)
Theorem C10_quitar_bandera_conserva_probabilidades (tb : Tablero.t)
    (fila columna : Z) (celda : Celda.t) :
  Tablero.obtenerCelda tb fila columna = Some celda ->
  Celda.descubierta celda = false ->
  Celda.tieneBandera celda = true ->
  exists tb',
    Tablero.establecerBandera tb fila columna false = (tb', true)
    /\ Tablero.obtenerCelda tb' fila columna
       = Some {| Celda.fila := Celda.fila celda;
                 Celda.columna := Celda.columna celda;
                 Celda.descubierta := Celda.descubierta celda;
                 Celda.tieneBandera := false;
                 Celda.valor := Celda.valor celda;
                 Celda.restricciones := Celda.restricciones celda;
                 Celda.probabilidades := Celda.probabilidades celda;
                 Celda.analizada := Celda.analizada celda;
                 Celda.iteracionAnalisis := Celda.iteracionAnalisis celda;
                 Celda.esEsquina := Celda.esEsquina celda;
                 Celda.esBorde := Celda.esBorde celda;
                 Celda.distanciaBorde := Celda.distanciaBorde celda |}
    /\ Tablero.contadorBanderas tb' = Tablero.contadorBanderas tb - 1
    /\ (forall f c, (f, c) <> (fila, columna) ->
          Tablero.obtenerCelda tb' f c = Tablero.obtenerCelda tb f c)
    /\ (Celda.probabilidadMina (Celda.probabilidades celda) = 1%float ->
        Celda.confianza (Celda.probabilidades celda) = 1%float ->
        Celda.origen (Celda.probabilidades celda) = "bandera"%string ->
        exists celda',
          Tablero.obtenerCelda tb' fila columna = Some celda'
          /\ Celda.probabilidadMina (Celda.probabilidades celda') = 1%float
          /\ Celda.confianza (Celda.probabilidades celda') = 1%float
          /\ Celda.origen (Celda.probabilidades celda') = "bandera"%string
          /\ Celda.es100PorCientoMina celda' = true
          /\ In celda' (Tablero.obtenerCeldasConCertezaDeMina tb')).
Proof.
  intros Hcel Hd Hb.
  assert (He : exists tb',
    Tablero.establecerBandera tb fila columna false = (tb', true)
    /\ tb' =
      {| Tablero.filas := Tablero.filas tb;
         Tablero.columnas := Tablero.columnas tb;
         Tablero.celdas :=
           Tablero.celdas (Tablero.modificarCelda tb (fila, columna)
                             (fun c => Celda.establecerBandera c false));
         Tablero.contadorDescubiertas := Tablero.contadorDescubiertas tb;
         Tablero.contadorBanderas := Tablero.contadorBanderas tb + -1;
         Tablero.restriccionesActualizadas := false;
         Tablero.ultimoCambio :=
           {| Tablero.tipo := "bandera"; Tablero.c_fila := Some fila;
              Tablero.c_columna := Some columna;
              Tablero.c_valor := Tablero.ValorBandera false |} |}).
  { unfold Tablero.establecerBandera. rewrite Hcel, Hd, Hb.
    eexists. split; reflexivity. }
  destruct He as (tb' & He & ->). eexists. split; [exact He|].
  pose proof (obtenerCelda_modificar_misma tb fila columna
                (fun c => Celda.establecerBandera c false) celda Hcel) as Hm.
  assert (Hm' : forall cont act uc,
    Tablero.obtenerCelda
      {| Tablero.filas := Tablero.filas tb;
         Tablero.columnas := Tablero.columnas tb;
         Tablero.celdas :=
           Tablero.celdas (Tablero.modificarCelda tb (fila, columna)
                             (fun c => Celda.establecerBandera c false));
         Tablero.contadorDescubiertas := Tablero.contadorDescubiertas tb;
         Tablero.contadorBanderas := cont;
         Tablero.restriccionesActualizadas := act;
         Tablero.ultimoCambio := uc |} fila columna
    = Some (Celda.establecerBandera celda false)) by (intros; exact Hm).
  assert (Hcelda' : Celda.establecerBandera celda false
    = {| Celda.fila := Celda.fila celda;
         Celda.columna := Celda.columna celda;
         Celda.descubierta := Celda.descubierta celda;
         Celda.tieneBandera := false;
         Celda.valor := Celda.valor celda;
         Celda.restricciones := Celda.restricciones celda;
         Celda.probabilidades := Celda.probabilidades celda;
         Celda.analizada := Celda.analizada celda;
         Celda.iteracionAnalisis := Celda.iteracionAnalisis celda;
         Celda.esEsquina := Celda.esEsquina celda;
         Celda.esBorde := Celda.esBorde celda;
         Celda.distanciaBorde := Celda.distanciaBorde celda |}).
  { unfold Celda.establecerBandera. cbn. rewrite probabilidades_eta.
    reflexivity. }
  split; [rewrite <- Hcelda'; apply Hm'|].
  split; [cbn; lia|].
  split.
  { intros f c Hne.
    apply (obtenerCelda_modificar_otra tb (fila, columna)
             (fun c => Celda.establecerBandera c false) f c);
      [eapply obtenerCelda_valida; eauto | exact Hne]. }
  intros Hp Hc Ho.
  eexists. split; [apply Hm'|]. rewrite Hcelda'. cbn.
  repeat split; try assumption.
  - unfold Celda.es100PorCientoMina. cbn. rewrite Hp, Hc. reflexivity.
  - unfold Tablero.obtenerCeldasConCertezaDeMina. apply filter_In. split.
    + eapply en_todas. rewrite <- Hcelda'. apply Hm'.
    + cbn. rewrite Hd. unfold Celda.es100PorCientoMina. cbn.
      rewrite Hp, Hc. reflexivity.
Qed.

Lemma C10_quitar_bandera_conserva_probabilidades_testigo :
  exists celda tb' celda',
    Tablero.obtenerCelda tablero_C10 2 3 = Some celda
    /\ Tablero.establecerBandera tablero_C10 2 3 false = (tb', true)
    /\ Tablero.obtenerCelda tb' 2 3 = Some celda'
    /\ Celda.tieneBandera celda' = false
    /\ Celda.probabilidades celda' = Celda.probabilidades celda
    /\ Celda.es100PorCientoMina celda' = true.
Proof.
  destruct (Tablero.obtenerCelda tablero_C10 2 3) as [celda|] eqn:Hc;
    [|vm_compute in Hc; discriminate].
  assert (Hd : Celda.descubierta celda = false)
    by (vm_compute in Hc; injection Hc as <-; reflexivity).
  assert (Hb : Celda.tieneBandera celda = true)
    by (vm_compute in Hc; injection Hc as <-; reflexivity).
  destruct (C10_quitar_bandera_conserva_probabilidades
              tablero_C10 2 3 celda Hc Hd Hb)
    as (tb' & He & Hg & _ & _ & Hcert).
  destruct Hcert as (celda' & Hg' & _ & _ & _ & Hmina & _);
    try (vm_compute in Hc; injection Hc as <-; reflexivity).
  exists celda, tb', celda'.
  repeat split; try assumption.
  - rewrite Hg in Hg'. injection Hg' as <-. reflexivity.
  - rewrite Hg in Hg'. injection Hg' as <-. reflexivity.
Defined.

(** ** C2 *)

(** Ningún origen queda por debajo de un origen sin rango: [0 > x] es
    falso para todo valor de la tabla, sea número o texto. *)
Lemma nada_bajo_el_rango_cero o :
  Celda.mayorQue (Celda.Nivel 0) (Celda.rango o) = false.
Proof.
  unfold Celda.rango.
  destruct (Celda.buscar Celda.jerarquia o) as [n|] eqn:E.
  - cbn [Celda.mayorQue]. apply Z.ltb_ge.
    revert E. unfold Celda.jerarquia. cbn [Celda.buscar].
    repeat match goal with
           | |- context [if ?b then _ else _] =>
               destruct b; [intros [= <-]; lia|]
           end.
    discriminate.
  - destruct (Celda.buscar Celda.heredadas o); [reflexivity|].
    destruct (String.eqb o "__proto__"); reflexivity.
Qed.





(** ** C7 *)

Lemma ejecutar_conserva_cambiosDetectados g op :
  GestorMemoria.cambiosDetectados g = true ->
  GestorMemoria.cambiosDetectados (GestorMemoria.ejecutar g op) = true.
Proof.
  intros H. destruct op as [fila columna tb ahora | tipo ahora | ]; cbn.
  - exact H.
  - unfold GestorMemoria.registrarContradiccion.
    match goal with |- context [if ?b then _ else _] => destruct b end;
      cbn; [reflexivity | exact H].
  - unfold GestorMemoria.obtenerMapaMinasConocidas.
    destruct (GestorMemoria.cambiosDetectados g) eqn:E; cbn;
      rewrite E; exact H.
Qed.

Lemma ejecutarTodas_conserva_cambiosDetectados ops : forall g,
  GestorMemoria.cambiosDetectados g = true ->
  GestorMemoria.cambiosDetectados (GestorMemoria.ejecutarTodas g ops) = true.
Proof.
  unfold GestorMemoria.ejecutarTodas.
  induction ops as [|op ops IH]; intros g H; cbn; [exact H|].
  apply IH, ejecutar_conserva_cambiosDetectados, H.
Qed.

Lemma contador_tras_contradiccion g tipo ahora :
  GestorMemoria.contadorCambios
    (default GestorMemoria.controlInicial
       (GestorMemoria.controlCambios
          (GestorMemoria.memoria
             (GestorMemoria.registrarContradiccion g tipo ahora))))
  = GestorMemoria.contadorCambios
      (default GestorMemoria.controlInicial
         (GestorMemoria.controlCambios (GestorMemoria.memoria g))) + 1.
Proof.
  unfold GestorMemoria.registrarContradiccion.
  match goal with |- context [if ?b then _ else _] => destruct b end;
    reflexivity.
Qed.

Lemma cambios_tras_contradiccion g tipo ahora :
  GestorMemoria.cambiosDetectados
    (GestorMemoria.registrarContradiccion g tipo ahora)
  = (3 <=? GestorMemoria.contadorCambios
             (default GestorMemoria.controlInicial
                (GestorMemoria.controlCambios (GestorMemoria.memoria g))) + 1)
    || GestorMemoria.cambiosDetectados g.
Proof.
  unfold GestorMemoria.registrarContradiccion. cbn.
  match goal with |- context [if ?b then _ else _] => destruct b end;
    reflexivity.
Qed.

(** C7 (enmendada): tras tres contradicciones registradas, [cambiosDetectados]
    es verdadero (y en una memoria nueva no lo era tras la primera ni la
    segunda) y lo sigue siendo tras cualquier secuencia de registros de
    minas, contradicciones y lecturas; la tercera contradicción atenúa
    cada mina conocida a [max(1, floor(ocurrencias * 0.7))] y la marca no
    reciente; cada lectura posterior devuelve, sin tocar el gestor ni la
    memoria persistida, una copia con [max(1, floor(ocurrencias * 0.5))]
    ocurrencias y no reciente. *)
Theorem C7_cambios_detectados_y_atenuacion (g : GestorMemoria.t)
    (tipo1 tipo2 tipo3 : string) (t1 t2 t3 : Z) :
  let contador0 :=
    GestorMemoria.contadorCambios
      (default GestorMemoria.controlInicial
         (GestorMemoria.controlCambios (GestorMemoria.memoria g))) in
  let g1 := GestorMemoria.registrarContradiccion g tipo1 t1 in
  let g2 := GestorMemoria.registrarContradiccion g1 tipo2 t2 in
  let g3 := GestorMemoria.registrarContradiccion g2 tipo3 t3 in
  0 <= contador0 ->
  GestorMemoria.cambiosDetectados g3 = true
  /\ (contador0 = 0 -> GestorMemoria.cambiosDetectados g = false ->
      GestorMemoria.cambiosDetectados g1 = false
      /\ GestorMemoria.cambiosDetectados g2 = false)
  /\ GestorMemoria.mapaMinasConocidas (GestorMemoria.memoria g3)
     = GestorMemoria.atenuarMina
         <$> GestorMemoria.mapaMinasConocidas (GestorMemoria.memoria g2)
  /\ (forall mina,
        GestorMemoria.ocurrencias (GestorMemoria.atenuarMina mina)
        = Z.max 1 (JS.floorZ (JS.num (GestorMemoria.ocurrencias mina) * 0.7))
        /\ GestorMemoria.esReciente (GestorMemoria.atenuarMina mina) = false)
  /\ (forall ops,
        let g' := GestorMemoria.ejecutarTodas g3 ops in
        GestorMemoria.cambiosDetectados g' = true
        /\ fst (GestorMemoria.obtenerMapaMinasConocidas g') = g'
        /\ forall clave,
             snd (GestorMemoria.obtenerMapaMinasConocidas g') !! clave
             = GestorMemoria.reducirMina
                 <$> (GestorMemoria.mapaMinasConocidas
                        (GestorMemoria.memoria g') !! clave))
  /\ (forall mina,
        GestorMemoria.ocurrencias (GestorMemoria.reducirMina mina)
        = Z.max 1 (JS.floorZ (JS.num (GestorMemoria.ocurrencias mina) * 0.5))
        /\ 1 <= GestorMemoria.ocurrencias (GestorMemoria.reducirMina mina)
        /\ GestorMemoria.esReciente (GestorMemoria.reducirMina mina) = false).
Proof.
  cbv zeta. intros H0.
  set (g1 := GestorMemoria.registrarContradiccion g tipo1 t1).
  set (g2 := GestorMemoria.registrarContradiccion g1 tipo2 t2).
  set (g3 := GestorMemoria.registrarContradiccion g2 tipo3 t3).
  pose proof (contador_tras_contradiccion g tipo1 t1) as Hc1.
  pose proof (contador_tras_contradiccion g1 tipo2 t2) as Hc2.
  fold g1 in Hc1. fold g2 in Hc2.
  assert (H3 : GestorMemoria.cambiosDetectados g3 = true).
  { unfold g3. rewrite cambios_tras_contradiccion.
    apply orb_true_iff. left. apply Z.leb_le. lia. }
  split; [exact H3|]. split; [|split; [|split; [|split]]].
  - intros Hz Hf. unfold g2. rewrite cambios_tras_contradiccion. fold g1.
    assert (Hg1 : GestorMemoria.cambiosDetectados g1 = false).
    { unfold g1. rewrite cambios_tras_contradiccion, Hf, Hz. reflexivity. }
    split; [exact Hg1|]. rewrite Hg1, Hc1, Hz. reflexivity.
  - unfold g3, GestorMemoria.registrarContradiccion.
    match goal with |- context [if ?b then _ else _] =>
      destruct b eqn:Hb end; [reflexivity|].
    exfalso. cbn [GestorMemoria.contadorCambios] in Hb.
    apply Z.leb_gt in Hb. lia.
  - intros mina. split; reflexivity.
  - intros ops.
    pose proof (ejecutarTodas_conserva_cambiosDetectados ops g3 H3) as Hops.
    split; [exact Hops|].
    unfold GestorMemoria.obtenerMapaMinasConocidas. rewrite Hops.
    split; [reflexivity|]. intros clave. cbn. apply lookup_fmap.
  - intros mina. split; [reflexivity|]. split; [cbn; lia | reflexivity].
Qed.

Lemma C7_cambios_detectados_y_atenuacion_testigo :
  GestorMemoria.cambiosDetectados gestor_C7_tras_tres = true
  /\ GestorMemoria.cambiosDetectados
       (GestorMemoria.registrarContradiccion gestor_C7 "a" 2) = false.
Proof.
  assert (H0 : 0 <= GestorMemoria.contadorCambios
                      (default GestorMemoria.controlInicial
                         (GestorMemoria.controlCambios
                            (GestorMemoria.memoria gestor_C7))))
    by (vm_compute; discriminate).
  destruct (C7_cambios_detectados_y_atenuacion gestor_C7 "a" "b" "c" 2 3 4 H0)
    as (H3 & H12 & _).
  split; [exact H3|].
  apply H12; reflexivity.
Defined.

(** C7, contraejemplo: una mina con una sola ocurrencia. Tras tres
    contradicciones la lectura devuelve 1, lo mismo que hay guardado: no
    decrece estrictamente. *)
Lemma C7_lectura_no_decrece_estrictamente :
  GestorMemoria.cambiosDetectados gestor_C7_tras_tres = true
  /\ exists guardada leida,
       GestorMemoria.mapaMinasConocidas
         (GestorMemoria.memoria gestor_C7_tras_tres) !! ((0, 0) : Pos)
       = Some guardada
       /\ snd (GestorMemoria.obtenerMapaMinasConocidas gestor_C7_tras_tres)
            !! ((0, 0) : Pos) = Some leida
       /\ GestorMemoria.ocurrencias guardada = 1
       /\ GestorMemoria.ocurrencias leida = 1
       /\ ~ (GestorMemoria.ocurrencias leida
             < GestorMemoria.ocurrencias guardada).
Proof.
  split; [vm_compute; reflexivity|].
  destruct (GestorMemoria.mapaMinasConocidas
              (GestorMemoria.memoria gestor_C7_tras_tres) !! ((0, 0) : Pos))
    as [guardada|] eqn:Hg; [|vm_compute in Hg; discriminate].
  destruct (snd (GestorMemoria.obtenerMapaMinasConocidas gestor_C7_tras_tres)
              !! ((0, 0) : Pos))
    as [leida|] eqn:Hl; [|vm_compute in Hl; discriminate].
  exists guardada, leida.
  assert (H1 : GestorMemoria.ocurrencias guardada = 1)
    by (vm_compute in Hg; injection Hg as <-; reflexivity).
  assert (H2 : GestorMemoria.ocurrencias leida = 1)
    by (vm_compute in Hl; injection Hl as <-; reflexivity).
  repeat split; try assumption. lia.
Qed.

(** ** C4 *)

Lemma mayor_irreflexivo (c : float) : JS.mayor c c = false.
Proof.
  unfold JS.mayor. rewrite ltb_spec. unfold SFltb.
  destruct (SFcompare (Prim2SF c) (Prim2SF c)) as [[]|] eqn:E;
    try reflexivity.
  exfalso. revert E. generalize (Prim2SF c). intros s.
  destruct s as [ [] | [] | | [] m e]; cbn; try discriminate.
  - rewrite Z.compare_refl, Pos.compare_cont_refl. discriminate.
  - rewrite Z.compare_refl, Pos.compare_cont_refl. discriminate.
Qed.

Lemma normalizado_no_actualiza (celda : Celda.t) (prob : float) :
  Celda.actualizarProbabilidades celda prob
    (Celda.confianza (Celda.probabilidades celda)) "normalizado" = celda.
Proof.
  unfold Celda.actualizarProbabilidades, Celda.debeActualizar,
    Celda.esOrigenMasConfiable.
  rewrite mayor_irreflexivo.
  replace (Celda.rango "normalizado") with (Celda.Nivel 0) by reflexivity.
  rewrite nada_bajo_el_rango_cero, andb_false_r. reflexivity.
Qed.

Lemma alter_sin_efecto {A} (f : A -> A) (l : list A) (i : nat) (x : A) :
  l !! i = Some x -> f x = x -> alter f i l = l.
Proof.
  intros Hl Hf. apply list_eq. intros k. rewrite list_lookup_alter.
  destruct (decide (i = k)) as [->|]; [|reflexivity].
  rewrite Hl. cbn. rewrite Hf. reflexivity.
Qed.

Lemma modificarCelda_sin_efecto tb fila columna g celda :
  Tablero.obtenerCelda tb fila columna = Some celda ->
  g celda = celda ->
  Tablero.modificarCelda tb (fila, columna) g = tb.
Proof.
  unfold Tablero.obtenerCelda, Tablero.modificarCelda, Tablero.conCeldas.
  destruct (Tablero.esPosicionValida tb fila columna); [|discriminate].
  cbn [fst snd].
  destruct (Tablero.celdas tb !! Z.to_nat fila) as [filaCeldas|] eqn:Hf;
    [|discriminate].
  intros Hc Hg.
  rewrite (alter_sin_efecto _ _ _ filaCeldas Hf).
  - destruct tb; reflexivity.
  - eapply alter_sin_efecto; eauto.
Qed.

Lemma fold_left_fijo {A S} (f : S -> A -> S) (l : list A) (s : S) :
  (forall x, In x l -> f s x = s) -> fold_left f l s = s.
Proof.
  induction l as [|x l IH]; intros H; cbn; [reflexivity|].
  rewrite (H x) by (left; reflexivity).
  apply IH. intros y Hy. apply H. right. exact Hy.
Qed.

(** C4, en general: en un tablero rectangular la etapa de normalización
    no cambia nada, se cumpla o no la condición del 50 %: el valor
    reescalado se calcula, pero [actualizarProbabilidades] lo rechaza
    (misma confianza y origen 'normalizado', que no está en la jerarquía). *)
Lemma normalizarProbabilidades_no_guarda (m : MotorProbabilidad.t)
    (celdasSinRevolar : list Pos) :
  bienFormado (MotorProbabilidad.tablero m) ->
  MotorProbabilidad.normalizarProbabilidades m celdasSinRevolar = m.
Proof.
  intros Hbf. unfold MotorProbabilidad.normalizarProbabilidades.
  destruct (MotorProbabilidad.requiereNormalizar _ _); [|reflexivity].
  unfold MotorProbabilidad.porCadaCelda. apply fold_left_fijo.
  intros p _. unfold MotorProbabilidad.celdaEn.
  destruct (Tablero.obtenerCelda (MotorProbabilidad.tablero m) (fst p) (snd p))
    as [celda|] eqn:Hc; [|reflexivity].
  destruct (JS.menor _ _); [|reflexivity].
  unfold MotorProbabilidad.actualizar, MotorProbabilidad.conTablero.
  destruct (Hbf _ _ (obtenerCelda_valida _ _ _ _ Hc)) as (c' & Hc' & Hfi & Hco).
  rewrite Hc in Hc'. injection Hc' as <-.
  unfold Celda.pos. rewrite Hfi, Hco.
  rewrite (modificarCelda_sin_efecto _ _ _ _ celda Hc).
  - destruct m; reflexivity.
  - apply normalizado_no_actualiza.
Qed.

(** La etapa aislada sobre un tablero 8x8 nuevo: la condición del 50 % se
    cumple, la celda (3,3) no es segura (confianza 0) y su valor reescalado
    es 0.1875, pero tras la normalización sigue guardando 0.5. *)
Lemma normalizacion_sobre_tablero_nuevo :
  MotorProbabilidad.requiereNormalizar
    (MotorProbabilidad.tablero motor_C4) celdas_C4 = true
  /\ exists celda celda',
       Tablero.obtenerCelda (MotorProbabilidad.tablero motor_C4) 3 3
       = Some celda
       /\ JS.menor (Celda.confianza (Celda.probabilidades celda)) 0.95 = true
       /\ MotorProbabilidad.reescalada
            (MotorProbabilidad.factorEscala
               (MotorProbabilidad.tablero motor_C4) celdas_C4) celda
          = 0.1875%float
       /\ Tablero.obtenerCelda
            (MotorProbabilidad.tablero
               (MotorProbabilidad.normalizarProbabilidades motor_C4 celdas_C4))
            3 3 = Some celda'
       /\ Celda.probabilidadMina (Celda.probabilidades celda') = 0.5%float.
Proof.
  split; [vm_compute; reflexivity|].
  rewrite normalizarProbabilidades_no_guarda
    by (apply bienFormadoB_correcto; vm_compute; reflexivity).
  destruct (Tablero.obtenerCelda (MotorProbabilidad.tablero motor_C4) 3 3)
    as [celda|] eqn:Hc; [|vm_compute in Hc; discriminate].
  exists celda, celda.
  vm_compute in Hc. injection Hc as <-.
  repeat split; vm_compute; reflexivity.
Qed.

(** C4, en la entrada que falla: tablero 8x8 con (0,0) revelada como "0" y
    una pasada completa del motor. Al terminar, la masa de probabilidad
    (5.1) se aleja más de un 50 % de las 12 minas estimadas y la celda
    (0,2) no es segura (confianza 0.5), pero guarda el 0.085 de la etapa de
    frontera y no su valor reescalado (0.2). *)
Theorem C4_valor_reescalado_no_se_guarda :
  exists m celdas celda,
    pasada_esquina_cero = Devuelve (m, celdas)
    /\ MotorProbabilidad.requiereNormalizar
         (MotorProbabilidad.tablero m) celdas = true
    /\ Tablero.obtenerCelda (MotorProbabilidad.tablero m) 0 2 = Some celda
    /\ JS.menor (Celda.confianza (Celda.probabilidades celda)) 0.95 = true
    /\ Celda.origen (Celda.probabilidades celda) = "no_frontera"%string
    /\ JS.igual (Celda.probabilidadMina (Celda.probabilidades celda))
                (0.85 * 0.1) = true
    /\ JS.mayor
         (MotorProbabilidad.reescalada
            (MotorProbabilidad.factorEscala
               (MotorProbabilidad.tablero m) celdas) celda)
         0.2 = true.
Proof.
  destruct pasada_esquina_cero as [[m celdas]| |] eqn:Hp;
    try (vm_compute in Hp; discriminate).
  exists m, celdas.
  destruct (Tablero.obtenerCelda (MotorProbabilidad.tablero m) 0 2)
    as [celda|] eqn:Hc.
  - exists celda. split; [reflexivity|].
    vm_compute in Hp. injection Hp as <- <-.
    vm_compute in Hc. injection Hc as <-.
    repeat split; vm_compute; reflexivity.
  - exfalso. vm_compute in Hp. injection Hp as <- <-.
    vm_compute in Hc. discriminate.
Qed.

(** ** Estructura del tablero bajo las mutaciones de celdas *)

Lemma obtenerCelda_modificar_casos tb p g fila columna :
  Tablero.obtenerCelda (Tablero.modificarCelda tb p g) fila columna
  = Tablero.obtenerCelda tb fila columna
  \/ Tablero.obtenerCelda (Tablero.modificarCelda tb p g) fila columna
     = option_map g (Tablero.obtenerCelda tb fila columna).
Proof.
  unfold Tablero.obtenerCelda. rewrite esPosicionValida_modificar.
  destruct (Tablero.esPosicionValida tb fila columna); [|left; reflexivity].
  cbn [Tablero.modificarCelda Tablero.conCeldas Tablero.celdas].
  rewrite list_lookup_alter.
  destruct (decide (Z.to_nat (fst p) = Z.to_nat fila)) as [->|];
    [|left; reflexivity].
  destruct (Tablero.celdas tb !! Z.to_nat fila) as [filaCeldas|];
    cbn; [|left; reflexivity].
  rewrite list_lookup_alter.
  destruct (decide (Z.to_nat (snd p) = Z.to_nat columna)) as [->|];
    [right|left]; reflexivity.
Qed.

Section Proyeccion.
Context {B : Type} (proy : Celda.t -> B).

Lemma proyeccion_modificar tb p g fila columna :
  (forall c, proy (g c) = proy c) ->
  option_map proy
    (Tablero.obtenerCelda (Tablero.modificarCelda tb p g) fila columna)
  = option_map proy (Tablero.obtenerCelda tb fila columna).
Proof.
  intros Hg.
  destruct (obtenerCelda_modificar_casos tb p g fila columna) as [->| ->];
    [reflexivity|].
  destruct (Tablero.obtenerCelda tb fila columna); cbn; [|reflexivity].
  rewrite Hg. reflexivity.
Qed.
End Proyeccion.

Lemma forma_de_estructura c1 c2 :
  estructuraCelda c1 = estructuraCelda c2 -> formaCelda c1 = formaCelda c2.
Proof. unfold estructuraCelda. congruence. Qed.

Lemma estructura_campos c1 c2 :
  estructuraCelda c1 = estructuraCelda c2 ->
  Celda.fila c1 = Celda.fila c2 /\ Celda.columna c1 = Celda.columna c2
  /\ Celda.descubierta c1 = Celda.descubierta c2
  /\ Celda.tieneBandera c1 = Celda.tieneBandera c2
  /\ Celda.valor c1 = Celda.valor c2
  /\ Celda.restricciones c1 = Celda.restricciones c2.
Proof.
  unfold estructuraCelda, formaCelda. intros H. inversion H. auto 10.
Qed.

Lemma forma_campos c1 c2 :
  formaCelda c1 = formaCelda c2 ->
  Celda.fila c1 = Celda.fila c2 /\ Celda.columna c1 = Celda.columna c2
  /\ Celda.descubierta c1 = Celda.descubierta c2
  /\ Celda.tieneBandera c1 = Celda.tieneBandera c2
  /\ Celda.valor c1 = Celda.valor c2.
Proof. unfold formaCelda. intros H. inversion H. auto 10. Qed.

Lemma estructura_actualizarProbabilidades c prob conf o :
  estructuraCelda (Celda.actualizarProbabilidades c prob conf o)
  = estructuraCelda c.
Proof.
  unfold Celda.actualizarProbabilidades.
  destruct (Celda.debeActualizar _ _ _); reflexivity.
Qed.

Lemma mismaEstructura_refl tb : mismaEstructura tb tb.
Proof. repeat split. Qed.

Lemma mismaEstructura_trans t1 t2 t3 :
  mismaEstructura t1 t2 -> mismaEstructura t2 t3 -> mismaEstructura t1 t3.
Proof.
  intros (Hf1 & Hc1 & H1) (Hf2 & Hc2 & H2).
  split; [congruence|split; [congruence|]]. intros. rewrite H1. apply H2.
Qed.

Lemma mismaEstructura_sim t1 t2 : mismaEstructura t1 t2 -> mismaEstructura t2 t1.
Proof.
  intros (Hf & Hc & H). split; [congruence|split; [congruence|]].
  intros. symmetry. apply H.
Qed.

Lemma mismaForma_de_estructura t1 t2 :
  mismaEstructura t1 t2 -> mismaForma t1 t2.
Proof.
  intros (Hf & Hc & H). repeat split; try assumption.
  intros fila columna. specialize (H fila columna).
  destruct (Tablero.obtenerCelda t1 fila columna) as [c1|],
           (Tablero.obtenerCelda t2 fila columna) as [c2|];
    cbn [option_map] in *; try discriminate; try reflexivity.
  f_equal. apply forma_de_estructura. congruence.
Qed.

Lemma mismaForma_trans t1 t2 t3 :
  mismaForma t1 t2 -> mismaForma t2 t3 -> mismaForma t1 t3.
Proof.
  intros (Hf1 & Hc1 & H1) (Hf2 & Hc2 & H2).
  split; [congruence|split; [congruence|]]. intros. rewrite H1. apply H2.
Qed.

Lemma mismaForma_sim t1 t2 : mismaForma t1 t2 -> mismaForma t2 t1.
Proof.
  intros (Hf & Hc & H). split; [congruence|split; [congruence|]].
  intros. symmetry. apply H.
Qed.

Lemma mismaEstructura_modificar tb p g :
  (forall c, estructuraCelda (g c) = estructuraCelda c) ->
  mismaEstructura (Tablero.modificarCelda tb p g) tb.
Proof.
  intros Hg. repeat split. intros. apply proyeccion_modificar. exact Hg.
Qed.

Lemma mismaForma_modificar tb p g :
  (forall c, formaCelda (g c) = formaCelda c) ->
  mismaForma (Tablero.modificarCelda tb p g) tb.
Proof.
  intros Hg. repeat split. intros. apply proyeccion_modificar. exact Hg.
Qed.

Lemma mismaEstructura_celda t1 t2 fila columna c1 :
  mismaEstructura t1 t2 ->
  Tablero.obtenerCelda t1 fila columna = Some c1 ->
  exists c2, Tablero.obtenerCelda t2 fila columna = Some c2
             /\ estructuraCelda c2 = estructuraCelda c1.
Proof.
  intros (_ & _ & H) Hc. specialize (H fila columna). rewrite Hc in H.
  destruct (Tablero.obtenerCelda t2 fila columna) as [c2|]; [|discriminate].
  exists c2. split; [reflexivity|]. cbn in H. congruence.
Qed.

Lemma mismaForma_celda t1 t2 fila columna c1 :
  mismaForma t1 t2 ->
  Tablero.obtenerCelda t1 fila columna = Some c1 ->
  exists c2, Tablero.obtenerCelda t2 fila columna = Some c2
             /\ formaCelda c2 = formaCelda c1.
Proof.
  intros (_ & _ & H) Hc. specialize (H fila columna). rewrite Hc in H.
  destruct (Tablero.obtenerCelda t2 fila columna) as [c2|]; [|discriminate].
  exists c2. split; [reflexivity|]. cbn in H. congruence.
Qed.

Lemma mismaForma_valida t1 t2 fila columna :
  mismaForma t1 t2 ->
  Tablero.esPosicionValida t1 fila columna
  = Tablero.esPosicionValida t2 fila columna.
Proof.
  intros (Hf & Hc & _). unfold Tablero.esPosicionValida. rewrite Hf, Hc.
  reflexivity.
Qed.

Lemma bienFormado_mismaForma t1 t2 :
  mismaForma t1 t2 -> bienFormado t1 -> bienFormado t2.
Proof.
  intros Hm Hbf fila columna Hv.
  rewrite <- (mismaForma_valida t1 t2 _ _ Hm) in Hv.
  destruct (Hbf _ _ Hv) as (c1 & Hc1 & Hfi & Hco).
  destruct (mismaForma_celda _ _ _ _ _ Hm Hc1) as (c2 & Hc2 & Hfo).
  exists c2. split; [exact Hc2|].
  apply forma_campos in Hfo as (Hf2 & Hc2' & _). lia.
Qed.

Lemma bienFormado_pos tb fila columna celda :
  bienFormado tb ->
  Tablero.obtenerCelda tb fila columna = Some celda ->
  Celda.fila celda = fila /\ Celda.columna celda = columna.
Proof.
  intros Hbf Hc.
  destruct (Hbf _ _ (obtenerCelda_valida _ _ _ _ Hc)) as (c & Hc' & H).
  rewrite Hc in Hc'. injection Hc' as <-. exact H.
Qed.

(** Las adyacentes son celdas del tablero, cada una en su posición. *)
Lemma adyacente_es_celda tb fila columna vecina :
  In vecina (Tablero.obtenerCeldasAdyacentes tb fila columna) ->
  exists d, In d Tablero.desplazamientos
            /\ Tablero.obtenerCelda tb (fila + fst d) (columna + snd d)
               = Some vecina.
Proof.
  unfold Tablero.obtenerCeldasAdyacentes. intros H.
  apply list_elem_of_In, list_elem_of_omap in H as (d & Hd & Hc).
  exists d. split; [apply list_elem_of_In; exact Hd | exact Hc].
Qed.

Lemma celda_es_adyacente tb fila columna d vecina :
  In d Tablero.desplazamientos ->
  Tablero.obtenerCelda tb (fila + fst d) (columna + snd d) = Some vecina ->
  In vecina (Tablero.obtenerCeldasAdyacentes tb fila columna).
Proof.
  intros Hd Hc. unfold Tablero.obtenerCeldasAdyacentes.
  apply list_elem_of_In, list_elem_of_omap. exists d.
  split; [apply list_elem_of_In; exact Hd | exact Hc].
Qed.

Lemma adyacente_mismaEstructura t1 t2 fila columna v1 :
  mismaEstructura t1 t2 ->
  In v1 (Tablero.obtenerCeldasAdyacentes t1 fila columna) ->
  exists v2, In v2 (Tablero.obtenerCeldasAdyacentes t2 fila columna)
             /\ estructuraCelda v2 = estructuraCelda v1.
Proof.
  intros Hm H. apply adyacente_es_celda in H as (d & Hd & Hc).
  destruct (mismaEstructura_celda _ _ _ _ _ Hm Hc) as (v2 & Hc2 & He).
  exists v2. split; [eapply celda_es_adyacente; eauto | exact He].
Qed.

Lemma adyacente_tomadaDe t tb fila columna vecina :
  mismaEstructura t tb -> bienFormado tb ->
  In vecina (Tablero.obtenerCeldasAdyacentes t fila columna) ->
  tomadaDe tb vecina.
Proof.
  intros Hm Hbf H. apply adyacente_es_celda in H as (d & _ & Hc).
  destruct (mismaEstructura_celda _ _ _ _ _ Hm Hc) as (c0 & Hc0 & He).
  destruct (bienFormado_pos _ _ _ _ Hbf Hc0) as (Hf0 & Hco0).
  exists c0. split; [|exact He].
  apply estructura_campos in He as (Hf & Hco & _).
  rewrite <- Hf, <- Hco, Hf0, Hco0. exact Hc0.
Qed.

Lemma celda_tomadaDe t tb fila columna celda :
  mismaEstructura t tb -> bienFormado tb ->
  Tablero.obtenerCelda t fila columna = Some celda ->
  tomadaDe tb celda.
Proof.
  intros Hm Hbf Hc.
  destruct (mismaEstructura_celda _ _ _ _ _ Hm Hc) as (c0 & Hc0 & He).
  destruct (bienFormado_pos _ _ _ _ Hbf Hc0) as (Hf0 & Hco0).
  exists c0. split; [|exact He].
  apply estructura_campos in He as (Hf & Hco & _).
  rewrite <- Hf, <- Hco, Hf0, Hco0. exact Hc0.
Qed.

Lemma fold_left_invariante {A S} (P : S -> Prop) (f : S -> A -> S)
    (l : list A) (s : S) :
  P s -> (forall s x, In x l -> P s -> P (f s x)) -> P (fold_left f l s).
Proof.
  revert s. induction l as [|x l IH]; intros s Hs Hf; cbn; [exact Hs|].
  apply IH.
  - apply Hf; [left; reflexivity | exact Hs].
  - intros s' y Hy. apply Hf. right. exact Hy.
Qed.

Lemma plegarR_invariante {A S} (P : S -> Prop) (f : S -> A -> Resultado S)
    (l : list A) (s s' : S) :
  P s ->
  (forall s x s', In x l -> P s -> f s x = Devuelve s' -> P s') ->
  plegarR f l s = Devuelve s' -> P s'.
Proof.
  revert s. induction l as [|x l IH]; intros s Hs Hf; cbn.
  - intros [= <-]. exact Hs.
  - destruct (f s x) as [s1| |] eqn:Hfx; cbn; try discriminate.
    apply IH.
    + eapply Hf; [left; reflexivity | exact Hs | exact Hfx].
    + intros s2 y s3 Hy. apply Hf. right. exact Hy.
Qed.

(** ** Los análisis solo anotan candidatas bien fundadas *)

Lemma esSeguro_sin_bandera_ni_descubierta g celda :
  GestorBanderas.esSeguroColocarBandera g celda = true ->
  Celda.tieneBandera celda = false /\ Celda.descubierta celda = false.
Proof.
  unfold GestorBanderas.esSeguroColocarBandera.
  destruct (Celda.tieneBandera celda), (Celda.descubierta celda);
    cbn; try discriminate. auto.
Qed.

Lemma tomadaDe_candidata tb celda o it :
  tomadaDe tb celda ->
  Celda.tieneBandera celda = false -> Celda.descubierta celda = false ->
  candidataEn tb {| GestorBanderas.b_fila := Celda.fila celda;
                    GestorBanderas.b_columna := Celda.columna celda;
                    GestorBanderas.b_origen := o;
                    GestorBanderas.iteracion := it |}.
Proof.
  intros (c0 & Hc0 & He) Hb Hd. exists c0. cbn. split; [exact Hc0|].
  apply estructura_campos in He as (_ & _ & Hd0 & Hb0 & _).
  split; congruence.
Qed.

Lemma invariante_marcarSiEsSeguro tb g celda fuente o :
  invariante tb g -> tomadaDe tb celda ->
  invariante tb (GestorBanderas.marcarSiEsSeguro g celda fuente o).
Proof.
  intros [Hm Hb] Ht. unfold GestorBanderas.marcarSiEsSeguro.
  destruct (GestorBanderas.esSeguroColocarBandera g celda) eqn:Hs;
    [|split; assumption].
  apply esSeguro_sin_bandera_ni_descubierta in Hs as [Hsb Hsd].
  split; cbn.
  - eapply mismaEstructura_trans; [|exact Hm].
    apply mismaEstructura_modificar. intros c.
    apply estructura_actualizarProbabilidades.
  - apply Forall_app. split; [exact Hb|].
    constructor; [|constructor]. apply tomadaDe_candidata; assumption.
Qed.

Lemma invariante_declararSeguras tb g celdas :
  invariante tb g -> invariante tb (GestorBanderas.declararSeguras g celdas).
Proof.
  intros Hi. unfold GestorBanderas.declararSeguras.
  apply fold_left_invariante; [exact Hi|].
  intros s x _ [Hm Hb]. destruct (_ && _); [|split; assumption].
  split; cbn; [|exact Hb].
  eapply mismaEstructura_trans; [|exact Hm].
  apply mismaEstructura_modificar. intros c.
  apply estructura_actualizarProbabilidades.
Qed.

Lemma tomadaDe_adyacentes tb g fila columna :
  bienFormado tb -> invariante tb g ->
  Forall (tomadaDe tb)
         (Tablero.obtenerCeldasAdyacentes (GestorBanderas.tablero g)
                                          fila columna).
Proof.
  intros Hbf [Hm _]. apply Forall_forall. intros c Hc.
  apply list_elem_of_In in Hc.
  eapply adyacente_tomadaDe; eauto.
Qed.

Lemma Forall_filtro {A} (P : A -> Prop) (f : A -> bool) (l : list A) :
  Forall P l -> Forall P (List.filter f l).
Proof.
  rewrite !Forall_forall. intros H x Hx. apply H.
  apply list_elem_of_In in Hx. apply list_elem_of_In.
  apply filter_In in Hx. tauto.
Qed.

Lemma Forall_In {A} (P : A -> Prop) (l : list A) (x : A) :
  Forall P l -> In x l -> P x.
Proof. rewrite Forall_forall. intros H Hx. apply H, list_elem_of_In, Hx. Qed.

Lemma invariante_basicas tb g :
  bienFormado tb -> invariante tb g ->
  invariante tb (GestorBanderas.analizarRestriccionesBasicas g).
Proof.
  intros Hbf Hi. unfold GestorBanderas.analizarRestriccionesBasicas.
  apply fold_left_invariante; [exact Hi|].
  intros s celdaNumerica _ Hs. cbv zeta.
  destruct (_ && _); [|exact Hs].
  apply fold_left_invariante; [exact Hs|].
  intros s' celda Hc Hs'. apply invariante_marcarSiEsSeguro; [exact Hs'|].
  eapply Forall_In; [|exact Hc].
  apply Forall_filtro, tomadaDe_adyacentes; assumption.
Qed.

Lemma invariante_aplicarAnalisisSubconjunto tb g a b adyA adyB :
  invariante tb g -> Forall (tomadaDe tb) adyB ->
  invariante tb (GestorBanderas.aplicarAnalisisSubconjunto g a b adyA adyB).
Proof.
  intros Hi HB. unfold GestorBanderas.aplicarAnalisisSubconjunto. cbv zeta.
  destruct (_ && _); [|exact Hi].
  apply fold_left_invariante; [exact Hi|].
  intros s celda Hc Hs. destruct (_ && _); [|exact Hs].
  apply invariante_marcarSiEsSeguro; [exact Hs|].
  eapply Forall_In; [|exact Hc]. apply Forall_filtro, HB.
Qed.

Ltac caso_invariante :=
  match goal with
  | |- invariante _ (if ?c then _ else _) => destruct c
  end.

Lemma invariante_analizarInterseccionParcial tb g a b adyA adyB :
  invariante tb g -> Forall (tomadaDe tb) adyA ->
  invariante tb (GestorBanderas.analizarInterseccionParcial g a b adyA adyB).
Proof.
  intros Hi HA. unfold GestorBanderas.analizarInterseccionParcial. cbv zeta.
  caso_invariante; [|exact Hi].
  match goal with
  | |- invariante _ (if _ then fold_left _ _ ?g2 else _) =>
      assert (H2 : invariante tb g2)
  end.
  { caso_invariante; [apply invariante_declararSeguras|];
      (caso_invariante; [apply invariante_declararSeguras|]; exact Hi). }
  caso_invariante; [|exact H2].
  apply fold_left_invariante; [exact H2|].
  intros s celda Hc Hs. caso_invariante; [|exact Hs].
  apply invariante_marcarSiEsSeguro; [exact Hs|].
  eapply Forall_In; [|exact Hc]. apply Forall_filtro, HA.
Qed.

Lemma invariante_subconjuntos tb g :
  bienFormado tb -> invariante tb g ->
  invariante tb (GestorBanderas.analizarSubconjuntos g).
Proof.
  intros Hbf Hi. unfold GestorBanderas.analizarSubconjuntos.
  apply fold_left_invariante; [exact Hi|].
  intros s [i celdaA] _ Hs.
  apply fold_left_invariante; [exact Hs|].
  intros s' [j celdaB] _ Hs'.
  destruct (Nat.eqb i j); [exact Hs'|]. cbv zeta.
  apply invariante_analizarInterseccionParcial.
  - repeat match goal with
           | |- invariante _ (if ?c then _ else _) => destruct c
           end;
      try exact Hs';
      apply invariante_aplicarAnalisisSubconjunto; try exact Hs';
      apply Forall_filtro, tomadaDe_adyacentes; assumption.
  - apply Forall_filtro, tomadaDe_adyacentes; assumption.
Qed.

Lemma invariante_patron121 tb g :
  bienFormado tb -> invariante tb g ->
  invariante tb (GestorBanderas.buscarPatron121 g).
Proof.
  intros Hbf Hi. unfold GestorBanderas.buscarPatron121. cbv zeta.
  apply fold_left_invariante; [exact Hi|].
  intros s [fila columna] _ Hs.
  apply fold_left_invariante; [exact Hs|].
  intros s' [dx dy] _ Hs'.
  destruct (_ && _); [|exact Hs'].
  destruct (Tablero.obtenerCelda _ fila columna) as [celda1|]; [|exact Hs'].
  destruct (Tablero.obtenerCelda _ (fila + dy) (columna + dx)) as [celda2|];
    [|exact Hs'].
  destruct (Tablero.obtenerCelda _ (fila + 2 * dy) (columna + 2 * dx))
    as [celda3|]; [|exact Hs'].
  destruct (_ && _ && _ && _ && _ && _); [|exact Hs'].
  destruct (_ =? 2); [|exact Hs'].
  apply fold_left_invariante; [exact Hs'|].
  intros s'' celda Hc Hs''. destruct (negb _); [|exact Hs''].
  apply invariante_marcarSiEsSeguro; [exact Hs''|].
  eapply Forall_In; [|exact Hc].
  apply Forall_filtro, tomadaDe_adyacentes; assumption.
Qed.

Lemma invariante_patron11Esquina tb g :
  bienFormado tb -> invariante tb g ->
  invariante tb (GestorBanderas.buscarPatron11Esquina g).
Proof.
  intros Hbf Hi. unfold GestorBanderas.buscarPatron11Esquina. cbv zeta.
  apply fold_left_invariante; [exact Hi|].
  intros s [fila columna] _ Hs.
  apply fold_left_invariante; [exact Hs|].
  intros s' [[[dx1 dy1] dx2] dy2] _ Hs'.
  destruct (_ && _ && _ && _ && _ && _ && _ && _); [|exact Hs'].
  destruct (Tablero.obtenerCelda _ fila columna) as [celdaCentral|] eqn:Hcc;
    [|exact Hs'].
  destruct (Tablero.obtenerCelda _ (fila + dy1) (columna + dx1)) as [celda1|];
    [|exact Hs'].
  destruct (Tablero.obtenerCelda _ (fila + dy2) (columna + dx2)) as [celda2|];
    [|exact Hs'].
  destruct (_ && _ && _ && _ && _ && _); [|exact Hs'].
  destruct (GestorBanderas.sinRevelarSinBandera _) as [|a1 [|? ?]];
    try exact Hs'.
  destruct (GestorBanderas.sinRevelarSinBandera _) as [|a2 [|? ?]];
    try exact Hs'.
  destruct (_ && _); [|exact Hs'].
  apply invariante_marcarSiEsSeguro; [exact Hs'|].
  eapply celda_tomadaDe; [apply Hs' | exact Hbf | exact Hcc].
Qed.

Lemma invariante_patronBorde tb g :
  bienFormado tb -> invariante tb g ->
  invariante tb (GestorBanderas.buscarPatronBorde g).
Proof.
  intros Hbf Hi. unfold GestorBanderas.buscarPatronBorde.
  apply fold_left_invariante; [exact Hi|].
  intros s [fila columna] _ Hs.
  destruct (Tablero.obtenerCelda _ fila columna) as [celda|]; [|exact Hs].
  destruct (_ && _ && _); [|exact Hs].
  destruct (GestorBanderas.sinRevelarSinBandera _) as [|celdaMina [|? ?]] eqn:E;
    try exact Hs.
  apply invariante_marcarSiEsSeguro; [exact Hs|].
  eapply Forall_In with (l := [celdaMina]); [|left; reflexivity].
  rewrite <- E. apply Forall_filtro, tomadaDe_adyacentes; assumption.
Qed.

Lemma invariante_patrones tb g :
  bienFormado tb -> invariante tb g ->
  invariante tb (GestorBanderas.analizarPatrones g).
Proof.
  intros Hbf Hi. unfold GestorBanderas.analizarPatrones.
  apply invariante_patronBorde, invariante_patron11Esquina,
    invariante_patron121; assumption.
Qed.

(** ** El análisis de sistemas de ecuaciones *)

Lemma expandirRestriccion_tomadas tb0 tb mapa celdaRestriccion e :
  mismaEstructura tb tb0 -> bienFormado tb0 ->
  Forall (tomadaDe tb0) (GestorBanderas.g_celdas (GestorBanderas.grupo e)) ->
  Forall (tomadaDe tb0)
    (GestorBanderas.g_celdas
       (GestorBanderas.grupo
          (GestorBanderas.expandirRestriccion tb mapa celdaRestriccion e))).
Proof.
  intros Hm Hbf He. unfold GestorBanderas.expandirRestriccion. cbv zeta.
  apply (fold_left_invariante
           (fun e => Forall (tomadaDe tb0)
                       (GestorBanderas.g_celdas (GestorBanderas.grupo e)))).
  - exact He.
  - intros s celda Hc Hs. destruct (bool_decide _); [exact Hs|]. cbn.
    apply Forall_app. split; [exact Hs|]. constructor; [|constructor].
    apply filter_In in Hc as [Hc _].
    eapply adyacente_tomadaDe; eauto.
Qed.

Lemma bucleGrupo_tomadas tb0 tb mapa combustible : forall e e',
  mismaEstructura tb tb0 -> bienFormado tb0 ->
  Forall (tomadaDe tb0) (GestorBanderas.g_celdas (GestorBanderas.grupo e)) ->
  GestorBanderas.bucleGrupo combustible tb mapa e = Devuelve e' ->
  Forall (tomadaDe tb0) (GestorBanderas.g_celdas (GestorBanderas.grupo e')).
Proof.
  induction combustible as [|n IH]; intros e e' Hm Hbf He;
    cbn [GestorBanderas.bucleGrupo].
  - destruct (GestorBanderas.cola e); [|discriminate].
    intros [= <-]. exact He.
  - destruct (GestorBanderas.cola e) as [|c resto]; [intros [= <-]; exact He|].
    destruct (bool_decide _).
    + apply IH; assumption.
    + apply IH; try assumption.
      apply expandirRestriccion_tomadas; assumption.
Qed.

Lemma agrupar_tomadas tb g grupos :
  bienFormado tb -> invariante tb g ->
  GestorBanderas.agruparRestriccionesPorCeldasComunes g = Devuelve grupos ->
  Forall (fun grupo => Forall (tomadaDe tb) (GestorBanderas.g_celdas grupo))
         grupos.
Proof.
  intros Hbf [Hm _]. unfold GestorBanderas.agruparRestriccionesPorCeldasComunes.
  cbv zeta.
  destruct (plegarR _ _ _) as [r| |] eqn:Hp; cbn; try discriminate.
  intros [= <-].
  eapply (plegarR_invariante
            (fun r : list GestorBanderas.Grupo * gset Pos =>
               Forall (fun grupo =>
                         Forall (tomadaDe tb) (GestorBanderas.g_celdas grupo))
                      (fst r))); [| |exact Hp].
  - constructor.
  - intros [grupos procesadas] celdaNumerica [grupos' procesadas'] _ Hs.
    cbn [fst] in *. destruct (bool_decide _).
    + intros [= <- <-]. exact Hs.
    + unfold GestorBanderas.obtenerGrupoConectado.
      destruct (GestorBanderas.bucleGrupo _ _ _ _) as [e| |] eqn:Hb;
        cbn; try discriminate.
      assert (Ht : Forall (tomadaDe tb)
                     (GestorBanderas.g_celdas (GestorBanderas.grupo e))).
      { eapply bucleGrupo_tomadas; [exact Hm | exact Hbf | | exact Hb].
        constructor. }
      destruct (2 <=? _); intros [= <- <-]; [|exact Hs].
      apply Forall_app. split; [exact Hs|]. constructor; [exact Ht|constructor].
Qed.

Lemma resolverSistemaEcuaciones_celdas g grupo soluciones celdas :
  GestorBanderas.resolverSistemaEcuaciones g grupo = Some (soluciones, celdas) ->
  celdas = GestorBanderas.g_celdas grupo.
Proof.
  unfold GestorBanderas.resolverSistemaEcuaciones. cbv zeta.
  destruct (map _ (GestorBanderas.g_restricciones grupo)); [discriminate|].
  destruct (GestorBanderas.eliminarGaussiana _ _); [|discriminate].
  intros [= _ <-]. reflexivity.
Qed.

Lemma invariante_sistemas tb g g' :
  bienFormado tb -> invariante tb g ->
  GestorBanderas.analizarSistemasEcuaciones g = Devuelve g' ->
  invariante tb g'.
Proof.
  intros Hbf Hi. unfold GestorBanderas.analizarSistemasEcuaciones.
  destruct (GestorBanderas.agruparRestriccionesPorCeldasComunes g)
    as [grupos| |] eqn:Hg; cbn; try discriminate.
  pose proof (agrupar_tomadas tb g grupos Hbf Hi Hg) as Ht.
  apply plegarR_invariante; [exact Hi|].
  intros s grupo s' Hin Hs.
  destruct (2 <=? _); [|intros [= <-]; exact Hs].
  destruct (GestorBanderas.resolverSistemaEcuaciones s grupo)
    as [[soluciones celdas]|] eqn:Hr; [|intros [= <-]; exact Hs].
  apply resolverSistemaEcuaciones_celdas in Hr. subst celdas.
  apply plegarR_invariante; [exact Hs|].
  intros s1 [i valor] s2 _ Hs1. cbv beta iota.
  match goal with
  | |- (if ?c then _ else _) = _ -> _ =>
      destruct c; [|intros [= <-]; exact Hs1]
  end.
  destruct (GestorBanderas.g_celdas grupo !! i) as [celda|] eqn:Hc;
    [|discriminate].
  destruct (_ && _); intros [= <-]; [|exact Hs1].
  apply invariante_marcarSiEsSeguro; [exact Hs1|].
  pose proof (Forall_In _ _ _ Ht Hin) as Hgr. cbv beta in Hgr.
  eapply Forall_In; [exact Hgr|].
  apply list_elem_of_In. eapply list_elem_of_lookup_2. exact Hc.
Qed.

(** ** [actualizarRestricciones] deja las restricciones completas *)

Lemma crece_refl t : crece t t.
Proof.
  repeat split. intros fila columna.
  destruct (Tablero.obtenerCelda t fila columna); [|exact I].
  split; [reflexivity|apply incl_refl].
Qed.

Lemma crece_trans t1 t2 t3 : crece t1 t2 -> crece t2 t3 -> crece t1 t3.
Proof.
  intros (Hf1 & Hc1 & H1) (Hf2 & Hc2 & H2).
  split; [congruence|split; [congruence|]]. intros fila columna.
  specialize (H1 fila columna). specialize (H2 fila columna).
  destruct (Tablero.obtenerCelda t1 fila columna),
           (Tablero.obtenerCelda t2 fila columna),
           (Tablero.obtenerCelda t3 fila columna); try tauto.
  destruct H1, H2. split; [congruence|eapply incl_tran; eauto].
Qed.

Lemma crece_mismaForma t t' : crece t t' -> mismaForma t t'.
Proof.
  intros (Hf & Hc & H). split; [exact Hf|split; [exact Hc|]].
  intros fila columna. specialize (H fila columna).
  destruct (Tablero.obtenerCelda t fila columna),
           (Tablero.obtenerCelda t' fila columna); cbn; try tauto.
  destruct H as [-> _]. reflexivity.
Qed.

Lemma crece_celda t t' fila columna b :
  crece t t' -> Tablero.obtenerCelda t' fila columna = Some b ->
  exists a, Tablero.obtenerCelda t fila columna = Some a
            /\ formaCelda a = formaCelda b
            /\ incl (Celda.restricciones a) (Celda.restricciones b).
Proof.
  intros (_ & _ & H) Hb. specialize (H fila columna). rewrite Hb in H.
  destruct (Tablero.obtenerCelda t fila columna) as [a|]; [|contradiction].
  exists a. tauto.
Qed.

Lemma forma_agregarRestriccion c r :
  formaCelda (Celda.agregarRestriccion c r) = formaCelda c.
Proof.
  unfold Celda.agregarRestriccion. destruct (negb _); reflexivity.
Qed.

Lemma incl_agregarRestriccion c r :
  incl (Celda.restricciones c)
       (Celda.restricciones (Celda.agregarRestriccion c r)).
Proof.
  unfold Celda.agregarRestriccion. destruct (negb _); cbn.
  - apply incl_appl, incl_refl.
  - apply incl_refl.
Qed.

Lemma mismaPos_eq a b : mismaPos a b = true -> a = b.
Proof.
  unfold mismaPos. destruct a, b. cbn. intros H.
  apply andb_true_iff in H as [H1 H2]. f_equal; lia.
Qed.

Lemma agregarRestriccion_tiene c r :
  exists r', In r' (Celda.restricciones (Celda.agregarRestriccion c r))
             /\ Celda.celdaOrigen r' = Celda.celdaOrigen r.
Proof.
  unfold Celda.agregarRestriccion.
  destruct (existsb _ (Celda.restricciones c)) eqn:E; cbn.
  - apply existsb_exists in E as (r' & Hin & Hp).
    exists r'. split; [exact Hin|]. apply mismaPos_eq, Hp.
  - exists r. split; [apply in_or_app; right; left|]; reflexivity.
Qed.

Lemma crece_modificar_agregar t p r :
  crece t (Tablero.modificarCelda t p
             (fun c => Celda.agregarRestriccion c r)).
Proof.
  split; [reflexivity|split; [reflexivity|]]. intros fila columna.
  destruct (obtenerCelda_modificar_casos t p
              (fun c => Celda.agregarRestriccion c r) fila columna)
    as [-> | ->];
    destruct (Tablero.obtenerCelda t fila columna) as [a|]; cbn; try exact I.
  - split; [reflexivity|apply incl_refl].
  - split; [symmetry; apply forma_agregarRestriccion
           |apply incl_agregarRestriccion].
Qed.

Lemma fold_agregar_crece r (l : list Celda.t) : forall t,
  crece t (fold_left (fun t' x =>
                        Tablero.modificarCelda t' (Celda.pos x)
                          (fun c => Celda.agregarRestriccion c r)) l t).
Proof.
  induction l as [|x l IH]; intros t; cbn; [apply crece_refl|].
  eapply crece_trans; [apply crece_modificar_agregar | apply IH].
Qed.

Lemma fold_agregar_tiene r (l : list Celda.t) : forall t x celda',
  In x l ->
  Tablero.esPosicionValida t (Celda.fila x) (Celda.columna x) = true ->
  Tablero.obtenerCelda
    (fold_left (fun t' x =>
                  Tablero.modificarCelda t' (Celda.pos x)
                    (fun c => Celda.agregarRestriccion c r)) l t)
    (Celda.fila x) (Celda.columna x) = Some celda' ->
  exists r', In r' (Celda.restricciones celda')
             /\ Celda.celdaOrigen r' = Celda.celdaOrigen r.
Proof.
  induction l as [|y l IH]; intros t x celda' Hin Hv Hc; [destruct Hin|].
  cbn in Hc. destruct Hin as [-> | Hin].
  - pose proof (fold_agregar_crece r l
                  (Tablero.modificarCelda t (Celda.pos x)
                     (fun c => Celda.agregarRestriccion c r))) as Hcr.
    destruct (crece_celda _ _ _ _ _ Hcr Hc) as (a & Ha & _ & Hincl).
    destruct (Tablero.obtenerCelda t (Celda.fila x) (Celda.columna x))
      as [c0|] eqn:Hc0.
    + unfold Celda.pos in Ha.
      rewrite (obtenerCelda_modificar_misma _ _ _ _ _ Hc0) in Ha.
      injection Ha as <-.
      destruct (agregarRestriccion_tiene c0 r) as (r' & Hr' & Ho).
      exists r'. split; [apply Hincl, Hr' | exact Ho].
    + exfalso.
      destruct (obtenerCelda_modificar_casos t (Celda.pos x)
                  (fun c => Celda.agregarRestriccion c r)
                  (Celda.fila x) (Celda.columna x)) as [E|E];
        rewrite E, Hc0 in Ha; discriminate.
  - eapply IH; [exact Hin| |exact Hc]. exact Hv.
Qed.

Lemma numerica_mismaForma a b :
  formaCelda a = formaCelda b ->
  Celda.tieneValorNumerico a = Celda.tieneValorNumerico b
  /\ Celda.obtenerValorNumerico a = Celda.obtenerValorNumerico b.
Proof.
  intros H. apply forma_campos in H as (_ & _ & Hd & _ & Hv).
  unfold Celda.tieneValorNumerico, Celda.obtenerValorNumerico.
  rewrite Hd, Hv. split; reflexivity.
Qed.

Lemma numerica_tiene_valor c :
  Celda.tieneValorNumerico c = true ->
  exists v, Celda.obtenerValorNumerico c = Some v.
Proof.
  unfold Celda.tieneValorNumerico, Celda.obtenerValorNumerico.
  destruct (Celda.descubierta c); [|discriminate].
  destruct (Celda.valor c); try discriminate. intros _.
  destruct (n =? 0); eauto.
Qed.

Lemma restringirDesde_crece t p : crece t (Tablero.restringirDesde t p).
Proof.
  unfold Tablero.restringirDesde.
  destruct (Tablero.obtenerCelda t (fst p) (snd p)); [|apply crece_refl].
  destruct (Celda.tieneValorNumerico _); [|apply crece_refl].
  destruct (Celda.obtenerValorNumerico _); [|apply crece_refl]. cbv zeta.
  destruct (0 <? _); [|apply crece_refl].
  apply fold_agregar_crece.
Qed.

Lemma restringirDesde_completa t p :
  bienFormado t -> restriccionCompletaEn (Tablero.restringirDesde t p) p.
Proof.
  intros Hbf celdaNumerica vecina Hc Hnum Hv Hd.
  pose proof (restringirDesde_crece t p) as Hcr.
  destruct (crece_celda _ _ _ _ _ Hcr Hc) as (c0 & Hc0 & Hfo & _).
  apply adyacente_es_celda in Hv as (d & Hdd & Hvec).
  destruct (crece_celda _ _ _ _ _ Hcr Hvec) as (v0 & Hv0 & Hfv & _).
  destruct (bienFormado_pos _ _ _ _ Hbf Hv0) as (Hvf & Hvc).
  assert (Hd0 : Celda.descubierta v0 = false).
  { apply forma_campos in Hfv as (_ & _ & Hx & _). congruence. }
  assert (Hin0 : In v0 (List.filter (fun c => negb (Celda.descubierta c))
                          (Tablero.obtenerCeldasAdyacentes t (fst p) (snd p)))).
  { apply filter_In. split; [eapply celda_es_adyacente; eauto|].
    rewrite Hd0. reflexivity. }
  revert Hvec. unfold Tablero.restringirDesde. rewrite Hc0.
  destruct (numerica_mismaForma _ _ Hfo) as [Hn1 Hn2].
  rewrite Hn1, Hnum.
  destruct (numerica_tiene_valor _ Hnum) as (valor & Hval).
  rewrite Hn2, Hval. cbv zeta.
  destruct (0 <? _) eqn:Hlen.
  - intros Hvec.
    rewrite <- Hvf, <- Hvc in Hvec.
    eapply fold_agregar_tiene in Hvec as (r' & Hr' & Ho); [| exact Hin0 |].
    + exists r'. split; [exact Hr'|]. rewrite Ho. cbn. destruct p; reflexivity.
    + rewrite Hvf, Hvc. eapply obtenerCelda_valida; eauto.
  - exfalso. apply Z.ltb_ge in Hlen.
    destruct (List.filter _ _); [destruct Hin0|]. cbn in Hlen. lia.
Qed.

Lemma restriccionCompletaEn_crece t t' p :
  crece t t' -> restriccionCompletaEn t p -> restriccionCompletaEn t' p.
Proof.
  intros Hcr H celdaNumerica vecina Hc Hnum Hv Hd.
  destruct (crece_celda _ _ _ _ _ Hcr Hc) as (c0 & Hc0 & Hfo & _).
  apply adyacente_es_celda in Hv as (d & Hdd & Hvec).
  destruct (crece_celda _ _ _ _ _ Hcr Hvec) as (v0 & Hv0 & Hfv & Hincl).
  destruct (numerica_mismaForma _ _ Hfo) as [Hn1 _].
  destruct (H c0 v0) as (r & Hr & Ho); try assumption.
  - congruence.
  - eapply celda_es_adyacente; eauto.
  - apply forma_campos in Hfv as (_ & _ & Hx & _). congruence.
  - exists r. split; [apply Hincl, Hr | exact Ho].
Qed.

Lemma fold_restringir ps : forall t,
  bienFormado t ->
  crece t (fold_left Tablero.restringirDesde ps t)
  /\ forall p, In p ps ->
       restriccionCompletaEn (fold_left Tablero.restringirDesde ps t) p.
Proof.
  induction ps as [|q ps IH]; intros t Hbf; cbn.
  - split; [apply crece_refl | intros p []].
  - pose proof (restringirDesde_crece t q) as Hq.
    assert (Hbf1 : bienFormado (Tablero.restringirDesde t q)).
    { eapply bienFormado_mismaForma; [apply crece_mismaForma, Hq|exact Hbf]. }
    destruct (IH _ Hbf1) as [Hcr Hall].
    split; [eapply crece_trans; eauto|].
    intros p [<- | Hp]; [|apply Hall, Hp].
    eapply restriccionCompletaEn_crece; [exact Hcr|].
    apply restringirDesde_completa, Hbf.
Qed.

Lemma obtenerCelda_limpio tb fila columna :
  Tablero.obtenerCelda
    (Tablero.conCeldas tb
       (map (map (fun c => Celda.conRestricciones c [])) (Tablero.celdas tb)))
    fila columna
  = option_map (fun c => Celda.conRestricciones c [])
               (Tablero.obtenerCelda tb fila columna).
Proof.
  unfold Tablero.obtenerCelda, Tablero.esPosicionValida. cbn.
  destruct (_ && _ && _ && _); [|reflexivity].
  change (map (map (fun c => Celda.conRestricciones c [])) (Tablero.celdas tb))
    with ((map (fun c => Celda.conRestricciones c [])) <$> Tablero.celdas tb).
  rewrite list_lookup_fmap.
  destruct (Tablero.celdas tb !! Z.to_nat fila) as [filaCeldas|]; cbn;
    [|reflexivity].
  change (map (fun c => Celda.conRestricciones c []) filaCeldas)
    with ((fun c => Celda.conRestricciones c []) <$> filaCeldas).
  rewrite list_lookup_fmap.
  destruct (filaCeldas !! Z.to_nat columna); reflexivity.
Qed.

Lemma actualizarRestricciones_forma tb :
  mismaForma (Tablero.actualizarRestricciones tb) tb.
Proof.
  unfold Tablero.actualizarRestricciones.
  destruct (Tablero.restriccionesActualizadas tb).
  - repeat split.
  - set (limpio := Tablero.conCeldas tb _).
    assert (Hl : mismaForma limpio tb).
    { split; [reflexivity|split; [reflexivity|]]. intros fila columna.
      unfold limpio. rewrite obtenerCelda_limpio.
      destruct (Tablero.obtenerCelda tb fila columna); reflexivity. }
    assert (Hr : forall ps t, mismaForma (fold_left Tablero.restringirDesde ps t) t).
    { intros ps t. apply (fold_left_invariante (fun t' => mismaForma t' t)).
      - repeat split.
      - intros s x _ Hs. eapply mismaForma_trans; [|exact Hs].
        apply mismaForma_sim, crece_mismaForma, restringirDesde_crece. }
    eapply mismaForma_trans; [|exact Hl].
    eapply mismaForma_trans; [|apply Hr].
    repeat split.
Qed.

Lemma actualizarRestricciones_completas tb :
  coherente tb -> restriccionesCompletas (Tablero.actualizarRestricciones tb).
Proof.
  intros [Hbf Hrc]. unfold Tablero.actualizarRestricciones.
  destruct (Tablero.restriccionesActualizadas tb); [apply Hrc; reflexivity|].
  set (limpio := Tablero.conCeldas tb _).
  assert (Hbl : bienFormado limpio).
  { eapply bienFormado_mismaForma; [|exact Hbf].
    split; [reflexivity|split; [reflexivity|]]. intros fila columna.
    unfold limpio. rewrite obtenerCelda_limpio.
    destruct (Tablero.obtenerCelda tb fila columna); reflexivity. }
  destruct (fold_restringir (Tablero.posiciones tb) limpio Hbl)
    as [(Hf & Hco & _) Hall].
  intros fila columna celdaNumerica vecina Hc Hnum Hv Hd.
  apply (Hall (fila, columna)) with (celdaNumerica := celdaNumerica);
    try assumption.
  apply posiciones_spec.
  apply obtenerCelda_valida in Hc.
  unfold Tablero.esPosicionValida in *.
  cbn [Tablero.conActualizadas Tablero.filas Tablero.columnas] in Hc.
  rewrite <- Hf, <- Hco in Hc. exact Hc.
Qed.

Lemma actualizarRestricciones_bienFormado tb :
  bienFormado tb -> bienFormado (Tablero.actualizarRestricciones tb).
Proof.
  intros Hbf. eapply bienFormado_mismaForma; [|exact Hbf].
  apply mismaForma_sim, actualizarRestricciones_forma.
Qed.

(** ** El filtro de consistencia global *)

Lemma restriccionesCompletas_mismaEstructura t1 t2 :
  mismaEstructura t1 t2 ->
  restriccionesCompletas t1 -> restriccionesCompletas t2.
Proof.
  intros Hm H fila columna celdaNumerica vecina Hc Hnum Hv Hd.
  pose proof (mismaEstructura_sim _ _ Hm) as Hm'.
  destruct (mismaEstructura_celda _ _ _ _ _ Hm' Hc) as (c1 & Hc1 & He1).
  destruct (adyacente_mismaEstructura _ _ _ _ _ Hm' Hv) as (v1 & Hv1 & Hev).
  destruct (numerica_mismaForma _ _ (forma_de_estructura _ _ He1)) as [Hn _].
  apply estructura_campos in Hev as (_ & _ & Hdd & _ & _ & Hr).
  destruct (H fila columna c1 v1) as (r & Hin & Ho); try assumption;
    try congruence.
  exists r. split; [rewrite <- Hr; exact Hin | exact Ho].
Qed.

Lemma candidataEn_mismaEstructura t1 t2 b :
  mismaEstructura t1 t2 -> candidataEn t1 b -> candidataEn t2 b.
Proof.
  intros Hm (c & Hc & Hd & Hb).
  destruct (mismaEstructura_celda _ _ _ _ _ Hm Hc) as (c2 & Hc2 & He).
  exists c2. split; [exact Hc2|].
  apply estructura_campos in He as (_ & _ & Hd2 & Hb2 & _).
  split; congruence.
Qed.

Lemma enLista_app acc b c :
  GestorBanderas.enLista (acc ++ [b]) c
  = GestorBanderas.enLista acc c
    || ((Celda.fila c =? GestorBanderas.b_fila b)
        && (Celda.columna c =? GestorBanderas.b_columna b)).
Proof.
  unfold GestorBanderas.enLista. rewrite existsb_app. cbn.
  rewrite orb_false_r.
  rewrite (Z.eqb_sym (GestorBanderas.b_fila b)),
    (Z.eqb_sym (GestorBanderas.b_columna b)). reflexivity.
Qed.

Lemma recuento_app g b o :
  recuento (GestorBanderas.tablero g)
           (GestorBanderas.banderasColocadas g ++ [b]) o
  = GestorBanderas.banderasConCandidata g b o.
Proof.
  unfold recuento, GestorBanderas.banderasConCandidata, largo.
  rewrite (filter_ext _
             (fun c => Celda.tieneBandera c
                       || GestorBanderas.enLista
                            (GestorBanderas.banderasColocadas g) c
                       || ((Celda.fila c =? GestorBanderas.b_fila b)
                           && (Celda.columna c =? GestorBanderas.b_columna b))));
    [reflexivity|].
  intros c. rewrite enLista_app. apply orb_assoc.
Qed.

Lemma filter_largo_ext {A} (f h : A -> bool) (l : list A) :
  (forall x, In x l -> f x = h x) ->
  largo (List.filter f l) = largo (List.filter h l).
Proof.
  intros H. unfold largo. rewrite (filter_ext_in _ _ _ H). reflexivity.
Qed.

(** Una adyacente de [o] que ocupa la posición de una candidata es la
    celda de la candidata. *)
Lemma adyacente_en_posicion tb o c fila columna celda :
  bienFormado tb ->
  In c (Tablero.obtenerCeldasAdyacentes tb (fst o) (snd o)) ->
  Celda.fila c = fila -> Celda.columna c = columna ->
  Tablero.obtenerCelda tb fila columna = Some celda ->
  c = celda.
Proof.
  intros Hbf Hc Hf Hco Hcel.
  apply adyacente_es_celda in Hc as (d & _ & Hd).
  destruct (bienFormado_pos _ _ _ _ Hbf Hd) as [Hf' Hco'].
  rewrite Hf in Hf'. rewrite Hco in Hco'. rewrite <- Hf', <- Hco' in Hd.
  congruence.
Qed.

Lemma consistente_respeta g bandera celdaB :
  Tablero.obtenerCelda (GestorBanderas.tablero g)
    (GestorBanderas.b_fila bandera) (GestorBanderas.b_columna bandera)
  = Some celdaB ->
  GestorBanderas.esConsistenteGlobal g bandera = Devuelve true ->
  forall r celdaO,
    In r (Celda.restricciones celdaB) ->
    Tablero.obtenerCelda (GestorBanderas.tablero g)
      (fst (Celda.celdaOrigen r)) (snd (Celda.celdaOrigen r)) = Some celdaO ->
    Celda.tieneValorNumerico celdaO = true ->
    GestorBanderas.banderasConCandidata g bandera (Celda.celdaOrigen r)
    <= numeroDe (Celda.obtenerValorNumerico celdaO).
Proof.
  intros Hc. unfold GestorBanderas.esConsistenteGlobal. rewrite Hc.
  intros [= Hall] r celdaO Hr HO Hnum.
  rewrite forallb_forall in Hall. specialize (Hall r Hr).
  rewrite HO, Hnum in Hall. apply negb_true_iff, Z.ltb_ge in Hall. exact Hall.
Qed.

Lemma validar_respeta g g' :
  bienFormado (GestorBanderas.tablero g) ->
  restriccionesCompletas (GestorBanderas.tablero g) ->
  Forall (candidataEn (GestorBanderas.tablero g))
         (GestorBanderas.banderasColocadas g) ->
  GestorBanderas.validarConsistenciaGlobal g = Devuelve g' ->
  GestorBanderas.tablero g' = GestorBanderas.tablero g
  /\ incl (GestorBanderas.banderasColocadas g')
          (GestorBanderas.banderasColocadas g)
  /\ respetaRestricciones (GestorBanderas.tablero g)
                          (GestorBanderas.banderasColocadas g').
Proof.
  intros Hbf Hrc Hcand. unfold GestorBanderas.validarConsistenciaGlobal.
  apply (plegarR_invariante
           (fun s => GestorBanderas.tablero s = GestorBanderas.tablero g
                     /\ incl (GestorBanderas.banderasColocadas s)
                             (GestorBanderas.banderasColocadas g)
                     /\ respetaRestricciones (GestorBanderas.tablero g)
                          (GestorBanderas.banderasColocadas s))).
  - split; [reflexivity|]. split; [intros x []|].
    intros b celdaB r celdaO [].
  - intros s b' s' Hin (HT & Hincl & HK).
    unfold mbind, resultado_bind.
    destruct (GestorBanderas.esConsistenteGlobal s b') as [[|]| |] eqn:Hcons;
      try discriminate; intros [= <-]; [|tauto].
    cbn [GestorBanderas.conBanderas GestorBanderas.tablero
         GestorBanderas.banderasColocadas].
    split; [exact HT|]. split.
    { apply incl_app; [exact Hincl|]. intros x [<-|[]]. exact Hin. }
    intros b celdaB r celdaO Hb HcB Hr HcO Hnum.
    pose proof (Forall_In _ _ _ Hcand Hin) as (celdaB' & HcB' & HdB' & _).
    assert (Hcons' : forall r0 celdaO0,
              In r0 (Celda.restricciones celdaB') ->
              Tablero.obtenerCelda (GestorBanderas.tablero g)
                (fst (Celda.celdaOrigen r0)) (snd (Celda.celdaOrigen r0))
              = Some celdaO0 ->
              Celda.tieneValorNumerico celdaO0 = true ->
              recuento (GestorBanderas.tablero g)
                       (GestorBanderas.banderasColocadas s ++ [b'])
                       (Celda.celdaOrigen r0)
              <= numeroDe (Celda.obtenerValorNumerico celdaO0)).
    { intros r0 celdaO0 Hr0 HO0 Hn0. rewrite <- HT. rewrite recuento_app.
      eapply consistente_respeta; eauto; rewrite HT; assumption. }
    apply in_app_or in Hb as [Hb | [<- | []]].
    + destruct (existsb
                  (fun c => (Celda.fila c =? GestorBanderas.b_fila b')
                            && (Celda.columna c =? GestorBanderas.b_columna b'))
                  (Tablero.obtenerCeldasAdyacentes (GestorBanderas.tablero g)
                     (fst (Celda.celdaOrigen r)) (snd (Celda.celdaOrigen r))))
        eqn:Hex.
      * apply existsb_exists in Hex as (c & Hc & Hpos).
        apply andb_true_iff in Hpos as [Hpf Hpc].
        apply Z.eqb_eq in Hpf, Hpc.
        assert (c = celdaB').
        { eapply (adyacente_en_posicion (GestorBanderas.tablero g));
            [exact Hbf | exact Hc | exact Hpf | exact Hpc | exact HcB']. }
        subst c.
        destruct (Hrc (fst (Celda.celdaOrigen r)) (snd (Celda.celdaOrigen r))
                      celdaO celdaB') as (r' & Hr' & Ho');
          try assumption.
        assert (Hor : Celda.celdaOrigen r' = Celda.celdaOrigen r)
          by (rewrite Ho'; destruct (Celda.celdaOrigen r); reflexivity).
        rewrite <- Hor. apply Hcons'; [exact Hr'| |exact Hnum].
        rewrite Hor. exact HcO.
      * specialize (HK b celdaB r celdaO Hb HcB Hr HcO Hnum).
        unfold recuento in *.
        rewrite (filter_largo_ext _
                   (fun c => Celda.tieneBandera c
                             || GestorBanderas.enLista
                                  (GestorBanderas.banderasColocadas s) c));
          [exact HK|].
        intros c Hc. rewrite enLista_app.
        assert (Hno : (Celda.fila c =? GestorBanderas.b_fila b')
                      && (Celda.columna c =? GestorBanderas.b_columna b')
                      = false).
        { destruct (_ && _) eqn:E; [|reflexivity].
          rewrite <- Hex. symmetry. apply existsb_exists.
          exists c. split; assumption. }
        rewrite Hno, orb_false_r. reflexivity.
    + rewrite HcB in HcB'. injection HcB' as <-.
      apply Hcons'; assumption.
Qed.

(** ** C1 *)

Lemma colocar_invariante g g' lote :
  coherente (GestorBanderas.tablero g) ->
  GestorBanderas.colocarBanderasSeguras g = Devuelve (g', lote) ->
  lote = GestorBanderas.banderasColocadas g'
  /\ mismaEstructura (GestorBanderas.tablero g')
       (Tablero.actualizarRestricciones (GestorBanderas.tablero g))
  /\ Forall (candidataEn (Tablero.actualizarRestricciones
                            (GestorBanderas.tablero g))) lote
  /\ respetaRestricciones (GestorBanderas.tablero g') lote.
Proof.
  intros Hcoh. unfold GestorBanderas.colocarBanderasSeguras. cbv zeta.
  set (tb1 := Tablero.actualizarRestricciones (GestorBanderas.tablero g)).
  assert (Hbf1 : bienFormado tb1)
    by (apply actualizarRestricciones_bienFormado, Hcoh).
  assert (Hrc1 : restriccionesCompletas tb1)
    by (apply actualizarRestricciones_completas, Hcoh).
  match goal with
  | |- context [GestorBanderas.analizarRestriccionesBasicas ?g0] =>
      assert (H0 : invariante tb1 g0)
        by (split; [apply mismaEstructura_refl | constructor])
  end.
  apply (invariante_basicas _ _ Hbf1) in H0.
  apply (invariante_subconjuntos _ _ Hbf1) in H0.
  apply (invariante_patrones _ _ Hbf1) in H0.
  match goal with
  | |- context [GestorBanderas.analizarSistemasEcuaciones ?g3] =>
      destruct (GestorBanderas.analizarSistemasEcuaciones g3)
        as [g4| |] eqn:H4; cbn; try discriminate
  end.
  apply (invariante_sistemas _ _ _ Hbf1 H0) in H4 as [Hm4 Hc4].
  destruct (GestorBanderas.validarConsistenciaGlobal g4) as [g5| |] eqn:H5;
    cbn; try discriminate.
  intros [= <- <-].
  assert (Hbf4 : bienFormado (GestorBanderas.tablero g4)).
  { eapply bienFormado_mismaForma; [|exact Hbf1].
    apply mismaForma_sim, mismaForma_de_estructura, Hm4. }
  assert (Hrc4 : restriccionesCompletas (GestorBanderas.tablero g4)).
  { eapply restriccionesCompletas_mismaEstructura; [|exact Hrc1].
    apply mismaEstructura_sim, Hm4. }
  assert (Hcand4 : Forall (candidataEn (GestorBanderas.tablero g4))
                     (GestorBanderas.banderasColocadas g4)).
  { eapply Forall_impl; [exact Hc4|]. intros b Hb.
    eapply candidataEn_mismaEstructura; [|exact Hb].
    apply mismaEstructura_sim, Hm4. }
  destruct (validar_respeta g4 g5 Hbf4 Hrc4 Hcand4 H5) as (HT & Hincl & HK).
  split; [reflexivity|]. rewrite HT.
  split; [exact Hm4|]. split; [|exact HK].
  apply Forall_forall. intros b Hb. apply list_elem_of_In in Hb.
  eapply Forall_In; [exact Hc4 | apply Hincl, Hb].
Qed.

Lemma enLista_existe lote c :
  GestorBanderas.enLista lote c = true ->
  exists b, In b lote /\ GestorBanderas.b_fila b = Celda.fila c
            /\ GestorBanderas.b_columna b = Celda.columna c.
Proof.
  unfold GestorBanderas.enLista. intros H.
  apply existsb_exists in H as (b & Hb & Hp).
  apply andb_true_iff in Hp as [H1 H2]. exists b. split; [exact Hb|]. lia.
Qed.

(** ** C6 *)

Lemma masBanderas_refl t : masBanderas t t.
Proof.
  repeat split. intros fila columna.
  destruct (Tablero.obtenerCelda t fila columna); [|exact I]. auto.
Qed.

Lemma masBanderas_trans t1 t2 t3 :
  masBanderas t1 t2 -> masBanderas t2 t3 -> masBanderas t1 t3.
Proof.
  intros (Hf1 & Hc1 & H1) (Hf2 & Hc2 & H2).
  split; [congruence|split; [congruence|]]. intros fila columna.
  specialize (H1 fila columna). specialize (H2 fila columna).
  destruct (Tablero.obtenerCelda t1 fila columna),
           (Tablero.obtenerCelda t2 fila columna),
           (Tablero.obtenerCelda t3 fila columna); try tauto.
  destruct H1 as (? & ? & ? & ?), H2 as (? & ? & ? & ?).
  repeat split; try congruence. auto.
Qed.

Lemma masBanderas_celda t t' fila columna a :
  masBanderas t t' -> Tablero.obtenerCelda t fila columna = Some a ->
  exists b, Tablero.obtenerCelda t' fila columna = Some b
            /\ Celda.fila a = Celda.fila b
            /\ Celda.columna a = Celda.columna b
            /\ Celda.descubierta a = Celda.descubierta b
            /\ (Celda.tieneBandera a = true -> Celda.tieneBandera b = true).
Proof.
  intros (_ & _ & H) Ha. specialize (H fila columna). rewrite Ha in H.
  destruct (Tablero.obtenerCelda t' fila columna) as [b|]; [|contradiction].
  exists b. tauto.
Qed.

Lemma masBanderas_bienFormado t t' :
  masBanderas t t' -> bienFormado t -> bienFormado t'.
Proof.
  intros Hm Hbf fila columna Hv.
  assert (Hv0 : Tablero.esPosicionValida t fila columna = true).
  { destruct Hm as (Hf & Hc & _). unfold Tablero.esPosicionValida in *.
    rewrite Hf, Hc. exact Hv. }
  destruct (Hbf _ _ Hv0) as (a & Ha & Hfa & Hca).
  destruct (masBanderas_celda _ _ _ _ _ Hm Ha) as (b & Hb & Hfb & Hcb & _).
  exists b. split; [exact Hb|]. split; congruence.
Qed.

(** Colocar una bandera con [establecerBandera(fila, columna, true)]. *)
Lemma establecerBandera_efecto tb fila columna celda :
  Tablero.obtenerCelda tb fila columna = Some celda ->
  Celda.descubierta celda = false ->
  Celda.tieneBandera celda = false ->
  let tb' := fst (Tablero.establecerBandera tb fila columna true) in
  masBanderas tb tb'
  /\ Tablero.restriccionesActualizadas tb' = false
  /\ exists celda', Tablero.obtenerCelda tb' fila columna = Some celda'
                    /\ Celda.tieneBandera celda' = true.
Proof.
  intros Hc Hd Hb. cbv zeta.
  unfold Tablero.establecerBandera. rewrite Hc, Hd, Hb. cbn [negb Bool.eqb fst].
  set (t1 := Tablero.modificarCelda tb (fila, columna)
               (fun c => Celda.establecerBandera c true)).
  assert (Hobt : forall cont act uc f c,
    Tablero.obtenerCelda
      {| Tablero.filas := Tablero.filas t1;
         Tablero.columnas := Tablero.columnas t1;
         Tablero.celdas := Tablero.celdas t1;
         Tablero.contadorDescubiertas := Tablero.contadorDescubiertas t1;
         Tablero.contadorBanderas := cont;
         Tablero.restriccionesActualizadas := act;
         Tablero.ultimoCambio := uc |} f c
    = Tablero.obtenerCelda t1 f c) by reflexivity.
  split; [|split; [reflexivity|]].
  - split; [reflexivity|split; [reflexivity|]]. intros f c. rewrite Hobt.
    unfold t1.
    destruct (obtenerCelda_modificar_casos tb (fila, columna)
                (fun c => Celda.establecerBandera c true) f c) as [-> | ->];
      destruct (Tablero.obtenerCelda tb f c); cbn; auto.
  - rewrite Hobt. unfold t1.
    rewrite (obtenerCelda_modificar_misma _ _ _ _ _ Hc).
    eexists. split; reflexivity.
Qed.

Lemma procesar_paso tb b :
  let tb' :=
    match Tablero.obtenerCelda tb (GestorBanderas.b_fila b)
            (GestorBanderas.b_columna b) with
    | Some celda =>
        if negb (Celda.descubierta celda) && negb (Celda.tieneBandera celda)
        then fst (Tablero.establecerBandera tb (GestorBanderas.b_fila b)
                    (GestorBanderas.b_columna b) true)
        else tb
    | None => tb
    end in
  masBanderas tb tb'
  /\ (tb' = tb \/ Tablero.restriccionesActualizadas tb' = false)
  /\ forall celda,
       Tablero.obtenerCelda tb (GestorBanderas.b_fila b)
                            (GestorBanderas.b_columna b) = Some celda ->
       Celda.descubierta celda = false ->
       exists celda',
         Tablero.obtenerCelda tb' (GestorBanderas.b_fila b)
                              (GestorBanderas.b_columna b) = Some celda'
         /\ Celda.tieneBandera celda' = true.
Proof.
  cbv zeta.
  destruct (Tablero.obtenerCelda tb (GestorBanderas.b_fila b)
              (GestorBanderas.b_columna b)) as [celda|] eqn:Hc.
  - destruct (Celda.descubierta celda) eqn:Hd; cbn [negb andb].
    + split; [apply masBanderas_refl|]. split; [left; reflexivity|].
      intros c' [= <-] Hd'. congruence.
    + destruct (Celda.tieneBandera celda) eqn:Hb; cbn [negb].
      * split; [apply masBanderas_refl|]. split; [left; reflexivity|].
        intros c' [= <-] _. exists celda. split; assumption.
      * destruct (establecerBandera_efecto tb _ _ celda Hc Hd Hb)
          as (Hm & Hact & Hfl).
        split; [exact Hm|]. split; [right; exact Hact|].
        intros c' _ _. exact Hfl.
  - split; [apply masBanderas_refl|]. split; [left; reflexivity|].
    intros c' [=].
Qed.

Lemma procesar_masBanderas lote : forall tb,
  masBanderas tb (Juego.procesarNuevasBanderas tb lote)
  /\ (Juego.procesarNuevasBanderas tb lote = tb
      \/ Tablero.restriccionesActualizadas
           (Juego.procesarNuevasBanderas tb lote) = false).
Proof.
  unfold Juego.procesarNuevasBanderas.
  induction lote as [|b lote IH]; intros tb; cbn [fold_left].
  - split; [apply masBanderas_refl | left; reflexivity].
  - destruct (procesar_paso tb b) as (Hm & Hact & _).
    cbv zeta in Hm, Hact.
    match goal with
    | |- context [fold_left _ lote ?t1] =>
        destruct (IH t1) as [Hm1 Hact1]
    end.
    split; [eapply masBanderas_trans; eauto|].
    destruct Hact1 as [-> | Hf]; [|right; exact Hf].
    exact Hact.
Qed.

Lemma procesar_abandera lote : forall tb,
  (forall b, In b lote ->
     exists celda,
       Tablero.obtenerCelda tb (GestorBanderas.b_fila b)
                            (GestorBanderas.b_columna b) = Some celda
       /\ Celda.descubierta celda = false) ->
  forall b, In b lote ->
    exists celda',
      Tablero.obtenerCelda (Juego.procesarNuevasBanderas tb lote)
        (GestorBanderas.b_fila b) (GestorBanderas.b_columna b) = Some celda'
      /\ Celda.tieneBandera celda' = true.
Proof.
  unfold Juego.procesarNuevasBanderas.
  induction lote as [|b0 lote IH]; intros tb Hall b Hb; [destruct Hb|].
  cbn [fold_left].
  destruct (procesar_paso tb b0) as (Hm & _ & Hfl). cbv zeta in Hm, Hfl.
  match goal with
  | |- context [fold_left _ lote ?t1] => set (tb1 := t1) in *
  end.
  destruct Hb as [<- | Hb].
  - destruct (Hall b0 (or_introl eq_refl)) as (celda & Hc & Hd).
    destruct (Hfl celda Hc Hd) as (c1 & Hc1 & Hb1).
    destruct (procesar_masBanderas lote tb1) as [Hm1 _].
    destruct (masBanderas_celda _ _ _ _ _ Hm1 Hc1) as (c2 & Hc2 & _ & _ & _ & Hf).
    exists c2. split; [exact Hc2 | apply Hf, Hb1].
  - apply IH; [|exact Hb].
    intros b' Hb'. destruct (Hall b' (or_intror Hb')) as (celda & Hc & Hd).
    destruct (masBanderas_celda _ _ _ _ _ Hm Hc) as (c1 & Hc1 & _ & _ & Hd1 & _).
    exists c1. split; [exact Hc1 | congruence].
Qed.

Lemma candidataEn_mismaForma t1 t2 b :
  mismaForma t1 t2 -> candidataEn t1 b -> candidataEn t2 b.
Proof.
  intros Hm (c & Hc & Hd & Hb).
  destruct (mismaForma_celda _ _ _ _ _ Hm Hc) as (c2 & Hc2 & He).
  exists c2. split; [exact Hc2|].
  apply forma_campos in He as (_ & _ & Hd2 & Hb2 & _).
  split; congruence.
Qed.

(** X22: una segunda pasada de [colocarBanderasSeguras] sin revelar nada
    entre medias, sobre el tablero con el primer lote ya colocado por
    [procesarNuevasBanderas], nunca repite una bandera: cada bandera de su
    lote cae en una celda que sigue sin revelar y sin bandera, y por tanto
    en ninguna de las celdas del primer lote. *)
Theorem X22_segunda_pasada_no_repite (g g1 g2 : GestorBanderas.t)
    (lote1 lote2 : list GestorBanderas.Bandera) :
  coherente (GestorBanderas.tablero g) ->
  GestorBanderas.colocarBanderasSeguras g = Devuelve (g1, lote1) ->
  segundaPasada g1 lote1 = Devuelve (g2, lote2) ->
  forall b, In b lote2 ->
    candidataEn
      (Juego.procesarNuevasBanderas (GestorBanderas.tablero g1) lote1) b
    /\ ~ In (GestorBanderas.b_fila b, GestorBanderas.b_columna b)
            (posicionesDe lote1).
Proof.
  intros Hcoh Hrun1 Hrun2 b Hb.
  destruct (colocar_invariante g g1 lote1 Hcoh Hrun1)
    as (_ & Hm1 & Hcand1 & _).
  set (tbA := Tablero.actualizarRestricciones (GestorBanderas.tablero g)) in *.
  set (tb1 := Juego.procesarNuevasBanderas (GestorBanderas.tablero g1) lote1)
    in *.
  assert (HbfA : bienFormado tbA)
    by (apply actualizarRestricciones_bienFormado, Hcoh).
  assert (Hbf1 : bienFormado (GestorBanderas.tablero g1)).
  { eapply bienFormado_mismaForma; [|exact HbfA].
    apply mismaForma_sim, mismaForma_de_estructura, Hm1. }
  destruct (procesar_masBanderas lote1 (GestorBanderas.tablero g1))
    as [Hmas Hact]. fold tb1 in Hmas, Hact.
  assert (Hcoh1 : coherente tb1).
  { split; [eapply masBanderas_bienFormado; eauto|].
    intros Htrue. destruct Hact as [-> | Hf]; [|congruence].
    eapply restriccionesCompletas_mismaEstructura;
      [apply mismaEstructura_sim, Hm1|].
    apply actualizarRestricciones_completas, Hcoh. }
  unfold segundaPasada in Hrun2. fold tb1 in Hrun2.
  destruct (colocar_invariante (GestorBanderas.conTablero g1 tb1) g2 lote2
              Hcoh1 Hrun2)
    as (_ & _ & Hcand2 & _).
  cbn [GestorBanderas.conTablero GestorBanderas.tablero] in Hcand2.
  pose proof (Forall_In _ _ _ Hcand2 Hb) as Hcb.
  apply (candidataEn_mismaForma _ tb1) in Hcb;
    [|apply actualizarRestricciones_forma].
  split; [exact Hcb|].
  intros Hpos. unfold posicionesDe in Hpos.
  apply in_map_iff in Hpos as (b1 & Heq & Hb1). injection Heq as Hf Hc.
  assert (Hfl : exists celda',
             Tablero.obtenerCelda tb1 (GestorBanderas.b_fila b1)
               (GestorBanderas.b_columna b1) = Some celda'
             /\ Celda.tieneBandera celda' = true).
  { unfold tb1. apply procesar_abandera; [|exact Hb1].
    intros b' Hb'. pose proof (Forall_In _ _ _ Hcand1 Hb') as Hc'.
    apply (candidataEn_mismaEstructura _ (GestorBanderas.tablero g1)) in Hc';
      [|apply mismaEstructura_sim, Hm1].
    destruct Hc' as (celda & Hcel & Hd & _). exists celda. tauto. }
  destruct Hfl as (celda' & Hc' & Hb').
  destruct Hcb as (celda & Hcel & _ & Hnb).
  rewrite Hf, Hc in Hc'. congruence.
Qed.

Lemma X22_segunda_pasada_no_repite_testigo :
  exists g1 lote1 g2 lote2,
    GestorBanderas.colocarBanderasSeguras gestor_dos_pasadas
    = Devuelve (g1, lote1)
    /\ segundaPasada g1 lote1 = Devuelve (g2, lote2)
    /\ forall b, In b lote2 ->
         ~ In (GestorBanderas.b_fila b, GestorBanderas.b_columna b)
              (posicionesDe lote1).
Proof.
  destruct (GestorBanderas.colocarBanderasSeguras gestor_dos_pasadas)
    as [[g1 lote1]| |] eqn:Hrun1; try (vm_compute in Hrun1; discriminate).
  destruct (segundaPasada g1 lote1) as [[g2 lote2]| |] eqn:Hrun2.
  - exists g1, lote1, g2, lote2.
    split; [reflexivity|]. split; [exact Hrun2|].
    assert (Hcoh : coherente (GestorBanderas.tablero gestor_dos_pasadas)).
    { split; [apply bienFormadoB_correcto; vm_compute; reflexivity|].
      intros H. vm_compute in H. discriminate. }
    intros b Hb.
    apply (X22_segunda_pasada_no_repite gestor_dos_pasadas g1 g2 lote1 lote2
             Hcoh Hrun1 Hrun2 b Hb).
  - exfalso. vm_compute in Hrun1. injection Hrun1 as <- <-.
    vm_compute in Hrun2. discriminate.
  - exfalso. vm_compute in Hrun1. injection Hrun1 as <- <-.
    vm_compute in Hrun2. discriminate.
Defined.

(** C6: la segunda pasada no es vacía. En el tablero
<<
      ? ? 2 ?
      2 2 2 ?
>>
    la primera pasada devuelve las banderas (0,0) y (0,1); colocadas estas,
    y sin revelar nada, la segunda pasada devuelve una bandera más, la
    (0,3), hallada por el sistema de ecuaciones. Esa bandera no es una mina
    segura: lo revelado admite tanto la disposición con la tercera mina en
    (0,3) como la que la tiene en (1,3). *)
Theorem C6_segunda_pasada_devuelve_banderas :
  exists g1 lote1 g2 lote2,
    GestorBanderas.colocarBanderasSeguras gestor_dos_pasadas
    = Devuelve (g1, lote1)
    /\ posicionesDe lote1 = [(0, 0); (0, 1)]
    /\ segundaPasada g1 lote1 = Devuelve (g2, lote2)
    /\ posicionesDe lote2 = [(0, 3)]
    /\ lote2 <> []
    /\ disposicionCompatible tablero_dos_pasadas [(0, 0); (0, 1); (0, 3)]
       = true
    /\ disposicionCompatible tablero_dos_pasadas [(0, 0); (0, 1); (1, 3)]
       = true
    /\ disposicionCompatible
         (Juego.procesarNuevasBanderas (GestorBanderas.tablero g1) lote1)
         [(0, 0); (0, 1); (1, 3)]
       = true.
Proof.
  eexists _, _, _, _.
  split; [vm_compute; reflexivity|].
  split; [vm_compute; reflexivity|].
  split; [vm_compute; reflexivity|].
  split; [vm_compute; reflexivity|].
  split; [discriminate|].
  split; [vm_compute; reflexivity|].
  split; vm_compute; reflexivity.
Qed.

(** ** La etapa global: qué se enumera y qué se guarda *)

Lemma bit_de_land (a j : Z) :
  0 <= j -> (Z.land a (Z.shiftl 1 j) =? 0) = negb (Z.testbit a j).
Proof.
  intros Hj. rewrite Z.shiftl_1_l.
  destruct (Z.testbit a j) eqn:Hb; cbn [negb].
  - apply Z.eqb_neq. intros H0.
    assert (H : Z.testbit (Z.land a (2 ^ j)) j = true)
      by (rewrite Z.land_spec, Hb, Z.pow2_bits_true; auto).
    rewrite H0, Z.bits_0 in H. discriminate.
  - apply Z.eqb_eq, Z.bits_inj'. intros k _.
    rewrite Z.land_spec, Z.bits_0.
    destruct (Z.eq_dec j k) as [<-|Hne].
    + rewrite Hb. reflexivity.
    + rewrite Z.pow2_bits_false by exact Hne. apply andb_false_r.
Qed.

Lemma bit_cero (i : nat) :
  Z.testbit (Z.of_nat i) 0 = Nat.odd i.
Proof.
  rewrite Z.bit0_odd.
  rewrite (Nat.div2_odd i) at 1.
  rewrite Nat2Z.inj_add, Nat2Z.inj_mul, Z.add_comm, Z.odd_add_mul_2.
  destruct (Nat.odd i); reflexivity.
Qed.

Lemma bit_siguiente (i j : nat) :
  Z.testbit (Z.of_nat i) (Z.of_nat (S j))
  = Z.testbit (Z.of_nat (Nat.div2 i)) (Z.of_nat j).
Proof.
  rewrite Nat2Z.inj_div2, Z.div2_spec, Z.shiftr_spec by lia.
  f_equal. lia.
Qed.

(** La combinación [i] de [n + 1] celdas: el bit bajo de [i] y la
    combinación [i / 2] de las [n] restantes. *)
Lemma combinacionDe_S (n i : nat) :
  MotorProbabilidad.combinacionDe (S n) i
  = (if Nat.odd i then 1 else 0)
    :: MotorProbabilidad.combinacionDe n (Nat.div2 i).
Proof.
  unfold MotorProbabilidad.combinacionDe, desdeHasta.
  rewrite !Nat.sub_0_r. cbn [seq map]. f_equal.
  - rewrite (bit_de_land _ 0) by lia. change (Z.of_nat 0) with 0.
    rewrite bit_cero. destruct (Nat.odd i); reflexivity.
  - rewrite <- seq_shift, map_map. apply map_ext. intros j.
    rewrite !bit_de_land by lia. rewrite bit_siguiente. reflexivity.
Qed.

Lemma combinacionDe_asignacion (n : nat) : forall i,
  esAsignacion n (MotorProbabilidad.combinacionDe n i).
Proof.
  induction n as [|n IH]; intros i.
  - split; [reflexivity | constructor].
  - rewrite combinacionDe_S. destruct (IH (Nat.div2 i)) as [Hl Hf].
    split; [cbn; rewrite Hl; reflexivity|].
    constructor; [destruct (Nat.odd i); auto | exact Hf].
Qed.

Lemma combinacionDe_inyectiva (n : nat) : forall i i',
  (i < 2 ^ n)%nat -> (i' < 2 ^ n)%nat ->
  MotorProbabilidad.combinacionDe n i = MotorProbabilidad.combinacionDe n i' ->
  i = i'.
Proof.
  induction n as [|n IH]; intros i i' Hi Hi' Heq.
  - cbn in Hi, Hi'. lia.
  - rewrite !combinacionDe_S in Heq. injection Heq as Hb Hr.
    pose proof (Nat.div2_odd i) as Di. pose proof (Nat.div2_odd i') as Di'.
    rewrite Nat.pow_succ_r' in Hi, Hi'.
    assert (Hd : Nat.div2 i = Nat.div2 i').
    { apply IH; [| |exact Hr].
      - destruct (Nat.odd i); cbn [Nat.b2n] in Di; lia.
      - destruct (Nat.odd i'); cbn [Nat.b2n] in Di'; lia. }
    rewrite Hd in Di.
    destruct (Nat.odd i), (Nat.odd i'); try discriminate;
      cbn [Nat.b2n] in Di, Di'; lia.
Qed.

Lemma asignacion_enumerada (n : nat) : forall c,
  esAsignacion n c ->
  exists i, (i < 2 ^ n)%nat /\ c = MotorProbabilidad.combinacionDe n i.
Proof.
  induction n as [|n IH]; intros c [Hl Hf].
  - destruct c; [|discriminate]. exists 0%nat. split; [cbn; lia|reflexivity].
  - destruct c as [|b c]; [discriminate|].
    injection Hl as Hl. inversion Hf as [|x l Hb Hf']. clear Hf.
    destruct (IH c (conj Hl Hf')) as (i & Hi & Hc).
    rewrite Hc. clear Hc.
    rewrite Nat.pow_succ_r'.
    destruct Hb as [-> | ->].
    + exists (2 * i)%nat. split; [lia|].
      rewrite combinacionDe_S, Nat.odd_even, Nat.div2_double. reflexivity.
    + exists (S (2 * i))%nat. split; [lia|].
      rewrite combinacionDe_S, Nat.div2_succ_double.
      replace (S (2 * i)) with (2 * i + 1)%nat by lia.
      rewrite Nat.odd_odd. reflexivity.
Qed.

(** El [Set] del muestreo: sin repetidos y con los mismos elementos. *)
Lemma sin_repetidos (todas : list MotorProbabilidad.Combinacion) :
  forall vistas,
    NoDup vistas ->
    let resultado :=
      fold_left (fun (vistas : list MotorProbabilidad.Combinacion) c =>
                   if bool_decide (c ∈ vistas) then vistas else vistas ++ [c])
                todas vistas in
    NoDup resultado
    /\ forall c, In c resultado <-> In c vistas \/ In c todas.
Proof.
  induction todas as [|x todas IH]; intros vistas Hnd; cbn [fold_left].
  - split; [exact Hnd|]. intros c. cbn. tauto.
  - destruct (bool_decide (x ∈ vistas)) eqn:Hx.
    + apply bool_decide_eq_true in Hx. apply list_elem_of_In in Hx.
      destruct (IH vistas Hnd) as [H1 H2]. split; [exact H1|].
      intros c. rewrite H2. cbn. intuition (subst; auto).
    + apply bool_decide_eq_false in Hx.
      assert (Hnd' : NoDup (vistas ++ [x])).
      { apply NoDup_app. split; [exact Hnd|]. split.
        - intros y Hy Hy'. apply list_elem_of_In in Hy'.
          destruct Hy' as [<-|[]]. contradiction.
        - apply NoDup_singleton. }
      destruct (IH _ Hnd') as [H1 H2]. split; [exact H1|].
      intros c. rewrite H2, in_app_iff. cbn. tauto.
Qed.

Lemma muestra_ceroUno azar usos n i :
  Forall (fun x => x = 0 \/ x = 1) (MotorProbabilidad.muestra azar usos n i).
Proof.
  unfold MotorProbabilidad.muestra. apply Forall_forall. intros x Hx.
  apply list_elem_of_In, in_map_iff in Hx as (j & <- & _).
  destruct (JS.menor _ _); auto.
Qed.

Lemma generarCombinaciones_tablero azar m n :
  MotorProbabilidad.tablero (fst (MotorProbabilidad.generarCombinaciones azar m n))
  = MotorProbabilidad.tablero m.
Proof.
  unfold MotorProbabilidad.generarCombinaciones.
  destruct (10 <? n)%nat; reflexivity.
Qed.

Lemma generarCombinaciones_exacta azar m n :
  (n <= 10)%nat ->
  snd (MotorProbabilidad.generarCombinaciones azar m n)
  = map (MotorProbabilidad.combinacionDe n) (seq 0 (2 ^ n)).
Proof.
  intros Hn. unfold MotorProbabilidad.generarCombinaciones.
  destruct (Nat.ltb_spec 10 n) as [H|_]; [lia|].
  cbn [snd]. unfold desdeHasta. rewrite Nat.sub_0_r. reflexivity.
Qed.

Lemma generarCombinaciones_muestreada azar m n :
  (10 < n)%nat ->
  snd (MotorProbabilidad.generarCombinaciones azar m n)
  = fold_left (fun (vistas : list MotorProbabilidad.Combinacion) c =>
                 if bool_decide (c ∈ vistas) then vistas else vistas ++ [c])
              (map (MotorProbabilidad.muestra azar
                      (MotorProbabilidad.usosAzar m) n) (seq 0 1000))
              [].
Proof.
  intros Hn. unfold MotorProbabilidad.generarCombinaciones.
  destruct (Nat.ltb_spec 10 n) as [_|H]; [|lia].
  reflexivity.
Qed.

Lemma exacta_sin_repetidos n :
  NoDup (map (MotorProbabilidad.combinacionDe n) (seq 0 (2 ^ n))).
Proof.
  apply (NoDup_fmap_2_strong (MotorProbabilidad.combinacionDe n));
    [|apply NoDup_seq].
  intros i i' Hi Hi'. apply list_elem_of_In, in_seq in Hi, Hi'.
  apply combinacionDe_inyectiva; lia.
Qed.

Lemma generarCombinaciones_ceroUno azar m n c :
  In c (snd (MotorProbabilidad.generarCombinaciones azar m n)) ->
  Forall (fun x => x = 0 \/ x = 1) c.
Proof.
  destruct (Nat.le_gt_cases n 10) as [Hn|Hn].
  - rewrite generarCombinaciones_exacta by exact Hn.
    intros (i & <- & _)%in_map_iff. apply combinacionDe_asignacion.
  - rewrite generarCombinaciones_muestreada by exact Hn.
    intros Hc. apply (sin_repetidos _ [] (NoDup_nil_2)) in Hc.
    destruct Hc as [[]|Hc].
    apply in_map_iff in Hc as (i & <- & _). apply muestra_ceroUno.
Qed.

(** Con ceros y unos, la suma de la columna [i] es el número de
    combinaciones con mina en [i]. *)
Lemma suma_es_recuento (l : list MotorProbabilidad.Combinacion) (i : nat) :
  (forall c, In c l -> Forall (fun x => x = 0 \/ x = 1) c) ->
  forall a,
    fold_left (fun suma (combinacion : MotorProbabilidad.Combinacion) =>
                 suma + default 0 (combinacion !! i)) l a
    = a + largo (List.filter
                   (fun c : MotorProbabilidad.Combinacion =>
                      bool_decide (c !! i = Some 1)) l).
Proof.
  unfold largo.
  induction l as [|c l IH]; intros Hl a; cbn [fold_left List.filter].
  - cbn. lia.
  - rewrite IH by (intros c' Hc'; apply Hl; right; exact Hc').
    assert (Hc : Forall (fun x => x = 0 \/ x = 1) c)
      by (apply Hl; left; reflexivity).
    destruct (c !! i) as [x|] eqn:Hx; cbn [default].
    + pose proof (Forall_In _ _ _ Hc (proj1 (list_elem_of_In _ _)
                    (list_elem_of_lookup_2 _ _ _ Hx))) as Hx01.
      cbv beta in Hx01. destruct Hx01 as [-> | ->].
      * rewrite bool_decide_eq_false_2 by discriminate. unfold id. lia.
      * rewrite bool_decide_eq_true_2 by reflexivity.
        cbn [length]. unfold id. lia.
    + rewrite bool_decide_eq_false_2 by discriminate. lia.
Qed.

Lemma celdaEn_actualizar_misma m p prob conf o celda :
  MotorProbabilidad.celdaEn (MotorProbabilidad.tablero m) p = Some celda ->
  MotorProbabilidad.celdaEn
    (MotorProbabilidad.tablero (MotorProbabilidad.actualizar m p prob conf o)) p
  = Some (Celda.actualizarProbabilidades celda prob conf o).
Proof.
  destruct p as [fila columna]. unfold MotorProbabilidad.celdaEn.
  cbn [fst snd MotorProbabilidad.actualizar MotorProbabilidad.conTablero
       MotorProbabilidad.tablero].
  apply obtenerCelda_modificar_misma.
Qed.

Lemma celdaEn_actualizar_otra m p q prob conf o :
  Tablero.esPosicionValida (MotorProbabilidad.tablero m) (fst p) (snd p)
  = true ->
  q <> p ->
  MotorProbabilidad.celdaEn
    (MotorProbabilidad.tablero (MotorProbabilidad.actualizar m p prob conf o)) q
  = MotorProbabilidad.celdaEn (MotorProbabilidad.tablero m) q.
Proof.
  intros Hv Hne. destruct q as [fila columna]. unfold MotorProbabilidad.celdaEn.
  cbn [fst snd MotorProbabilidad.actualizar MotorProbabilidad.conTablero
       MotorProbabilidad.tablero].
  apply obtenerCelda_modificar_otra; assumption.
Qed.

(** El [forEach] que guarda las probabilidades, desde el índice [k]. *)
Lemma aplicar_desde (grupo : MotorProbabilidad.Grupo) (conf : float) :
  NoDup (MotorProbabilidad.g_celdas grupo) ->
  forall (l : list float) (k : nat) (m : MotorProbabilidad.t),
    (k + length l <= length (MotorProbabilidad.g_celdas grupo))%nat ->
    (forall p, In p (MotorProbabilidad.g_celdas grupo) ->
       Tablero.esPosicionValida (MotorProbabilidad.tablero m) (fst p) (snd p)
       = true) ->
    exists m',
      plegarR (fun m '(indice, prob) =>
                 match MotorProbabilidad.g_celdas grupo !! indice with
                 | Some p =>
                     mret (MotorProbabilidad.actualizar m p prob conf
                             "probabilidad")
                 | None => LanzaTypeError
                 end) (combine (seq k (length l)) l) m
      = Devuelve m'
      /\ forall i p celda,
           MotorProbabilidad.g_celdas grupo !! i = Some p ->
           MotorProbabilidad.celdaEn (MotorProbabilidad.tablero m) p
           = Some celda ->
           MotorProbabilidad.celdaEn (MotorProbabilidad.tablero m') p
           = Some (match (if (k <=? i)%nat then l !! (i - k)%nat else None) with
                   | Some prob =>
                       Celda.actualizarProbabilidades celda prob conf
                         "probabilidad"
                   | None => celda
                   end).
Proof.
  intros Hnd. induction l as [|x l IH]; intros k m Hk Hval.
  - exists m. split; [reflexivity|]. intros i p celda _ ->.
    destruct (k <=? i)%nat; reflexivity.
  - cbn [length seq combine plegarR]. cbn [length] in Hk.
    destruct (MotorProbabilidad.g_celdas grupo !! k) as [pk|] eqn:Hpk;
      [|apply lookup_ge_None in Hpk; lia].
    unfold mbind, resultado_bind, mret, resultado_ret.
    destruct (IH (S k)
                 (MotorProbabilidad.actualizar m pk x conf "probabilidad"))
      as (m' & Hrun & Hm'); [lia|exact Hval|].
    exists m'. split; [exact Hrun|].
    intros i p celda Hi Hc.
    destruct (Nat.eq_dec i k) as [->|Hne].
    + assert (p = pk) by congruence. subst p.
      rewrite (Hm' k pk _ Hpk (celdaEn_actualizar_misma _ _ _ _ _ _ Hc)).
      rewrite Nat.leb_refl, Nat.sub_diag.
      destruct (Nat.leb_spec (S k) k) as [H|_]; [lia|]. reflexivity.
    + assert (Hpp : p <> pk).
      { intros ->. apply Hne. eapply NoDup_lookup; eauto. }
      assert (Hc' : MotorProbabilidad.celdaEn
                      (MotorProbabilidad.tablero
                         (MotorProbabilidad.actualizar m pk x conf
                            "probabilidad")) p = Some celda).
      { rewrite celdaEn_actualizar_otra; [exact Hc| |exact Hpp].
        apply Hval. apply list_elem_of_In.
        eapply list_elem_of_lookup_2; eauto. }
      rewrite (Hm' i p celda Hi Hc').
      destruct (Nat.leb_spec (S k) i) as [H1|H1],
               (Nat.leb_spec k i) as [H2|H2]; try lia; [|reflexivity].
      replace (i - k)%nat with (S (i - S k)) by lia. reflexivity.
Qed.

Lemma aplicarProbabilidades_efecto m grupo probabilidades conf :
  NoDup (MotorProbabilidad.g_celdas grupo) ->
  (length probabilidades <= length (MotorProbabilidad.g_celdas grupo))%nat ->
  (forall p, In p (MotorProbabilidad.g_celdas grupo) ->
     Tablero.esPosicionValida (MotorProbabilidad.tablero m) (fst p) (snd p)
     = true) ->
  exists m',
    MotorProbabilidad.aplicarProbabilidades m grupo probabilidades conf
    = Devuelve m'
    /\ forall i p celda,
         MotorProbabilidad.g_celdas grupo !! i = Some p ->
         MotorProbabilidad.celdaEn (MotorProbabilidad.tablero m) p
         = Some celda ->
         MotorProbabilidad.celdaEn (MotorProbabilidad.tablero m') p
         = Some (match probabilidades !! i with
                 | Some prob =>
                     Celda.actualizarProbabilidades celda prob conf
                       "probabilidad"
                 | None => celda
                 end).
Proof.
  intros Hnd Hlen Hval.
  destruct (aplicar_desde grupo conf Hnd probabilidades 0%nat m)
    as (m' & Hrun & Hm'); [lia|exact Hval|].
  exists m'. split; [exact Hrun|].
  intros i p celda Hi Hc. rewrite (Hm' i p celda Hi Hc).
  cbn [Nat.leb]. rewrite Nat.sub_0_r. reflexivity.
Qed.

(** Lo que hace [procesarGrupo] con un grupo de a lo sumo 12 celdas, en
    términos del filtro [esValida] del código. *)
Lemma procesarGrupo_enumera (azar : nat -> float)
    (m : MotorProbabilidad.t) (grupo : MotorProbabilidad.Grupo) :
  let n := length (MotorProbabilidad.g_celdas grupo) in
  let combinaciones :=
    snd (MotorProbabilidad.generarCombinaciones azar m n) in
  let consistentes :=
    List.filter
      (MotorProbabilidad.esValida
         (MotorProbabilidad.prepararRestricciones
            (MotorProbabilidad.tablero m) grupo))
      combinaciones in
  (n <= 12)%nat ->
  NoDup (MotorProbabilidad.g_celdas grupo) ->
  (forall p, In p (MotorProbabilidad.g_celdas grupo) ->
     Tablero.esPosicionValida (MotorProbabilidad.tablero m) (fst p) (snd p)
     = true) ->
  NoDup combinaciones
  /\ ((n <= 10)%nat ->
      forall c, In c combinaciones <-> esAsignacion n c)
  /\ ((10 < n)%nat ->
      forall c, In c combinaciones
                <-> exists i, (i < 1000)%nat
                              /\ c = MotorProbabilidad.muestra azar
                                       (MotorProbabilidad.usosAzar m) n i)
  /\ exists m',
       MotorProbabilidad.procesarGrupo azar m grupo = Devuelve m'
       /\ forall i p celda,
            MotorProbabilidad.g_celdas grupo !! i = Some p ->
            MotorProbabilidad.celdaEn (MotorProbabilidad.tablero m) p
            = Some celda ->
            exists celda',
              MotorProbabilidad.celdaEn (MotorProbabilidad.tablero m') p
              = Some celda'
              /\ (consistentes <> [] ->
                  Celda.debeActualizar (Celda.probabilidades celda)
                    0.8 "probabilidad" = true ->
                  Celda.probabilidadMina (Celda.probabilidades celda')
                  = fraccionConMina consistentes i
                  /\ Celda.confianza (Celda.probabilidades celda')
                     = 0.8%float
                  /\ Celda.origen (Celda.probabilidades celda')
                     = "probabilidad"%string)
              /\ (consistentes = []
                  \/ Celda.debeActualizar (Celda.probabilidades celda)
                       0.8 "probabilidad" = false ->
                  celda' = celda).
Proof.
  intros n combinaciones consistentes Hn Hnd Hval.
  split; [|split; [|split]].
  - unfold combinaciones. destruct (Nat.le_gt_cases n 10) as [H|H].
    + rewrite generarCombinaciones_exacta by exact H.
      apply exacta_sin_repetidos.
    + rewrite generarCombinaciones_muestreada by exact H.
      apply (sin_repetidos _ [] NoDup_nil_2).
  - intros H c. unfold combinaciones.
    rewrite generarCombinaciones_exacta by exact H.
    rewrite in_map_iff. split.
    + intros (i & <- & _). apply combinacionDe_asignacion.
    + intros Hc. destruct (asignacion_enumerada n c Hc) as (i & Hi & ->).
      exists i. split; [reflexivity|]. apply in_seq. lia.
  - intros H c. unfold combinaciones.
    rewrite generarCombinaciones_muestreada by exact H.
    pose proof (sin_repetidos
                  (map (MotorProbabilidad.muestra azar
                          (MotorProbabilidad.usosAzar m) n) (seq 0 1000))
                  [] NoDup_nil_2) as [_ Hin].
    cbv zeta in Hin. rewrite Hin, in_map_iff. split.
    + intros [[]|(i & <- & Hi)]. apply in_seq in Hi.
      exists i. split; [lia|reflexivity].
    + intros (i & Hi & ->). right. exists i. split; [reflexivity|].
      apply in_seq. lia.
  - unfold MotorProbabilidad.procesarGrupo.
    destruct (Z.leb_spec (largo (MotorProbabilidad.g_celdas grupo)) 12)
      as [_|H]; [|unfold largo in H; fold n in H; lia].
    unfold MotorProbabilidad.calcularProbabilidadesPorEnumeracion.
    fold n. destruct (Nat.ltb_spec 12 n) as [H|_]; [lia|].
    rewrite (surjective_pairing
               (MotorProbabilidad.generarCombinaciones azar m n)).
    fold combinaciones. fold consistentes.
    destruct (Z.ltb_spec 0 (largo consistentes)) as [Hpos|Hcero].
    + destruct (aplicarProbabilidades_efecto
                  (fst (MotorProbabilidad.generarCombinaciones azar m n))
                  grupo
                  (map (fun i =>
                          let suma :=
                            fold_left
                              (fun suma
                                   (combinacion : MotorProbabilidad.Combinacion)
                                 => suma + default 0 (combinacion !! i))
                              consistentes 0 in
                          (JS.num suma / JS.num (largo consistentes))%float)
                       (desdeHasta 0 n))
                  0.8%float Hnd) as (m' & Hrun & Hm').
      { rewrite length_map. unfold desdeHasta.
        rewrite length_seq. fold n. lia. }
      { rewrite generarCombinaciones_tablero. exact Hval. }
      exists m'. split; [exact Hrun|].
      intros i p celda Hi Hc.
      rewrite generarCombinaciones_tablero in Hm'.
      rewrite (Hm' i p celda Hi Hc).
      assert (Hlt : (i < n)%nat) by (eapply lookup_lt_Some; exact Hi).
      rewrite list_lookup_fmap. unfold desdeHasta.
      rewrite Nat.sub_0_r, lookup_seq_lt by exact Hlt.
      cbn [fmap option_fmap option_map Nat.add]. cbv zeta.
      rewrite suma_es_recuento.
      2:{ intros c Hc'. apply filter_In in Hc' as [Hc' _].
          eapply generarCombinaciones_ceroUno. exact Hc'. }
      rewrite Z.add_0_l.
      eexists. split; [reflexivity|]. split.
      * intros _ Hdebe. unfold Celda.actualizarProbabilidades.
        rewrite Hdebe. repeat split.
      * intros [Hnil | Hdebe].
        -- assert (H0 : largo consistentes = 0) by (rewrite Hnil; reflexivity).
           lia.
        -- unfold Celda.actualizarProbabilidades. rewrite Hdebe.
           reflexivity.
    + assert (Hnil : consistentes = []).
      { unfold largo in Hcero. destruct consistentes; [reflexivity|].
        cbn [length] in Hcero. lia. }
      eexists. split; [reflexivity|].
      intros i p celda Hi Hc. exists celda.
      rewrite generarCombinaciones_tablero.
      split; [exact Hc|]. split; [|reflexivity].
      intros Hno. contradiction.
Qed.

Lemma grupo_muestreo_es_el_grupo :
  MotorProbabilidad.obtenerGruposConectados
    (MotorProbabilidad.tablero motor_muestreo) celdas_muestreo
  = Devuelve [grupo_muestreo].
Proof. vm_compute. reflexivity. Qed.

(** C5, contraejemplo: el grupo de once celdas se resuelve por muestreo
    (11000 llamadas al azar) y la celda (0,0) guarda su fracción con
    confianza 0.8, no 0.6; la celda (1,3), la de índice 6 del grupo, que
    traía probabilidad 1 de la etapa local con la misma confianza y mejor
    origen, no guarda la fracción de asignaciones consistentes que le
    toca, que es 0.375. *)
Lemma C5_muestreo_con_confianza_08 :
  MotorProbabilidad.obtenerGruposConectados
    (MotorProbabilidad.tablero motor_muestreo) celdas_muestreo
  = Devuelve [grupo_muestreo]
  /\ length (MotorProbabilidad.g_celdas grupo_muestreo) = 11%nat
  /\ MotorProbabilidad.g_celdas grupo_muestreo !! 6%nat = Some (1, 3)
  /\ fraccionConMina consistentes_muestreo 6 = 0.375%float
  /\ etapa_global_muestreo
     = Devuelve (11000,
                 Some (0.25%float, 0.8%float, "probabilidad"%string),
                 Some (1%float, 0.8%float, "restricciones"%string))
  /\ JS.igual 0.8 0.6 = false.
Proof.
  split; [vm_compute; reflexivity|].
  split; [reflexivity|]. split; [reflexivity|].
  split; [vm_compute; reflexivity|].
  split; [vm_compute; reflexivity|].
  vm_compute. reflexivity.
Qed.

(** ** Probabilidades fuera de rango *)

(** La etapa local divide las minas restantes de una restricción entre las
    celdas que solo dependen de ella, sin acotar el cociente: con una sola
    celda y dos minas restantes guarda un 2. *)
Lemma pasada_tres_por_dos_fuera_de_rango :
  exists m celdas celda,
    pasada_tres_por_dos = Devuelve (m, celdas)
    /\ Tablero.obtenerCelda (MotorProbabilidad.tablero m) 0 1 = Some celda
    /\ Celda.probabilidadMina (Celda.probabilidades celda) = 2%float
    /\ Celda.origen (Celda.probabilidades celda) = "restricciones"%string.
Proof.
  destruct pasada_tres_por_dos as [[m celdas]| |] eqn:Hp;
    try (vm_compute in Hp; discriminate).
  exists m, celdas.
  vm_compute in Hp. injection Hp as <- <-.
  eexists. split; [reflexivity|].
  split; [vm_compute; reflexivity|]. split; reflexivity.
Qed.

(** C3, en la entrada que falla: partida 3x3 con las respuestas (0,2)=1,
    (1,0)=2 y (1,1)=2; tras cada una corren el gestor de banderas y el
    motor de probabilidad. Al terminar, la celda (2,2), sin revelar y sin
    bandera, guarda probabilidad de mina 2 (confianza 0.8, origen
    'restricciones'): fuera de [0,1]. *)
Theorem C3_probabilidad_fuera_de_rango :
  exists tb celda,
    partida_tres_por_tres = Devuelve tb
    /\ Tablero.obtenerCelda tb 2 2 = Some celda
    /\ Celda.descubierta celda = false
    /\ Celda.tieneBandera celda = false
    /\ Celda.probabilidadMina (Celda.probabilidades celda) = 2%float
    /\ JS.mayor (Celda.probabilidadMina (Celda.probabilidades celda)) 1
       = true
    /\ Celda.origen (Celda.probabilidades celda) = "restricciones"%string.
Proof.
  destruct partida_tres_por_tres as [tb| |] eqn:Hp;
    try (vm_compute in Hp; discriminate).
  exists tb.
  vm_compute in Hp. injection Hp as <-.
  eexists. split; [reflexivity|].
  split; [vm_compute; reflexivity|]. repeat split.
Qed.

(** ** La esquina revelada como cero *)

(** C8, contraejemplo: en el tablero 8x8 la esquina (0,0) tiene tres
    celdas adyacentes, (0,1), (1,0) y (1,1), no ocho. *)
Lemma C8_la_esquina_tiene_tres_vecinas :
  map Celda.pos (Tablero.obtenerCeldasAdyacentes tablero_esquina_cero 0 0)
  = [(0, 1); (1, 0); (1, 1)]
  /\ length (Tablero.obtenerCeldasAdyacentes tablero_esquina_cero 0 0)
     <> 8%nat.
Proof. split; [vm_compute; reflexivity | vm_compute; discriminate]. Qed.

(** * Propiedades del resto del código *)

(** ** La memoria entre sesiones *)

Lemma ultimos_largo {A} (n : nat) (l : list A) :
  (length (GestorMemoria.ultimos n l) <= n)%nat.
Proof. unfold GestorMemoria.ultimos. rewrite length_drop. lia. Qed.

Lemma ultimos_corto {A} (n : nat) (l : list A) :
  (length l <= n)%nat -> GestorMemoria.ultimos n l = l.
Proof.
  intros H. unfold GestorMemoria.ultimos.
  replace (length l - n)%nat with 0%nat by lia. reflexivity.
Qed.

Lemma ultimos_ultimo {A} (n : nat) (l : list A) (x : A) :
  (0 < n)%nat -> last (GestorMemoria.ultimos n (l ++ [x])) = Some x.
Proof.
  intros Hn. unfold GestorMemoria.ultimos.
  rewrite length_app. cbn [length].
  rewrite drop_app_le by lia. apply last_snoc.
Qed.

Lemma historial_tras_contradiccion g tipo ahora :
  exists cc',
    GestorMemoria.controlCambios
      (GestorMemoria.memoria
         (GestorMemoria.registrarContradiccion g tipo ahora)) = Some cc'
    /\ GestorMemoria.historialCambios cc'
       = GestorMemoria.ultimos 20
           (GestorMemoria.historialCambios
              (default GestorMemoria.controlInicial
                 (GestorMemoria.controlCambios (GestorMemoria.memoria g)))
            ++ [{| GestorMemoria.h_tipo := tipo;
                   GestorMemoria.h_timestamp := ahora;
                   GestorMemoria.h_idPartida :=
                     GestorMemoria.idPartidaActual g |}]).
Proof.
  unfold GestorMemoria.registrarContradiccion.
  set (h := _ ++ [_]).
  assert (Hh : (if (20 <? length h)%nat then GestorMemoria.ultimos 20 h else h)
               = GestorMemoria.ultimos 20 h).
  { destruct (Nat.ltb_spec 20 (length h)) as [_|H]; [reflexivity|].
    symmetry. apply ultimos_corto. exact H. }
  rewrite Hh.
  match goal with |- context [if ?b then _ else _] => destruct b end;
    eexists; (split; [reflexivity|]); reflexivity.
Qed.

(** X1: tras cada contradicción registrada el historial de cambios es el
    anterior con la nueva entrada al final, recortado a sus 20 últimas
    entradas: nunca pasa de 20 y la última es siempre la recién
    registrada; además la memoria queda guardada tal cual. *)
Theorem X1_historial_de_cambios_acotado (g : GestorMemoria.t)
    (tipo : string) (ahora : Z) :
  let anterior :=
    GestorMemoria.historialCambios
      (default GestorMemoria.controlInicial
         (GestorMemoria.controlCambios (GestorMemoria.memoria g))) in
  let nueva :=
    {| GestorMemoria.h_tipo := tipo;
       GestorMemoria.h_timestamp := ahora;
       GestorMemoria.h_idPartida := GestorMemoria.idPartidaActual g |} in
  let g' := GestorMemoria.registrarContradiccion g tipo ahora in
  exists cc',
    GestorMemoria.controlCambios (GestorMemoria.memoria g') = Some cc'
    /\ GestorMemoria.historialCambios cc'
       = drop (length (anterior ++ [nueva]) - 20) (anterior ++ [nueva])
    /\ (length (GestorMemoria.historialCambios cc') <= 20)%nat
    /\ last (GestorMemoria.historialCambios cc') = Some nueva
    /\ GestorMemoria.almacenamiento g' = Some (GestorMemoria.memoria g').
Proof.
  cbv zeta.
  destruct (historial_tras_contradiccion g tipo ahora) as (cc' & Hcc & Hh).
  exists cc'. split; [exact Hcc|]. split; [exact Hh|].
  split; [rewrite Hh; apply ultimos_largo|].
  split; [rewrite Hh; apply ultimos_ultimo; lia|].
  reflexivity.
Qed.

Lemma registrarMina_paso g fila columna tb ahora :
  let g' := GestorMemoria.registrarMinaEncontrada g fila columna tb ahora in
  let mapa := GestorMemoria.mapaMinasConocidas (GestorMemoria.memoria g) in
  let mapa' := GestorMemoria.mapaMinasConocidas (GestorMemoria.memoria g') in
  (exists mina,
     mapa' !! ((fila, columna) : Pos) = Some mina
     /\ GestorMemoria.ocurrencias mina
        = default 0 (GestorMemoria.ocurrencias
                       <$> mapa !! ((fila, columna) : Pos)) + 1
     /\ GestorMemoria.esReciente mina = true)
  /\ (forall otra : Pos, otra <> (fila, columna) -> mapa' !! otra = mapa !! otra)
  /\ GestorMemoria.minasTotales
       (GestorMemoria.estadisticas (GestorMemoria.memoria g'))
     = GestorMemoria.minasTotales
         (GestorMemoria.estadisticas (GestorMemoria.memoria g)) + 1
  /\ GestorMemoria.almacenamiento g' = Some (GestorMemoria.memoria g')
  /\ GestorMemoria.cambiosDetectados g' = GestorMemoria.cambiosDetectados g.
Proof.
  cbv zeta. unfold GestorMemoria.registrarMinaEncontrada.
  cbn [GestorMemoria.guardarMemoria GestorMemoria.conMemoria
       GestorMemoria.memoria GestorMemoria.mapaMinasConocidas
       GestorMemoria.estadisticas GestorMemoria.minasTotales
       GestorMemoria.almacenamiento GestorMemoria.cambiosDetectados].
  split; [|split; [|repeat split]].
  - destruct (GestorMemoria.mapaMinasConocidas (GestorMemoria.memoria g)
                !! ((fila, columna) : Pos)) as [mina|] eqn:Hm;
      rewrite lookup_insert_eq; eexists; (split; [reflexivity|]);
      split; reflexivity.
  - intros otra Hne.
    destruct (GestorMemoria.mapaMinasConocidas (GestorMemoria.memoria g)
                !! ((fila, columna) : Pos));
      apply lookup_insert_ne; congruence.
Qed.

(** X2: en el mapa de minas conocidas las ocurrencias de una posición
    cuentan sus registros: tras registrar la misma mina una o más veces,
    su entrada existe, está marcada como reciente y sus ocurrencias son
    las que tenía (cero si no estaba) más el número de registros; las
    demás entradas no cambian, [minasTotales] sube en ese mismo número y
    la memoria queda guardada. *)
Theorem X2_ocurrencias_cuentan_registros (fila columna : Z)
    (veces : list (Tablero.t * Z)) (g : GestorMemoria.t) :
  let g' :=
    fold_left (fun g (vez : Tablero.t * Z) =>
                 GestorMemoria.registrarMinaEncontrada g fila columna
                   (fst vez) (snd vez)) veces g in
  let mapa := GestorMemoria.mapaMinasConocidas (GestorMemoria.memoria g) in
  let mapa' := GestorMemoria.mapaMinasConocidas (GestorMemoria.memoria g') in
  veces <> [] ->
  (exists mina,
     mapa' !! ((fila, columna) : Pos) = Some mina
     /\ GestorMemoria.ocurrencias mina
        = default 0 (GestorMemoria.ocurrencias
                       <$> mapa !! ((fila, columna) : Pos)) + largo veces
     /\ GestorMemoria.esReciente mina = true)
  /\ (forall otra : Pos, otra <> (fila, columna) -> mapa' !! otra = mapa !! otra)
  /\ GestorMemoria.minasTotales
       (GestorMemoria.estadisticas (GestorMemoria.memoria g'))
     = GestorMemoria.minasTotales
         (GestorMemoria.estadisticas (GestorMemoria.memoria g)) + largo veces
  /\ GestorMemoria.almacenamiento g' = Some (GestorMemoria.memoria g').
Proof.
  cbv zeta. revert g.
  induction veces as [|vez veces IH]; intros g Hne; [contradiction|].
  cbn [fold_left].
  destruct (registrarMina_paso g fila columna (fst vez) (snd vez))
    as ((mina & Hm & Ho & Hr) & Hotras & Htot & Halm & _).
  cbv zeta in Hm, Ho, Hotras, Htot, Halm.
  set (g1 := GestorMemoria.registrarMinaEncontrada g fila columna
               (fst vez) (snd vez)) in *.
  unfold largo. cbn [length]. rewrite Nat2Z.inj_succ.
  destruct veces as [|vez2 veces].
  - cbn [fold_left length]. split; [|split; [|split]].
    + exists mina. split; [exact Hm|]. split; [rewrite Ho; cbn; lia|exact Hr].
    + exact Hotras.
    + rewrite Htot. cbn. lia.
    + exact Halm.
  - destruct (IH g1) as ((mina' & Hm' & Ho' & Hr') & Hotras' & Htot' & Halm');
      [discriminate|].
    unfold largo in Ho', Htot'.
    split; [|split; [|split]].
    + exists mina'. split; [exact Hm'|]. split; [|exact Hr'].
      rewrite Ho', Hm.
      change (default 0 (GestorMemoria.ocurrencias <$> Some mina))
        with (GestorMemoria.ocurrencias mina).
      rewrite Ho. lia.
    + intros otra Hotra. rewrite Hotras' by exact Hotra.
      apply Hotras. exact Hotra.
    + rewrite Htot', Htot. lia.
    + exact Halm'.
Qed.

Lemma X2_ocurrencias_cuentan_registros_testigo :
  exists mina,
    GestorMemoria.mapaMinasConocidas
      (GestorMemoria.memoria
         (fold_left (fun g (vez : Tablero.t * Z) =>
                       GestorMemoria.registrarMinaEncontrada g 0 0
                         (fst vez) (snd vez))
                    [(Tablero.constructor 8 8, 5); (Tablero.constructor 8 8, 6)]
                    gestor_C7))
      !! ((0, 0) : Pos) = Some mina
    /\ GestorMemoria.ocurrencias mina = 3.
Proof.
  destruct (X2_ocurrencias_cuentan_registros 0 0
              [(Tablero.constructor 8 8, 5); (Tablero.constructor 8 8, 6)]
              gestor_C7) as ((mina & Hm & Ho & _) & _); [discriminate|].
  exists mina. split; [exact Hm|]. rewrite Ho. vm_compute. reflexivity.
Defined.

(** X3: lo que [registrarContradiccion] guarda es la memoria entera, con
    su contador de cambios, pero no el indicador [cambiosDetectados], que
    es de la sesión: una sesión nueva cargada de lo guardado tiene la
    misma memoria y el indicador apagado, así que lee el mapa de minas sin
    reducir; y si el contador guardado ya había llegado a 3, le basta una
    sola contradicción para encender el indicador otra vez. *)
Theorem X3_recarga_de_la_memoria (g : GestorMemoria.t)
    (tipo tipo' : string) (ahora despues ahora' : Z) :
  let contador0 :=
    GestorMemoria.contadorCambios
      (default GestorMemoria.controlInicial
         (GestorMemoria.controlCambios (GestorMemoria.memoria g))) in
  let g1 := GestorMemoria.registrarContradiccion g tipo ahora in
  let g2 := GestorMemoria.constructor (GestorMemoria.almacenamiento g1)
              despues in
  GestorMemoria.memoria g2 = GestorMemoria.memoria g1
  /\ GestorMemoria.cambiosDetectados g2 = false
  /\ GestorMemoria.obtenerMapaMinasConocidas g2
     = (g2, GestorMemoria.mapaMinasConocidas (GestorMemoria.memoria g1))
  /\ (2 <= contador0 ->
      GestorMemoria.cambiosDetectados g1 = true
      /\ GestorMemoria.cambiosDetectados
           (GestorMemoria.registrarContradiccion g2 tipo' ahora') = true).
Proof.
  cbv zeta.
  set (g1 := GestorMemoria.registrarContradiccion g tipo ahora).
  assert (Halm : GestorMemoria.almacenamiento g1
                 = Some (GestorMemoria.memoria g1)) by reflexivity.
  rewrite Halm.
  split; [reflexivity|]. split; [reflexivity|]. split; [reflexivity|].
  intros H2. split.
  - unfold g1. rewrite cambios_tras_contradiccion.
    apply orb_true_iff. left. apply Z.leb_le. lia.
  - rewrite cambios_tras_contradiccion.
    cbn [GestorMemoria.constructor GestorMemoria.memoria default
           GestorMemoria.cambiosDetectados from_option id].
    unfold g1. rewrite contador_tras_contradiccion.
    apply orb_true_iff. left. apply Z.leb_le. lia.
Qed.

Lemma X3_recarga_de_la_memoria_testigo :
  GestorMemoria.cambiosDetectados
    (GestorMemoria.registrarContradiccion gestor_dos_contradicciones "c" 4)
  = true
  /\ GestorMemoria.cambiosDetectados
       (GestorMemoria.registrarContradiccion
          (GestorMemoria.constructor
             (GestorMemoria.almacenamiento
                (GestorMemoria.registrarContradiccion
                   gestor_dos_contradicciones "c" 4)) 5) "d" 6) = true.
Proof.
  destruct (X3_recarga_de_la_memoria gestor_dos_contradicciones
              "c" "d" 4 5 6) as (_ & _ & _ & H).
  apply H. vm_compute. discriminate.
Defined.

(** ** La celda: historial de cálculos y restricciones *)

(** X4: el historial [calculosAnteriores] de una celda solo lo toca
    [actualizarProbabilidades], y solo cuando guarda: entonces añade al
    final el registro que había y, si con ello pasa de 5 entradas, tira la
    más antigua. Así el historial nunca crece por encima de 5 (ni de su
    largo anterior, si ya era mayor). Revelar la celda o ponerle o
    quitarle la bandera deja el historial intacto. *)
Theorem X4_historial_de_calculos_acotado (celda : Celda.t)
    (probMina conf : float) (o : string) (v : Celda.Valor) (b : bool) :
  let p := Celda.probabilidades celda in
  let h := Celda.calculosAnteriores p in
  let anterior :=
    {| Celda.c_probabilidadMina := Celda.probabilidadMina p;
       Celda.c_probabilidadSegura := Celda.probabilidadSegura p;
       Celda.c_confianza := Celda.confianza p;
       Celda.c_origen := Celda.origen p |} in
  let h' :=
    Celda.calculosAnteriores
      (Celda.probabilidades
         (Celda.actualizarProbabilidades celda probMina conf o)) in
  (length h' <= Nat.max 5 (length h))%nat
  /\ h' = (if Celda.debeActualizar p conf o
           then (if (5 <=? length h)%nat then tail h else h) ++ [anterior]
           else h)
  /\ Celda.calculosAnteriores
       (Celda.probabilidades (Celda.establecerValor celda v)) = h
  /\ Celda.calculosAnteriores
       (Celda.probabilidades (Celda.establecerBandera celda b)) = h.
Proof.
  cbv zeta.
  assert (Hh : Celda.calculosAnteriores
                 (Celda.probabilidades
                    (Celda.actualizarProbabilidades celda probMina conf o))
               = if Celda.debeActualizar (Celda.probabilidades celda) conf o
                 then (if (5 <=? length (Celda.calculosAnteriores
                                           (Celda.probabilidades celda)))%nat
                       then tail (Celda.calculosAnteriores
                                    (Celda.probabilidades celda))
                       else Celda.calculosAnteriores
                              (Celda.probabilidades celda))
                      ++ [{| Celda.c_probabilidadMina :=
                               Celda.probabilidadMina
                                 (Celda.probabilidades celda);
                             Celda.c_probabilidadSegura :=
                               Celda.probabilidadSegura
                                 (Celda.probabilidades celda);
                             Celda.c_confianza :=
                               Celda.confianza (Celda.probabilidades celda);
                             Celda.c_origen :=
                               Celda.origen (Celda.probabilidades celda) |}]
                 else Celda.calculosAnteriores (Celda.probabilidades celda)).
  { unfold Celda.actualizarProbabilidades.
    destruct (Celda.debeActualizar _ _ _); [|reflexivity].
    cbn [Celda.conProbabilidades Celda.probabilidades
         Celda.calculosAnteriores].
    unfold Celda.empujarCalculo.
    set (h := Celda.calculosAnteriores (Celda.probabilidades celda)).
    rewrite length_app. cbn [length].
    destruct (Z.ltb_spec 5 (Z.of_nat (length h + 1))) as [H1|H1];
      destruct (Nat.leb_spec 5 (length h)) as [H2|H2]; try lia;
      [|reflexivity].
    destruct h; [cbn in H2; lia | reflexivity]. }
  split; [|split; [exact Hh|split; reflexivity]].
  rewrite Hh.
  set (h := Celda.calculosAnteriores (Celda.probabilidades celda)).
  destruct (Celda.debeActualizar _ _ _); [|lia].
  rewrite length_app. cbn [length].
  destruct (Nat.leb_spec 5 (length h)) as [H2|H2]; [|lia].
  destruct h; cbn [tail length] in *; lia.
Qed.

Lemma mismaPos_refl (p : Pos) : mismaPos p p = true.
Proof. unfold mismaPos. rewrite !Z.eqb_refl. reflexivity. Qed.

Lemma existe_origen (rs : list Celda.Restriccion) (o : Pos) :
  existsb (fun r' => mismaPos (Celda.celdaOrigen r') o) rs = true
  <-> In o (map Celda.celdaOrigen rs).
Proof.
  rewrite existsb_exists, in_map_iff. split.
  - intros (r & Hr & Hp). exists r. split; [apply mismaPos_eq, Hp|exact Hr].
  - intros (r & <- & Hr). exists r. split; [exact Hr|apply mismaPos_refl].
Qed.

(** X5: [agregarRestriccion] nunca deja en una celda dos restricciones
    del mismo origen: si los orígenes eran distintos lo siguen siendo, la
    restricción nueva va al final sin tocar las que había, y una segunda
    restricción con el origen de otra ya presente se descarta entera,
    aunque traiga otros datos. *)
Theorem X5_restricciones_de_origen_unico (celda : Celda.t)
    (r r' : Celda.Restriccion) :
  NoDup (map Celda.celdaOrigen (Celda.restricciones celda)) ->
  Celda.celdaOrigen r' = Celda.celdaOrigen r ->
  let celda1 := Celda.agregarRestriccion celda r in
  NoDup (map Celda.celdaOrigen (Celda.restricciones celda1))
  /\ (Celda.restricciones celda1 = Celda.restricciones celda
      \/ Celda.restricciones celda1 = Celda.restricciones celda ++ [r])
  /\ In (Celda.celdaOrigen r)
        (map Celda.celdaOrigen (Celda.restricciones celda1))
  /\ Celda.agregarRestriccion celda1 r' = celda1.
Proof.
  intros Hnd Ho. cbv zeta.
  assert (Hin : In (Celda.celdaOrigen r)
                   (map Celda.celdaOrigen
                      (Celda.restricciones
                         (Celda.agregarRestriccion celda r)))).
  { destruct (agregarRestriccion_tiene celda r) as (x & Hx & Hxo).
    rewrite <- Hxo. apply in_map. exact Hx. }
  split; [|split; [|split; [exact Hin|]]].
  - unfold Celda.agregarRestriccion.
    destruct (existsb _ _) eqn:He; cbn [negb]; [exact Hnd|].
    cbn [Celda.conRestricciones Celda.restricciones].
    rewrite map_app. cbn [map]. apply NoDup_app. split; [exact Hnd|].
    split; [|apply NoDup_singleton].
    intros x Hx Hx'. apply list_elem_of_In in Hx, Hx'.
    destruct Hx' as [<-|[]].
    apply existe_origen in Hx. congruence.
  - unfold Celda.agregarRestriccion.
    destruct (existsb _ _); cbn [negb]; [left|right]; reflexivity.
  - unfold Celda.agregarRestriccion at 1.
    rewrite Ho. apply existe_origen in Hin. rewrite Hin. reflexivity.
Qed.

Lemma X5_restricciones_de_origen_unico_testigo :
  Celda.agregarRestriccion
    (Celda.agregarRestriccion celda_E2 (restriccion_E2 (1, 2) 2))
    (restriccion_E2 (1, 2) 3)
  = Celda.agregarRestriccion celda_E2 (restriccion_E2 (1, 2) 2).
Proof.
  assert (Hnd : NoDup (map Celda.celdaOrigen (Celda.restricciones celda_E2)))
    by (apply (bool_decide_unpack _); vm_compute; exact I).
  apply (X5_restricciones_de_origen_unico celda_E2
           (restriccion_E2 (1, 2) 2) (restriccion_E2 (1, 2) 3) Hnd eq_refl).
Defined.

(** ** El tablero recién creado *)

Lemma indices_lookup (n x : Z) :
  0 <= x < n -> Tablero.indices n !! Z.to_nat x = Some x.
Proof.
  intros H. unfold Tablero.indices.
  rewrite list_lookup_fmap, lookup_seq_lt by lia.
  cbn. f_equal. lia.
Qed.

Lemma constructor_celda (nf nc fila columna : Z) :
  Tablero.esPosicionValida (Tablero.constructor nf nc) fila columna = true ->
  Tablero.obtenerCelda (Tablero.constructor nf nc) fila columna
  = Some (Celda.conGeometria (Celda.constructor fila columna)
            (((fila =? 0) || (fila =? nf - 1))
             && ((columna =? 0) || (columna =? nc - 1)))
            ((fila =? 0) || (fila =? nf - 1)
             || (columna =? 0) || (columna =? nc - 1))
            (Z.min (Z.min fila (nf - 1 - fila))
                   (Z.min columna (nc - 1 - columna)))).
Proof.
  intros Hv. unfold Tablero.obtenerCelda. rewrite Hv.
  unfold Tablero.esPosicionValida in Hv.
  cbn [Tablero.constructor Tablero.filas Tablero.columnas] in Hv.
  apply andb_true_iff in Hv as [Hv Hc2]. apply andb_true_iff in Hv as [Hv Hc1].
  apply andb_true_iff in Hv as [Hf1 Hf2].
  apply Z.leb_le in Hf1, Hc1. apply Z.ltb_lt in Hf2, Hc2.
  cbn [Tablero.constructor Tablero.celdas].
  unfold Tablero.inicializarTablero, Tablero.marcarCeldasEspeciales.
  rewrite !list_lookup_fmap, indices_lookup by lia.
  cbn [fmap option_fmap option_map].
  rewrite !list_lookup_fmap, indices_lookup by lia.
  reflexivity.
Qed.

(** X6: en un tablero recién construido de [nf] x [nc], cada posición
    válida tiene su celda, con sus coordenadas, sin descubrir, sin
    bandera, sin valor ni restricciones y con el registro inicial
    (0.5, 0.5, confianza 0, 'inicial'); sus marcas de geometría son
    coherentes: es borde justo cuando su distancia al borde es 0, toda
    esquina es borde y la distancia al borde está entre 0 y la mitad del
    lado menor. *)
Theorem X6_tablero_recien_construido (nf nc fila columna : Z) :
  Tablero.esPosicionValida (Tablero.constructor nf nc) fila columna = true ->
  exists celda,
    Tablero.obtenerCelda (Tablero.constructor nf nc) fila columna = Some celda
    /\ Celda.pos celda = (fila, columna)
    /\ Celda.descubierta celda = false
    /\ Celda.tieneBandera celda = false
    /\ Celda.valor celda = Celda.Nulo
    /\ Celda.restricciones celda = []
    /\ Celda.probabilidades celda
       = Celda.probabilidades (Celda.constructor fila columna)
    /\ (Celda.esBorde celda = true <-> Celda.distanciaBorde celda = 0)
    /\ (Celda.esEsquina celda = true
        <-> (fila = 0 \/ fila = nf - 1) /\ (columna = 0 \/ columna = nc - 1))
    /\ (Celda.esEsquina celda = true -> Celda.esBorde celda = true)
    /\ 0 <= 2 * Celda.distanciaBorde celda <= Z.min nf nc - 1.
Proof.
  intros Hv. rewrite (constructor_celda _ _ _ _ Hv).
  eexists. split; [reflexivity|].
  unfold Tablero.esPosicionValida in Hv.
  cbn [Tablero.constructor Tablero.filas Tablero.columnas] in Hv.
  apply andb_true_iff in Hv as [Hv Hc2]. apply andb_true_iff in Hv as [Hv Hc1].
  apply andb_true_iff in Hv as [Hf1 Hf2].
  apply Z.leb_le in Hf1, Hc1. apply Z.ltb_lt in Hf2, Hc2.
  cbn [Celda.conGeometria Celda.pos Celda.fila Celda.columna
       Celda.descubierta Celda.tieneBandera Celda.valor Celda.restricciones
       Celda.probabilidades Celda.esBorde Celda.esEsquina
       Celda.distanciaBorde Celda.constructor].
  repeat (split; [reflexivity|]).
  destruct (Z.eqb_spec fila 0), (Z.eqb_spec fila (nf - 1)),
           (Z.eqb_spec columna 0), (Z.eqb_spec columna (nc - 1));
    cbn [orb andb]; repeat split; intros; try discriminate; try lia;
    try tauto.
Qed.

Lemma X6_tablero_recien_construido_testigo :
  exists celda,
    Tablero.obtenerCelda (Tablero.constructor 8 8) 0 7 = Some celda
    /\ Celda.esEsquina celda = true.
Proof.
  destruct (X6_tablero_recien_construido 8 8 0 7 eq_refl)
    as (celda & Hc & _ & _ & _ & _ & _ & _ & _ & He & _).
  exists celda. split; [exact Hc|]. apply He. split; [left|right]; reflexivity.
Defined.

(** ** Las celdas adyacentes *)

Lemma desplazamientos_spec (d : Z * Z) :
  In d Tablero.desplazamientos
  <-> d <> (0, 0) /\ -1 <= fst d <= 1 /\ -1 <= snd d <= 1.
Proof.
  destruct d as [i j]. unfold Tablero.desplazamientos. cbn [In fst snd].
  split.
  - intros H. repeat (destruct H as [[= <- <-]|H]; [split; [discriminate|lia]|]).
    destruct H.
  - intros (Hne & Hi & Hj).
    assert (Ci : i = -1 \/ i = 0 \/ i = 1) by lia.
    assert (Cj : j = -1 \/ j = 0 \/ j = 1) by lia.
    destruct Ci as [-> | [-> | ->]], Cj as [-> | [-> | ->]];
      try congruence; tauto.
Qed.

Lemma omap_acotado {A B} (f : A -> option B) (l : list A) :
  (length (omap f l) <= length l)%nat.
Proof.
  induction l as [|x l IH]; [reflexivity|].
  cbn [omap list_omap length]. destruct (f x); cbn [length]; lia.
Qed.

Lemma bienFormado_celda tb fila columna :
  bienFormado tb ->
  Tablero.esPosicionValida tb fila columna = true ->
  exists celda, Tablero.obtenerCelda tb fila columna = Some celda.
Proof. intros Hbf Hv. destruct (Hbf _ _ Hv) as (c & Hc & _). eauto. Qed.

Lemma adyacentes_cuenta tb fila columna (ds : list (Z * Z)) :
  bienFormado tb ->
  length (omap (fun d => Tablero.obtenerCelda tb (fila + fst d)
                                              (columna + snd d)) ds)
  = length (List.filter
              (fun d => Tablero.esPosicionValida tb (fila + fst d)
                                                 (columna + snd d)) ds).
Proof.
  intros Hbf. induction ds as [|d ds IH]; [reflexivity|].
  cbn [omap list_omap List.filter].
  destruct (Tablero.esPosicionValida tb (fila + fst d) (columna + snd d))
    eqn:Hv.
  - destruct (bienFormado_celda _ _ _ Hbf Hv) as (c & ->).
    cbn [length]. rewrite <- IH. reflexivity.
  - rewrite (obtenerCelda_invalida _ _ _ Hv). exact IH.
Qed.

(** X7: [obtenerCeldasAdyacentes] nunca devuelve más de 8 celdas ni la
    propia celda. En un tablero rectangular devuelve exactamente las celdas
    de las posiciones válidas a distancia 1 (en fila y columna), la
    relación es simétrica, y para una posición válida el número de
    adyacentes es [filas vecinas x columnas vecinas - 1]: 8 en el interior,
    3 en una esquina de un tablero de al menos 2 x 2. *)
Theorem X7_celdas_adyacentes (tb : Tablero.t) (fila columna : Z) :
  let adyacentes := Tablero.obtenerCeldasAdyacentes tb fila columna in
  let filasVecinas :=
    1 + (if 0 <? fila then 1 else 0)
      + (if fila <? Tablero.filas tb - 1 then 1 else 0) in
  let columnasVecinas :=
    1 + (if 0 <? columna then 1 else 0)
      + (if columna <? Tablero.columnas tb - 1 then 1 else 0) in
  (length adyacentes <= 8)%nat
  /\ (bienFormado tb ->
      (forall vecina,
         In vecina adyacentes
         <-> exists f c,
               Tablero.obtenerCelda tb f c = Some vecina
               /\ (f, c) <> (fila, columna)
               /\ Z.abs (f - fila) <= 1 /\ Z.abs (c - columna) <= 1)
      /\ (forall celda vecina,
            Tablero.obtenerCelda tb fila columna = Some celda ->
            In vecina adyacentes ->
            Celda.pos vecina <> (fila, columna)
            /\ In celda (Tablero.obtenerCeldasAdyacentes tb
                           (Celda.fila vecina) (Celda.columna vecina)))
      /\ (Tablero.esPosicionValida tb fila columna = true ->
          largo adyacentes = filasVecinas * columnasVecinas - 1
          /\ (0 < fila < Tablero.filas tb - 1 ->
              0 < columna < Tablero.columnas tb - 1 ->
              largo adyacentes = 8)
          /\ ((fila = 0 \/ fila = Tablero.filas tb - 1) ->
              (columna = 0 \/ columna = Tablero.columnas tb - 1) ->
              2 <= Tablero.filas tb -> 2 <= Tablero.columnas tb ->
              largo adyacentes = 3))).
Proof.
  cbv zeta. split.
  - unfold Tablero.obtenerCeldasAdyacentes.
    etransitivity; [apply omap_acotado|]. reflexivity.
  - intros Hbf.
    assert (Hmem : forall vecina,
               In vecina (Tablero.obtenerCeldasAdyacentes tb fila columna)
               <-> exists f c,
                     Tablero.obtenerCelda tb f c = Some vecina
                     /\ (f, c) <> (fila, columna)
                     /\ Z.abs (f - fila) <= 1 /\ Z.abs (c - columna) <= 1).
    { intros vecina. split.
      - intros Hin. apply adyacente_es_celda in Hin as (d & Hd & Hc).
        apply desplazamientos_spec in Hd as (Hne & Hi & Hj).
        exists (fila + fst d), (columna + snd d).
        split; [exact Hc|]. split; [|lia].
        intros [= H1 H2]. apply Hne. destruct d as [i j].
        cbn [fst snd] in *. f_equal; lia.
      - intros (f & c & Hc & Hne & Hf & Hco).
        apply (celda_es_adyacente tb fila columna (f - fila, c - columna)).
        + apply desplazamientos_spec. cbn [fst snd].
          split; [|lia]. intros [= H1 H2]. apply Hne. f_equal; lia.
        + cbn [fst snd].
          replace (fila + (f - fila)) with f by lia.
          replace (columna + (c - columna)) with c by lia. exact Hc. }
    split; [exact Hmem|]. split.
    + intros celda vecina Hc Hin.
      apply Hmem in Hin as (f & c & Hv & Hne & Hf & Hco).
      destruct (bienFormado_pos _ _ _ _ Hbf Hv) as [Hvf Hvc].
      split; [unfold Celda.pos; rewrite Hvf, Hvc; exact Hne|].
      rewrite Hvf, Hvc.
      apply (celda_es_adyacente tb f c (fila - f, columna - c)).
      * apply desplazamientos_spec. cbn [fst snd].
        split; [|lia]. intros [= H1 H2]. apply Hne. f_equal; lia.
      * cbn [fst snd].
        replace (f + (fila - f)) with fila by lia.
        replace (c + (columna - c)) with columna by lia. exact Hc.
    + intros Hv.
      assert (Hn : largo (Tablero.obtenerCeldasAdyacentes tb fila columna)
                   = (1 + (if 0 <? fila then 1 else 0)
                        + (if fila <? Tablero.filas tb - 1 then 1 else 0))
                     * (1 + (if 0 <? columna then 1 else 0)
                          + (if columna <? Tablero.columnas tb - 1
                             then 1 else 0)) - 1).
      { unfold largo, Tablero.obtenerCeldasAdyacentes.
        rewrite adyacentes_cuenta by exact Hbf.
        unfold Tablero.esPosicionValida in Hv.
        apply andb_true_iff in Hv as [Hv Hc2].
        apply andb_true_iff in Hv as [Hv Hc1].
        apply andb_true_iff in Hv as [Hf1 Hf2].
        apply Z.leb_le in Hf1, Hc1. apply Z.ltb_lt in Hf2, Hc2.
        unfold Tablero.desplazamientos, Tablero.esPosicionValida.
        cbn [List.filter fst snd].
        destruct (Z.ltb_spec 0 fila), (Z.ltb_spec fila (Tablero.filas tb - 1)),
                 (Z.ltb_spec 0 columna),
                 (Z.ltb_spec columna (Tablero.columnas tb - 1));
          repeat match goal with
                 | |- context [?a <=? ?b] =>
                     destruct (Z.leb_spec a b); try lia
                 | |- context [?a <? ?b] =>
                     destruct (Z.ltb_spec a b); try lia
                 end;
          cbn [andb length]; try lia. }
      split; [exact Hn|]. split.
      * intros Hf Hc. rewrite Hn.
        destruct (Z.ltb_spec 0 fila), (Z.ltb_spec fila (Tablero.filas tb - 1)),
                 (Z.ltb_spec 0 columna),
                 (Z.ltb_spec columna (Tablero.columnas tb - 1)); lia.
      * intros Hf Hc H2f H2c. rewrite Hn.
        destruct (Z.ltb_spec 0 fila), (Z.ltb_spec fila (Tablero.filas tb - 1)),
                 (Z.ltb_spec 0 columna),
                 (Z.ltb_spec columna (Tablero.columnas tb - 1)); lia.
Qed.

Lemma X7_celdas_adyacentes_testigo :
  largo (Tablero.obtenerCeldasAdyacentes tablero_C9 7 0) = 3
  /\ largo (Tablero.obtenerCeldasAdyacentes tablero_C9 3 4) = 8.
Proof.
  assert (Hbf : bienFormado tablero_C9)
    by (apply bienFormadoB_correcto; vm_compute; reflexivity).
  destruct (X7_celdas_adyacentes tablero_C9 7 0) as (_ & H).
  destruct (H Hbf) as (_ & _ & Hn). destruct (Hn eq_refl) as (_ & _ & H3).
  destruct (X7_celdas_adyacentes tablero_C9 3 4) as (_ & H').
  destruct (H' Hbf) as (_ & _ & Hn'). destruct (Hn' eq_refl) as (_ & H8 & _).
  split.
  - apply H3; [right; reflexivity | left; reflexivity | vm_compute; discriminate
               | vm_compute; discriminate].
  - apply H8; vm_compute; split; reflexivity.
Defined.

(** ** Los contadores del tablero *)

Lemma indices_sin_repetidos (n : Z) : NoDup (Tablero.indices n).
Proof.
  unfold Tablero.indices.
  apply (NoDup_fmap_2 Z.of_nat), NoDup_seq.
Qed.

Lemma posiciones_sin_repetidos (tb : Tablero.t) : NoDup (Tablero.posiciones tb).
Proof.
  unfold Tablero.posiciones.
  pose proof (indices_sin_repetidos (Tablero.filas tb)) as Hf.
  induction Hf as [|f fs Hnot Hnd IH]; cbn [flat_map]; [constructor|].
  apply NoDup_app. split; [|split; [|exact IH]].
  - apply (NoDup_fmap_2_strong (fun c => (f, c))).
    + intros a b _ _ [= ->]. reflexivity.
    + apply indices_sin_repetidos.
  - intros p Hp Hp'. apply list_elem_of_In in Hp, Hp'.
    apply in_map_iff in Hp as (c & <- & _).
    apply in_flat_map in Hp' as (f' & Hf' & Hp').
    apply in_map_iff in Hp' as (c' & [= -> _] & _).
    apply Hnot, list_elem_of_In, Hf'.
Qed.

(** Las celdas de una lista de posiciones válidas, una por posición. *)
Lemma celdas_de_posiciones tb (ps : list Pos) :
  bienFormado tb ->
  (forall p, In p ps -> Tablero.esPosicionValida tb (fst p) (snd p) = true) ->
  map Celda.pos (omap (fun p => Tablero.obtenerCelda tb (fst p) (snd p)) ps)
  = ps.
Proof.
  intros Hbf. induction ps as [|p ps IH]; intros Hv; [reflexivity|].
  cbn [omap list_omap].
  destruct (Hbf _ _ (Hv p (or_introl eq_refl))) as (c & Hc & Hcf & Hcc).
  rewrite Hc. cbn [map]. rewrite IH by (intros q Hq; apply Hv; right; exact Hq).
  f_equal. unfold Celda.pos. rewrite Hcf, Hcc. destruct p; reflexivity.
Qed.

Lemma todas_pos tb :
  bienFormado tb -> map Celda.pos (Tablero.todas tb) = Tablero.posiciones tb.
Proof.
  intros Hbf. apply celdas_de_posiciones; [exact Hbf|].
  intros [f c] Hp. apply posiciones_spec in Hp. exact Hp.
Qed.

Lemma todas_es_celda tb celda :
  In celda (Tablero.todas tb) ->
  exists fila columna, Tablero.obtenerCelda tb fila columna = Some celda.
Proof.
  unfold Tablero.todas. intros H. apply list_elem_of_In in H.
  apply list_elem_of_omap in H as (p & _ & Hp). eauto.
Qed.

Lemma todas_modificar tb fila columna g celda :
  bienFormado tb ->
  Tablero.obtenerCelda tb fila columna = Some celda ->
  Tablero.todas (Tablero.modificarCelda tb (fila, columna) g)
  = map (fun c => if mismaPos (Celda.pos c) (fila, columna) then g c else c)
        (Tablero.todas tb).
Proof.
  intros Hbf Hc. unfold Tablero.todas.
  change (Tablero.posiciones (Tablero.modificarCelda tb (fila, columna) g))
    with (Tablero.posiciones tb).
  assert (Hv : forall p, In p (Tablero.posiciones tb) ->
                 Tablero.esPosicionValida tb (fst p) (snd p) = true).
  { intros [f c] Hp. apply posiciones_spec in Hp. exact Hp. }
  induction (Tablero.posiciones tb) as [|p ps IH]; [reflexivity|].
  cbn [omap list_omap].
  destruct (Hbf _ _ (Hv p (or_introl eq_refl))) as (c & Hpc & Hcf & Hcc).
  rewrite Hpc. cbn [map].
  rewrite <- IH by (intros q Hq; apply Hv; right; exact Hq).
  destruct (decide (p = (fila, columna))) as [->|Hne].
  - cbn [fst snd] in *. rewrite (obtenerCelda_modificar_misma _ _ _ _ _ Hc).
    assert (c = celda) by congruence. subst c.
    unfold Celda.pos. rewrite Hcf, Hcc, mismaPos_refl. reflexivity.
  - rewrite obtenerCelda_modificar_otra.
    + rewrite Hpc.
      destruct (mismaPos (Celda.pos c) (fila, columna)) eqn:Hm; [|reflexivity].
      apply mismaPos_eq in Hm. unfold Celda.pos in Hm.
      rewrite Hcf, Hcc in Hm. destruct p. contradiction.
    + cbn [fst snd]. eapply obtenerCelda_valida. exact Hc.
    + destruct p. exact Hne.
Qed.

(** Cambiar la única celda de una posición mueve cada recuento en lo que
    cambie esa celda. *)
Lemma recuento_tras_cambio (P : Celda.t -> bool) (g : Celda.t -> Celda.t)
    (p0 : Pos) (c0 : Celda.t) (l : list Celda.t) :
  NoDup (map Celda.pos l) -> In c0 l -> Celda.pos c0 = p0 ->
  largo (List.filter P
           (map (fun c => if mismaPos (Celda.pos c) p0 then g c else c) l))
  = largo (List.filter P l)
    - (if P c0 then 1 else 0) + (if P (g c0) then 1 else 0).
Proof.
  unfold largo. induction l as [|x l IH]; intros Hnd Hin Hp; [destruct Hin|].
  cbn [map] in Hnd. apply NoDup_cons in Hnd as [Hx Hnd].
  cbn [map List.filter].
  destruct (mismaPos (Celda.pos x) p0) eqn:Hm.
  - apply mismaPos_eq in Hm.
    assert (x = c0).
    { destruct Hin as [H|H]; [exact H|].
      exfalso. apply Hx. rewrite Hm, <- Hp.
      apply list_elem_of_In, in_map, H. }
    subst x.
    assert (Hrest : map (fun c => if mismaPos (Celda.pos c) p0 then g c else c)
                        l = l).
    { rewrite <- (map_id l) at 2. apply map_ext_in. intros y Hy.
      destruct (mismaPos (Celda.pos y) p0) eqn:Hy'; [|reflexivity].
      exfalso. apply mismaPos_eq in Hy'. apply Hx. rewrite Hm, <- Hy'.
      apply list_elem_of_In, in_map, Hy. }
    rewrite Hrest.
    destruct (P c0), (P (g c0)); cbn [length]; lia.
  - assert (Hc0 : In c0 l).
    { destruct Hin as [->|H]; [|exact H].
      rewrite Hp, mismaPos_refl in Hm. discriminate. }
    specialize (IH Hnd Hc0 Hp).
    destruct (P x); cbn [length]; lia.
Qed.

Lemma recuento_modificar tb fila columna g celda (P : Celda.t -> bool) :
  bienFormado tb ->
  Tablero.obtenerCelda tb fila columna = Some celda ->
  largo (List.filter P
           (Tablero.todas (Tablero.modificarCelda tb (fila, columna) g)))
  = largo (List.filter P (Tablero.todas tb))
    - (if P celda then 1 else 0) + (if P (g celda) then 1 else 0).
Proof.
  intros Hbf Hc. rewrite (todas_modificar _ _ _ _ _ Hbf Hc).
  apply recuento_tras_cambio.
  - rewrite todas_pos by exact Hbf. apply posiciones_sin_repetidos.
  - eapply en_todas. exact Hc.
  - unfold Celda.pos.
    destruct (bienFormado_pos _ _ _ _ Hbf Hc) as [-> ->]. reflexivity.
Qed.

Lemma todas_mismaForma t1 t2 :
  mismaForma t1 t2 ->
  map formaCelda (Tablero.todas t1) = map formaCelda (Tablero.todas t2).
Proof.
  intros (Hf & Hc & Hcel). unfold Tablero.todas, Tablero.posiciones.
  rewrite Hf, Hc.
  induction (flat_map _ _) as [|p ps IH]; [reflexivity|].
  cbn [omap list_omap]. specialize (Hcel (fst p) (snd p)).
  destruct (Tablero.obtenerCelda t1 (fst p) (snd p)),
           (Tablero.obtenerCelda t2 (fst p) (snd p));
    cbn [option_map] in Hcel; try discriminate; cbn [map]; [|exact IH].
  f_equal; [congruence | exact IH].
Qed.

Lemma recuento_por_forma (P : Celda.t -> bool) (l1 l2 : list Celda.t) :
  (forall a b, formaCelda a = formaCelda b -> P a = P b) ->
  map formaCelda l1 = map formaCelda l2 ->
  largo (List.filter P l1) = largo (List.filter P l2).
Proof.
  intros HP. unfold largo. revert l2.
  induction l1 as [|a l1 IH]; intros [|b l2] H; try discriminate;
    [reflexivity|].
  cbn [map] in H.
  assert (Hab : formaCelda a = formaCelda b) by congruence.
  assert (H' : map formaCelda l1 = map formaCelda l2) by congruence.
  cbn [List.filter].
  rewrite (HP a b Hab). specialize (IH l2 H').
  destruct (P b); cbn [length]; lia.
Qed.

Lemma filtro_vacio {A} (P : A -> bool) (l : list A) :
  (forall x, In x l -> P x = false) -> List.filter P l = [].
Proof.
  induction l as [|x l IH]; intros H; [reflexivity|].
  cbn [List.filter]. rewrite (H x (or_introl eq_refl)).
  apply IH. intros y Hy. apply H. right. exact Hy.
Qed.

Lemma contadores_restringirDesde tb p :
  Tablero.contadorDescubiertas (Tablero.restringirDesde tb p)
  = Tablero.contadorDescubiertas tb
  /\ Tablero.contadorBanderas (Tablero.restringirDesde tb p)
     = Tablero.contadorBanderas tb.
Proof.
  unfold Tablero.restringirDesde.
  destruct (Tablero.obtenerCelda tb (fst p) (snd p)) as [celda|]; [|tauto].
  destruct (Celda.tieneValorNumerico celda); [|tauto].
  destruct (Celda.obtenerValorNumerico celda); [|tauto].
  cbv zeta. destruct (0 <? _); [|tauto].
  apply fold_left_invariante; [tauto|].
  intros s x _ Hs. exact Hs.
Qed.

Lemma contadores_actualizarRestricciones tb :
  Tablero.contadorDescubiertas (Tablero.actualizarRestricciones tb)
  = Tablero.contadorDescubiertas tb
  /\ Tablero.contadorBanderas (Tablero.actualizarRestricciones tb)
     = Tablero.contadorBanderas tb.
Proof.
  unfold Tablero.actualizarRestricciones.
  destruct (Tablero.restriccionesActualizadas tb); [tauto|].
  cbn [Tablero.conActualizadas Tablero.contadorDescubiertas
       Tablero.contadorBanderas].
  apply (fold_left_invariante
           (fun s => Tablero.contadorDescubiertas s
                     = Tablero.contadorDescubiertas tb
                     /\ Tablero.contadorBanderas s
                        = Tablero.contadorBanderas tb)); [tauto|].
  intros s p _ [H1 H2].
  destruct (contadores_restringirDesde s p) as [-> ->]. tauto.
Qed.

(** X8: los contadores [contadorDescubiertas] y [contadorBanderas] son
    siempre el número de celdas descubiertas y de celdas con bandera: lo
    son en un tablero nuevo y, en un tablero rectangular, lo siguen siendo
    tras revelar una celda, poner o quitar una bandera o actualizar las
    restricciones, tanto cuando la operación cambia algo como cuando se
    rechaza. *)
Theorem X8_contadores_al_dia (tb : Tablero.t) (nf nc fila columna : Z)
    (valor : Celda.Valor) (bandera : bool) :
  contadoresAlDia (Tablero.constructor nf nc)
  /\ (bienFormado tb -> contadoresAlDia tb ->
      contadoresAlDia (fst (Tablero.establecerValorCelda tb fila columna valor))
      /\ contadoresAlDia (fst (Tablero.establecerBandera tb fila columna
                                 bandera))
      /\ contadoresAlDia (Tablero.actualizarRestricciones tb)).
Proof.
  split.
  - assert (Hfresco : forall celda,
               In celda (Tablero.todas (Tablero.constructor nf nc)) ->
               Celda.descubierta celda = false
               /\ Celda.tieneBandera celda = false).
    { intros celda Hin. apply todas_es_celda in Hin as (f & c & Hc).
      pose proof (obtenerCelda_valida _ _ _ _ Hc) as Hv.
      rewrite (constructor_celda _ _ _ _ Hv) in Hc. injection Hc as <-.
      split; reflexivity. }
    unfold contadoresAlDia, Tablero.obtenerCeldasReveladas,
      Tablero.obtenerCeldasConBandera, largo.
    rewrite !filtro_vacio by (intros x Hx; apply Hfresco, Hx).
    split; reflexivity.
  - intros Hbf [Hd Hb].
    unfold contadoresAlDia, Tablero.obtenerCeldasReveladas,
      Tablero.obtenerCeldasConBandera in *.
    split; [|split].
    + unfold Tablero.establecerValorCelda.
      destruct (Tablero.obtenerCelda tb fila columna) as [celda|] eqn:Hc;
        [|split; assumption].
      destruct (Celda.descubierta celda) eqn:Hdesc; cbn [negb fst];
        [split; assumption|].
      cbn [Tablero.contadorDescubiertas Tablero.contadorBanderas].
      set (t1 := Tablero.modificarCelda tb (fila, columna)
                   (fun c => Celda.establecerValor c valor)).
      change (Tablero.todas _) with (Tablero.todas t1).
      unfold t1.
      rewrite !(recuento_modificar _ _ _ _ _ _ Hbf Hc).
      cbn [Celda.establecerValor Celda.descubierta Celda.tieneBandera
           Tablero.modificarCelda Tablero.conCeldas
           Tablero.contadorDescubiertas Tablero.contadorBanderas].
      rewrite Hdesc. destruct (Celda.tieneBandera celda); lia.
    + unfold Tablero.establecerBandera.
      destruct (Tablero.obtenerCelda tb fila columna) as [celda|] eqn:Hc;
        [|split; assumption].
      destruct (Celda.descubierta celda) eqn:Hdesc; cbn [negb fst];
        [split; assumption|].
      destruct (Bool.eqb (Celda.tieneBandera celda) bandera) eqn:Heq;
        cbn [negb fst]; [split; assumption|].
      cbn [Tablero.contadorDescubiertas Tablero.contadorBanderas].
      set (t1 := Tablero.modificarCelda tb (fila, columna)
                   (fun c => Celda.establecerBandera c bandera)).
      change (Tablero.todas _) with (Tablero.todas t1).
      unfold t1.
      rewrite !(recuento_modificar _ _ _ _ _ _ Hbf Hc).
      cbn [Celda.establecerBandera Celda.descubierta Celda.tieneBandera
           Tablero.modificarCelda Tablero.conCeldas
           Tablero.contadorDescubiertas Tablero.contadorBanderas].
      rewrite Hdesc.
      destruct (Celda.tieneBandera celda), bandera; try discriminate; lia.
    + destruct (contadores_actualizarRestricciones tb) as [-> ->].
      pose proof (todas_mismaForma _ _ (actualizarRestricciones_forma tb))
        as Hforma.
      rewrite (recuento_por_forma Celda.descubierta _ _
                 ltac:(intros a b H; apply forma_campos in H; tauto) Hforma).
      rewrite (recuento_por_forma Celda.tieneBandera _ _
                 ltac:(intros a b H; apply forma_campos in H; tauto) Hforma).
      split; assumption.
Qed.

Lemma X8_contadores_al_dia_testigo :
  contadoresAlDia (fst (Tablero.establecerBandera tablero_C10 2 3 false))
  /\ contadoresAlDia (fst (Tablero.establecerValorCelda tablero_C10 2 3
                             Celda.Mina)).
Proof.
  assert (Hbf : bienFormado tablero_C10)
    by (apply bienFormadoB_correcto; vm_compute; reflexivity).
  assert (Hc : contadoresAlDia tablero_C10)
    by (split; vm_compute; reflexivity).
  destruct (X8_contadores_al_dia tablero_C10 8 8 2 3 Celda.Mina false)
    as (_ & H).
  destruct (H Hbf Hc) as (Hv & Hb & _). split; assumption.
Defined.

(** ** La condición de victoria *)

Lemma largo_cero {A} (P : A -> bool) (l : list A) :
  largo (List.filter P l) = 0 <-> forall x, In x l -> P x = false.
Proof.
  unfold largo. split.
  - intros H x Hx. destruct (P x) eqn:Hp; [|reflexivity].
    assert (Hin : In x (List.filter P l)) by (apply filter_In; tauto).
    destruct (List.filter P l); [destruct Hin | cbn in H; lia].
  - intros H. rewrite filtro_vacio by exact H. reflexivity.
Qed.

Lemma banderas_por_partes (l : list Celda.t) :
  largo (List.filter Celda.tieneBandera l)
  = largo (List.filter (fun c => negb (Celda.descubierta c)) l)
    - largo (List.filter (fun c => negb (Celda.descubierta c)
                                   && negb (Celda.tieneBandera c)) l)
    + largo (List.filter (fun c => Celda.descubierta c
                                   && Celda.tieneBandera c) l).
Proof.
  unfold largo. induction l as [|x l IH]; [reflexivity|].
  cbn [List.filter].
  destruct (Celda.descubierta x), (Celda.tieneBandera x);
    cbn [negb andb length]; lia.
Qed.

Lemma todas_con_bandera (l : list Celda.t) :
  forallb Celda.tieneBandera
          (List.filter (fun c => negb (Celda.descubierta c)) l) = true
  <-> largo (List.filter (fun c => negb (Celda.descubierta c)
                                   && negb (Celda.tieneBandera c)) l) = 0.
Proof.
  rewrite largo_cero, forallb_forall. split.
  - intros H x Hx.
    destruct (Celda.descubierta x) eqn:Hd; [reflexivity|].
    rewrite (H x); [reflexivity|]. apply filter_In. rewrite Hd. tauto.
  - intros H x Hx. apply filter_In in Hx as [Hx Hd].
    specialize (H x Hx). destruct (Celda.tieneBandera x); [reflexivity|].
    rewrite Hd in H. discriminate.
Qed.

Lemma largo_no_negativo {A} (l : list A) : 0 <= largo l.
Proof. unfold largo. lia. Qed.

Lemma verificarVictoria_caracterizada (juegoTerminado : bool)
    (tb : Tablero.t) :
  Juego.verificarVictoria juegoTerminado tb = true
  <-> juegoTerminado = false
      /\ forall celda, In celda (Tablero.todas tb) ->
           Celda.tieneBandera celda = negb (Celda.descubierta celda).
Proof.
  unfold Juego.verificarVictoria.
  destruct juegoTerminado; [split; [discriminate | intros [[=] _]]|].
  cbv zeta. unfold Tablero.obtenerCeldasSinRevolar,
    Tablero.obtenerCeldasConBandera.
  rewrite andb_true_iff, Z.eqb_eq, todas_con_bandera.
  rewrite (banderas_por_partes (Tablero.todas tb)).
  pose proof (largo_no_negativo
                (List.filter (fun c => Celda.descubierta c
                                       && Celda.tieneBandera c)
                             (Tablero.todas tb))) as Hpos.
  split.
  - intros [Heq Hc]. split; [reflexivity|].
    assert (He : largo (List.filter (fun c => Celda.descubierta c
                                              && Celda.tieneBandera c)
                                    (Tablero.todas tb)) = 0) by lia.
    intros celda Hin.
    pose proof (proj1 (largo_cero _ _) Hc celda Hin) as H1.
    pose proof (proj1 (largo_cero _ _) He celda Hin) as H2.
    cbv beta in H1, H2.
    destruct (Celda.descubierta celda), (Celda.tieneBandera celda);
      cbn in *; congruence.
  - intros [_ H].
    assert (Hc : largo (List.filter
                          (fun c => negb (Celda.descubierta c)
                                    && negb (Celda.tieneBandera c))
                          (Tablero.todas tb)) = 0).
    { apply largo_cero. intros x Hx. rewrite (H x Hx).
      destruct (Celda.descubierta x); reflexivity. }
    assert (He : largo (List.filter (fun c => Celda.descubierta c
                                              && Celda.tieneBandera c)
                                    (Tablero.todas tb)) = 0).
    { apply largo_cero. intros x Hx. rewrite (H x Hx).
      destruct (Celda.descubierta x); reflexivity. }
    split; [lia | exact Hc].
Qed.

(** X9: [verificarVictoria] declara la victoria exactamente cuando el
    juego no había terminado y en cada celda del tablero la bandera es lo
    contrario de estar descubierta: toda celda sin revelar tiene bandera y
    ninguna celda revelada la tiene. En particular un tablero sin celdas
    por revelar y sin banderas es victoria, y una sola celda revelada con
    bandera la impide. *)
Theorem X9_condicion_de_victoria (juegoTerminado : bool) (tb : Tablero.t) :
  Juego.verificarVictoria juegoTerminado tb = true
  <-> juegoTerminado = false
      /\ forall celda, In celda (Tablero.todas tb) ->
           Celda.tieneBandera celda = negb (Celda.descubierta celda).
Proof. apply verificarVictoria_caracterizada. Qed.

Lemma mutar_conserva_revelada_con_bandera tb m fila columna celda :
  Tablero.obtenerCelda tb fila columna = Some celda ->
  Celda.descubierta celda = true ->
  Tablero.obtenerCelda (mutar tb m) fila columna = Some celda.
Proof.
  intros Hc Hd. destruct m as [f c v | f c b]; cbn [mutar].
  - unfold Tablero.establecerValorCelda.
    destruct (Tablero.obtenerCelda tb f c) as [x|] eqn:Hx; [|exact Hc].
    destruct (Celda.descubierta x) eqn:Hdx; cbn [negb fst]; [exact Hc|].
    change (Tablero.obtenerCelda
              (Tablero.modificarCelda tb (f, c)
                 (fun c0 => Celda.establecerValor c0 v)) fila columna
            = Some celda).
    rewrite obtenerCelda_modificar_otra; [exact Hc| |].
    + cbn [fst snd]. eapply obtenerCelda_valida. exact Hx.
    + intros [= -> ->]. congruence.
  - unfold Tablero.establecerBandera.
    destruct (Tablero.obtenerCelda tb f c) as [x|] eqn:Hx; [|exact Hc].
    destruct (Celda.descubierta x) eqn:Hdx; cbn [negb fst]; [exact Hc|].
    destruct (Bool.eqb (Celda.tieneBandera x) b); cbn [negb fst];
      [exact Hc|].
    change (Tablero.obtenerCelda
              (Tablero.modificarCelda tb (f, c)
                 (fun c0 => Celda.establecerBandera c0 b)) fila columna
            = Some celda).
    rewrite obtenerCelda_modificar_otra; [exact Hc| |].
    + cbn [fst snd]. eapply obtenerCelda_valida. exact Hx.
    + intros [= -> ->]. congruence.
Qed.

(** X10: revelar una celda que tiene bandera no le quita la bandera ni
    baja [contadorBanderas]; la celda queda descubierta y con bandera, y
    ya nada la cambia: ninguna secuencia de revelados y de banderas
    puestas o quitadas la toca, y [verificarVictoria] no vuelve a declarar
    la victoria en ese tablero. *)
Theorem X10_bandera_en_celda_revelada (tb : Tablero.t) (fila columna : Z)
    (celda : Celda.t) (valor : Celda.Valor) (mutaciones : list Mutacion) :
  Tablero.obtenerCelda tb fila columna = Some celda ->
  Celda.descubierta celda = false ->
  Celda.tieneBandera celda = true ->
  let tb1 := fst (Tablero.establecerValorCelda tb fila columna valor) in
  let tb2 := fold_left mutar mutaciones tb1 in
  Tablero.contadorBanderas tb1 = Tablero.contadorBanderas tb
  /\ exists celda1,
       Tablero.obtenerCelda tb1 fila columna = Some celda1
       /\ Celda.descubierta celda1 = true
       /\ Celda.tieneBandera celda1 = true
       /\ Tablero.obtenerCelda tb2 fila columna = Some celda1
       /\ Juego.verificarVictoria false tb2 = false.
Proof.
  intros Hc Hd Hb. cbv zeta.
  unfold Tablero.establecerValorCelda. rewrite Hc, Hd. cbn [negb fst].
  split; [reflexivity|].
  set (tb1 := {| Tablero.filas := _ |}).
  assert (Hc1 : Tablero.obtenerCelda tb1 fila columna
                = Some (Celda.establecerValor celda valor)).
  { change (Tablero.obtenerCelda
              (Tablero.modificarCelda tb (fila, columna)
                 (fun c => Celda.establecerValor c valor)) fila columna
            = Some (Celda.establecerValor celda valor)).
    apply (obtenerCelda_modificar_misma tb fila columna
             (fun c => Celda.establecerValor c valor) celda Hc). }
  exists (Celda.establecerValor celda valor).
  split; [exact Hc1|]. split; [reflexivity|]. split; [exact Hb|].
  assert (Hc2 : Tablero.obtenerCelda (fold_left mutar mutaciones tb1)
                  fila columna
                = Some (Celda.establecerValor celda valor)).
  { clearbody tb1. revert tb1 Hc1.
    induction mutaciones as [|m ms IH]; intros tb1 Hc1; [exact Hc1|].
    cbn [fold_left]. apply IH.
    apply mutar_conserva_revelada_con_bandera; [exact Hc1|reflexivity]. }
  split; [exact Hc2|].
  destruct (Juego.verificarVictoria false _) eqn:Hv; [|reflexivity].
  apply verificarVictoria_caracterizada in Hv as [_ Hv].
  specialize (Hv _ (en_todas _ _ _ _ Hc2)).
  cbn [Celda.establecerValor Celda.tieneBandera Celda.descubierta negb] in Hv.
  congruence.
Qed.

Lemma X10_bandera_en_celda_revelada_testigo :
  Tablero.contadorBanderas tablero_bandera_revelada = 1
  /\ Juego.verificarVictoria false
       (fold_left mutar [Abanderar 2 3 false; Revelar 0 0 (Celda.Numero 0)]
                  tablero_bandera_revelada) = false.
Proof.
  destruct (Tablero.obtenerCelda tablero_C10 2 3) as [celda|] eqn:Hc;
    [|vm_compute in Hc; discriminate].
  assert (Hd : Celda.descubierta celda = false)
    by (vm_compute in Hc; injection Hc as <-; reflexivity).
  assert (Hb : Celda.tieneBandera celda = true)
    by (vm_compute in Hc; injection Hc as <-; reflexivity).
  destruct (X10_bandera_en_celda_revelada tablero_C10 2 3 celda
              (Celda.Numero 1)
              [Abanderar 2 3 false; Revelar 0 0 (Celda.Numero 0)] Hc Hd Hb)
    as (Hn & celda1 & _ & _ & _ & _ & Hv).
  split; [|exact Hv].
  unfold tablero_bandera_revelada. rewrite Hn. reflexivity.
Defined.

(** ** El analizador: estrategias del primer movimiento *)

Lemma elementoEn_In {A} (l : list A) (x : float) (a : A) :
  AnalizadorCeldas.elementoEn l x = Some a -> In a l.
Proof.
  unfold AnalizadorCeldas.elementoEn. intros H.
  apply list_elem_of_In.
  destruct (Prim2SF x) as [| | |s m e]; try discriminate.
  - eapply list_elem_of_lookup_2. exact H.
  - cbv zeta in H. destruct (_ <? 0); [discriminate|].
    eapply list_elem_of_lookup_2. exact H.
Qed.

Lemma elegirAlAzar_elige (l : list Pos) (azar : float) (tipo razon : string)
    (s : AnalizadorCeldas.Seleccion) :
  AnalizadorCeldas.elegirAlAzar l azar tipo razon = Devuelve (Some s) ->
  In (AnalizadorCeldas.s_fila s, AnalizadorCeldas.s_columna s) l
  /\ AnalizadorCeldas.s_tipo s = tipo.
Proof.
  unfold AnalizadorCeldas.elegirAlAzar.
  destruct (AnalizadorCeldas.elementoEn l _) as [p|] eqn:Hp; [|discriminate].
  intros [= <-]. cbn. split; [|reflexivity].
  apply elementoEn_In in Hp. destruct p. exact Hp.
Qed.

Lemma elegirAlAzar_no_nulo (l : list Pos) (azar : float)
    (tipo razon : string) :
  AnalizadorCeldas.elegirAlAzar l azar tipo razon <> Devuelve None.
Proof.
  unfold AnalizadorCeldas.elegirAlAzar.
  destruct (AnalizadorCeldas.elementoEn l _); discriminate.
Qed.

Lemma largo_es_cero {A} (l : list A) : largo l = 0 <-> l = [].
Proof.
  unfold largo. destruct l; cbn [length]; split; try reflexivity;
    try discriminate; lia.
Qed.

Lemma rango_spec (a b x : Z) :
  In x (AnalizadorCeldas.rango a b) <-> a <= x < b.
Proof.
  unfold AnalizadorCeldas.rango. rewrite in_map_iff. split.
  - intros (i & <- & Hi). apply in_seq in Hi. lia.
  - intros H. exists (Z.to_nat (x - a)). split; [lia|]. apply in_seq. lia.
Qed.

(** X11: las cuatro estrategias del primer movimiento solo eligen celdas
    disponibles (existentes, sin revelar y sin bandera), salga lo que
    salga de [Math.random()]: la de esquinas elige una esquina y devuelve
    [null] justo cuando ninguna esquina está disponible; la de bordes
    elige una celda del borde que toca en el turno, nunca una esquina; la
    de interiores, una celda a distancia 1 o 2 del borde; y la
    completamente aleatoria nunca devuelve [null]: o elige una celda
    disponible o, si no queda ninguna, devuelve la selección de error en
    (0,0). *)
Theorem X11_estrategias_del_primer_movimiento (tb : Tablero.t)
    (ultimoBordeAnalizado : Z) (azar : float)
    (s : AnalizadorCeldas.Seleccion) :
  let p : Pos := (AnalizadorCeldas.s_fila s, AnalizadorCeldas.s_columna s) in
  let nf := Tablero.filas tb in
  let nc := Tablero.columnas tb in
  (AnalizadorCeldas.seleccionarEsquinaAleatoria tb azar = Devuelve (Some s) ->
     AnalizadorCeldas.disponible tb p = true
     /\ (fst p = 0 \/ fst p = nf - 1) /\ (snd p = 0 \/ snd p = nc - 1))
  /\ (AnalizadorCeldas.seleccionarEsquinaAleatoria tb azar = Devuelve None
      <-> forall f c, (f = 0 \/ f = nf - 1) -> (c = 0 \/ c = nc - 1) ->
            AnalizadorCeldas.disponible tb (f, c) = false)
  /\ (snd (AnalizadorCeldas.seleccionarBordeAleatorio tb ultimoBordeAnalizado
             azar) = Devuelve (Some s) ->
      let borde :=
        fst (AnalizadorCeldas.seleccionarBordeAleatorio tb
               ultimoBordeAnalizado azar) in
      AnalizadorCeldas.disponible tb p = true
      /\ borde = Z.rem (ultimoBordeAnalizado + 1) 4
      /\ (if borde =? 0 then fst p = 0 /\ 1 <= snd p < nc - 1
          else if borde =? 1 then snd p = nc - 1 /\ 1 <= fst p < nf - 1
          else if borde =? 2 then fst p = nf - 1 /\ 1 <= snd p < nc - 1
          else snd p = 0 /\ 1 <= fst p < nf - 1))
  /\ (AnalizadorCeldas.seleccionarCeldaInteriorAleatoria tb azar
      = Devuelve (Some s) ->
      AnalizadorCeldas.disponible tb p = true
      /\ exists celda,
           Tablero.obtenerCelda tb (fst p) (snd p) = Some celda
           /\ 1 <= Celda.distanciaBorde celda <= 2)
  /\ AnalizadorCeldas.seleccionarCeldaCompletamenteAleatoria tb azar
     <> Devuelve None
  /\ (AnalizadorCeldas.seleccionarCeldaCompletamenteAleatoria tb azar
      = Devuelve (Some s) ->
      (AnalizadorCeldas.s_tipo s = "aleatorio"%string
       /\ AnalizadorCeldas.disponible tb p = true)
      \/ (AnalizadorCeldas.s_tipo s = "error"%string /\ p = (0, 0)
          /\ forall f c, AnalizadorCeldas.disponible tb (f, c) = false)).
Proof.
  cbv zeta. cbn [fst snd].
  split; [|split; [|split; [|split; [|split]]]].
  - unfold AnalizadorCeldas.seleccionarEsquinaAleatoria. cbv zeta.
    destruct (_ =? 0); [discriminate|].
    intros H. apply elegirAlAzar_elige in H as [H _].
    apply filter_In in H as [H Hd]. split; [exact Hd|].
    cbn [In] in H.
    destruct H as [[= <- <-]|[[= <- <-]|[[= <- <-]|[[= <- <-]|[]]]]]; lia.
  - unfold AnalizadorCeldas.seleccionarEsquinaAleatoria. cbv zeta.
    destruct (Z.eqb_spec (largo (List.filter (AnalizadorCeldas.disponible tb)
                [(0, 0); (0, Tablero.columnas tb - 1);
                 (Tablero.filas tb - 1, 0);
                 (Tablero.filas tb - 1, Tablero.columnas tb - 1)])) 0)
      as [H0|H0].
    + split; [|reflexivity]. intros _ f c Hf Hc.
      apply (proj1 (largo_cero _ _) H0).
      destruct Hf as [-> | ->], Hc as [-> | ->]; cbn [In]; tauto.
    + split; [intros H; exfalso; eapply elegirAlAzar_no_nulo; exact H|].
      intros H. exfalso. apply H0, largo_cero.
      intros [f c] Hin. apply H; cbn [In] in Hin;
        destruct Hin as [[= <- <-]|[[= <- <-]|[[= <- <-]|[[= <- <-]|[]]]]];
        tauto.
  - unfold AnalizadorCeldas.seleccionarBordeAleatorio. cbv zeta.
    cbn [fst snd].
    destruct (_ =? 0) eqn:Hcero; [discriminate|].
    intros H. apply elegirAlAzar_elige in H as [H _].
    apply filter_In in H as [H Hd]. split; [exact Hd|].
    split; [reflexivity|].
    destruct (Z.rem (ultimoBordeAnalizado + 1) 4 =? 0);
      [|destruct (Z.rem (ultimoBordeAnalizado + 1) 4 =? 1);
        [|destruct (Z.rem (ultimoBordeAnalizado + 1) 4 =? 2)]];
      apply in_map_iff in H as (x & [= <- <-] & Hx);
      apply rango_spec in Hx; (split; [reflexivity|lia]).
  - unfold AnalizadorCeldas.seleccionarCeldaInteriorAleatoria. cbv zeta.
    destruct (_ =? 0); [discriminate|].
    intros H. apply elegirAlAzar_elige in H as [H _].
    apply filter_In in H as [_ H]. cbn [fst snd] in H.
    unfold AnalizadorCeldas.disponible. cbn [fst snd].
    destruct (Tablero.obtenerCelda tb _ _) as [celda|]; [|discriminate].
    apply andb_true_iff in H as [H Hb]. apply andb_true_iff in H as [H Hd].
    apply andb_true_iff in H as [H1 H2].
    split; [rewrite Hd, Hb; reflexivity|].
    exists celda. split; [reflexivity|]. lia.
  - unfold AnalizadorCeldas.seleccionarCeldaCompletamenteAleatoria. cbv zeta.
    destruct (_ =? 0); [discriminate|]. apply elegirAlAzar_no_nulo.
  - unfold AnalizadorCeldas.seleccionarCeldaCompletamenteAleatoria. cbv zeta.
    destruct (Z.eqb_spec (largo (List.filter (AnalizadorCeldas.disponible tb)
                                   (Tablero.posiciones tb))) 0) as [H0|H0].
    + intros [= <-]. right. split; [reflexivity|]. split; [reflexivity|].
      intros f c.
      destruct (AnalizadorCeldas.disponible tb (f, c)) eqn:Hd;
        [|reflexivity].
      rewrite <- Hd. apply (proj1 (largo_cero _ _) H0).
      apply posiciones_spec. unfold AnalizadorCeldas.disponible in Hd.
      cbn [fst snd] in Hd.
      destruct (Tablero.obtenerCelda tb f c) eqn:Hc; [|discriminate].
      eapply obtenerCelda_valida. exact Hc.
    + intros H. apply elegirAlAzar_elige in H as [H Ht].
      apply filter_In in H as [_ H]. left. split; assumption.
Qed.

Lemma X11_estrategias_del_primer_movimiento_testigo :
  exists s,
    AnalizadorCeldas.seleccionarEsquinaAleatoria tablero_esquinas 0.75
    = Devuelve (Some s)
    /\ AnalizadorCeldas.disponible tablero_esquinas
         (AnalizadorCeldas.s_fila s, AnalizadorCeldas.s_columna s) = true.
Proof.
  destruct (AnalizadorCeldas.seleccionarEsquinaAleatoria tablero_esquinas 0.75)
    as [[s|]| |] eqn:Hs; try (vm_compute in Hs; discriminate).
  exists s. split; [reflexivity|].
  destruct (X11_estrategias_del_primer_movimiento tablero_esquinas 0 0.75 s)
    as (H & _).
  apply H. exact Hs.
Defined.

(** ** El analizador: clasificación y elección de la celda segura *)

Lemma clasificar_desde (celdas : list Celda.t) :
  forall acc : AnalizadorCeldas.Clasificacion,
    let c := fold_left AnalizadorCeldas.anotar celdas acc in
    AnalizadorCeldas.muySeguras c
    = AnalizadorCeldas.muySeguras acc ++ deNivel 0 celdas
    /\ AnalizadorCeldas.seguras c
       = AnalizadorCeldas.seguras acc ++ deNivel 1 celdas
    /\ AnalizadorCeldas.bajoRiesgo c
       = AnalizadorCeldas.bajoRiesgo acc ++ deNivel 2 celdas
    /\ AnalizadorCeldas.riesgoModerado c
       = AnalizadorCeldas.riesgoModerado acc ++ deNivel 3 celdas
    /\ AnalizadorCeldas.altoRiesgo c
       = AnalizadorCeldas.altoRiesgo acc ++ deNivel 4 celdas.
Proof.
  induction celdas as [|x l IH]; intros acc; cbv zeta.
  - cbn [fold_left]. unfold deNivel. cbn [List.filter].
    rewrite !app_nil_r. tauto.
  - cbn [fold_left].
    destruct (IH (AnalizadorCeldas.anotar acc x)) as (H0 & H1 & H2 & H3 & H4).
    cbv zeta in H0, H1, H2, H3, H4.
    rewrite H0, H1, H2, H3, H4. clear H0 H1 H2 H3 H4.
    unfold deNivel. cbn [List.filter].
    unfold nivelDeRiesgo, AnalizadorCeldas.anotar. cbv zeta.
    destruct (JS.menor _ 0.1);
      [|destruct (JS.menor _ 0.2);
        [|destruct (JS.menor _ 0.3); [|destruct (JS.menor _ 0.5)]]];
      cbn [AnalizadorCeldas.muySeguras AnalizadorCeldas.seguras
           AnalizadorCeldas.bajoRiesgo AnalizadorCeldas.riesgoModerado
           AnalizadorCeldas.altoRiesgo Nat.eqb];
      rewrite <- ?app_assoc; cbn [app]; tauto.
Qed.

Lemma niveles_suman (celdas : list Celda.t) :
  (length (deNivel 0 celdas) + length (deNivel 1 celdas)
   + length (deNivel 2 celdas) + length (deNivel 3 celdas)
   + length (deNivel 4 celdas))%nat = length celdas.
Proof.
  unfold deNivel. induction celdas as [|x l IH]; [reflexivity|].
  cbn [List.filter length].
  assert (Hn : (nivelDeRiesgo x < 5)%nat).
  { unfold nivelDeRiesgo. cbv zeta.
    repeat match goal with |- context [if ?b then _ else _] => destruct b end;
      lia. }
  destruct (nivelDeRiesgo x) as [|[|[|[|[|n]]]]]; cbn [Nat.eqb length];
    lia.
Qed.


(** X12: [clasificarCeldasPorNiveles] reparte las celdas sin perder ni
    repetir ninguna: cada lista es, en el orden de entrada, la de las
    celdas de su nivel (la primera de las cotas 0.1, 0.2, 0.3 y 0.5 que
    su probabilidad de mina no alcanza; alto riesgo si las alcanza todas),
    y los largos de las cinco listas suman el de la entrada. *)
Theorem X12_clasificacion_por_niveles (celdas : list Celda.t) :
  let c := AnalizadorCeldas.clasificarCeldasPorNiveles celdas in
  AnalizadorCeldas.muySeguras c = deNivel 0 celdas
  /\ AnalizadorCeldas.seguras c = deNivel 1 celdas
  /\ AnalizadorCeldas.bajoRiesgo c = deNivel 2 celdas
  /\ AnalizadorCeldas.riesgoModerado c = deNivel 3 celdas
  /\ AnalizadorCeldas.altoRiesgo c = deNivel 4 celdas
  /\ (length (AnalizadorCeldas.muySeguras c)
      + length (AnalizadorCeldas.seguras c)
      + length (AnalizadorCeldas.bajoRiesgo c)
      + length (AnalizadorCeldas.riesgoModerado c)
      + length (AnalizadorCeldas.altoRiesgo c))%nat = length celdas.
Proof.
  cbv zeta.
  destruct (clasificar_desde celdas
              {| AnalizadorCeldas.muySeguras := [];
                 AnalizadorCeldas.seguras := [];
                 AnalizadorCeldas.bajoRiesgo := [];
                 AnalizadorCeldas.riesgoModerado := [];
                 AnalizadorCeldas.altoRiesgo := [] |})
    as (H0 & H1 & H2 & H3 & H4).
  cbv zeta in H0, H1, H2, H3, H4. cbn [app] in H0, H1, H2, H3, H4.
  unfold AnalizadorCeldas.clasificarCeldasPorNiveles.
  rewrite H0, H1, H2, H3, H4.
  repeat (split; [reflexivity|]).
  apply niveles_suman.
Qed.

Lemma insertarPor_permuta {A} (clave : A -> Z) (x : A) (l : list A) :
  Permutation (AnalizadorCeldas.insertarPor clave x l) (x :: l).
Proof.
  induction l as [|y l IH]; cbn [AnalizadorCeldas.insertarPor];
    [reflexivity|].
  destruct (clave x <? clave y); [reflexivity|].
  rewrite IH. apply perm_swap.
Qed.

Lemma ordenarPor_permuta {A} (clave : A -> Z) (l : list A) :
  Permutation (AnalizadorCeldas.ordenarPor clave l) l.
Proof.
  unfold AnalizadorCeldas.ordenarPor.
  assert (H : forall acc,
             Permutation
               (fold_left (fun ordenadas x =>
                             AnalizadorCeldas.insertarPor clave x ordenadas)
                          l acc) (acc ++ l)).
  { induction l as [|x l IH]; intros acc; cbn [fold_left].
    - rewrite app_nil_r. reflexivity.
    - rewrite IH, insertarPor_permuta.
      change (x :: acc) with ([x] ++ acc).
      rewrite (Permutation_app_comm [x] acc), <- app_assoc. reflexivity. }
  apply (H []).
Qed.

Lemma insertarPor_ordenada {A} (clave : A -> Z) (x : A) (l : list A) :
  StronglySorted (fun a b => clave a <= clave b) l ->
  StronglySorted (fun a b => clave a <= clave b)
                 (AnalizadorCeldas.insertarPor clave x l).
Proof.
  induction 1 as [|y l Hs IH Hy]; cbn [AnalizadorCeldas.insertarPor].
  - constructor; constructor.
  - destruct (Z.ltb_spec (clave x) (clave y)) as [Hlt|Hge].
    + constructor; [constructor; assumption|].
      constructor; [lia|].
      eapply Forall_impl; [exact Hy|]. cbv beta. intros a Ha. lia.
    + constructor; [exact IH|].
      apply Forall_forall. intros a Ha. apply list_elem_of_In in Ha.
      apply (Permutation_in _ (insertarPor_permuta clave x l)) in Ha.
      destruct Ha as [<-|Ha]; [exact Hge|].
      apply (Forall_In (fun b => clave y <= clave b) l a Hy Ha).
Qed.

Lemma ordenarPor_ordenada {A} (clave : A -> Z) (l : list A) :
  StronglySorted (fun a b => clave a <= clave b)
                 (AnalizadorCeldas.ordenarPor clave l).
Proof.
  unfold AnalizadorCeldas.ordenarPor.
  apply (fold_left_invariante
           (StronglySorted (fun a b => clave a <= clave b))).
  - constructor.
  - intros s x _ Hs. apply insertarPor_ordenada, Hs.
Qed.

Lemma primera_de_ordenadas {A} (clave : A -> Z) (l : list A) :
  l <> [] ->
  exists c, AnalizadorCeldas.ordenarPor clave l !! 0%nat = Some c
            /\ In c l
            /\ forall x, In x l -> clave c <= clave x.
Proof.
  intros Hne.
  pose proof (ordenarPor_permuta clave l) as Hp.
  pose proof (ordenarPor_ordenada clave l) as Hs.
  destruct (AnalizadorCeldas.ordenarPor clave l) as [|c r].
  - apply Permutation_nil in Hp. congruence.
  - exists c. split; [reflexivity|]. split.
    + apply (Permutation_in _ Hp). left. reflexivity.
    + intros x Hx. apply (Permutation_in _ (Permutation_sym Hp)) in Hx.
      destruct Hx as [<-|Hx]; [lia|].
      apply StronglySorted_inv in Hs as [_ Hs].
      apply (Forall_In (fun b => clave c <= clave b) r x Hs Hx).
Qed.

Lemma primera_del_filtro {A} (P : A -> bool) (l : list A) :
  0 < largo (List.filter P l) ->
  exists c, List.filter P l !! 0%nat = Some c /\ In c l /\ P c = true.
Proof.
  intros H. destruct (List.filter P l) as [|c r] eqn:E;
    [unfold largo in H; cbn [length] in H; lia|].
  exists c. split; [reflexivity|].
  apply filter_In. rewrite E. left. reflexivity.
Qed.

(** X13: [elegirMejorCeldaSegura] devuelve siempre una de las celdas que
    recibe (y [undefined] solo si no recibe ninguna). Con una sola celda
    devuelve esa; con varias, una esquina si hay alguna, si no un borde
    si hay alguno, y si no hay ni esquinas ni bordes, una celda a la menor
    distancia Manhattan del último movimiento del historial. *)
Theorem X13_eleccion_de_la_celda_segura (historial : list Pos)
    (celdasSeguras : list Celda.t) :
  let elegida :=
    AnalizadorCeldas.elegirMejorCeldaSegura historial celdasSeguras in
  (celdasSeguras = [] -> elegida = None)
  /\ (celdasSeguras <> [] ->
      exists celda,
        elegida = Some celda
        /\ In celda celdasSeguras
        /\ ((length celdasSeguras = 1)%nat
            \/ Celda.esEsquina celda = true
            \/ ((forall c, In c celdasSeguras -> Celda.esEsquina c = false)
                /\ Celda.esBorde celda = true)
            \/ ((forall c, In c celdasSeguras ->
                   Celda.esEsquina c = false /\ Celda.esBorde c = false)
                /\ match last historial with
                   | Some ultimo =>
                       forall c, In c celdasSeguras ->
                         AnalizadorCeldas.calcularDistanciaManhattan
                           (Celda.pos celda) ultimo
                         <= AnalizadorCeldas.calcularDistanciaManhattan
                              (Celda.pos c) ultimo
                   | None => celdasSeguras !! 0%nat = Some celda
                   end))).
Proof.
  cbv zeta. unfold AnalizadorCeldas.elegirMejorCeldaSegura. split.
  - intros ->. cbn. destruct (last historial); reflexivity.
  - intros Hne.
    destruct (Z.eqb_spec (largo celdasSeguras) 1) as [H1|H1].
    { unfold largo in H1.
      destruct celdasSeguras as [|c [|d r]]; cbn [length] in H1; try lia.
      exists c. split; [reflexivity|]. split; [left; reflexivity|].
      left. reflexivity. }
    cbv zeta.
    destruct (Z.ltb_spec 0 (largo (List.filter Celda.esEsquina celdasSeguras)))
      as [He|He].
    { destruct (primera_del_filtro _ _ He) as (c & Hc & Hin & Hp).
      exists c. split; [exact Hc|]. split; [exact Hin|].
      right. left. exact Hp. }
    assert (Hsin : forall c, In c celdasSeguras -> Celda.esEsquina c = false).
    { apply largo_cero. pose proof (largo_no_negativo
        (List.filter Celda.esEsquina celdasSeguras)). lia. }
    destruct (Z.ltb_spec 0 (largo (List.filter Celda.esBorde celdasSeguras)))
      as [Hb|Hb].
    { destruct (primera_del_filtro _ _ Hb) as (c & Hc & Hin & Hp).
      exists c. split; [exact Hc|]. split; [exact Hin|].
      right. right. left. split; assumption. }
    assert (Hsinb : forall c, In c celdasSeguras -> Celda.esBorde c = false).
    { apply largo_cero. pose proof (largo_no_negativo
        (List.filter Celda.esBorde celdasSeguras)). lia. }
    destruct (last historial) as [ultimo|].
    + destruct (primera_de_ordenadas
                  (fun c => AnalizadorCeldas.calcularDistanciaManhattan
                              (Celda.pos c) ultimo) celdasSeguras Hne)
        as (c & Hc & Hin & Hmin).
      exists c. split; [exact Hc|]. split; [exact Hin|].
      right. right. right. split; [|exact Hmin].
      intros x Hx. split; [apply Hsin | apply Hsinb]; exact Hx.
    + destruct celdasSeguras as [|c r]; [congruence|].
      exists c. split; [reflexivity|]. split; [left; reflexivity|].
      right. right. right. split; [|reflexivity].
      intros x Hx. split; [apply Hsin | apply Hsinb]; exact Hx.
Qed.

Lemma X13_eleccion_de_la_celda_segura_testigo :
  exists celda,
    AnalizadorCeldas.elegirMejorCeldaSegura [(0, 0); (3, 3)] seguras_E8
    = Some celda
    /\ In celda seguras_E8.
Proof.
  assert (Hne : seguras_E8 <> []) by (vm_compute; discriminate).
  destruct (X13_eleccion_de_la_celda_segura [(0, 0); (3, 3)] seguras_E8)
    as (_ & H).
  destruct (H Hne) as (celda & He & Hin & _).
  exists celda. split; assumption.
Defined.

(** ** [actualizarRestricciones] solo deja restricciones justas *)

Lemma adyacentes_mismaForma t1 t2 fila columna :
  mismaForma t1 t2 ->
  map formaCelda (Tablero.obtenerCeldasAdyacentes t1 fila columna)
  = map formaCelda (Tablero.obtenerCeldasAdyacentes t2 fila columna).
Proof.
  intros (_ & _ & Hcel). unfold Tablero.obtenerCeldasAdyacentes.
  induction Tablero.desplazamientos as [|d ds IH]; [reflexivity|].
  cbn [omap list_omap].
  specialize (Hcel (fila + fst d) (columna + snd d)).
  destruct (Tablero.obtenerCelda t1 (fila + fst d) (columna + snd d)),
           (Tablero.obtenerCelda t2 (fila + fst d) (columna + snd d));
    cbn [option_map] in Hcel; try discriminate; cbn [map]; [|exact IH].
  f_equal; [congruence | exact IH].
Qed.

Lemma posiciones_por_forma (P : Celda.t -> bool) (l1 l2 : list Celda.t) :
  (forall a b, formaCelda a = formaCelda b -> P a = P b) ->
  map formaCelda l1 = map formaCelda l2 ->
  map Celda.pos (List.filter P l1) = map Celda.pos (List.filter P l2).
Proof.
  intros HP. revert l2.
  induction l1 as [|a l1 IH]; intros [|b l2] H; try discriminate;
    [reflexivity|].
  cbn [map] in H.
  assert (Hab : formaCelda a = formaCelda b) by congruence.
  assert (H' : map formaCelda l1 = map formaCelda l2) by congruence.
  cbn [List.filter]. rewrite (HP a b Hab). specialize (IH l2 H').
  destruct (P b); cbn [map]; [|exact IH].
  apply forma_campos in Hab as (Hf & Hc & _).
  unfold Celda.pos at 1 3. rewrite Hf, Hc, IH. reflexivity.
Qed.

Lemma banderasPuestas_mismaForma t1 t2 o :
  mismaForma t1 t2 -> banderasPuestas t1 o = banderasPuestas t2 o.
Proof.
  intros Hm. unfold banderasPuestas. apply recuento_por_forma.
  - intros a b H. apply forma_campos in H. tauto.
  - apply adyacentes_mismaForma, Hm.
Qed.

Lemma restriccionJusta_mismaForma t1 t2 q r :
  mismaForma t1 t2 -> restriccionJusta t1 q r -> restriccionJusta t2 q r.
Proof.
  intros Hm (c1 & valor & Hc1 & Hnum & Hval & Hv & Hb & Hmr & Haf & Hq).
  destruct (mismaForma_celda _ _ _ _ _ Hm Hc1) as (c2 & Hc2 & Hfo).
  destruct (numerica_mismaForma _ _ Hfo) as [Hn1 Hn2].
  exists c2, valor.
  rewrite <- (banderasPuestas_mismaForma t1 t2 _ Hm).
  repeat split; try assumption; try congruence.
  rewrite Haf. apply posiciones_por_forma.
  - intros a b H. apply forma_campos in H as (_ & _ & -> & _). reflexivity.
  - apply adyacentes_mismaForma, Hm.
Qed.

(** Lo que el [forEach] que reparte una restricción deja en cada celda:
    las restricciones que tenía o, si es una de las afectadas y no tenía
    ninguna de ese origen, esas y la nueva al final. *)
Lemma fold_agregar_restricciones r (l : list Celda.t) : forall t,
  Forall (fun x => Tablero.esPosicionValida t (Celda.fila x) (Celda.columna x)
                   = true) l ->
  forall fila columna celda',
    Tablero.obtenerCelda
      (fold_left (fun t' x =>
                    Tablero.modificarCelda t' (Celda.pos x)
                      (fun c => Celda.agregarRestriccion c r)) l t)
      fila columna = Some celda' ->
    exists c0,
      Tablero.obtenerCelda t fila columna = Some c0
      /\ (Celda.restricciones celda' = Celda.restricciones c0
          \/ (Celda.restricciones celda' = Celda.restricciones c0 ++ [r]
              /\ ~ In (Celda.celdaOrigen r)
                      (map Celda.celdaOrigen (Celda.restricciones c0))
              /\ In (fila, columna) (map Celda.pos l))).
Proof.
  induction l as [|x l IH]; intros t Hval fila columna celda' Hc.
  - exists celda'. split; [exact Hc | left; reflexivity].
  - cbn [fold_left] in Hc.
    apply Forall_cons in Hval as [Hx Hval].
    set (t1 := Tablero.modificarCelda t (Celda.pos x)
                 (fun c => Celda.agregarRestriccion c r)) in *.
    assert (Hval1 : Forall (fun y => Tablero.esPosicionValida t1
                              (Celda.fila y) (Celda.columna y) = true) l)
      by exact Hval.
    destruct (IH t1 Hval1 fila columna celda' Hc) as (c1 & Hc1 & Hrel).
    destruct (decide ((fila, columna) = Celda.pos x)) as [Heq|Hne].
    + destruct (Tablero.obtenerCelda t fila columna) as [c0|] eqn:Hc0.
      * unfold t1 in Hc1. rewrite <- Heq in Hc1.
        rewrite (obtenerCelda_modificar_misma _ _ _ _ _ Hc0) in Hc1.
        injection Hc1 as <-. exists c0. split; [reflexivity|].
        unfold Celda.agregarRestriccion in Hrel.
        destruct (existsb _ (Celda.restricciones c0)) eqn:He;
          cbn [negb] in Hrel.
        -- destruct Hrel as [Hr | (Hr & Hno & Hin)];
             [left; exact Hr | right].
           split; [exact Hr|]. split; [exact Hno|].
           cbn [map]. right. exact Hin.
        -- cbn [Celda.conRestricciones Celda.restricciones] in Hrel.
           assert (Hno : ~ In (Celda.celdaOrigen r)
                           (map Celda.celdaOrigen (Celda.restricciones c0))).
           { intros Hin. apply existe_origen in Hin. congruence. }
           destruct Hrel as [Hr | (Hr & Hno' & _)].
           ++ right. split; [exact Hr|]. split; [exact Hno|].
              cbn [map]. left. symmetry. exact Heq.
           ++ exfalso. apply Hno'. rewrite map_app. apply in_or_app.
              right. left. reflexivity.
      * exfalso. unfold t1 in Hc1.
        destruct (obtenerCelda_modificar_casos t (Celda.pos x)
                    (fun c => Celda.agregarRestriccion c r) fila columna)
          as [E|E]; rewrite E, Hc0 in Hc1; discriminate.
    + unfold t1 in Hc1.
      rewrite (obtenerCelda_modificar_otra t (Celda.pos x) _ fila columna Hx Hne)
        in Hc1.
      exists c1. split; [exact Hc1|].
      destruct Hrel as [Hr | (Hr & Hno & Hin)]; [left; exact Hr | right].
      split; [exact Hr|]. split; [exact Hno|]. cbn [map]. right. exact Hin.
Qed.

Lemma adyacentes_validas tb fila columna x :
  bienFormado tb ->
  In x (Tablero.obtenerCeldasAdyacentes tb fila columna) ->
  Tablero.esPosicionValida tb (Celda.fila x) (Celda.columna x) = true.
Proof.
  intros Hbf Hx. apply adyacente_es_celda in Hx as (d & _ & Hc).
  destruct (bienFormado_pos _ _ _ _ Hbf Hc) as [-> ->].
  eapply obtenerCelda_valida, Hc.
Qed.

Lemma restringirDesde_justas t p :
  bienFormado t -> restriccionesJustas t ->
  restriccionesJustas (Tablero.restringirDesde t p).
Proof.
  intros Hbf Hj.
  pose proof (restringirDesde_crece t p) as Hcr.
  apply crece_mismaForma in Hcr.
  revert Hcr. unfold Tablero.restringirDesde.
  destruct (Tablero.obtenerCelda t (fst p) (snd p)) as [celda|] eqn:Hcel;
    [|intros _; exact Hj].
  destruct (Celda.tieneValorNumerico celda) eqn:Hnum; [|intros _; exact Hj].
  destruct (Celda.obtenerValorNumerico celda) as [valor|] eqn:Hval;
    [|intros _; exact Hj].
  cbv zeta. destruct (0 <? _); [|intros _; exact Hj].
  set (sinRevelar := List.filter (fun c => negb (Celda.descubierta c))
                       (Tablero.obtenerCeldasAdyacentes t (fst p) (snd p))).
  set (r := {| Celda.celdaOrigen := p; Celda.r_valor := valor;
               Celda.banderasColocadas := _; Celda.minasRestantes := _;
               Celda.celdasAfectadas := _ |}).
  intros Hm fila columna celda' Hc'.
  assert (Hvs : Forall (fun x => Tablero.esPosicionValida t (Celda.fila x)
                                   (Celda.columna x) = true) sinRevelar).
  { apply Forall_forall. intros x Hx. apply list_elem_of_In in Hx.
    apply filter_In in Hx as [Hx _].
    eapply adyacentes_validas; [exact Hbf | exact Hx]. }
  destruct (fold_agregar_restricciones r sinRevelar t Hvs _ _ _ Hc')
    as (c0 & Hc0 & Hrel).
  destruct (Hj _ _ _ Hc0) as [Hnd Hjs].
  assert (Hviejas : forall x, In x (Celda.restricciones c0) ->
            restriccionJusta
              (fold_left (fun t' y =>
                            Tablero.modificarCelda t' (Celda.pos y)
                              (fun c => Celda.agregarRestriccion c r))
                         sinRevelar t) (fila, columna) x).
  { intros x Hx. eapply restriccionJusta_mismaForma; [exact Hm|].
    apply Hjs, Hx. }
  destruct Hrel as [-> | (-> & Hno & Hin)]; [split; assumption|].
  split.
  - rewrite map_app. cbn [map]. apply NoDup_app. split; [exact Hnd|].
    split; [|apply NoDup_singleton].
    intros o Ho Ho'. apply list_elem_of_In in Ho, Ho'.
    destruct Ho' as [<-|[]]. exact (Hno Ho).
  - intros x Hx. apply in_app_or in Hx as [Hx | [<- | []]];
      [apply Hviejas, Hx|].
    eapply restriccionJusta_mismaForma; [exact Hm|].
    exists celda, valor. cbn [r Celda.celdaOrigen Celda.r_valor
      Celda.banderasColocadas Celda.minasRestantes Celda.celdasAfectadas].
    repeat split; try assumption; reflexivity.
Qed.

Lemma actualizarRestricciones_justas tb :
  bienFormado tb ->
  (Tablero.restriccionesActualizadas tb = true -> restriccionesJustas tb) ->
  restriccionesJustas (Tablero.actualizarRestricciones tb).
Proof.
  intros Hbf Hj. unfold Tablero.actualizarRestricciones.
  destruct (Tablero.restriccionesActualizadas tb); [apply Hj; reflexivity|].
  set (limpio := Tablero.conCeldas tb _).
  assert (Hml : mismaForma limpio tb).
  { split; [reflexivity|split; [reflexivity|]]. intros fila columna.
    unfold limpio. rewrite obtenerCelda_limpio.
    destruct (Tablero.obtenerCelda tb fila columna); reflexivity. }
  assert (Hbl : bienFormado limpio).
  { eapply bienFormado_mismaForma; [apply mismaForma_sim, Hml | exact Hbf]. }
  assert (Hjl : restriccionesJustas limpio).
  { intros fila columna celda Hc. unfold limpio in Hc.
    rewrite obtenerCelda_limpio in Hc.
    destruct (Tablero.obtenerCelda tb fila columna) as [c0|];
      [|discriminate].
    injection Hc as <-. cbn [Celda.conRestricciones Celda.restricciones map].
    split; [apply NoDup_nil_2 | intros r []]. }
  assert (H : bienFormado (fold_left Tablero.restringirDesde
                             (Tablero.posiciones tb) limpio)
              /\ restriccionesJustas (fold_left Tablero.restringirDesde
                                        (Tablero.posiciones tb) limpio)).
  { apply (fold_left_invariante
             (fun t => bienFormado t /\ restriccionesJustas t));
      [split; assumption|].
    intros s p _ [Hbs Hjs]. split.
    - eapply bienFormado_mismaForma; [|exact Hbs].
      apply crece_mismaForma, restringirDesde_crece.
    - apply restringirDesde_justas; assumption. }
  destruct H as [_ H]. exact H.
Qed.

(** En un tablero de restricciones justas, las de una celda vienen de
    celdas adyacentes distintas: son a lo sumo ocho, y solo las llevan las
    celdas sin revelar. *)
Lemma restricciones_de_adyacentes tb fila columna celda :
  bienFormado tb -> restriccionesJustas tb ->
  Tablero.obtenerCelda tb fila columna = Some celda ->
  (forall r, In r (Celda.restricciones celda) ->
     exists d, In d Tablero.desplazamientos
               /\ Celda.celdaOrigen r = (fila + fst d, columna + snd d))
  /\ (length (Celda.restricciones celda) <= 8)%nat
  /\ (Celda.descubierta celda = true -> Celda.restricciones celda = []).
Proof.
  intros Hbf Hj Hc. destruct (Hj _ _ _ Hc) as [Hnd Hjs].
  assert (Hvec : forall r, In r (Celda.restricciones celda) ->
            Celda.descubierta celda = false
            /\ exists d, In d Tablero.desplazamientos
                 /\ Celda.celdaOrigen r = (fila + fst d, columna + snd d)).
  { intros r Hr.
    destruct (Hjs r Hr) as (co & valor & _ & _ & _ & _ & _ & _ & Haf & Hq).
    rewrite Haf in Hq. apply in_map_iff in Hq as (v & Hpv & Hv).
    apply filter_In in Hv as [Hv Hd].
    apply adyacente_es_celda in Hv as (d & Hdd & Hcv).
    destruct (bienFormado_pos _ _ _ _ Hbf Hcv) as [Hvf Hvc].
    unfold Celda.pos in Hpv. injection Hpv as Hf' Hc'.
    assert (Hcv' : Tablero.obtenerCelda tb fila columna = Some v).
    { rewrite <- Hf', <- Hc', Hvf, Hvc. exact Hcv. }
    assert (v = celda) by congruence. subst v. split.
    - apply negb_true_iff in Hd. exact Hd.
    - exists (- fst d, - snd d). split.
      + apply desplazamientos_spec. apply desplazamientos_spec in Hdd.
        destruct d as [i j]. cbn [fst snd] in *.
        destruct Hdd as (Hne & Hi & Hj'). split; [|lia].
        intros [= Hi0 Hj0]. apply Hne. f_equal; lia.
      + cbn [fst snd]. destruct (Celda.celdaOrigen r) as [o1 o2].
        cbn [fst snd] in *. f_equal; lia. }
  split; [intros r Hr; apply Hvec, Hr|]. split.
  - change 8%nat
      with (length (map (fun d : Z * Z => (fila + fst d, columna + snd d))
                        Tablero.desplazamientos)).
    rewrite <- (length_map Celda.celdaOrigen).
    apply NoDup_incl_length; [apply NoDup_ListNoDup, Hnd|].
    intros o Ho. apply in_map_iff in Ho as (r & <- & Hr).
    destruct (Hvec r Hr) as (_ & d & Hd & ->).
    apply in_map_iff. exists d. split; [reflexivity | exact Hd].
  - intros Hd. destruct (Celda.restricciones celda) as [|r rs] eqn:E;
      [reflexivity|].
    destruct (Hvec r (or_introl eq_refl)) as [Hd' _]. congruence.
Qed.

(** X14: sobre un tablero rectangular con las restricciones por
    actualizar, [actualizarRestricciones] no cambia nada más que las
    restricciones y deja el indicador puesto; después, las restricciones
    de cada celda son exactamente las de sus adyacentes numéricas: toda
    celda sin revelar lleva la de cada adyacente numérica, cada restricción
    que lleva una celda tiene por origen una adyacente numérica revelada y
    dice su número, las banderas puestas a su alrededor, las minas que
    faltan y las posiciones de sus adyacentes sin revelar; no hay dos del
    mismo origen, ninguna celda lleva más de ocho y las celdas reveladas
    no llevan ninguna. Una segunda llamada no cambia nada. *)
Theorem X14_restricciones_justas (tb : Tablero.t) :
  bienFormado tb ->
  Tablero.restriccionesActualizadas tb = false ->
  let tb' := Tablero.actualizarRestricciones tb in
  mismaForma tb' tb
  /\ Tablero.restriccionesActualizadas tb' = true
  /\ restriccionesCompletas tb'
  /\ restriccionesJustas tb'
  /\ (forall fila columna celda,
        Tablero.obtenerCelda tb' fila columna = Some celda ->
        (forall r, In r (Celda.restricciones celda) ->
           exists d, In d Tablero.desplazamientos
                     /\ Celda.celdaOrigen r
                        = (fila + fst d, columna + snd d))
        /\ (length (Celda.restricciones celda) <= 8)%nat
        /\ (Celda.descubierta celda = true
            -> Celda.restricciones celda = []))
  /\ Tablero.actualizarRestricciones tb' = tb'.
Proof.
  intros Hbf Hact. cbv zeta.
  assert (Hj : restriccionesJustas (Tablero.actualizarRestricciones tb)).
  { apply actualizarRestricciones_justas; [exact Hbf|]. congruence. }
  assert (Hbf' : bienFormado (Tablero.actualizarRestricciones tb))
    by (apply actualizarRestricciones_bienFormado, Hbf).
  assert (Hflag : Tablero.restriccionesActualizadas
                    (Tablero.actualizarRestricciones tb) = true).
  { unfold Tablero.actualizarRestricciones. rewrite Hact. reflexivity. }
  split; [apply actualizarRestricciones_forma|].
  split; [exact Hflag|].
  split; [apply actualizarRestricciones_completas; split;
          [exact Hbf | congruence]|].
  split; [exact Hj|]. split.
  - intros fila columna celda Hc.
    apply (restricciones_de_adyacentes _ _ _ _ Hbf' Hj Hc).
  - unfold Tablero.actualizarRestricciones at 1. rewrite Hflag. reflexivity.
Qed.

Lemma X14_restricciones_justas_testigo :
  restriccionesJustas (Tablero.actualizarRestricciones tablero_E9)
  /\ restriccionesCompletas (Tablero.actualizarRestricciones tablero_E9).
Proof.
  assert (Hbf : bienFormado tablero_E9)
    by (apply bienFormadoB_correcto; vm_compute; reflexivity).
  assert (Hact : Tablero.restriccionesActualizadas tablero_E9 = false)
    by reflexivity.
  destruct (X14_restricciones_justas tablero_E9 Hbf Hact)
    as (_ & _ & Hc & Hj & _).
  split; assumption.
Defined.

(** ** El lote de banderas sobre el tablero *)

Lemma contadores_establecerBandera tb fila columna bandera :
  bienFormado tb -> contadoresAlDia tb ->
  contadoresAlDia (fst (Tablero.establecerBandera tb fila columna bandera)).
Proof.
  intros Hbf [Hd Hb].
  unfold contadoresAlDia, Tablero.obtenerCeldasReveladas,
    Tablero.obtenerCeldasConBandera in *.
  unfold Tablero.establecerBandera.
  destruct (Tablero.obtenerCelda tb fila columna) as [celda|] eqn:Hc;
    [|split; assumption].
  destruct (Celda.descubierta celda) eqn:Hdesc; cbn [negb fst];
    [split; assumption|].
  destruct (Bool.eqb (Celda.tieneBandera celda) bandera) eqn:Heq;
    cbn [negb fst]; [split; assumption|].
  cbn [Tablero.contadorDescubiertas Tablero.contadorBanderas].
  set (t1 := Tablero.modificarCelda tb (fila, columna)
               (fun c => Celda.establecerBandera c bandera)).
  change (Tablero.todas _) with (Tablero.todas t1).
  unfold t1.
  rewrite !(recuento_modificar _ _ _ _ _ _ Hbf Hc).
  cbn [Celda.establecerBandera Celda.descubierta Celda.tieneBandera
       Tablero.modificarCelda Tablero.conCeldas
       Tablero.contadorDescubiertas Tablero.contadorBanderas].
  rewrite Hdesc.
  destruct (Celda.tieneBandera celda), bandera; try discriminate; lia.
Qed.

(** Las celdas del tablero tras poner una bandera en una celda sin revelar
    y sin bandera: la de la posición lleva la bandera, las demás son las
    mismas. *)
Lemma establecerBandera_celdas tb fila columna celda :
  Tablero.obtenerCelda tb fila columna = Some celda ->
  Celda.descubierta celda = false ->
  Celda.tieneBandera celda = false ->
  let tb' := fst (Tablero.establecerBandera tb fila columna true) in
  Tablero.obtenerCelda tb' fila columna
  = Some (Celda.establecerBandera celda true)
  /\ (forall f c, (f, c) <> (fila, columna) ->
        Tablero.obtenerCelda tb' f c = Tablero.obtenerCelda tb f c)
  /\ Tablero.contadorDescubiertas tb' = Tablero.contadorDescubiertas tb
  /\ Tablero.contadorBanderas tb' = Tablero.contadorBanderas tb + 1.
Proof.
  intros Hc Hd Hb. cbv zeta.
  unfold Tablero.establecerBandera. rewrite Hc, Hd, Hb. cbn [negb Bool.eqb fst].
  set (t1 := Tablero.modificarCelda tb (fila, columna)
               (fun c => Celda.establecerBandera c true)).
  assert (Hobt : forall cont act uc f c,
    Tablero.obtenerCelda
      {| Tablero.filas := Tablero.filas t1;
         Tablero.columnas := Tablero.columnas t1;
         Tablero.celdas := Tablero.celdas t1;
         Tablero.contadorDescubiertas := Tablero.contadorDescubiertas t1;
         Tablero.contadorBanderas := cont;
         Tablero.restriccionesActualizadas := act;
         Tablero.ultimoCambio := uc |} f c
    = Tablero.obtenerCelda t1 f c) by reflexivity.
  split; [|split; [|split; reflexivity]].
  - rewrite Hobt. unfold t1.
    apply (obtenerCelda_modificar_misma tb fila columna
             (fun c => Celda.establecerBandera c true) celda Hc).
  - intros f c Hne. rewrite Hobt. unfold t1.
    apply (obtenerCelda_modificar_otra tb (fila, columna) _ f c);
      [|exact Hne].
    cbn [fst snd]. eapply obtenerCelda_valida, Hc.
Qed.

Lemma procesar_abandera_una lote : forall tb b celda,
  In b lote ->
  Tablero.obtenerCelda tb (GestorBanderas.b_fila b)
                       (GestorBanderas.b_columna b) = Some celda ->
  Celda.descubierta celda = false ->
  exists celda',
    Tablero.obtenerCelda (Juego.procesarNuevasBanderas tb lote)
      (GestorBanderas.b_fila b) (GestorBanderas.b_columna b) = Some celda'
    /\ Celda.tieneBandera celda' = true.
Proof.
  unfold Juego.procesarNuevasBanderas.
  induction lote as [|b0 lote IH]; intros tb b celda Hb Hc Hd;
    [destruct Hb|].
  cbn [fold_left].
  destruct (procesar_paso tb b0) as (Hm & _ & Hfl). cbv zeta in Hm, Hfl.
  match goal with
  | |- context [fold_left _ lote ?t1] => set (tb1 := t1) in *
  end.
  destruct Hb as [<- | Hb].
  - destruct (Hfl celda Hc Hd) as (c1 & Hc1 & Hb1).
    destruct (procesar_masBanderas lote tb1) as [Hm1 _].
    destruct (masBanderas_celda _ _ _ _ _ Hm1 Hc1)
      as (c2 & Hc2 & _ & _ & _ & Hf).
    exists c2. split; [exact Hc2 | apply Hf, Hb1].
  - destruct (masBanderas_celda _ _ _ _ _ Hm Hc)
      as (c1 & Hc1 & _ & _ & Hd1 & _).
    apply (IH tb1 b c1 Hb Hc1). congruence.
Qed.

(** Lo que el lote deja en el tablero, celda a celda, y en sus
    contadores. *)
Lemma procesar_celdas lote : forall tb,
  bienFormado tb -> contadoresAlDia tb ->
  let tb' := Juego.procesarNuevasBanderas tb lote in
  (forall fila columna,
     Tablero.obtenerCelda tb' fila columna
     = Tablero.obtenerCelda tb fila columna
     \/ exists celda,
          Tablero.obtenerCelda tb fila columna = Some celda
          /\ Celda.descubierta celda = false
          /\ Celda.tieneBandera celda = false
          /\ In (fila, columna) (posicionesDe lote)
          /\ Tablero.obtenerCelda tb' fila columna
             = Some (Celda.establecerBandera celda true))
  /\ bienFormado tb' /\ contadoresAlDia tb'
  /\ Tablero.contadorDescubiertas tb' = Tablero.contadorDescubiertas tb
  /\ Tablero.contadorBanderas tb <= Tablero.contadorBanderas tb'
     <= Tablero.contadorBanderas tb + largo lote.
Proof.
  unfold Juego.procesarNuevasBanderas, largo.
  induction lote as [|b lote IH]; intros tb Hbf Hcont; cbv zeta.
  - cbn [fold_left length]. split; [intros; left; reflexivity|].
    split; [exact Hbf|]. split; [exact Hcont|]. split; [reflexivity|]. lia.
  - cbn [fold_left].
    destruct (Tablero.obtenerCelda tb (GestorBanderas.b_fila b)
                (GestorBanderas.b_columna b)) as [celda|] eqn:Hc.
    2:{ destruct (IH tb Hbf Hcont) as (Hcel & Hbf' & Hcont' & Hd' & Hb').
        cbv zeta in Hcel, Hbf', Hcont', Hd', Hb'.
        split; [|split; [exact Hbf'|]; split; [exact Hcont'|];
                 split; [exact Hd'|]; cbn [length]; lia].
        intros fila columna.
        destruct (Hcel fila columna) as [H | (c0 & H0 & H1 & H2 & H3 & H4)];
          [left; exact H | right].
        exists c0. repeat split; try assumption.
        unfold posicionesDe in *. cbn [map]. right. exact H3. }
    destruct (negb (Celda.descubierta celda)
              && negb (Celda.tieneBandera celda)) eqn:Hcond.
    2:{ destruct (IH tb Hbf Hcont) as (Hcel & Hbf' & Hcont' & Hd' & Hb').
        cbv zeta in Hcel, Hbf', Hcont', Hd', Hb'.
        split; [|split; [exact Hbf'|]; split; [exact Hcont'|];
                 split; [exact Hd'|]; cbn [length]; lia].
        intros fila columna.
        destruct (Hcel fila columna) as [H | (c0 & H0 & H1 & H2 & H3 & H4)];
          [left; exact H | right].
        exists c0. repeat split; try assumption.
        unfold posicionesDe in *. cbn [map]. right. exact H3. }
    apply andb_true_iff in Hcond as [Hd Hb].
    apply negb_true_iff in Hd, Hb.
    destruct (establecerBandera_celdas tb _ _ celda Hc Hd Hb)
      as (Hmisma & Hotras & Hcd & Hcb).
    destruct (establecerBandera_efecto tb _ _ celda Hc Hd Hb)
      as (Hmas & _ & _).
    cbv zeta in Hmisma, Hotras, Hcd, Hcb, Hmas.
    set (tb1 := fst (Tablero.establecerBandera tb (GestorBanderas.b_fila b)
                       (GestorBanderas.b_columna b) true)) in *.
    assert (Hbf1 : bienFormado tb1)
      by (eapply masBanderas_bienFormado; eauto).
    assert (Hcont1 : contadoresAlDia tb1)
      by (apply contadores_establecerBandera; assumption).
    destruct (IH tb1 Hbf1 Hcont1) as (Hcel & Hbf' & Hcont' & Hd' & Hb').
    cbv zeta in Hcel, Hbf', Hcont', Hd', Hb'.
    split; [|split; [exact Hbf'|]; split; [exact Hcont'|];
             split; [congruence|]; cbn [length]; lia].
    intros fila columna.
    destruct (decide ((fila, columna)
                      = (GestorBanderas.b_fila b, GestorBanderas.b_columna b)))
      as [Heq|Hne].
    + injection Heq as -> ->. right. exists celda.
      split; [exact Hc|]. split; [exact Hd|]. split; [exact Hb|].
      split; [unfold posicionesDe; cbn [map]; left; reflexivity|].
      destruct (Hcel (GestorBanderas.b_fila b) (GestorBanderas.b_columna b))
        as [H | (c0 & H0 & _ & H2 & _)].
      * rewrite H. exact Hmisma.
      * rewrite Hmisma in H0. injection H0 as <-.
        cbn [Celda.establecerBandera Celda.tieneBandera] in H2. discriminate.
    + rewrite <- (Hotras fila columna Hne).
      destruct (Hcel fila columna) as [H | (c0 & H0 & H1 & H2 & H3 & H4)];
        [left; exact H | right].
      exists c0. repeat split; try assumption.
      unfold posicionesDe in *. cbn [map]. right. exact H3.
Qed.

(** X15: [procesarNuevasBanderas] solo pone banderas, y solo en celdas
    del lote: cada celda del tablero queda como estaba o, si estaba sin
    revelar y sin bandera y el lote la nombra, queda con la bandera puesta
    por [establecerBandera(true)]; toda celda sin revelar que el lote
    nombra acaba con bandera. No se revela nada, el contador de banderas
    sube a lo sumo en el tamaño del lote, los contadores siguen al día y,
    si algo ha cambiado, las restricciones quedan por actualizar. *)
Theorem X15_banderas_del_lote (tb : Tablero.t)
    (lote : list GestorBanderas.Bandera) :
  bienFormado tb -> contadoresAlDia tb ->
  let tb' := Juego.procesarNuevasBanderas tb lote in
  (forall fila columna,
     Tablero.obtenerCelda tb' fila columna
     = Tablero.obtenerCelda tb fila columna
     \/ exists celda,
          Tablero.obtenerCelda tb fila columna = Some celda
          /\ Celda.descubierta celda = false
          /\ Celda.tieneBandera celda = false
          /\ In (fila, columna) (posicionesDe lote)
          /\ Tablero.obtenerCelda tb' fila columna
             = Some (Celda.establecerBandera celda true))
  /\ (forall b celda,
        In b lote ->
        Tablero.obtenerCelda tb (GestorBanderas.b_fila b)
                             (GestorBanderas.b_columna b) = Some celda ->
        Celda.descubierta celda = false ->
        exists celda',
          Tablero.obtenerCelda tb' (GestorBanderas.b_fila b)
                               (GestorBanderas.b_columna b) = Some celda'
          /\ Celda.tieneBandera celda' = true)
  /\ bienFormado tb' /\ contadoresAlDia tb'
  /\ Tablero.contadorDescubiertas tb' = Tablero.contadorDescubiertas tb
  /\ Tablero.contadorBanderas tb <= Tablero.contadorBanderas tb'
     <= Tablero.contadorBanderas tb + largo lote
  /\ (tb' = tb \/ Tablero.restriccionesActualizadas tb' = false).
Proof.
  intros Hbf Hcont. cbv zeta.
  destruct (procesar_celdas lote tb Hbf Hcont)
    as (Hcel & Hbf' & Hcont' & Hd' & Hb').
  cbv zeta in Hcel, Hbf', Hcont', Hd', Hb'.
  split; [exact Hcel|]. split.
  { intros b celda Hb Hc Hd. eapply procesar_abandera_una; eauto. }
  split; [exact Hbf'|]. split; [exact Hcont'|]. split; [exact Hd'|].
  split; [exact Hb'|].
  apply procesar_masBanderas.
Qed.

Lemma X15_banderas_del_lote_testigo :
  exists g' lote,
    GestorBanderas.colocarBanderasSeguras gestor_dos_pasadas
    = Devuelve (g', lote)
    /\ contadoresAlDia
         (Juego.procesarNuevasBanderas tablero_dos_pasadas lote)
    /\ Tablero.contadorBanderas
         (Juego.procesarNuevasBanderas tablero_dos_pasadas lote) = 2.
Proof.
  eexists _, _. split; [vm_compute; reflexivity|].
  assert (Hbf : bienFormado tablero_dos_pasadas)
    by (apply bienFormadoB_correcto; vm_compute; reflexivity).
  assert (Hc : contadoresAlDia tablero_dos_pasadas)
    by (split; vm_compute; reflexivity).
  match goal with
  | |- contadoresAlDia (Juego.procesarNuevasBanderas _ ?l) /\ _ =>
      destruct (X15_banderas_del_lote tablero_dos_pasadas l Hbf Hc)
        as (_ & _ & _ & H & _)
  end.
  split; [exact H | vm_compute; reflexivity].
Defined.

(** ** Los tableros alcanzables son íntegros *)

Lemma bienFormado_constructor nf nc : bienFormado (Tablero.constructor nf nc).
Proof.
  intros fila columna Hv. rewrite (constructor_celda _ _ _ _ Hv).
  eexists. split; [reflexivity|]. split; reflexivity.
Qed.

Lemma contadores_constructor nf nc :
  contadoresAlDia (Tablero.constructor nf nc).
Proof.
  assert (Hfresco : forall celda,
             In celda (Tablero.todas (Tablero.constructor nf nc)) ->
             Celda.descubierta celda = false
             /\ Celda.tieneBandera celda = false).
  { intros celda Hin. apply todas_es_celda in Hin as (f & c & Hc).
    pose proof (obtenerCelda_valida _ _ _ _ Hc) as Hv.
    rewrite (constructor_celda _ _ _ _ Hv) in Hc. injection Hc as <-.
    split; reflexivity. }
  unfold contadoresAlDia, Tablero.obtenerCeldasReveladas,
    Tablero.obtenerCeldasConBandera, largo.
  rewrite !filtro_vacio by (intros x Hx; apply Hfresco, Hx).
  split; reflexivity.
Qed.

Lemma bienFormado_modificar tb p g :
  (forall c, Celda.fila (g c) = Celda.fila c
             /\ Celda.columna (g c) = Celda.columna c) ->
  bienFormado tb -> bienFormado (Tablero.modificarCelda tb p g).
Proof.
  intros Hg Hbf fila columna Hv.
  rewrite esPosicionValida_modificar in Hv.
  destruct (Hbf _ _ Hv) as (c & Hc & Hcf & Hcc).
  destruct (obtenerCelda_modificar_casos tb p g fila columna) as [E|E];
    rewrite E, Hc; cbn [option_map].
  - exists c. auto.
  - exists (g c). split; [reflexivity|]. destruct (Hg c) as [-> ->]. auto.
Qed.

Lemma contadores_establecerValorCelda tb fila columna valor :
  bienFormado tb -> contadoresAlDia tb ->
  contadoresAlDia (fst (Tablero.establecerValorCelda tb fila columna valor)).
Proof.
  intros Hbf [Hd Hb].
  unfold contadoresAlDia, Tablero.obtenerCeldasReveladas,
    Tablero.obtenerCeldasConBandera in *.
  unfold Tablero.establecerValorCelda.
  destruct (Tablero.obtenerCelda tb fila columna) as [celda|] eqn:Hc;
    [|split; assumption].
  destruct (Celda.descubierta celda) eqn:Hdesc; cbn [negb fst];
    [split; assumption|].
  cbn [Tablero.contadorDescubiertas Tablero.contadorBanderas].
  set (t1 := Tablero.modificarCelda tb (fila, columna)
               (fun c => Celda.establecerValor c valor)).
  change (Tablero.todas _) with (Tablero.todas t1).
  unfold t1.
  rewrite !(recuento_modificar _ _ _ _ _ _ Hbf Hc).
  cbn [Celda.establecerValor Celda.descubierta Celda.tieneBandera
       Tablero.modificarCelda Tablero.conCeldas
       Tablero.contadorDescubiertas Tablero.contadorBanderas].
  rewrite Hdesc. destruct (Celda.tieneBandera celda); lia.
Qed.

Lemma contadores_mismaForma t1 t2 :
  mismaForma t1 t2 ->
  Tablero.contadorDescubiertas t1 = Tablero.contadorDescubiertas t2 ->
  Tablero.contadorBanderas t1 = Tablero.contadorBanderas t2 ->
  contadoresAlDia t2 -> contadoresAlDia t1.
Proof.
  intros Hm Hd Hb [H1 H2].
  unfold contadoresAlDia, Tablero.obtenerCeldasReveladas,
    Tablero.obtenerCeldasConBandera in *.
  pose proof (todas_mismaForma _ _ Hm) as Hforma.
  rewrite (recuento_por_forma Celda.descubierta _ _
             ltac:(intros a b H; apply forma_campos in H; tauto) Hforma).
  rewrite (recuento_por_forma Celda.tieneBandera _ _
             ltac:(intros a b H; apply forma_campos in H; tauto) Hforma).
  split; congruence.
Qed.

Lemma restriccionesJustas_mismaEstructura t1 t2 :
  mismaEstructura t1 t2 -> restriccionesJustas t1 -> restriccionesJustas t2.
Proof.
  intros Hm Hj fila columna c2 Hc2.
  destruct (mismaEstructura_celda _ _ _ _ _ (mismaEstructura_sim _ _ Hm) Hc2)
    as (c1 & Hc1 & He).
  apply estructura_campos in He as (_ & _ & _ & _ & _ & Hr).
  destruct (Hj _ _ _ Hc1) as [Hnd Hjs]. rewrite <- Hr.
  split; [exact Hnd|]. intros r Hin.
  eapply restriccionJusta_mismaForma;
    [apply mismaForma_de_estructura, Hm | apply Hjs, Hin].
Qed.

(** Una mutación que cambia algo deja el indicador de restricciones
    bajado; la que no cambia nada devuelve el mismo tablero. *)
Lemma mutar_indicador tb m :
  mutar tb m = tb \/ Tablero.restriccionesActualizadas (mutar tb m) = false.
Proof.
  destruct m as [f c v | f c b]; cbn [mutar].
  - unfold Tablero.establecerValorCelda.
    destruct (Tablero.obtenerCelda tb f c) as [x|]; [|left; reflexivity].
    destruct (Celda.descubierta x); cbn [negb fst]; [left|right]; reflexivity.
  - unfold Tablero.establecerBandera.
    destruct (Tablero.obtenerCelda tb f c) as [x|]; [|left; reflexivity].
    destruct (Celda.descubierta x); cbn [negb fst]; [left; reflexivity|].
    destruct (Bool.eqb (Celda.tieneBandera x) b); cbn [negb fst];
      [left|right]; reflexivity.
Qed.

Lemma bienFormado_mutar tb m : bienFormado tb -> bienFormado (mutar tb m).
Proof.
  intros Hbf. destruct m as [f c v | f c b]; cbn [mutar].
  - unfold Tablero.establecerValorCelda.
    destruct (Tablero.obtenerCelda tb f c) as [x|]; [|exact Hbf].
    destruct (Celda.descubierta x); cbn [negb fst]; [exact Hbf|].
    apply (bienFormado_modificar tb (f, c)
             (fun c0 => Celda.establecerValor c0 v));
      [intros; split; reflexivity | exact Hbf].
  - unfold Tablero.establecerBandera.
    destruct (Tablero.obtenerCelda tb f c) as [x|]; [|exact Hbf].
    destruct (Celda.descubierta x); cbn [negb fst]; [exact Hbf|].
    destruct (Bool.eqb (Celda.tieneBandera x) b); cbn [negb fst];
      [exact Hbf|].
    apply (bienFormado_modificar tb (f, c)
             (fun c0 => Celda.establecerBandera c0 b));
      [intros; split; reflexivity | exact Hbf].
Qed.

Lemma integro_alcanzable tb : alcanzable tb -> integro tb.
Proof.
  induction 1 as [nf nc | tb _ _ | tb m _ IH | tb _ IH
                 | tb fila columna celda prob conf o _ IH Hc].
  - split; [apply bienFormado_constructor|].
    split; [apply contadores_constructor | discriminate].
  - split; [apply bienFormado_constructor|].
    split; [apply contadores_constructor | discriminate].
  - destruct IH as (Hbf & Hcont & Hres).
    split; [apply bienFormado_mutar, Hbf|]. split.
    + destruct m as [f c v | f c b]; cbn [mutar].
      * apply contadores_establecerValorCelda; assumption.
      * apply contadores_establecerBandera; assumption.
    + destruct (mutar_indicador tb m) as [-> | Hf]; [exact Hres|].
      congruence.
  - destruct IH as (Hbf & Hcont & Hres).
    split; [apply actualizarRestricciones_bienFormado, Hbf|]. split.
    + destruct (contadores_actualizarRestricciones tb) as [Hd Hb].
      eapply contadores_mismaForma;
        [apply actualizarRestricciones_forma | exact Hd | exact Hb
        | exact Hcont].
    + intros _. split.
      * apply actualizarRestricciones_completas. split; [exact Hbf|].
        intros Ht. apply Hres, Ht.
      * apply actualizarRestricciones_justas; [exact Hbf|].
        intros Ht. apply Hres, Ht.
  - destruct IH as (Hbf & Hcont & Hres).
    pose proof (mismaEstructura_modificar tb (fila, columna)
                  (fun c => Celda.actualizarProbabilidades c prob conf o)
                  (fun c => estructura_actualizarProbabilidades c prob conf o))
      as Hm.
    split.
    { eapply bienFormado_mismaForma; [|exact Hbf].
      apply mismaForma_sim, mismaForma_de_estructura, Hm. }
    split.
    { eapply contadores_mismaForma;
        [apply mismaForma_de_estructura, Hm | reflexivity | reflexivity
        | exact Hcont]. }
    intros Ht. destruct (Hres Ht) as [Hco Hju]. split.
    + eapply restriccionesCompletas_mismaEstructura;
        [apply mismaEstructura_sim, Hm | exact Hco].
    + eapply restriccionesJustas_mismaEstructura;
        [apply mismaEstructura_sim, Hm | exact Hju].
Qed.

(** X16: todo tablero que el programa alcanza (desde el constructor o
    [reiniciar], revelando celdas, poniendo y quitando banderas,
    actualizando las restricciones y anotando probabilidades en sus
    celdas) es íntegro: es rectangular, sus contadores dicen cuántas
    celdas hay reveladas y con bandera y, siempre que el indicador
    [restriccionesActualizadas] está puesto, las restricciones de sus
    celdas son exactamente las de sus adyacentes numéricas. En
    particular es coherente, que es lo que piden los análisis. *)
Theorem X16_tableros_alcanzables (tb : Tablero.t) :
  alcanzable tb ->
  integro tb /\ coherente tb.
Proof.
  intros H. pose proof (integro_alcanzable tb H) as Hi.
  split; [exact Hi|]. destruct Hi as (Hbf & _ & Hres).
  split; [exact Hbf|]. intros Ht. apply Hres, Ht.
Qed.

Lemma X16_tableros_alcanzables_testigo :
  integro (Tablero.actualizarRestricciones tablero_E9).
Proof.
  apply (X16_tableros_alcanzables (Tablero.actualizarRestricciones tablero_E9)).
  apply alcanzable_restricciones.
  apply (alcanzable_mutar _ (Abanderar 0 0 true)).
  apply (alcanzable_mutar _ (Revelar 1 1 (Celda.Numero 1))).
  apply alcanzable_nuevo.
Defined.

(** ** Los grupos conexos del motor de probabilidad *)

Lemma comparten_sim tb p q : comparten tb p q -> comparten tb q p.
Proof.
  intros (cp & cq & o & Hp & Hq & Hop & Hoq). exists cq, cp, o. auto.
Qed.

Lemma tieneRestriccionDe_spec celda origen :
  MotorProbabilidad.tieneRestriccionDe celda origen = true
  <-> In origen (map Celda.celdaOrigen (Celda.restricciones celda)).
Proof. unfold MotorProbabilidad.tieneRestriccionDe. apply existe_origen. Qed.

Lemma agregarClave_spec p l o :
  In o (MotorProbabilidad.agregarClave p l) <-> In o l \/ o = p.
Proof.
  unfold MotorProbabilidad.agregarClave.
  destruct (existsb (mismaPos p) l) eqn:E.
  - apply existsb_exists in E as (x & Hx & Hp). apply mismaPos_eq in Hp.
    subst x. split; [tauto|]. intros [H | ->]; assumption.
  - rewrite in_app_iff. cbn [In]. split; [intros [H|[H|[]]]|intros [H|H]];
      auto.
Qed.

Lemma agregarClave_sin_repetir p l :
  NoDup l -> NoDup (MotorProbabilidad.agregarClave p l).
Proof.
  intros Hnd. unfold MotorProbabilidad.agregarClave.
  destruct (existsb (mismaPos p) l) eqn:E; [exact Hnd|].
  apply NoDup_app. split; [exact Hnd|]. split; [|apply NoDup_singleton].
  intros x Hx Hx'. apply list_elem_of_In in Hx, Hx'. destruct Hx' as [<-|[]].
  assert (existsb (mismaPos p) l = true); [|congruence].
  apply existsb_exists. exists p. split; [exact Hx | apply mismaPos_refl].
Qed.

Lemma claves_del_pliegue (rs : list Celda.Restriccion) : forall l,
  NoDup l ->
  let l' := fold_left (fun l r =>
                         MotorProbabilidad.agregarClave (Celda.celdaOrigen r) l)
                      rs l in
  NoDup l'
  /\ forall o, In o l' <-> In o l \/ In o (map Celda.celdaOrigen rs).
Proof.
  induction rs as [|r rs IH]; intros l Hnd; cbv zeta; cbn [fold_left map In].
  - split; [exact Hnd | tauto].
  - destruct (IH _ (agregarClave_sin_repetir (Celda.celdaOrigen r) l Hnd))
      as [H1 H2]. cbv zeta in H1, H2.
    split; [exact H1|]. intros o. rewrite H2, agregarClave_spec.
    split; [intros [[H|H]|H] | intros [H|[H|H]]]; auto.
Qed.

(** El estado que deja la visita de una celda, campo a campo. *)
Lemma visitarCelda_campos tb celdas celda e :
  let e' := MotorProbabilidad.visitarCelda tb celdas celda e in
  let visitadas' := {[ Celda.pos celda ]} ∪ MotorProbabilidad.visitadas e in
  MotorProbabilidad.cola e'
  = MotorProbabilidad.cola e
    ++ flat_map (fun r => List.filter
                            (enlazada tb visitadas' (Celda.celdaOrigen r))
                            celdas)
                (Celda.restricciones celda)
  /\ MotorProbabilidad.visitadas e' = visitadas'
  /\ MotorProbabilidad.celdasAgrupadas e'
     = {[ Celda.pos celda ]} ∪ MotorProbabilidad.celdasAgrupadas e
  /\ MotorProbabilidad.ec_celdas e'
     = MotorProbabilidad.ec_celdas e ++ [Celda.pos celda]
  /\ MotorProbabilidad.ec_restricciones e'
     = fold_left (fun l r =>
                    MotorProbabilidad.agregarClave (Celda.celdaOrigen r) l)
                 (Celda.restricciones celda)
                 (MotorProbabilidad.ec_restricciones e).
Proof.
  cbv zeta. unfold MotorProbabilidad.visitarCelda.
  set (V := {[ Celda.pos celda ]} ∪ MotorProbabilidad.visitadas e).
  match goal with
  | |- context [fold_left ?F (Celda.restricciones celda) ?E0] =>
      set (paso := F); set (e0 := E0)
  end.
  assert (H : forall rs e1,
            let e' := fold_left paso rs e1 in
            MotorProbabilidad.cola e'
            = MotorProbabilidad.cola e1
              ++ flat_map (fun r => List.filter
                                      (enlazada tb V (Celda.celdaOrigen r))
                                      celdas) rs
            /\ MotorProbabilidad.visitadas e' = MotorProbabilidad.visitadas e1
            /\ MotorProbabilidad.celdasAgrupadas e'
               = MotorProbabilidad.celdasAgrupadas e1
            /\ MotorProbabilidad.ec_celdas e' = MotorProbabilidad.ec_celdas e1
            /\ MotorProbabilidad.ec_restricciones e'
               = fold_left (fun l r =>
                              MotorProbabilidad.agregarClave
                                (Celda.celdaOrigen r) l)
                           rs (MotorProbabilidad.ec_restricciones e1)).
  { induction rs as [|r rs IH]; intros e1; cbv zeta; cbn [fold_left flat_map].
    - rewrite app_nil_r. auto.
    - destruct (IH (paso e1 r)) as (H1 & H2 & H3 & H4 & H5).
      cbv zeta in H1, H2, H3, H4, H5.
      rewrite H1, H2, H3, H4, H5. unfold paso.
      cbn [MotorProbabilidad.cola MotorProbabilidad.visitadas
           MotorProbabilidad.celdasAgrupadas MotorProbabilidad.ec_celdas
           MotorProbabilidad.ec_restricciones].
      rewrite <- app_assoc. auto. }
  destruct (H (Celda.restricciones celda) e0) as (H1 & H2 & H3 & H4 & H5).
  cbv zeta in H1, H2, H3, H4, H5. rewrite H1, H2, H3, H4, H5.
  unfold e0. cbn [MotorProbabilidad.cola MotorProbabilidad.visitadas
                  MotorProbabilidad.celdasAgrupadas MotorProbabilidad.ec_celdas
                  MotorProbabilidad.ec_restricciones]. auto.
Qed.

Lemma enlazada_spec tb V origen otra :
  enlazada tb V origen otra = true
  <-> (otra ∉ V)
      /\ exists otraCelda,
           MotorProbabilidad.celdaEn tb otra = Some otraCelda
           /\ In origen (map Celda.celdaOrigen (Celda.restricciones otraCelda)).
Proof.
  unfold enlazada. destruct (bool_decide (otra ∈ V)) eqn:E.
  - apply bool_decide_eq_true in E. split; [discriminate | tauto].
  - apply bool_decide_eq_false in E.
    destruct (MotorProbabilidad.celdaEn tb otra) as [oc|].
    + rewrite tieneRestriccionDe_spec. split.
      * intros H. split; [exact E|]. exists oc. auto.
      * intros (_ & oc' & [= <-] & H). exact H.
    + split; [discriminate|]. intros (_ & oc' & [=] & _).
Qed.

(** Las celdas que una visita encola: están en la lista, no están
    visitadas y comparten una restricción con la celda visitada. *)
Lemma encoladas_spec tb celdas V (rs : list Celda.Restriccion) q :
  In q (flat_map (fun r => List.filter
                             (enlazada tb V (Celda.celdaOrigen r)) celdas) rs)
  <-> In q celdas /\ (q ∉ V)
      /\ exists qc o,
           MotorProbabilidad.celdaEn tb q = Some qc
           /\ In o (map Celda.celdaOrigen rs)
           /\ In o (map Celda.celdaOrigen (Celda.restricciones qc)).
Proof.
  rewrite in_flat_map. split.
  - intros (r & Hr & Hq). apply filter_In in Hq as [Hq He].
    apply enlazada_spec in He as (HV & qc & Hqc & Ho).
    split; [exact Hq|]. split; [exact HV|].
    exists qc, (Celda.celdaOrigen r). split; [exact Hqc|].
    split; [apply in_map, Hr | exact Ho].
  - intros (Hq & HV & qc & o & Hqc & Ho & Hoq).
    apply in_map_iff in Ho as (r & <- & Hr). exists r. split; [exact Hr|].
    apply filter_In. split; [exact Hq|]. apply enlazada_spec.
    split; [exact HV|]. exists qc. auto.
Qed.

Lemma encoladas_largo tb celdas V (rs : list Celda.Restriccion) :
  (length (flat_map (fun r => List.filter
                                (enlazada tb V (Celda.celdaOrigen r)) celdas)
                    rs)
   <= length rs * length celdas)%nat.
Proof.
  induction rs as [|r rs IH]; cbn [flat_map length]; [lia|].
  rewrite length_app.
  pose proof (filter_length_le (enlazada tb V (Celda.celdaOrigen r)) celdas).
  lia.
Qed.

Section Conexo.
Variable tb : Tablero.t.
Variable celdas : list Pos.
Variable agrupadas : gset Pos.
Variable inicial : Pos.
Hypothesis Hexiste : forall p, In p celdas ->
  exists celda, MotorProbabilidad.celdaEn tb p = Some celda
                /\ Celda.pos celda = p.
Hypothesis Hocho : forall p celda, In p celdas ->
  MotorProbabilidad.celdaEn tb p = Some celda ->
  (length (Celda.restricciones celda) <= 8)%nat.
Hypothesis Hcerrada : forall p q, p ∈ agrupadas -> In q celdas ->
  comparten tb p q -> q ∈ agrupadas.

Lemma invarianteConexo_inicial :
  In inicial celdas -> inicial ∉ agrupadas ->
  invarianteConexo tb celdas agrupadas inicial
    {| MotorProbabilidad.cola := [inicial];
       MotorProbabilidad.visitadas := ∅;
       MotorProbabilidad.celdasAgrupadas := agrupadas;
       MotorProbabilidad.ec_celdas := [];
       MotorProbabilidad.ec_restricciones := [] |}.
Proof.
  intros Hin Hno. unfold invarianteConexo.
  cbn [MotorProbabilidad.cola MotorProbabilidad.visitadas
       MotorProbabilidad.celdasAgrupadas MotorProbabilidad.ec_celdas
       MotorProbabilidad.ec_restricciones In].
  split.
  { intros p [<-|[]]. split; [exact Hin|]. split; [exact Hno|].
    apply conectadas_misma. }
  split; [apply NoDup_nil_2|].
  split; [intros p; split; [intros H; destruct (not_elem_of_empty p H)
                           | intros []]|].
  split; [intros p []|].
  split; [intros p; tauto|].
  split; [apply NoDup_nil_2|].
  split; [intros o; split; [intros [] | intros (p & c & [] & _)]|].
  split; [intros p q []|]. right. left. reflexivity.
Qed.

Lemma invarianteConexo_saltar e p resto :
  MotorProbabilidad.cola e = p :: resto ->
  p ∈ MotorProbabilidad.visitadas e ->
  invarianteConexo tb celdas agrupadas inicial e ->
  invarianteConexo tb celdas agrupadas inicial (trasSacar e resto).
Proof.
  intros Hcola Hvis (Hc & Hnd & Hv & Hce & Hag & Hndr & Hr & Hcl & Hini).
  unfold invarianteConexo, trasSacar.
  cbn [MotorProbabilidad.cola MotorProbabilidad.visitadas
       MotorProbabilidad.celdasAgrupadas MotorProbabilidad.ec_celdas
       MotorProbabilidad.ec_restricciones].
  split; [intros x Hx; apply Hc; rewrite Hcola; right; exact Hx|].
  repeat (split; [assumption|]).
  split.
  { intros x q Hx Hq Hxq.
    destruct (Hcl x q Hx Hq Hxq) as [H|H]; [left; exact H|].
    rewrite Hcola in H. destruct H as [<- | H]; [|right; exact H].
    left. apply Hv, Hvis. }
  destruct Hini as [H|H]; [left; exact H|].
  rewrite Hcola in H. destruct H as [<- | H]; [|right; exact H].
  left. apply Hv, Hvis.
Qed.

Lemma invarianteConexo_visitar e p resto celda :
  MotorProbabilidad.cola e = p :: resto ->
  p ∉ MotorProbabilidad.visitadas e ->
  MotorProbabilidad.celdaEn tb p = Some celda ->
  invarianteConexo tb celdas agrupadas inicial e ->
  invarianteConexo tb celdas agrupadas inicial
    (MotorProbabilidad.visitarCelda tb celdas celda (trasSacar e resto)).
Proof.
  intros Hcola Hvis Hcelda
    (Hc & Hnd & Hv & Hce & Hag & Hndr & Hr & Hcl & Hini).
  destruct (Hc p) as (Hp & HpA & Hpc); [rewrite Hcola; left; reflexivity|].
  assert (Hpos : Celda.pos celda = p).
  { destruct (Hexiste p Hp) as (c' & Hc' & Hpos). congruence. }
  destruct (visitarCelda_campos tb celdas celda (trasSacar e resto))
    as (E1 & E2 & E3 & E4 & E5). cbv zeta in E1, E2, E3, E4, E5.
  unfold invarianteConexo. rewrite E1, E2, E3, E4, E5, Hpos.
  cbn [trasSacar MotorProbabilidad.cola MotorProbabilidad.visitadas
       MotorProbabilidad.celdasAgrupadas MotorProbabilidad.ec_celdas
       MotorProbabilidad.ec_restricciones].
  assert (Hpno : ~ In p (MotorProbabilidad.ec_celdas e))
    by (intros H; apply Hvis, Hv, H).
  split.
  { intros x Hx. apply in_app_or in Hx as [Hx|Hx].
    - apply Hc. rewrite Hcola. right. exact Hx.
    - apply encoladas_spec in Hx as (Hxc & _ & qc & o & Hqc & Ho & Hoq).
      assert (Hpx : comparten tb p x) by (exists celda, qc, o; auto).
      split; [exact Hxc|]. split.
      + intros HxA. apply HpA.
        apply (Hcerrada x p HxA Hp). apply comparten_sim, Hpx.
      + eapply conectadas_paso; eauto. }
  split.
  { apply NoDup_app. split; [exact Hnd|]. split; [|apply NoDup_singleton].
    intros x Hx Hx'. apply list_elem_of_In in Hx, Hx'.
    destruct Hx' as [<-|[]]. exact (Hpno Hx). }
  split.
  { intros x. rewrite in_app_iff. cbn [In]. rewrite <- Hv.
    rewrite elem_of_union, elem_of_singleton.
    split; [intros [->|H] | intros [H|[<-|[]]]]; auto. }
  split.
  { intros x Hx. apply in_app_or in Hx as [Hx|[<-|[]]]; [apply Hce, Hx|].
    auto. }
  split.
  { intros x. rewrite in_app_iff. cbn [In]. rewrite elem_of_union, Hag.
    rewrite elem_of_singleton.
    split; [intros [->|[H|H]] | intros [[H|[<-|[]]]|H]]; auto. }
  destruct (claves_del_pliegue (Celda.restricciones celda)
              (MotorProbabilidad.ec_restricciones e) Hndr) as [Hnd' Hin'].
  cbv zeta in Hnd', Hin'.
  split; [exact Hnd'|].
  split.
  { intros o. rewrite Hin', Hr. split.
    - intros [(x & cx & Hx & Hcx & Ho) | Ho].
      + exists x, cx. split; [apply in_or_app; left; exact Hx|]. auto.
      + exists p, celda. split; [apply in_or_app; right; left; reflexivity|].
        auto.
    - intros (x & cx & Hx & Hcx & Ho).
      apply in_app_or in Hx as [Hx|[<-|[]]].
      + left. exists x, cx. auto.
      + right. congruence. }
  split.
  2:{ destruct Hini as [H|H]; [left; apply in_or_app; left; exact H|].
      rewrite Hcola in H. destruct H as [<- | H].
      - left. apply in_or_app. right. left. reflexivity.
      - right. apply in_or_app. left. exact H. }
  intros x q Hx Hq Hxq.
  destruct (decide (q = p)) as [->|Hqp];
    [left; apply in_or_app; right; left; reflexivity|].
  apply in_app_or in Hx as [Hx|[<-|[]]].
  - destruct (Hcl x q Hx Hq Hxq) as [H|H].
    + left. apply in_or_app. left. exact H.
    + rewrite Hcola in H. destruct H as [H|H]; [congruence|].
      right. apply in_or_app. left. exact H.
  - destruct Hxq as (cp & cq & o & Hcp & Hcq & Hop & Hoq).
    assert (cp = celda) by congruence. subst cp.
    destruct (decide (q ∈ MotorProbabilidad.visitadas e)) as [Hqv|Hqv].
    + left. apply in_or_app. left. apply Hv, Hqv.
    + right. apply in_or_app. right. apply encoladas_spec.
      split; [exact Hq|]. split.
      * rewrite elem_of_union, elem_of_singleton. intros [H|H]; auto.
      * exists cq, o. auto.
Qed.

Lemma bucleConexo_termina : forall combustible e,
  invarianteConexo tb celdas agrupadas inicial e ->
  (length (MotorProbabilidad.cola e)
   + 8 * length celdas
     * (length celdas - length (MotorProbabilidad.ec_celdas e))
   <= combustible)%nat ->
  exists e',
    MotorProbabilidad.bucleConexo combustible tb celdas e = Devuelve e'
    /\ invarianteConexo tb celdas agrupadas inicial e'
    /\ MotorProbabilidad.cola e' = [].
Proof.
  induction combustible as [|n IH]; intros e Hinv Hm.
  - destruct (MotorProbabilidad.cola e) as [|p resto] eqn:Hcola.
    + exists e. cbn [MotorProbabilidad.bucleConexo]. rewrite Hcola. auto.
    + cbn [length] in Hm. lia.
  - cbn [MotorProbabilidad.bucleConexo].
    destruct (MotorProbabilidad.cola e) as [|p resto] eqn:Hcola;
      [exists e; auto|].
    cbv zeta. change {| MotorProbabilidad.cola := resto;
                        MotorProbabilidad.visitadas := _;
                        MotorProbabilidad.celdasAgrupadas := _;
                        MotorProbabilidad.ec_celdas := _;
                        MotorProbabilidad.ec_restricciones := _ |}
                with (trasSacar e resto).
    cbn [length] in Hm.
    destruct (bool_decide (p ∈ MotorProbabilidad.visitadas e)) eqn:Hb.
    + apply bool_decide_eq_true in Hb. apply IH.
      * eapply invarianteConexo_saltar; eauto.
      * cbn [trasSacar MotorProbabilidad.cola MotorProbabilidad.ec_celdas].
        lia.
    + apply bool_decide_eq_false in Hb.
      assert (Hp : In p celdas).
      { destruct Hinv as (Hc & _). apply Hc. rewrite Hcola. left.
        reflexivity. }
      destruct (Hexiste p Hp) as (celda & Hcel & Hpos). rewrite Hcel.
      pose proof (invarianteConexo_visitar e p resto celda Hcola Hb Hcel Hinv)
        as Hinv'.
      apply IH; [exact Hinv'|].
      destruct Hinv' as (_ & Hnd' & _ & Hce' & _).
      destruct (visitarCelda_campos tb celdas celda (trasSacar e resto))
        as (E1 & _ & _ & E4 & _). cbv zeta in E1, E4.
      assert (Hk : (length (MotorProbabilidad.ec_celdas
                              (MotorProbabilidad.visitarCelda tb celdas celda
                                 (trasSacar e resto)))
                    <= length celdas)%nat).
      { apply NoDup_incl_length; [apply NoDup_ListNoDup, Hnd'|].
        intros x Hx. apply Hce', Hx. }
      rewrite E1, length_app. rewrite E4 in Hk |- *.
      rewrite length_app in Hk |- *.
      cbn [trasSacar MotorProbabilidad.cola MotorProbabilidad.ec_celdas
           MotorProbabilidad.visitadas length] in Hk |- *.
      pose proof (encoladas_largo tb celdas
                    ({[Celda.pos celda]} ∪ MotorProbabilidad.visitadas e)
                    (Celda.restricciones celda)) as Henc.
      pose proof (Hocho p celda Hp Hcel) as H8.
      assert (Hmul : (length (Celda.restricciones celda) * length celdas
                      <= 8 * length celdas)%nat)
        by (apply Nat.mul_le_mono_r; exact H8).
      replace (length celdas - length (MotorProbabilidad.ec_celdas e))%nat
        with (S (length celdas
                 - (length (MotorProbabilidad.ec_celdas e) + 1)))%nat
        in Hm by lia.
      rewrite Nat.mul_succ_r in Hm. lia.
Qed.

End Conexo.

Lemma valores_de_origenes tb (os : list Pos) :
  (forall o, In o os ->
     exists co valor,
       MotorProbabilidad.celdaEn tb o = Some co
       /\ Celda.obtenerValorNumerico co = Some valor) ->
  forall acc, exists rs,
    plegarR (fun (acc : list (Pos * option Z)) clave =>
               match MotorProbabilidad.celdaEn tb clave with
               | Some celdaRestriccion =>
                   mret (acc ++ [(clave,
                                  Celda.obtenerValorNumerico celdaRestriccion)])
               | None => LanzaTypeError
               end) os acc
    = Devuelve (acc ++ rs)
    /\ map fst rs = os
    /\ forall o v, In (o, v) rs ->
         exists co valor,
           MotorProbabilidad.celdaEn tb o = Some co
           /\ Celda.obtenerValorNumerico co = Some valor
           /\ v = Some valor.
Proof.
  induction os as [|o os IH]; intros Hos acc.
  - exists []. rewrite app_nil_r. split; [reflexivity|].
    split; [reflexivity | intros o v []].
  - destruct (Hos o (or_introl eq_refl)) as (co & valor & Hco & Hval).
    cbn [plegarR]. rewrite Hco.
    destruct (IH (fun x Hx => Hos x (or_intror Hx))
                 (acc ++ [(o, Celda.obtenerValorNumerico co)]))
      as (rs & Hrun & Hfst & Hrs).
    exists ((o, Celda.obtenerValorNumerico co) :: rs).
    split; [|split].
    + cbn. cbn in Hrun. rewrite Hrun, <- app_assoc. reflexivity.
    + cbn [map fst]. rewrite Hfst. reflexivity.
    + intros x v [[= <- <-] | H]; [|apply Hrs, H].
      exists co, valor. auto.
Qed.

Lemma conectadas_con_restricciones tb celdas inicial celdaInicial p :
  In inicial celdas ->
  MotorProbabilidad.celdaEn tb inicial = Some celdaInicial ->
  Celda.restricciones celdaInicial <> [] ->
  conectadas tb celdas inicial p ->
  In p celdas
  /\ exists celda, MotorProbabilidad.celdaEn tb p = Some celda
                   /\ Celda.restricciones celda <> [].
Proof.
  intros Hin Hcel Hres Hcon. destruct Hcon as [|q r _ Hr Hqr].
  - split; [exact Hin|]. exists celdaInicial. auto.
  - split; [exact Hr|].
    destruct Hqr as (cq & cr & o & _ & Hcr & _ & Ho). exists cr.
    split; [exact Hcr|]. intros E. rewrite E in Ho. destruct Ho.
Qed.

Section Grupos.
Variable tb : Tablero.t.
Variable celdas : list Pos.
Hypothesis Hexiste : forall p, In p celdas ->
  exists celda, MotorProbabilidad.celdaEn tb p = Some celda
                /\ Celda.pos celda = p.
Hypothesis Hocho : forall p celda, In p celdas ->
  MotorProbabilidad.celdaEn tb p = Some celda ->
  (length (Celda.restricciones celda) <= 8)%nat.
Hypothesis Horigen : forall p celda o, In p celdas ->
  MotorProbabilidad.celdaEn tb p = Some celda ->
  In o (map Celda.celdaOrigen (Celda.restricciones celda)) ->
  exists co valor,
    MotorProbabilidad.celdaEn tb o = Some co
    /\ Celda.obtenerValorNumerico co = Some valor.

Lemma obtenerGrupoConexo_spec agrupadas inicial celdaInicial :
  (forall p q, p ∈ agrupadas -> In q celdas -> comparten tb p q ->
     q ∈ agrupadas) ->
  In inicial celdas -> inicial ∉ agrupadas ->
  MotorProbabilidad.celdaEn tb inicial = Some celdaInicial ->
  Celda.restricciones celdaInicial <> [] ->
  exists grupo agrupadas',
    MotorProbabilidad.obtenerGrupoConexo tb inicial celdas agrupadas
    = Devuelve (grupo, agrupadas')
    /\ esGrupoConexo tb celdas grupo
    /\ In inicial (MotorProbabilidad.g_celdas grupo)
    /\ (forall p, In p (MotorProbabilidad.g_celdas grupo) -> p ∉ agrupadas)
    /\ (forall p, (p ∈ agrupadas')
                  <-> In p (MotorProbabilidad.g_celdas grupo)
                      \/ p ∈ agrupadas).
Proof.
  intros Hcerrada Hin Hno Hcel Hres.
  unfold MotorProbabilidad.obtenerGrupoConexo.
  destruct (bucleConexo_termina tb celdas agrupadas inicial Hexiste Hocho
              Hcerrada (MotorProbabilidad.combustibleConexo celdas) _
              (invarianteConexo_inicial tb celdas agrupadas inicial Hin Hno))
    as (e' & Hrun & Hinv & Hcola).
  { cbn [MotorProbabilidad.cola MotorProbabilidad.ec_celdas length].
    unfold MotorProbabilidad.combustibleConexo. rewrite Nat.sub_0_r. lia. }
  rewrite Hrun.
  destruct Hinv as (_ & Hnd & Hv & Hce & Hag & Hndr & Hr & Hcl & Hini).
  rewrite Hcola in Hcl, Hini.
  assert (Hini' : In inicial (MotorProbabilidad.ec_celdas e'))
    by (destruct Hini as [H|[]]; exact H).
  destruct (valores_de_origenes tb (MotorProbabilidad.ec_restricciones e'))
    with (acc := @nil (Pos * option Z)) as (rs & Hrs & Hfst & Hval).
  { intros o Ho. apply Hr in Ho as (p & celda & Hp & Hc & Ho).
    apply (Horigen p celda o); [apply Hce, Hp | exact Hc | exact Ho]. }
  cbn [mbind resultado_bind]. cbn [app] in Hrs.
  change (plegarR _ (MotorProbabilidad.ec_restricciones e') [])
    with (plegarR (fun (acc : list (Pos * option Z)) clave =>
               match MotorProbabilidad.celdaEn tb clave with
               | Some celdaRestriccion =>
                   mret (acc ++ [(clave,
                                  Celda.obtenerValorNumerico celdaRestriccion)])
               | None => LanzaTypeError
               end) (MotorProbabilidad.ec_restricciones e') []).
  rewrite Hrs. cbn [mret resultado_ret].
  eexists _, _. split; [reflexivity|]. unfold esGrupoConexo.
  cbn [MotorProbabilidad.g_celdas MotorProbabilidad.g_restricciones].
  split; [|split; [exact Hini'|split]].
  - split; [exact Hnd|]. split.
    { exists inicial, celdaInicial. split; [exact Hin|].
      split; [exact Hcel|]. split; [exact Hres|].
      intros p. split; [intros Hp; apply Hce, Hp|].
      induction 1 as [|q r _ IH Hrc Hqr]; [exact Hini'|].
      destruct (Hcl q r IH Hrc Hqr) as [H|[]]. exact H. }
    rewrite Hfst. split; [exact Hndr|]. split; [exact Hr | exact Hval].
  - intros p Hp. apply Hce, Hp.
  - exact Hag.
Qed.

Lemma invarianteGrupos_otra hechas estado p :
  invarianteGrupos tb celdas hechas estado ->
  (forall celda, MotorProbabilidad.celdaEn tb p = Some celda ->
     Celda.restricciones celda <> [] -> p ∈ snd estado) ->
  invarianteGrupos tb celdas (hechas ++ [p]) estado.
Proof.
  intros (H1 & H2 & H3 & H4 & H5) Hp. unfold invarianteGrupos.
  repeat (split; [assumption|]). split; [|exact H5].
  intros x celda Hx Hc Hr. apply in_app_or in Hx as [Hx|[<-|[]]].
  - eapply H4; eauto.
  - eapply Hp; eauto.
Qed.

Lemma invarianteGrupos_grupo hechas grupos agrupadas p celda grupo agrupadas' :
  invarianteGrupos tb celdas hechas (grupos, agrupadas) ->
  MotorProbabilidad.celdaEn tb p = Some celda ->
  esGrupoConexo tb celdas grupo ->
  In p (MotorProbabilidad.g_celdas grupo) ->
  (forall x, In x (MotorProbabilidad.g_celdas grupo) -> x ∉ agrupadas) ->
  (forall x, (x ∈ agrupadas')
             <-> In x (MotorProbabilidad.g_celdas grupo) \/ x ∈ agrupadas) ->
  invarianteGrupos tb celdas (hechas ++ [p]) (grupos ++ [grupo], agrupadas').
Proof.
  intros (H1 & H2 & H3 & H4 & H5) Hcel Hg Hp Hno Hag.
  unfold invarianteGrupos in *. cbn [fst snd] in *.
  assert (Htodas : forall x,
            In x (concat (map MotorProbabilidad.g_celdas (grupos ++ [grupo])))
            <-> In x (concat (map MotorProbabilidad.g_celdas grupos))
                \/ In x (MotorProbabilidad.g_celdas grupo)).
  { intros x. rewrite map_app, concat_app, in_app_iff. cbn [map concat].
    rewrite app_nil_r. reflexivity. }
  split.
  { rewrite map_app, concat_app. cbn [map concat]. rewrite app_nil_r.
    apply NoDup_app. split; [exact H1|]. split; [|apply Hg].
    intros x Hx Hx'. apply list_elem_of_In in Hx, Hx'.
    apply (Hno x Hx'). apply H2, Hx. }
  split.
  { intros x. rewrite Hag, Htodas, H2. tauto. }
  split.
  { intros g Hin. apply in_app_or in Hin as [Hin|[<-|[]]];
      [apply H3, Hin | exact Hg]. }
  split.
  { intros x cx Hx Hcx Hr. apply Hag.
    apply in_app_or in Hx as [Hx|[<-|[]]]; [right; eapply H4; eauto|].
    left. exact Hp. }
  intros x q Hx Hq Hxq. apply Hag. apply Hag in Hx as [Hx|Hx].
  - left. destruct Hg as (_ & (ini & cini & _ & _ & _ & Hcon) & _).
    apply Hcon. eapply conectadas_paso; [apply Hcon, Hx | exact Hq | exact Hxq].
  - right. eapply H5; eauto.
Qed.

Lemma obtenerGruposConectados_spec :
  exists grupos agrupadas,
    MotorProbabilidad.obtenerGruposConectados tb celdas = Devuelve grupos
    /\ invarianteGrupos tb celdas celdas (grupos, agrupadas).
Proof.
  unfold MotorProbabilidad.obtenerGruposConectados.
  match goal with
  | |- context [plegarR ?F celdas _] => set (cuerpo := F)
  end.
  assert (Hgen : forall resto hechas estado,
            (forall p, In p resto -> In p celdas) ->
            invarianteGrupos tb celdas hechas estado ->
            exists estado',
              plegarR cuerpo resto estado = Devuelve estado'
              /\ invarianteGrupos tb celdas (hechas ++ resto) estado').
  { induction resto as [|p resto IH]; intros hechas [grupos A] Hsub HJ.
    - exists (grupos, A). rewrite app_nil_r. split; [reflexivity | exact HJ].
    - assert (Hp : In p celdas) by (apply Hsub; left; reflexivity).
      assert (Hpaso : exists estado1,
                cuerpo (grupos, A) p = Devuelve estado1
                /\ invarianteGrupos tb celdas (hechas ++ [p]) estado1).
      { unfold cuerpo.
        destruct (bool_decide (p ∈ A)) eqn:Hb.
        { apply bool_decide_eq_true in Hb. exists (grupos, A).
          split; [reflexivity|]. apply invarianteGrupos_otra; [exact HJ|].
          intros; exact Hb. }
        apply bool_decide_eq_false in Hb.
        destruct (Hexiste p Hp) as (celda & Hcel & Hpos). rewrite Hcel.
        destruct (largo (Celda.restricciones celda) =? 0) eqn:Hl.
        { exists (grupos, A). split; [reflexivity|].
          apply invarianteGrupos_otra; [exact HJ|].
          intros c' Hc' Hr. exfalso. apply Hr.
          assert (c' = celda) by congruence. subst c'.
          apply Z.eqb_eq in Hl. apply largo_es_cero, Hl. }
        assert (Hres : Celda.restricciones celda <> []).
        { intros E. rewrite E in Hl. discriminate. }
        destruct HJ as (H1 & H2 & H3 & H4 & H5).
        destruct (obtenerGrupoConexo_spec A p celda H5 Hp Hb Hcel Hres)
          as (grupo & A' & Hrun & Hg & Hin & Hno & Hag).
        rewrite Hrun. cbn [mbind resultado_bind].
        assert (H0 : (0 <? largo (MotorProbabilidad.g_celdas grupo)) = true).
        { apply Z.ltb_lt. unfold largo.
          destruct (MotorProbabilidad.g_celdas grupo); [destruct Hin|].
          cbn [length]. lia. }
        rewrite H0. exists (grupos ++ [grupo], A'). split; [reflexivity|].
        apply (invarianteGrupos_grupo hechas grupos A p celda grupo A'
                 (conj H1 (conj H2 (conj H3 (conj H4 H5))))
                 Hcel Hg Hin Hno Hag). }
      destruct Hpaso as (estado1 & Hrun1 & HJ1).
      cbn [plegarR]. rewrite Hrun1. cbn [mbind resultado_bind].
      destruct (IH (hechas ++ [p]) estado1) as (estado' & Hrun & HJ');
        [intros x Hx; apply Hsub; right; exact Hx | exact HJ1 |].
      exists estado'. split; [exact Hrun|].
      rewrite <- app_assoc in HJ'. exact HJ'. }
  destruct (Hgen celdas [] ([], ∅)) as ([grupos A] & Hrun & HJ).
  { auto. }
  { unfold invarianteGrupos. cbn [fst snd map concat].
    split; [apply NoDup_nil_2|].
    split; [intros p; split; [intros H; destruct (not_elem_of_empty p H)
                             | intros []]|].
    split; [intros g []|]. split; [intros p c []|].
    intros p q H. destruct (not_elem_of_empty p H). }
  exists grupos, A. rewrite Hrun. split; [reflexivity | exact HJ].
Qed.

End Grupos.

(** X17: sobre un tablero rectangular de restricciones justas, y para
    cualquier lista de posiciones válidas, [obtenerGruposConectados]
    siempre devuelve (sus bucles [while] terminan y no lanza), y los
    grupos que devuelve reparten las celdas de la lista que tienen
    restricciones: cada una está en un grupo y solo en uno, ninguna se
    repite, y cada grupo es la componente conexa de una de ellas, es
    decir, las celdas unidas a ella por una cadena de celdas de la lista
    que comparten restricción; dos celdas que comparten restricción están
    en el mismo grupo. Las restricciones de un grupo son los orígenes de
    las restricciones de sus celdas, una vez cada uno y con su número. *)
Theorem X17_grupos_conexos (tb : Tablero.t) (celdas : list Pos) :
  bienFormado tb -> restriccionesJustas tb ->
  (forall p, In p celdas ->
     Tablero.esPosicionValida tb (fst p) (snd p) = true) ->
  exists grupos,
    MotorProbabilidad.obtenerGruposConectados tb celdas = Devuelve grupos
    /\ NoDup (concat (map MotorProbabilidad.g_celdas grupos))
    /\ (forall p,
          In p (concat (map MotorProbabilidad.g_celdas grupos))
          <-> In p celdas
              /\ exists celda,
                   MotorProbabilidad.celdaEn tb p = Some celda
                   /\ Celda.restricciones celda <> [])
    /\ (forall grupo, In grupo grupos -> esGrupoConexo tb celdas grupo)
    /\ (forall grupo p q,
          In grupo grupos ->
          In p (MotorProbabilidad.g_celdas grupo) ->
          In q celdas -> comparten tb p q ->
          In q (MotorProbabilidad.g_celdas grupo)).
Proof.
  intros Hbf Hj Hval.
  assert (Hexiste : forall p, In p celdas ->
            exists celda, MotorProbabilidad.celdaEn tb p = Some celda
                          /\ Celda.pos celda = p).
  { intros [f c] Hp. destruct (Hbf f c (Hval _ Hp)) as (celda & Hc & <- & <-).
    exists celda. split; [exact Hc | reflexivity]. }
  assert (Hocho : forall p celda, In p celdas ->
            MotorProbabilidad.celdaEn tb p = Some celda ->
            (length (Celda.restricciones celda) <= 8)%nat).
  { intros [f c] celda _ Hc.
    apply (restricciones_de_adyacentes tb f c celda Hbf Hj Hc). }
  assert (Horigen : forall p celda o, In p celdas ->
            MotorProbabilidad.celdaEn tb p = Some celda ->
            In o (map Celda.celdaOrigen (Celda.restricciones celda)) ->
            exists co valor,
              MotorProbabilidad.celdaEn tb o = Some co
              /\ Celda.obtenerValorNumerico co = Some valor).
  { intros [f c] celda o _ Hc Ho.
    apply in_map_iff in Ho as (r & <- & Hr).
    destruct (Hj f c celda Hc) as [_ Hjs].
    destruct (Hjs r Hr) as (co & valor & Hco & _ & Hv & _).
    exists co, valor. split; [exact Hco | exact Hv]. }
  destruct (obtenerGruposConectados_spec tb celdas Hexiste Hocho Horigen)
    as (grupos & A & Hrun & H1 & H2 & H3 & H4 & H5).
  cbn [fst snd] in H1, H2, H3, H4, H5.
  exists grupos. split; [exact Hrun|]. split; [exact H1|].
  split; [|split; [exact H3|]].
  - intros p. split.
    + intros Hp. apply in_concat in Hp as (l & Hl & Hp).
      apply in_map_iff in Hl as (grupo & <- & Hg).
      destruct (H3 grupo Hg)
        as (_ & (ini & cini & Hini & Hcini & Hres & Hcon) & _).
      apply (conectadas_con_restricciones tb celdas ini cini p Hini Hcini Hres).
      apply Hcon, Hp.
    + intros (Hp & celda & Hc & Hr). apply H2. eapply H4; eauto.
  - intros grupo p q Hg Hp Hq Hpq.
    destruct (H3 grupo Hg) as (_ & (ini & cini & _ & _ & _ & Hcon) & _).
    apply Hcon. eapply conectadas_paso; [apply Hcon, Hp | exact Hq | exact Hpq].
Qed.

Lemma X17_grupos_conexos_testigo :
  exists grupos,
    MotorProbabilidad.obtenerGruposConectados
      (Tablero.actualizarRestricciones tablero_E9)
      (map Celda.pos (Tablero.obtenerCeldasSinRevolar
                        (Tablero.actualizarRestricciones tablero_E9)))
    = Devuelve grupos
    /\ NoDup (concat (map MotorProbabilidad.g_celdas grupos)).
Proof.
  assert (Hbf : bienFormado (Tablero.actualizarRestricciones tablero_E9))
    by (apply bienFormadoB_correcto; vm_compute; reflexivity).
  assert (Hj : restriccionesJustas (Tablero.actualizarRestricciones tablero_E9)).
  { apply actualizarRestricciones_justas.
    - apply bienFormadoB_correcto. vm_compute. reflexivity.
    - assert (Hf : Tablero.restriccionesActualizadas tablero_E9 = false)
        by (vm_compute; reflexivity).
      congruence. }
  destruct (X17_grupos_conexos (Tablero.actualizarRestricciones tablero_E9)
              (map Celda.pos (Tablero.obtenerCeldasSinRevolar
                                (Tablero.actualizarRestricciones tablero_E9)))
              Hbf Hj) as (grupos & Hrun & Hnd & _).
  { assert (H : forallb (fun p => Tablero.esPosicionValida
                                    (Tablero.actualizarRestricciones tablero_E9)
                                    (fst p) (snd p))
                        (map Celda.pos
                           (Tablero.obtenerCeldasSinRevolar
                              (Tablero.actualizarRestricciones tablero_E9)))
                = true) by (vm_compute; reflexivity).
    intros p Hp. exact (proj1 (forallb_forall _ _) H p Hp). }
  exists grupos. split; assumption.
Defined.

(** ** La pasada del motor de probabilidad *)

Lemma soloProbabilidades_refl celdas m : soloProbabilidades celdas m m.
Proof.
  split; [apply mismaEstructura_refl|]. repeat split; reflexivity.
Qed.

Lemma soloProbabilidades_trans celdas m1 m2 m3 :
  soloProbabilidades celdas m1 m2 -> soloProbabilidades celdas m2 m3 ->
  soloProbabilidades celdas m1 m3.
Proof.
  intros (Ha & Hb & Hc & Hd & He & Hf) (Ha' & Hb' & Hc' & Hd' & He' & Hf').
  split; [eapply mismaEstructura_trans; eauto|].
  split; [intros f c Hn; rewrite Hb', Hb; auto|].
  repeat split; congruence.
Qed.

Lemma soloProbabilidades_bienFormado celdas m m' :
  soloProbabilidades celdas m m' ->
  bienFormado (MotorProbabilidad.tablero m) ->
  bienFormado (MotorProbabilidad.tablero m').
Proof.
  intros (Ha & _) Hbf. eapply bienFormado_mismaForma; [|exact Hbf].
  apply mismaForma_sim, mismaForma_de_estructura, Ha.
Qed.

Lemma actualizar_solo celdas m p prob conf o celda :
  MotorProbabilidad.celdaEn (MotorProbabilidad.tablero m) p = Some celda ->
  In p celdas ->
  soloProbabilidades celdas m (MotorProbabilidad.actualizar m p prob conf o).
Proof.
  intros Hc Hp. unfold soloProbabilidades, MotorProbabilidad.actualizar.
  cbn [MotorProbabilidad.conTablero MotorProbabilidad.tablero
       MotorProbabilidad.registroCalculos].
  split.
  { apply mismaEstructura_modificar. intros c.
    apply estructura_actualizarProbabilidades. }
  split; [|repeat split; reflexivity].
  intros f c Hn. apply obtenerCelda_modificar_otra.
  - eapply obtenerCelda_valida. exact Hc.
  - intros E. apply Hn. rewrite E. exact Hp.
Qed.

(** Un [forEach] sobre celdas de la lista cuyo cuerpo solo anota en la
    celda que recibe. *)
Lemma porCadaCelda_solo celdas (sub : list Pos) (cuerpo :
    MotorProbabilidad.t -> Celda.t -> MotorProbabilidad.t) : forall m,
  bienFormado (MotorProbabilidad.tablero m) ->
  (forall p, In p sub -> In p celdas) ->
  (forall m1 celda,
     In (Celda.pos celda) celdas ->
     MotorProbabilidad.celdaEn (MotorProbabilidad.tablero m1) (Celda.pos celda)
     = Some celda ->
     soloProbabilidades celdas m1 (cuerpo m1 celda)) ->
  soloProbabilidades celdas m (MotorProbabilidad.porCadaCelda sub m cuerpo).
Proof.
  unfold MotorProbabilidad.porCadaCelda.
  induction sub as [|p sub IH]; intros m Hbf Hsub Hcuerpo; cbn [fold_left].
  - apply soloProbabilidades_refl.
  - assert (Hp : In p celdas) by (apply Hsub; left; reflexivity).
    assert (Hpaso : soloProbabilidades celdas m
              (match MotorProbabilidad.celdaEn (MotorProbabilidad.tablero m) p
               with
               | Some celda => cuerpo m celda
               | None => m
               end)).
    { destruct (MotorProbabilidad.celdaEn (MotorProbabilidad.tablero m) p)
        as [celda|] eqn:Hc; [|apply soloProbabilidades_refl].
      assert (Hpos : Celda.pos celda = p).
      { destruct p as [f c]. unfold MotorProbabilidad.celdaEn in Hc.
        cbn [fst snd] in Hc.
        destruct (bienFormado_pos _ _ _ _ Hbf Hc) as [<- <-]. reflexivity. }
      apply Hcuerpo; rewrite Hpos; assumption. }
    eapply soloProbabilidades_trans; [exact Hpaso|].
    apply IH; [|intros x Hx; apply Hsub; right; exact Hx | exact Hcuerpo].
    eapply soloProbabilidades_bienFormado; eauto.
Qed.

Lemma inicializarProbabilidadesBase_solo celdas m :
  bienFormado (MotorProbabilidad.tablero m) ->
  soloProbabilidades celdas m
    (MotorProbabilidad.inicializarProbabilidadesBase m celdas).
Proof.
  intros Hbf. unfold MotorProbabilidad.inicializarProbabilidadesBase.
  cbv zeta. apply porCadaCelda_solo; [exact Hbf | auto |].
  intros m1 celda Hin Hc.
  destruct (JS.menor _ _); [|apply soloProbabilidades_refl].
  eapply actualizar_solo; eauto.
Qed.

Lemma integrarMemoriaHistorica_solo celdas m gm :
  bienFormado (MotorProbabilidad.tablero m) ->
  soloProbabilidades celdas m
    (MotorProbabilidad.integrarMemoriaHistorica m celdas gm).
Proof.
  intros Hbf. unfold MotorProbabilidad.integrarMemoriaHistorica.
  cbv zeta. apply porCadaCelda_solo; [exact Hbf | auto |].
  intros m1 celda Hin Hc.
  destruct (_ !! Celda.pos celda) as [info|]; [|apply soloProbabilidades_refl].
  destruct (0 <? _); [|apply soloProbabilidades_refl].
  destruct (_ && _); [|apply soloProbabilidades_refl].
  eapply actualizar_solo; eauto.
Qed.

Lemma identificarCasosConCerteza_solo celdas m :
  bienFormado (MotorProbabilidad.tablero m) ->
  soloProbabilidades celdas m
    (MotorProbabilidad.identificarCasosConCerteza m celdas).
Proof.
  intros Hbf. unfold MotorProbabilidad.identificarCasosConCerteza.
  apply porCadaCelda_solo; [exact Hbf | auto |].
  intros m1 celda Hin Hc. cbv zeta.
  destruct (_ && _); [eapply actualizar_solo; eauto|].
  destruct (_ && _); [eapply actualizar_solo; eauto|].
  apply soloProbabilidades_refl.
Qed.

Lemma normalizarProbabilidades_solo celdas m :
  bienFormado (MotorProbabilidad.tablero m) ->
  soloProbabilidades celdas m
    (MotorProbabilidad.normalizarProbabilidades m celdas).
Proof.
  intros Hbf. unfold MotorProbabilidad.normalizarProbabilidades.
  destruct (MotorProbabilidad.requiereNormalizar _ _);
    [|apply soloProbabilidades_refl].
  cbv zeta. apply porCadaCelda_solo; [exact Hbf | auto |].
  intros m1 celda Hin Hc.
  destruct (JS.menor _ _); [|apply soloProbabilidades_refl].
  eapply actualizar_solo; eauto.
Qed.

Lemma ajustarCasosEspeciales_solo celdas m :
  bienFormado (MotorProbabilidad.tablero m) ->
  soloProbabilidades celdas m
    (MotorProbabilidad.ajustarCasosEspeciales m celdas).
Proof.
  intros Hbf. unfold MotorProbabilidad.ajustarCasosEspeciales.
  apply porCadaCelda_solo; [exact Hbf | auto |].
  intros m1 celda Hin Hc. cbv zeta.
  match goal with
  | |- context [if existsb ?f ?l
                then MotorProbabilidad.actualizar m1 ?p 0 1 ?o else m1] =>
      set (m2 := if existsb f l
                 then MotorProbabilidad.actualizar m1 p 0 1 o else m1)
  end.
  assert (H2 : soloProbabilidades celdas m1 m2).
  { unfold m2. destruct (existsb _ _); [|apply soloProbabilidades_refl].
    eapply actualizar_solo; eauto. }
  clearbody m2.
  destruct (Celda.esEsquina celda); [|exact H2].
  destruct (_ =? 1); [|exact H2].
  destruct (existsb _ _); [|exact H2].
  eapply soloProbabilidades_trans; [exact H2|].
  assert (Hc2 : exists celda2,
            MotorProbabilidad.celdaEn (MotorProbabilidad.tablero m2)
              (Celda.pos celda) = Some celda2).
  { destruct H2 as (Hm & _).
    destruct (mismaEstructura_celda _ _ (fst (Celda.pos celda))
                (snd (Celda.pos celda)) celda (mismaEstructura_sim _ _ Hm) Hc)
      as (c2 & Hc2 & _).
    exists c2. exact Hc2. }
  destruct Hc2 as (celda2 & Hc2).
  eapply actualizar_solo; eauto.
Qed.

Lemma calcularProbabilidadesFrontera_solo celdas m :
  bienFormado (MotorProbabilidad.tablero m) ->
  soloProbabilidades celdas m
    (MotorProbabilidad.calcularProbabilidadesFrontera m celdas).
Proof.
  intros Hbf. unfold MotorProbabilidad.calcularProbabilidadesFrontera.
  cbv zeta.
  match goal with
  | |- soloProbabilidades _ _
         (MotorProbabilidad.porCadaCelda ?sub2 ?m1 ?cuerpo2) =>
      assert (H1 : soloProbabilidades celdas m m1)
  end.
  { apply porCadaCelda_solo; [exact Hbf | |].
    - intros p Hp. apply filter_In in Hp. tauto.
    - intros m1 celda Hin Hc.
      destruct (fold_left _ _ _) as [influenciaTotal factorTotal].
      destruct (JS.mayor _ _); [|apply soloProbabilidades_refl].
      eapply actualizar_solo; eauto. }
  eapply soloProbabilidades_trans; [exact H1|].
  apply porCadaCelda_solo.
  - eapply soloProbabilidades_bienFormado; eauto.
  - intros p Hp. apply filter_In in Hp. tauto.
  - intros m1 celda Hin Hc.
    destruct (JS.menor _ _); [|apply soloProbabilidades_refl].
    eapply actualizar_solo; eauto.
Qed.

Lemma fold_solo {A} celdas
    (f : MotorProbabilidad.t -> A -> MotorProbabilidad.t) (l : list A) :
  (forall m1 x, In x l -> bienFormado (MotorProbabilidad.tablero m1) ->
     soloProbabilidades celdas m1 (f m1 x)) ->
  forall m, bienFormado (MotorProbabilidad.tablero m) ->
    soloProbabilidades celdas m (fold_left f l m).
Proof.
  induction l as [|x l IH]; intros Hf m Hbf; cbn [fold_left].
  - apply soloProbabilidades_refl.
  - assert (H1 : soloProbabilidades celdas m (f m x))
      by (apply Hf; [left; reflexivity | exact Hbf]).
    eapply soloProbabilidades_trans; [exact H1|].
    apply IH; [intros m1 y Hy; apply Hf; right; exact Hy|].
    eapply soloProbabilidades_bienFormado; eauto.
Qed.

Lemma agregarAlGrupo_celdas (celdas : list Pos) clave celda
    (grupos : list (list Pos * MotorProbabilidad.GrupoLocal)) :
  In (Celda.pos celda) celdas ->
  (forall kg, In kg grupos ->
     forall p, In p (MotorProbabilidad.gl_celdas (snd kg)) -> In p celdas) ->
  forall kg, In kg (MotorProbabilidad.agregarAlGrupo clave celda grupos) ->
    forall p, In p (MotorProbabilidad.gl_celdas (snd kg)) -> In p celdas.
Proof.
  intros Hc. induction grupos as [|[k gr] grupos IH]; intros Hg kg Hkg p Hp;
    cbn [MotorProbabilidad.agregarAlGrupo] in Hkg.
  - destruct Hkg as [<-|[]]. cbn in Hp. destruct Hp as [<-|[]]. exact Hc.
  - destruct (bool_decide (k = clave)).
    + destruct Hkg as [<-|Hkg].
      * cbn [snd MotorProbabilidad.gl_celdas] in Hp.
        apply in_app_or in Hp as [Hp|[<-|[]]]; [|exact Hc].
        apply (Hg (k, gr)); [left; reflexivity | exact Hp].
      * apply (Hg kg); [right; exact Hkg | exact Hp].
    + destruct Hkg as [<-|Hkg].
      * apply (Hg (k, gr)); [left; reflexivity | exact Hp].
      * apply (IH (fun kg' H' => Hg kg' (or_intror H')) kg Hkg p Hp).
Qed.

Lemma calcularProbabilidadesLocales_solo celdas m :
  bienFormado (MotorProbabilidad.tablero m) ->
  soloProbabilidades celdas m
    (MotorProbabilidad.calcularProbabilidadesLocales m celdas).
Proof.
  intros Hbf. unfold MotorProbabilidad.calcularProbabilidadesLocales.
  cbv zeta.
  match goal with
  | |- context [fold_left ?F celdas []] => set (agrupar := F)
  end.
  assert (Hg : forall sub grupos,
            (forall p, In p sub -> In p celdas) ->
            (forall kg, In kg grupos ->
               forall p, In p (MotorProbabilidad.gl_celdas (snd kg)) ->
                         In p celdas) ->
            forall kg, In kg (fold_left agrupar sub grupos) ->
              forall p, In p (MotorProbabilidad.gl_celdas (snd kg)) ->
                        In p celdas).
  { induction sub as [|q sub IH]; intros grupos Hsub Hgr; cbn [fold_left];
      [exact Hgr|].
    apply IH; [intros x Hx; apply Hsub; right; exact Hx|].
    unfold agrupar.
    destruct (MotorProbabilidad.celdaEn (MotorProbabilidad.tablero m) q)
      as [celda|] eqn:Hc; [|exact Hgr].
    destruct (0 <? _); [|exact Hgr].
    apply agregarAlGrupo_celdas; [|exact Hgr].
    assert (Hpos : Celda.pos celda = q).
    { destruct q as [f c]. unfold MotorProbabilidad.celdaEn in Hc.
      cbn [fst snd] in Hc.
      destruct (bienFormado_pos _ _ _ _ Hbf Hc) as [<- <-]. reflexivity. }
    rewrite Hpos. apply Hsub. left. reflexivity. }
  specialize (Hg celdas [] (fun p H => H) (fun kg H => match H with end)).
  apply fold_solo; [|exact Hbf].
  intros m1 [k gr] Hin Hbf1.
  destruct (_ && _); [|apply soloProbabilidades_refl].
  destruct (MotorProbabilidad.gl_restricciones gr) as [|r [|r' rs]];
    try apply soloProbabilidades_refl.
  apply porCadaCelda_solo; [exact Hbf1 | |].
  - intros p Hp. apply (Hg (k, gr) Hin p Hp).
  - intros m2 celda Hc Hcel. eapply actualizar_solo; eauto.
Qed.

Lemma aplicarProbabilidades_solo celdas grupo conf
    (l : list (nat * float)) : forall m,
  bienFormado (MotorProbabilidad.tablero m) ->
  (forall i x, In (i, x) l ->
     (i < length (MotorProbabilidad.g_celdas grupo))%nat) ->
  (forall p, In p (MotorProbabilidad.g_celdas grupo) ->
     In p celdas
     /\ Tablero.esPosicionValida (MotorProbabilidad.tablero m) (fst p) (snd p)
        = true) ->
  exists m',
    plegarR (fun m '(indice, prob) =>
               match MotorProbabilidad.g_celdas grupo !! indice with
               | Some p =>
                   mret (MotorProbabilidad.actualizar m p prob conf
                           "probabilidad")
               | None => LanzaTypeError
               end) l m = Devuelve m'
    /\ soloProbabilidades celdas m m'.
Proof.
  induction l as [|[i x] l IH]; intros m Hbf Hidx Hcel.
  - exists m. split; [reflexivity | apply soloProbabilidades_refl].
  - cbn [plegarR].
    destruct (lookup_lt_is_Some_2 (MotorProbabilidad.g_celdas grupo) i)
      as (p & Hp); [apply (Hidx i x); left; reflexivity|].
    rewrite Hp. cbn [mret resultado_ret mbind resultado_bind].
    assert (Hin : In p (MotorProbabilidad.g_celdas grupo)).
    { apply list_elem_of_In. eapply list_elem_of_lookup_2. exact Hp. }
    destruct (Hcel p Hin) as [Hpc Hv].
    destruct (Hbf _ _ Hv) as (celda & Hc & _).
    assert (H1 : soloProbabilidades celdas m
              (MotorProbabilidad.actualizar m p x conf "probabilidad"))
      by (eapply actualizar_solo; eauto).
    destruct (IH (MotorProbabilidad.actualizar m p x conf "probabilidad"))
      as (m' & Hrun & H2).
    + eapply soloProbabilidades_bienFormado; eauto.
    + intros j y Hj. apply (Hidx j y). right. exact Hj.
    + intros q Hq. destruct (Hcel q Hq) as [Hqc Hqv]. split; [exact Hqc|].
      exact Hqv.
    + exists m'. split; [exact Hrun|].
      eapply soloProbabilidades_trans; eauto.
Qed.

Lemma enumerar_indices {A} (l : list A) i x :
  In (i, x) (enumerar l) -> (i < length l)%nat.
Proof.
  unfold enumerar. intros H. apply in_combine_l in H.
  apply in_seq in H. lia.
Qed.

Lemma generarCombinaciones_solo celdas azar m n :
  soloProbabilidades celdas m
    (fst (MotorProbabilidad.generarCombinaciones azar m n)).
Proof.
  unfold MotorProbabilidad.generarCombinaciones,
    MotorProbabilidad.generarCombinacionesMuestreo.
  destruct (10 <? n)%nat; cbn [fst];
    (split; [apply mismaEstructura_refl | repeat split; reflexivity]).
Qed.

Lemma enumeracion_solo celdas azar m grupo :
  soloProbabilidades celdas m
    (fst (MotorProbabilidad.calcularProbabilidadesPorEnumeracion azar m grupo))
  /\ forall probs,
       snd (MotorProbabilidad.calcularProbabilidadesPorEnumeracion azar m grupo)
       = Some probs ->
       length probs = length (MotorProbabilidad.g_celdas grupo).
Proof.
  unfold MotorProbabilidad.calcularProbabilidadesPorEnumeracion. cbv zeta.
  destruct (12 <? _)%nat;
    [split; [apply soloProbabilidades_refl | discriminate]|].
  pose proof (generarCombinaciones_solo celdas azar m
                (length (MotorProbabilidad.g_celdas grupo))) as Hs.
  destruct (MotorProbabilidad.generarCombinaciones azar m _)
    as [m1 combinaciones].
  cbn [fst] in Hs.
  destruct (0 <? _); cbn [fst snd]; (split; [exact Hs|]);
    [|discriminate].
  intros probs [= <-]. rewrite length_map. unfold desdeHasta.
  rewrite length_seq. lia.
Qed.

Lemma pliegue_de_inserciones {A} (n : nat) (paso : list float -> A -> list float)
    (l : list A) (inicial : list float) :
  (forall s x, length s = n -> length (paso s x) = n) ->
  length inicial = n -> length (fold_left paso l inicial) = n.
Proof.
  intros Hp Hi.
  apply (fold_left_invariante (fun s => length s = n)); [exact Hi|].
  intros s x _ Hs. apply Hp, Hs.
Qed.

Lemma resolverSistemaLineal_largo (A : Matriz) (b : list float) :
  length (MotorProbabilidad.resolverSistemaLineal A b) = length A.
Proof.
  unfold MotorProbabilidad.resolverSistemaLineal. cbv zeta.
  apply pliegue_de_inserciones; [|apply length_replicate].
  intros s i Hs. apply pliegue_de_inserciones.
  - intros s' j Hs'. rewrite length_insert. exact Hs'.
  - rewrite length_insert. exact Hs.
Qed.

Lemma modeloLineal_largo m grupo probs :
  MotorProbabilidad.calcularProbabilidadesPorModeloLineal m grupo = Some probs ->
  length probs = length (MotorProbabilidad.g_celdas grupo).
Proof.
  unfold MotorProbabilidad.calcularProbabilidadesPorModeloLineal. cbv zeta.
  destruct (MotorProbabilidad.g_restricciones grupo) as [|[origen valor] rs];
    cbn [map]; [discriminate|].
  intros [= <-]. rewrite length_map.
  unfold MotorProbabilidad.resolverMinimosCuadrados. cbv zeta.
  rewrite resolverSistemaLineal_largo, length_map.
  unfold desdeHasta. rewrite length_seq, Nat.sub_0_r.
  cbn [lookup list_lookup default from_option id fst].
  apply pliegue_de_inserciones; [|apply length_replicate].
  intros s x Hs. destruct (_ !! Celda.pos x); [|exact Hs].
  rewrite length_insert. exact Hs.
Qed.

Lemma procesarGrupo_solo celdas azar m grupo :
  bienFormado (MotorProbabilidad.tablero m) ->
  (forall p, In p (MotorProbabilidad.g_celdas grupo) ->
     In p celdas
     /\ Tablero.esPosicionValida (MotorProbabilidad.tablero m) (fst p) (snd p)
        = true) ->
  exists m',
    MotorProbabilidad.procesarGrupo azar m grupo = Devuelve m'
    /\ soloProbabilidades celdas m m'.
Proof.
  intros Hbf Hcel. unfold MotorProbabilidad.procesarGrupo.
  destruct (_ <=? 12).
  - destruct (enumeracion_solo celdas azar m grupo) as [Hs Hl].
    destruct (MotorProbabilidad.calcularProbabilidadesPorEnumeracion
                azar m grupo) as [m1 [probs|]]; cbn [fst snd] in Hs, Hl.
    + unfold MotorProbabilidad.aplicarProbabilidades.
      destruct (aplicarProbabilidades_solo celdas grupo 0.8%float
                  (enumerar probs) m1) as (m' & Hrun & H2).
      * eapply soloProbabilidades_bienFormado; eauto.
      * intros i x Hi. apply enumerar_indices in Hi.
        rewrite (Hl probs eq_refl) in Hi. exact Hi.
      * intros p Hp. destruct (Hcel p Hp) as [Hpc Hv]. split; [exact Hpc|].
        destruct Hs as ((Hf & Hc & _) & _).
        unfold Tablero.esPosicionValida in *. rewrite Hf, Hc. exact Hv.
      * exists m'. split; [exact Hrun|].
        eapply soloProbabilidades_trans; eauto.
    + exists m1. split; [reflexivity | exact Hs].
  - destruct (MotorProbabilidad.calcularProbabilidadesPorModeloLineal m grupo)
      as [probs|] eqn:Hml.
    + unfold MotorProbabilidad.aplicarProbabilidades.
      apply aplicarProbabilidades_solo; [exact Hbf | | exact Hcel].
      intros i x Hi. apply enumerar_indices in Hi.
      rewrite (modeloLineal_largo _ _ _ Hml) in Hi. exact Hi.
    + exists m. split; [reflexivity | apply soloProbabilidades_refl].
Qed.

Lemma grupos_conexos_total (tb : Tablero.t) (celdas : list Pos) :
  bienFormado tb -> restriccionesJustas tb ->
  (forall p, In p celdas ->
     Tablero.esPosicionValida tb (fst p) (snd p) = true) ->
  exists grupos agrupadas,
    MotorProbabilidad.obtenerGruposConectados tb celdas = Devuelve grupos
    /\ invarianteGrupos tb celdas celdas (grupos, agrupadas).
Proof.
  intros Hbf Hj Hval.
  apply obtenerGruposConectados_spec.
  - intros [f c] Hp. destruct (Hbf f c (Hval _ Hp)) as (celda & Hc & <- & <-).
    exists celda. split; [exact Hc | reflexivity].
  - intros [f c] celda _ Hc.
    apply (restricciones_de_adyacentes tb f c celda Hbf Hj Hc).
  - intros [f c] celda o _ Hc Ho.
    apply in_map_iff in Ho as (r & <- & Hr).
    destruct (Hj f c celda Hc) as [_ Hjs].
    destruct (Hjs r Hr) as (co & valor & Hco & _ & Hv & _).
    exists co, valor. split; [exact Hco | exact Hv].
Qed.

Lemma plegar_grupos celdas azar (grupos : list MotorProbabilidad.Grupo) :
  forall m,
    bienFormado (MotorProbabilidad.tablero m) ->
    (forall grupo p, In grupo grupos ->
       In p (MotorProbabilidad.g_celdas grupo) ->
       In p celdas
       /\ Tablero.esPosicionValida (MotorProbabilidad.tablero m)
            (fst p) (snd p) = true) ->
    exists m',
      plegarR (MotorProbabilidad.procesarGrupo azar) grupos m = Devuelve m'
      /\ soloProbabilidades celdas m m'.
Proof.
  induction grupos as [|grupo grupos IH]; intros m Hbf Hcel.
  - exists m. split; [reflexivity | apply soloProbabilidades_refl].
  - cbn [plegarR].
    destruct (procesarGrupo_solo celdas azar m grupo Hbf) as (m1 & Hrun & H1).
    { intros p Hp. apply (Hcel grupo p); [left; reflexivity | exact Hp]. }
    rewrite Hrun. cbn [mbind resultado_bind].
    destruct (IH m1) as (m' & Hrun' & H2).
    + eapply soloProbabilidades_bienFormado; eauto.
    + intros g p Hg Hp. destruct (Hcel g p (or_intror Hg) Hp) as [Hpc Hv].
      split; [exact Hpc|]. destruct H1 as ((Hf & Hc & _) & _).
      unfold Tablero.esPosicionValida in *. rewrite Hf, Hc. exact Hv.
    + exists m'. split; [exact Hrun'|].
      eapply soloProbabilidades_trans; eauto.
Qed.

Lemma calcularProbabilidadesGlobales_solo celdas azar m :
  bienFormado (MotorProbabilidad.tablero m) ->
  restriccionesJustas (MotorProbabilidad.tablero m) ->
  (forall p, In p celdas ->
     Tablero.esPosicionValida (MotorProbabilidad.tablero m) (fst p) (snd p)
     = true) ->
  exists m',
    MotorProbabilidad.calcularProbabilidadesGlobales azar m celdas
    = Devuelve m'
    /\ soloProbabilidades celdas m m'.
Proof.
  intros Hbf Hj Hval. unfold MotorProbabilidad.calcularProbabilidadesGlobales.
  destruct (grupos_conexos_total _ celdas Hbf Hj Hval)
    as (grupos & A & Hrun & _ & _ & Hg & _).
  rewrite Hrun. cbn [mbind resultado_bind]. cbn [fst] in Hg.
  destruct (plegar_grupos celdas azar grupos m Hbf) as (m1 & Hrun1 & H1).
  { intros grupo p Hin Hp.
    destruct (Hg grupo Hin)
      as (_ & (ini & cini & Hini & Hcini & Hres & Hcon) & _).
    apply Hcon in Hp.
    destruct (conectadas_con_restricciones _ _ _ _ _ Hini Hcini Hres Hp)
      as [Hpc _].
    split; [exact Hpc | apply Hval, Hpc]. }
  rewrite Hrun1. cbn [mbind resultado_bind mret resultado_ret].
  eexists. split; [reflexivity|].
  eapply soloProbabilidades_trans; [exact H1|].
  apply porCadaCelda_solo.
  - eapply soloProbabilidades_bienFormado; eauto.
  - auto.
  - intros m2 celda Hin Hc.
    destruct (_ =? 0); [|apply soloProbabilidades_refl].
    eapply actualizar_solo; eauto.
Qed.

Lemma integro_actualizarRestricciones tb :
  integro tb -> integro (Tablero.actualizarRestricciones tb).
Proof.
  intros (Hbf & Hcont & Hres).
  split; [apply actualizarRestricciones_bienFormado, Hbf|]. split.
  - destruct (contadores_actualizarRestricciones tb) as [Hd Hb].
    eapply contadores_mismaForma;
      [apply actualizarRestricciones_forma | exact Hd | exact Hb
      | exact Hcont].
  - intros _. split.
    + apply actualizarRestricciones_completas. split; [exact Hbf|].
      intros Ht. apply Hres, Ht.
    + apply actualizarRestricciones_justas; [exact Hbf|].
      intros Ht. apply Hres, Ht.
Qed.

Lemma actualizarRestricciones_indicador tb :
  Tablero.restriccionesActualizadas (Tablero.actualizarRestricciones tb)
  = true.
Proof.
  unfold Tablero.actualizarRestricciones.
  destruct (Tablero.restriccionesActualizadas tb) eqn:E; [exact E|].
  reflexivity.
Qed.

Lemma sinRevelar_validas tb p :
  bienFormado tb ->
  In p (map Celda.pos (Tablero.obtenerCeldasSinRevolar tb)) ->
  exists celda,
    Tablero.obtenerCelda tb (fst p) (snd p) = Some celda
    /\ Celda.descubierta celda = false.
Proof.
  intros Hbf Hp. apply in_map_iff in Hp as (celda & <- & Hc).
  unfold Tablero.obtenerCeldasSinRevolar in Hc.
  apply filter_In in Hc as [Hc Hd]. apply negb_true_iff in Hd.
  apply todas_es_celda in Hc as (f & c & Hc).
  destruct (bienFormado_pos _ _ _ _ Hbf Hc) as [Hf Hco].
  exists celda. unfold Celda.pos. cbn [fst snd]. rewrite Hf, Hco. auto.
Qed.

(** X18: sobre un tablero íntegro, la pasada [calcularProbabilidades]
    siempre devuelve (no lanza y sus bucles terminan), y devuelve las
    posiciones de las celdas sin revelar. Aparte de actualizar las
    restricciones, la pasada solo anota probabilidades, y solo en celdas
    sin revelar: el tablero conserva su estructura y sigue íntegro con el
    indicador de restricciones puesto, y las celdas reveladas quedan
    exactamente como [actualizarRestricciones] las deja. El registro de
    cálculos gana la entrada de la pasada, con su hora y el número de
    celdas analizadas, y nunca pasa de 20 entradas (ni de las que ya
    tuviera). *)
Theorem X18_pasada_del_motor (azar : nat -> float) (ahora : Z)
    (m : MotorProbabilidad.t) (gestorMemoria : option GestorMemoria.t) :
  integro (MotorProbabilidad.tablero m) ->
  let tb0 := Tablero.actualizarRestricciones (MotorProbabilidad.tablero m) in
  let celdas := map Celda.pos (Tablero.obtenerCeldasSinRevolar tb0) in
  exists m',
    MotorProbabilidad.calcularProbabilidades azar ahora m gestorMemoria
    = Devuelve (m', celdas)
    /\ mismaEstructura (MotorProbabilidad.tablero m') tb0
    /\ (forall fila columna celda,
          Tablero.obtenerCelda tb0 fila columna = Some celda ->
          Celda.descubierta celda = true ->
          Tablero.obtenerCelda (MotorProbabilidad.tablero m') fila columna
          = Some celda)
    /\ integro (MotorProbabilidad.tablero m')
    /\ Tablero.restriccionesActualizadas (MotorProbabilidad.tablero m') = true
    /\ (length (MotorProbabilidad.registroCalculos m')
        <= Nat.max 20 (length (MotorProbabilidad.registroCalculos m)))%nat
    /\ exists registro,
         last (MotorProbabilidad.registroCalculos m') = Some registro
         /\ MotorProbabilidad.timestamp registro = ahora
         /\ MotorProbabilidad.celdasAnalizadas registro = largo celdas.
Proof.
  intros Hint tb0 celdas.
  pose proof (integro_actualizarRestricciones _ Hint) as Hint0.
  fold tb0 in Hint0. destruct Hint0 as (Hbf0 & Hcont0 & Hres0).
  pose proof (actualizarRestricciones_indicador (MotorProbabilidad.tablero m))
    as Hflag0. fold tb0 in Hflag0.
  destruct (Hres0 Hflag0) as [Hcomp0 Hjus0].
  unfold MotorProbabilidad.calcularProbabilidades. cbv zeta.
  fold tb0. fold celdas.
  set (m0 := {| MotorProbabilidad.tablero := tb0;
                MotorProbabilidad.registroCalculos :=
                  MotorProbabilidad.registroCalculos m;
                MotorProbabilidad.casosAnalizados := 0;
                MotorProbabilidad.usosAzar := MotorProbabilidad.usosAzar m |}).
  change (Tablero.obtenerCeldasSinRevolar (MotorProbabilidad.tablero m0))
    with (Tablero.obtenerCeldasSinRevolar tb0).
  fold celdas.
  assert (Hbfm0 : bienFormado (MotorProbabilidad.tablero m0)) by exact Hbf0.
  assert (Hval0 : forall p, In p celdas ->
            Tablero.esPosicionValida tb0 (fst p) (snd p) = true).
  { intros p Hp. destruct (sinRevelar_validas tb0 p Hbf0 Hp) as (c & Hc & _).
    eapply obtenerCelda_valida, Hc. }
  set (m1 := MotorProbabilidad.inicializarProbabilidadesBase m0 celdas).
  assert (H1 : soloProbabilidades celdas m0 m1)
    by (apply inicializarProbabilidadesBase_solo, Hbfm0).
  set (m2 := MotorProbabilidad.calcularProbabilidadesLocales m1 celdas).
  assert (H2 : soloProbabilidades celdas m0 m2).
  { eapply soloProbabilidades_trans; [exact H1|].
    apply calcularProbabilidadesLocales_solo.
    eapply soloProbabilidades_bienFormado; eauto. }
  destruct (calcularProbabilidadesGlobales_solo celdas azar m2)
    as (m3 & Hrun3 & H3').
  { eapply soloProbabilidades_bienFormado; eauto. }
  { eapply restriccionesJustas_mismaEstructura; [|exact Hjus0].
    apply mismaEstructura_sim. apply H2. }
  { intros p Hp. destruct H2 as ((Hf & Hc & _) & _).
    unfold Tablero.esPosicionValida in *. rewrite Hf, Hc.
    apply Hval0, Hp. }
  rewrite Hrun3. cbn [mbind resultado_bind mret resultado_ret].
  assert (H3 : soloProbabilidades celdas m0 m3)
    by (eapply soloProbabilidades_trans; eauto).
  set (m4 := MotorProbabilidad.calcularProbabilidadesFrontera m3 celdas).
  assert (H4 : soloProbabilidades celdas m0 m4).
  { eapply soloProbabilidades_trans; [exact H3|].
    apply calcularProbabilidadesFrontera_solo.
    eapply soloProbabilidades_bienFormado; eauto. }
  set (m5 := match gestorMemoria with
             | Some gm =>
                 MotorProbabilidad.integrarMemoriaHistorica m4 celdas gm
             | None => m4
             end).
  assert (H5 : soloProbabilidades celdas m0 m5).
  { unfold m5. destruct gestorMemoria as [gm|]; [|exact H4].
    eapply soloProbabilidades_trans; [exact H4|].
    apply integrarMemoriaHistorica_solo.
    eapply soloProbabilidades_bienFormado; eauto. }
  set (m6 := MotorProbabilidad.ajustarProbabilidadesFinales m5 celdas).
  assert (H6 : soloProbabilidades celdas m0 m6).
  { unfold m6, MotorProbabilidad.ajustarProbabilidadesFinales.
    assert (Ha : soloProbabilidades celdas m0
              (MotorProbabilidad.identificarCasosConCerteza m5 celdas)).
    { eapply soloProbabilidades_trans; [exact H5|].
      apply identificarCasosConCerteza_solo.
      eapply soloProbabilidades_bienFormado; eauto. }
    assert (Hb : soloProbabilidades celdas m0
              (MotorProbabilidad.normalizarProbabilidades
                 (MotorProbabilidad.identificarCasosConCerteza m5 celdas)
                 celdas)).
    { eapply soloProbabilidades_trans; [exact Ha|].
      apply normalizarProbabilidades_solo.
      eapply soloProbabilidades_bienFormado; eauto. }
    eapply soloProbabilidades_trans; [exact Hb|].
    apply ajustarCasosEspeciales_solo.
    eapply soloProbabilidades_bienFormado; eauto. }
  clearbody m6. clear m1 H1 m2 H2 Hrun3 H3' H3 m4 H4 m5 H5.
  destruct H6 as (Hm & Hfr & Hreg & Hcd & Hcb & Hfl).
  cbn [m0 MotorProbabilidad.tablero MotorProbabilidad.registroCalculos]
    in Hm, Hfr, Hreg, Hcd, Hcb, Hfl.
  eexists. split; [reflexivity|].
  cbn [MotorProbabilidad.tablero MotorProbabilidad.registroCalculos].
  split; [exact Hm|]. split.
  { intros fila columna celda Hc Hd. rewrite Hfr; [exact Hc|].
    intros Hin. destruct (sinRevelar_validas tb0 _ Hbf0 Hin) as (c & Hc' & Hd').
    cbn [fst snd] in Hc'. congruence. }
  split.
  { split.
    { eapply bienFormado_mismaForma; [|exact Hbf0].
      apply mismaForma_sim, mismaForma_de_estructura, Hm. }
    split.
    { eapply contadores_mismaForma;
        [apply mismaForma_de_estructura, Hm | exact Hcd | exact Hcb
        | exact Hcont0]. }
    intros _. split.
    - eapply restriccionesCompletas_mismaEstructura;
        [apply mismaEstructura_sim, Hm | exact Hcomp0].
    - eapply restriccionesJustas_mismaEstructura;
        [apply mismaEstructura_sim, Hm | exact Hjus0]. }
  split; [congruence|].
  rewrite Hreg.
  set (r := MotorProbabilidad.registroCalculos m).
  set (x := {| MotorProbabilidad.timestamp := ahora;
               MotorProbabilidad.celdasAnalizadas := largo celdas;
               MotorProbabilidad.r_casosAnalizados := _;
               MotorProbabilidad.estadoTablero := _ |}).
  split.
  { destruct (20 <? length (r ++ [x]))%nat eqn:E.
    - destruct r as [|y r']; cbn [app tail length] in *.
      + lia.
      + rewrite length_app in *. cbn [length] in *. lia.
    - apply Nat.ltb_ge in E. lia. }
  exists x. split; [|split; reflexivity].
  destruct (20 <? length (r ++ [x]))%nat eqn:E.
  - destruct r as [|y r']; cbn [app tail length] in *.
    + discriminate.
    + apply last_snoc.
  - apply last_snoc.
Qed.

Lemma X18_pasada_del_motor_testigo :
  exists m' celdas,
    MotorProbabilidad.calcularProbabilidades (fun _ => 0%float) 0
      (MotorProbabilidad.constructor tablero_E9) None
    = Devuelve (m', celdas)
    /\ integro (MotorProbabilidad.tablero m').
Proof.
  assert (Hint : integro (MotorProbabilidad.tablero
                            (MotorProbabilidad.constructor tablero_E9))).
  { apply integro_alcanzable.
    apply (alcanzable_mutar _ (Abanderar 0 0 true)).
    apply (alcanzable_mutar _ (Revelar 1 1 (Celda.Numero 1))).
    apply alcanzable_nuevo. }
  destruct (X18_pasada_del_motor (fun _ => 0%float) 0
              (MotorProbabilidad.constructor tablero_E9) None Hint)
    as (m' & Hrun & _ & _ & Hi & _).
  exists m'. eexists. split; [exact Hrun | exact Hi].
Defined.

(** ** Toda bandera del lote pasó [esSeguroColocarBandera] *)

Lemma marcas_marcarSiEsSeguro tb g celda fuente o :
  invarianteMarcas tb g -> tomadaDe tb celda ->
  invarianteMarcas tb (GestorBanderas.marcarSiEsSeguro g celda fuente o).
Proof.
  intros [Hm Hb] Ht. unfold GestorBanderas.marcarSiEsSeguro.
  destruct (GestorBanderas.esSeguroColocarBandera g celda) eqn:Hs;
    [|split; assumption].
  split; cbn.
  - eapply mismaEstructura_trans; [|exact Hm].
    apply mismaEstructura_modificar. intros c.
    apply estructura_actualizarProbabilidades.
  - apply Forall_app. split; [exact Hb|].
    constructor; [|constructor].
    exists g, celda. cbn. auto.
Qed.

Lemma marcas_declararSeguras tb g celdas :
  invarianteMarcas tb g -> invarianteMarcas tb (GestorBanderas.declararSeguras g celdas).
Proof.
  intros Hi. unfold GestorBanderas.declararSeguras.
  apply fold_left_invariante; [exact Hi|].
  intros s x _ [Hm Hb]. destruct (_ && _); [|split; assumption].
  split; cbn; [|exact Hb].
  eapply mismaEstructura_trans; [|exact Hm].
  apply mismaEstructura_modificar. intros c.
  apply estructura_actualizarProbabilidades.
Qed.

Lemma tomadaDe_adyacentes_marcas tb g fila columna :
  bienFormado tb -> invarianteMarcas tb g ->
  Forall (tomadaDe tb)
         (Tablero.obtenerCeldasAdyacentes (GestorBanderas.tablero g)
                                          fila columna).
Proof.
  intros Hbf [Hm _]. apply Forall_forall. intros c Hc.
  apply list_elem_of_In in Hc.
  eapply adyacente_tomadaDe; eauto.
Qed.

Lemma marcas_basicas tb g :
  bienFormado tb -> invarianteMarcas tb g ->
  invarianteMarcas tb (GestorBanderas.analizarRestriccionesBasicas g).
Proof.
  intros Hbf Hi. unfold GestorBanderas.analizarRestriccionesBasicas.
  apply fold_left_invariante; [exact Hi|].
  intros s celdaNumerica _ Hs. cbv zeta.
  destruct (_ && _); [|exact Hs].
  apply fold_left_invariante; [exact Hs|].
  intros s' celda Hc Hs'. apply marcas_marcarSiEsSeguro; [exact Hs'|].
  eapply Forall_In; [|exact Hc].
  apply Forall_filtro, tomadaDe_adyacentes_marcas; assumption.
Qed.

Lemma marcas_aplicarAnalisisSubconjunto tb g a b adyA adyB :
  invarianteMarcas tb g -> Forall (tomadaDe tb) adyB ->
  invarianteMarcas tb (GestorBanderas.aplicarAnalisisSubconjunto g a b adyA adyB).
Proof.
  intros Hi HB. unfold GestorBanderas.aplicarAnalisisSubconjunto. cbv zeta.
  destruct (_ && _); [|exact Hi].
  apply fold_left_invariante; [exact Hi|].
  intros s celda Hc Hs. destruct (_ && _); [|exact Hs].
  apply marcas_marcarSiEsSeguro; [exact Hs|].
  eapply Forall_In; [|exact Hc]. apply Forall_filtro, HB.
Qed.

Ltac caso_marcas :=
  match goal with
  | |- invarianteMarcas _ (if ?c then _ else _) => destruct c
  end.

Lemma marcas_analizarInterseccionParcial tb g a b adyA adyB :
  invarianteMarcas tb g -> Forall (tomadaDe tb) adyA ->
  invarianteMarcas tb (GestorBanderas.analizarInterseccionParcial g a b adyA adyB).
Proof.
  intros Hi HA. unfold GestorBanderas.analizarInterseccionParcial. cbv zeta.
  caso_marcas; [|exact Hi].
  match goal with
  | |- invarianteMarcas _ (if _ then fold_left _ _ ?g2 else _) =>
      assert (H2 : invarianteMarcas tb g2)
  end.
  { caso_marcas; [apply marcas_declararSeguras|];
      (caso_marcas; [apply marcas_declararSeguras|]; exact Hi). }
  caso_marcas; [|exact H2].
  apply fold_left_invariante; [exact H2|].
  intros s celda Hc Hs. caso_marcas; [|exact Hs].
  apply marcas_marcarSiEsSeguro; [exact Hs|].
  eapply Forall_In; [|exact Hc]. apply Forall_filtro, HA.
Qed.

Lemma marcas_subconjuntos tb g :
  bienFormado tb -> invarianteMarcas tb g ->
  invarianteMarcas tb (GestorBanderas.analizarSubconjuntos g).
Proof.
  intros Hbf Hi. unfold GestorBanderas.analizarSubconjuntos.
  apply fold_left_invariante; [exact Hi|].
  intros s [i celdaA] _ Hs.
  apply fold_left_invariante; [exact Hs|].
  intros s' [j celdaB] _ Hs'.
  destruct (Nat.eqb i j); [exact Hs'|]. cbv zeta.
  apply marcas_analizarInterseccionParcial.
  - repeat match goal with
           | |- invarianteMarcas _ (if ?c then _ else _) => destruct c
           end;
      try exact Hs';
      apply marcas_aplicarAnalisisSubconjunto; try exact Hs';
      apply Forall_filtro, tomadaDe_adyacentes_marcas; assumption.
  - apply Forall_filtro, tomadaDe_adyacentes_marcas; assumption.
Qed.

Lemma marcas_patron121 tb g :
  bienFormado tb -> invarianteMarcas tb g ->
  invarianteMarcas tb (GestorBanderas.buscarPatron121 g).
Proof.
  intros Hbf Hi. unfold GestorBanderas.buscarPatron121. cbv zeta.
  apply fold_left_invariante; [exact Hi|].
  intros s [fila columna] _ Hs.
  apply fold_left_invariante; [exact Hs|].
  intros s' [dx dy] _ Hs'.
  destruct (_ && _); [|exact Hs'].
  destruct (Tablero.obtenerCelda _ fila columna) as [celda1|]; [|exact Hs'].
  destruct (Tablero.obtenerCelda _ (fila + dy) (columna + dx)) as [celda2|];
    [|exact Hs'].
  destruct (Tablero.obtenerCelda _ (fila + 2 * dy) (columna + 2 * dx))
    as [celda3|]; [|exact Hs'].
  destruct (_ && _ && _ && _ && _ && _); [|exact Hs'].
  destruct (_ =? 2); [|exact Hs'].
  apply fold_left_invariante; [exact Hs'|].
  intros s'' celda Hc Hs''. destruct (negb _); [|exact Hs''].
  apply marcas_marcarSiEsSeguro; [exact Hs''|].
  eapply Forall_In; [|exact Hc].
  apply Forall_filtro, tomadaDe_adyacentes_marcas; assumption.
Qed.

Lemma marcas_patron11Esquina tb g :
  bienFormado tb -> invarianteMarcas tb g ->
  invarianteMarcas tb (GestorBanderas.buscarPatron11Esquina g).
Proof.
  intros Hbf Hi. unfold GestorBanderas.buscarPatron11Esquina. cbv zeta.
  apply fold_left_invariante; [exact Hi|].
  intros s [fila columna] _ Hs.
  apply fold_left_invariante; [exact Hs|].
  intros s' [[[dx1 dy1] dx2] dy2] _ Hs'.
  destruct (_ && _ && _ && _ && _ && _ && _ && _); [|exact Hs'].
  destruct (Tablero.obtenerCelda _ fila columna) as [celdaCentral|] eqn:Hcc;
    [|exact Hs'].
  destruct (Tablero.obtenerCelda _ (fila + dy1) (columna + dx1)) as [celda1|];
    [|exact Hs'].
  destruct (Tablero.obtenerCelda _ (fila + dy2) (columna + dx2)) as [celda2|];
    [|exact Hs'].
  destruct (_ && _ && _ && _ && _ && _); [|exact Hs'].
  destruct (GestorBanderas.sinRevelarSinBandera _) as [|a1 [|? ?]];
    try exact Hs'.
  destruct (GestorBanderas.sinRevelarSinBandera _) as [|a2 [|? ?]];
    try exact Hs'.
  destruct (_ && _); [|exact Hs'].
  apply marcas_marcarSiEsSeguro; [exact Hs'|].
  eapply celda_tomadaDe; [apply Hs' | exact Hbf | exact Hcc].
Qed.

Lemma marcas_patronBorde tb g :
  bienFormado tb -> invarianteMarcas tb g ->
  invarianteMarcas tb (GestorBanderas.buscarPatronBorde g).
Proof.
  intros Hbf Hi. unfold GestorBanderas.buscarPatronBorde.
  apply fold_left_invariante; [exact Hi|].
  intros s [fila columna] _ Hs.
  destruct (Tablero.obtenerCelda _ fila columna) as [celda|]; [|exact Hs].
  destruct (_ && _ && _); [|exact Hs].
  destruct (GestorBanderas.sinRevelarSinBandera _) as [|celdaMina [|? ?]] eqn:E;
    try exact Hs.
  apply marcas_marcarSiEsSeguro; [exact Hs|].
  eapply Forall_In with (l := [celdaMina]); [|left; reflexivity].
  rewrite <- E. apply Forall_filtro, tomadaDe_adyacentes_marcas; assumption.
Qed.

Lemma marcas_patrones tb g :
  bienFormado tb -> invarianteMarcas tb g ->
  invarianteMarcas tb (GestorBanderas.analizarPatrones g).
Proof.
  intros Hbf Hi. unfold GestorBanderas.analizarPatrones.
  apply marcas_patronBorde, marcas_patron11Esquina,
    marcas_patron121; assumption.
Qed.

Lemma agrupar_tomadas_marcas tb g grupos :
  bienFormado tb -> invarianteMarcas tb g ->
  GestorBanderas.agruparRestriccionesPorCeldasComunes g = Devuelve grupos ->
  Forall (fun grupo => Forall (tomadaDe tb) (GestorBanderas.g_celdas grupo))
         grupos.
Proof.
  intros Hbf [Hm _]. unfold GestorBanderas.agruparRestriccionesPorCeldasComunes.
  cbv zeta.
  destruct (plegarR _ _ _) as [r| |] eqn:Hp; cbn; try discriminate.
  intros [= <-].
  eapply (plegarR_invariante
            (fun r : list GestorBanderas.Grupo * gset Pos =>
               Forall (fun grupo =>
                         Forall (tomadaDe tb) (GestorBanderas.g_celdas grupo))
                      (fst r))); [| |exact Hp].
  - constructor.
  - intros [grupos procesadas] celdaNumerica [grupos' procesadas'] _ Hs.
    cbn [fst] in *. destruct (bool_decide _).
    + intros [= <- <-]. exact Hs.
    + unfold GestorBanderas.obtenerGrupoConectado.
      destruct (GestorBanderas.bucleGrupo _ _ _ _) as [e| |] eqn:Hb;
        cbn; try discriminate.
      assert (Ht : Forall (tomadaDe tb)
                     (GestorBanderas.g_celdas (GestorBanderas.grupo e))).
      { eapply bucleGrupo_tomadas; [exact Hm | exact Hbf | | exact Hb].
        constructor. }
      destruct (2 <=? _); intros [= <- <-]; [|exact Hs].
      apply Forall_app. split; [exact Hs|]. constructor; [exact Ht|constructor].
Qed.

Lemma marcas_sistemas tb g g' :
  bienFormado tb -> invarianteMarcas tb g ->
  GestorBanderas.analizarSistemasEcuaciones g = Devuelve g' ->
  invarianteMarcas tb g'.
Proof.
  intros Hbf Hi. unfold GestorBanderas.analizarSistemasEcuaciones.
  destruct (GestorBanderas.agruparRestriccionesPorCeldasComunes g)
    as [grupos| |] eqn:Hg; cbn; try discriminate.
  pose proof (agrupar_tomadas_marcas tb g grupos Hbf Hi Hg) as Ht.
  apply plegarR_invariante; [exact Hi|].
  intros s grupo s' Hin Hs.
  destruct (2 <=? _); [|intros [= <-]; exact Hs].
  destruct (GestorBanderas.resolverSistemaEcuaciones s grupo)
    as [[soluciones celdas]|] eqn:Hr; [|intros [= <-]; exact Hs].
  apply resolverSistemaEcuaciones_celdas in Hr. subst celdas.
  apply plegarR_invariante; [exact Hs|].
  intros s1 [i valor] s2 _ Hs1. cbv beta iota.
  match goal with
  | |- (if ?c then _ else _) = _ -> _ =>
      destruct c; [|intros [= <-]; exact Hs1]
  end.
  destruct (GestorBanderas.g_celdas grupo !! i) as [celda|] eqn:Hc;
    [|discriminate].
  destruct (_ && _); intros [= <-]; [|exact Hs1].
  apply marcas_marcarSiEsSeguro; [exact Hs1|].
  pose proof (Forall_In _ _ _ Ht Hin) as Hgr. cbv beta in Hgr.
  eapply Forall_In; [exact Hgr|].
  apply list_elem_of_In. eapply list_elem_of_lookup_2. exact Hc.
Qed.

Lemma validar_sublista g g' :
  GestorBanderas.validarConsistenciaGlobal g = Devuelve g' ->
  incl (GestorBanderas.banderasColocadas g')
       (GestorBanderas.banderasColocadas g).
Proof.
  unfold GestorBanderas.validarConsistenciaGlobal.
  apply (plegarR_invariante
           (fun s => incl (GestorBanderas.banderasColocadas s)
                          (GestorBanderas.banderasColocadas g))).
  - intros x [].
  - intros s b' s' Hin Hincl. unfold mbind, resultado_bind.
    destruct (GestorBanderas.esConsistenteGlobal s b') as [[|]| |];
      try discriminate; intros [= <-]; [|exact Hincl].
    cbn [GestorBanderas.conBanderas GestorBanderas.banderasColocadas].
    apply incl_app; [exact Hincl|]. intros x [<-|[]]. exact Hin.
Qed.

Lemma colocar_marcas g g' lote :
  coherente (GestorBanderas.tablero g) ->
  GestorBanderas.colocarBanderasSeguras g = Devuelve (g', lote) ->
  Forall (marcadaConSeguridad
            (Tablero.actualizarRestricciones (GestorBanderas.tablero g)))
         lote.
Proof.
  intros Hcoh. unfold GestorBanderas.colocarBanderasSeguras. cbv zeta.
  set (tb1 := Tablero.actualizarRestricciones (GestorBanderas.tablero g)).
  assert (Hbf1 : bienFormado tb1)
    by (apply actualizarRestricciones_bienFormado, Hcoh).
  match goal with
  | |- context [GestorBanderas.analizarRestriccionesBasicas ?g0] =>
      assert (H0 : invarianteMarcas tb1 g0)
        by (split; [apply mismaEstructura_refl | constructor])
  end.
  apply (marcas_basicas _ _ Hbf1) in H0.
  apply (marcas_subconjuntos _ _ Hbf1) in H0.
  apply (marcas_patrones _ _ Hbf1) in H0.
  match goal with
  | |- context [GestorBanderas.analizarSistemasEcuaciones ?g3] =>
      destruct (GestorBanderas.analizarSistemasEcuaciones g3)
        as [g4| |] eqn:H4; cbn; try discriminate
  end.
  apply (marcas_sistemas _ _ _ Hbf1 H0) in H4 as [Hm4 Hc4].
  destruct (GestorBanderas.validarConsistenciaGlobal g4) as [g5| |] eqn:H5;
    cbn; try discriminate.
  intros [= <- <-].
  apply Forall_forall. intros b Hb. apply list_elem_of_In in Hb.
  eapply Forall_In; [exact Hc4|].
  eapply validar_sublista; eauto.
Qed.

(** Lo que [esSeguroColocarBandera] garantiza de las adyacentes. *)
Lemma esSeguro_sin_cero_vecino g celda vecina :
  GestorBanderas.esSeguroColocarBandera g celda = true ->
  In vecina (Tablero.obtenerCeldasAdyacentes (GestorBanderas.tablero g)
               (Celda.fila celda) (Celda.columna celda)) ->
  Celda.descubierta vecina = true ->
  Celda.valor vecina <> Celda.Vacia
  /\ Celda.valor vecina <> Celda.Numero 0.
Proof.
  unfold GestorBanderas.esSeguroColocarBandera.
  destruct (_ || _); [discriminate|]. cbv zeta.
  destruct (existsb _ _) eqn:E; [discriminate|]. intros _ Hin Hd.
  assert (H : forall x, In x (Tablero.obtenerCeldasAdyacentes
                                (GestorBanderas.tablero g)
                                (Celda.fila celda) (Celda.columna celda)) ->
              Celda.descubierta x
              && (Celda.valor_eqb (Celda.valor x) Celda.Vacia
                  || Celda.valor_eqb (Celda.valor x) (Celda.Numero 0)
                  || match Celda.obtenerValorNumerico x with
                     | Some v => v =? 0
                     | None => false
                     end) = false).
  { intros x Hx. destruct (_ && _) eqn:Hx'; [|reflexivity].
    rewrite <- E. symmetry. apply existsb_exists. exists x. auto. }
  specialize (H vecina Hin). rewrite Hd in H. cbn [andb] in H.
  apply orb_false_iff in H as [H _]. apply orb_false_iff in H as [H1 H2].
  split; intros Hv; rewrite Hv in *; discriminate.
Qed.

(** X20: ninguna bandera del lote de [colocarBanderasSeguras] cae junto
    a una celda revelada como vacía o como "0": todas las adyacentes
    reveladas de la celda de una bandera del lote llevan otro valor. *)
Theorem X20_banderas_lejos_de_los_ceros (g g' : GestorBanderas.t)
    (lote : list GestorBanderas.Bandera) :
  coherente (GestorBanderas.tablero g) ->
  GestorBanderas.colocarBanderasSeguras g = Devuelve (g', lote) ->
  forall b vecina,
    In b lote ->
    In vecina (Tablero.obtenerCeldasAdyacentes (GestorBanderas.tablero g)
                 (GestorBanderas.b_fila b) (GestorBanderas.b_columna b)) ->
    Celda.descubierta vecina = true ->
    Celda.valor vecina <> Celda.Vacia
    /\ Celda.valor vecina <> Celda.Numero 0.
Proof.
  intros Hcoh Hrun b vecina Hb Hv Hd.
  pose proof (colocar_marcas g g' lote Hcoh Hrun) as Hm.
  pose proof (Forall_In _ _ _ Hm Hb)
    as (g1 & celda & Hm1 & _ & Hs & Hf & Hc).
  rewrite Hf, Hc in Hv.
  apply adyacente_es_celda in Hv as (d & Hdd & Hcv).
  assert (Hforma : mismaForma (GestorBanderas.tablero g)
                     (GestorBanderas.tablero g1)).
  { eapply mismaForma_trans;
      [apply mismaForma_sim, actualizarRestricciones_forma|].
    apply mismaForma_sim, mismaForma_de_estructura, Hm1. }
  destruct (mismaForma_celda _ _ _ _ _ Hforma Hcv) as (v1 & Hv1 & Hfo).
  apply forma_campos in Hfo as (_ & _ & Hd1 & _ & Hval1).
  rewrite <- Hval1.
  apply (esSeguro_sin_cero_vecino g1 celda v1 Hs).
  - eapply celda_es_adyacente; eauto.
  - congruence.
Qed.

Lemma X20_banderas_lejos_de_los_ceros_testigo :
  exists g' lote,
    GestorBanderas.colocarBanderasSeguras gestor_dos_pasadas
    = Devuelve (g', lote)
    /\ forall b vecina,
         In b lote ->
         In vecina (Tablero.obtenerCeldasAdyacentes tablero_dos_pasadas
                      (GestorBanderas.b_fila b) (GestorBanderas.b_columna b)) ->
         Celda.descubierta vecina = true ->
         Celda.valor vecina <> Celda.Numero 0.
Proof.
  eexists _, _. split; [vm_compute; reflexivity|].
  assert (Hcoh : coherente (GestorBanderas.tablero gestor_dos_pasadas)).
  { split; [apply bienFormadoB_correcto; vm_compute; reflexivity|].
    assert (Hf : Tablero.restriccionesActualizadas
                   (GestorBanderas.tablero gestor_dos_pasadas) = false)
      by (vm_compute; reflexivity).
    congruence. }
  intros b vecina Hb Hv Hd.
  eapply X20_banderas_lejos_de_los_ceros;
    [exact Hcoh | vm_compute; reflexivity | exact Hb | exact Hv | exact Hd].
Defined.

(** ** La etapa de normalización *)

(** X19: en un tablero rectangular la etapa [normalizarProbabilidades]
    no cambia nada, sea cual sea la lista de celdas y se cumpla o no la
    condición del 50 %: [actualizarProbabilidades] rechaza siempre una
    anotación de origen 'normalizado' hecha con la confianza que la celda
    ya tiene. Por eso [ajustarProbabilidadesFinales] equivale a
    identificar los casos con certeza y ajustar los casos especiales. *)
Theorem X19_normalizacion_sin_efecto (m : MotorProbabilidad.t)
    (celdas : list Pos) :
  bienFormado (MotorProbabilidad.tablero m) ->
  MotorProbabilidad.normalizarProbabilidades m celdas = m
  /\ MotorProbabilidad.ajustarProbabilidadesFinales m celdas
     = MotorProbabilidad.ajustarCasosEspeciales
         (MotorProbabilidad.identificarCasosConCerteza m celdas) celdas
  /\ forall (celda : Celda.t) (prob : float),
       Celda.actualizarProbabilidades celda prob
         (Celda.confianza (Celda.probabilidades celda)) "normalizado"
       = celda.
Proof.
  intros Hbf. split; [apply normalizarProbabilidades_no_guarda, Hbf|].
  split; [|apply normalizado_no_actualiza].
  unfold MotorProbabilidad.ajustarProbabilidadesFinales.
  rewrite normalizarProbabilidades_no_guarda; [reflexivity|].
  eapply soloProbabilidades_bienFormado;
    [apply (identificarCasosConCerteza_solo celdas m Hbf) | exact Hbf].
Qed.

Lemma X19_normalizacion_sin_efecto_testigo :
  MotorProbabilidad.requiereNormalizar
    (MotorProbabilidad.tablero motor_C4) celdas_C4 = true
  /\ MotorProbabilidad.normalizarProbabilidades motor_C4 celdas_C4 = motor_C4.
Proof.
  assert (Hbf : bienFormado (MotorProbabilidad.tablero motor_C4))
    by (apply bienFormadoB_correcto; vm_compute; reflexivity).
  destruct (X19_normalizacion_sin_efecto motor_C4 celdas_C4 Hbf) as [H _].
  split; [vm_compute; reflexivity | exact H].
Defined.

(** ** La agrupación de restricciones del gestor de banderas *)

Lemma mismaPos_spec (a b : Pos) : mismaPos a b = true <-> a = b.
Proof.
  split; [apply mismaPos_eq | intros ->; apply mismaPos_refl].
Qed.

Lemma desplazamientos_sin_repetir : NoDup Tablero.desplazamientos.
Proof. apply (bool_decide_unpack _). vm_compute. reflexivity. Qed.

Lemma adyacentes_sin_repetir tb fila columna :
  bienFormado tb ->
  NoDup (map Celda.pos (Tablero.obtenerCeldasAdyacentes tb fila columna)).
Proof.
  intros Hbf. unfold Tablero.obtenerCeldasAdyacentes.
  pose proof desplazamientos_sin_repetir as Hnd.
  induction Tablero.desplazamientos as [|d ds IH]; [apply NoDup_nil_2|].
  apply NoDup_cons in Hnd as [Hd Hnd]. cbn [omap list_omap].
  destruct (Tablero.obtenerCelda tb (fila + fst d) (columna + snd d))
    as [v|] eqn:Hv; [|apply IH, Hnd].
  cbn [map]. apply NoDup_cons. split; [|apply IH, Hnd].
  intros Hin. apply list_elem_of_In, in_map_iff in Hin as (v' & Hp & Hin).
  apply list_elem_of_In, list_elem_of_omap in Hin as (d' & Hd' & Hv').
  destruct (bienFormado_pos _ _ _ _ Hbf Hv) as [Hf Hc].
  destruct (bienFormado_pos _ _ _ _ Hbf Hv') as [Hf' Hc'].
  unfold Celda.pos in Hp. injection Hp as Hpf Hpc.
  apply Hd. replace d with d'; [exact Hd'|].
  destruct d, d'. cbn [fst snd] in *. f_equal; lia.
Qed.

Lemma sin_repetir_filtro {A B} (f : A -> B) (P : A -> bool) (l : list A) :
  NoDup (map f l) -> NoDup (map f (List.filter P l)).
Proof.
  induction l as [|x l IH]; cbn [map List.filter]; [auto|].
  intros H. apply NoDup_cons in H as [Hx Hnd].
  destruct (P x); [|apply IH, Hnd].
  cbn [map]. apply NoDup_cons. split; [|apply IH, Hnd].
  intros Hin. apply Hx. apply list_elem_of_In in Hin.
  apply in_map_iff in Hin as (y & Hy & Hin). apply filter_In in Hin as [Hin _].
  apply list_elem_of_In, in_map_iff. exists y. auto.
Qed.

(** El [forEach] que reparte una restricción en el mapa. *)
Lemma repartir_en_mapa (c : Celda.t) (vs : list Celda.t) (k : Pos) :
  NoDup (map Celda.pos vs) ->
  forall mapa : gmap Pos (list Celda.t),
    default [] (fold_left (fun (mapa : gmap Pos (list Celda.t)) celda =>
                             <[Celda.pos celda :=
                                 default [] (mapa !! Celda.pos celda) ++ [c]]>
                               mapa) vs mapa !! k)
    = default [] (mapa !! k)
      ++ (if existsb (fun celda => mismaPos (Celda.pos celda) k) vs
          then [c] else []).
Proof.
  induction vs as [|v vs IH]; intros Hnd mapa; cbn [fold_left existsb].
  - rewrite app_nil_r. reflexivity.
  - cbn [map] in Hnd. apply NoDup_cons in Hnd as [Hv Hnd].
    rewrite (IH Hnd). destruct (mismaPos (Celda.pos v) k) eqn:E;
      cbn [orb].
    + apply mismaPos_eq in E. subst k. rewrite lookup_insert_eq.
      cbn [default from_option id].
      replace (existsb _ vs) with false; [rewrite app_nil_r; reflexivity|].
      symmetry. destruct (existsb _ vs) eqn:E'; [|reflexivity].
      exfalso. apply Hv. apply existsb_exists in E' as (y & Hy & Hp).
      apply mismaPos_eq in Hp. rewrite <- Hp.
      apply list_elem_of_In, in_map, Hy.
    + rewrite lookup_insert_ne; [reflexivity|].
      intros Heq. rewrite Heq, mismaPos_refl in E. discriminate.
Qed.

(** [mapaCeldas] da, para cada posición, las celdas numéricas que la
    restringen, en el orden de [obtenerCeldasNumericas]. *)
Lemma construirMapaCeldas_spec tb (cs : list Celda.t) (k : Pos) :
  bienFormado tb ->
  default [] (GestorBanderas.construirMapaCeldas tb cs !! k)
  = List.filter (restringeA tb k) cs.
Proof.
  intros Hbf. unfold GestorBanderas.construirMapaCeldas.
  match goal with
  | |- context [fold_left ?F cs ∅] => set (paso := F)
  end.
  assert (H : forall cs (mapa : gmap Pos (list Celda.t)),
            default [] (fold_left paso cs mapa !! k)
            = default [] (mapa !! k) ++ List.filter (restringeA tb k) cs).
  { clear cs. induction cs as [|c cs IH]; intros mapa;
      cbn [fold_left List.filter]; [rewrite app_nil_r; reflexivity|].
    rewrite IH. unfold paso. cbv zeta.
    assert (Hr : restringeA tb k c
                 = existsb (fun celda => mismaPos (Celda.pos celda) k)
                     (GestorBanderas.sinRevelar
                        (Tablero.obtenerCeldasAdyacentes tb
                           (Celda.fila c) (Celda.columna c))))
      by reflexivity.
    rewrite Hr. clear Hr.
    set (vs := GestorBanderas.sinRevelar _).
    assert (Hnd : NoDup (map Celda.pos vs)).
    { unfold vs, GestorBanderas.sinRevelar.
      apply sin_repetir_filtro, adyacentes_sin_repetir, Hbf. }
    destruct (0 <? largo vs) eqn:E.
    - rewrite (repartir_en_mapa c vs k Hnd).
      destruct (existsb _ vs); [|rewrite app_nil_r; reflexivity].
      rewrite <- app_assoc. reflexivity.
    - assert (vs = []) as ->.
      { apply Z.ltb_ge in E. apply largo_es_cero.
        pose proof (largo_no_negativo vs). lia. }
      reflexivity. }
  rewrite H, lookup_empty. reflexivity.
Qed.

Lemma restringen_a_lo_sumo_ocho tb (cs : list Celda.t) (k : Pos) :
  bienFormado tb -> NoDup (map Celda.pos cs) ->
  (length (List.filter (restringeA tb k) cs) <= 8)%nat.
Proof.
  intros Hbf Hnd.
  change 8%nat
    with (length (map (fun d : Z * Z => (fst k + fst d, snd k + snd d))
                      Tablero.desplazamientos)).
  rewrite <- (length_map Celda.pos).
  apply NoDup_incl_length;
    [apply NoDup_ListNoDup, sin_repetir_filtro, Hnd|].
  intros p Hp. apply in_map_iff in Hp as (c & <- & Hc).
  apply filter_In in Hc as [_ Hc]. unfold restringeA in Hc.
  apply existsb_exists in Hc as (v & Hv & Hp). apply mismaPos_eq in Hp.
  apply filter_In in Hv as [Hv _].
  apply adyacente_es_celda in Hv as (d & Hd & Hcv).
  destruct (bienFormado_pos _ _ _ _ Hbf Hcv) as [Hf Hc].
  apply in_map_iff. exists (- fst d, - snd d). split.
  - subst k. unfold Celda.pos. cbn [fst snd]. f_equal; lia.
  - apply desplazamientos_spec. apply desplazamientos_spec in Hd.
    destruct d as [i j]. cbn [fst snd] in *.
    destruct Hd as (Hne & Hi & Hj). split; [|lia].
    intros [= Hi0 Hj0]. apply Hne. f_equal; lia.
Qed.

Lemma numericas_sin_repetir tb :
  bienFormado tb ->
  NoDup (map Celda.pos (Tablero.obtenerCeldasNumericas tb)).
Proof.
  intros Hbf. unfold Tablero.obtenerCeldasNumericas.
  apply sin_repetir_filtro. rewrite (todas_pos _ Hbf).
  apply posiciones_sin_repetidos.
Qed.

Lemma grupo_acotado tb e :
  bienFormado tb -> invarianteGrupo tb e ->
  (length (GestorBanderas.g_celdas (GestorBanderas.grupo e))
   <= length (Tablero.posiciones tb))%nat.
Proof.
  intros Hbf (Hnd & _ & Hcel). rewrite <- (length_map Celda.pos).
  apply NoDup_incl_length; [apply NoDup_ListNoDup, Hnd|].
  intros p Hp. apply in_map_iff in Hp as (v & <- & Hv).
  destruct (Hcel v Hv) as [Hc _]. unfold Celda.pos.
  apply posiciones_spec. eapply obtenerCelda_valida, Hc.
Qed.

Section Agrupacion.
Variable tb : Tablero.t.
Variable mapaCeldas : gmap Pos (list Celda.t).
Hypothesis Hbf : bienFormado tb.
Hypothesis Hocho : forall k,
  (length (default [] (mapaCeldas !! k)) <= 8)%nat.

Lemma expandirRestriccion_medida celdaRestriccion e :
  invarianteGrupo tb e ->
  let e' := GestorBanderas.expandirRestriccion tb mapaCeldas
              celdaRestriccion e in
  invarianteGrupo tb e'
  /\ (length (GestorBanderas.cola e')
      + 8 * (length (Tablero.posiciones tb)
             - length (GestorBanderas.g_celdas (GestorBanderas.grupo e')))
      <= length (GestorBanderas.cola e)
         + 8 * (length (Tablero.posiciones tb)
                - length (GestorBanderas.g_celdas (GestorBanderas.grupo e))))%nat.
Proof.
  intros Hinv. cbv zeta. unfold GestorBanderas.expandirRestriccion. cbv zeta.
  set (N := length (Tablero.posiciones tb)).
  set (m0 := (length (GestorBanderas.cola e)
              + 8 * (N - length (GestorBanderas.g_celdas
                                   (GestorBanderas.grupo e))))%nat).
  apply (fold_left_invariante
           (fun s => invarianteGrupo tb s
                     /\ (length (GestorBanderas.cola s)
                         + 8 * (N - length (GestorBanderas.g_celdas
                                              (GestorBanderas.grupo s)))
                         <= m0)%nat)).
  - split; [exact Hinv|]. cbn. unfold m0. lia.
  - intros s v Hv [Hs Hm]. apply filter_In in Hv as [Hv Hd].
    apply negb_true_iff in Hd.
    destruct (bool_decide (Celda.pos v ∈ GestorBanderas.celdasEnGrupo s))
      eqn:Hb; [split; assumption|].
    apply bool_decide_eq_false in Hb.
    assert (Hcv : Tablero.obtenerCelda tb (Celda.fila v) (Celda.columna v)
                  = Some v).
    { apply adyacente_es_celda in Hv as (d & _ & Hc).
      destruct (bienFormado_pos _ _ _ _ Hbf Hc) as [-> ->]. exact Hc. }
    set (s' := {| GestorBanderas.cola := _; GestorBanderas.procesadas := _;
                  GestorBanderas.celdasEnGrupo := _;
                  GestorBanderas.grupo := _ |}).
    assert (Hs' : invarianteGrupo tb s').
    { destruct Hs as (Hnd & Hset & Hcel). unfold invarianteGrupo, s'.
      cbn [GestorBanderas.grupo GestorBanderas.g_celdas
           GestorBanderas.celdasEnGrupo].
      rewrite map_app. cbn [map]. split; [|split].
      - apply NoDup_app. split; [exact Hnd|].
        split; [|apply NoDup_singleton].
        intros p Hp Hp'. apply list_elem_of_In in Hp, Hp'.
        destruct Hp' as [<-|[]]. apply Hb, Hset, Hp.
      - intros p. rewrite elem_of_union, elem_of_singleton, in_app_iff, Hset.
        cbn [In]. split; [intros [->|H] | intros [H|[<-|[]]]]; auto.
      - intros x Hx. apply in_app_or in Hx as [Hx|[<-|[]]];
          [apply Hcel, Hx | auto]. }
    split; [exact Hs'|].
    pose proof (grupo_acotado tb s' Hbf Hs') as Hk.
    unfold s' in Hk |- *.
    cbn [GestorBanderas.cola GestorBanderas.grupo GestorBanderas.g_celdas]
      in Hk |- *.
    rewrite length_app in Hk |- *. rewrite length_app.
    cbn [length] in Hk |- *.
    pose proof (filter_length_le
                  (fun r => negb (bool_decide
                                    (Celda.pos r ∈ GestorBanderas.procesadas s)))
                  (default [] (mapaCeldas !! Celda.pos v))) as Hf.
    pose proof (Hocho (Celda.pos v)) as H8. fold N in Hk. lia.
Qed.

Lemma bucleGrupo_termina : forall combustible e,
  invarianteGrupo tb e ->
  (length (GestorBanderas.cola e)
   + 8 * (length (Tablero.posiciones tb)
          - length (GestorBanderas.g_celdas (GestorBanderas.grupo e)))
   <= combustible)%nat ->
  exists e',
    GestorBanderas.bucleGrupo combustible tb mapaCeldas e = Devuelve e'
    /\ invarianteGrupo tb e'.
Proof.
  induction combustible as [|n IH]; intros e Hinv Hm.
  - destruct (GestorBanderas.cola e) as [|c resto] eqn:Hcola.
    + exists e. cbn [GestorBanderas.bucleGrupo]. rewrite Hcola. auto.
    + cbn [length] in Hm. lia.
  - cbn [GestorBanderas.bucleGrupo].
    destruct (GestorBanderas.cola e) as [|c resto] eqn:Hcola;
      [exists e; auto|].
    cbv zeta. cbn [length] in Hm.
    set (e1 := {| GestorBanderas.cola := resto;
                  GestorBanderas.procesadas := GestorBanderas.procesadas e;
                  GestorBanderas.celdasEnGrupo :=
                    GestorBanderas.celdasEnGrupo e;
                  GestorBanderas.grupo := GestorBanderas.grupo e |}).
    assert (Hinv1 : invarianteGrupo tb e1) by exact Hinv.
    destruct (bool_decide _).
    + apply IH; [exact Hinv1|]. cbn. lia.
    + destruct (expandirRestriccion_medida c e1 Hinv1) as [Hinv2 Hm2].
      cbv zeta in Hinv2, Hm2. apply IH; [exact Hinv2|].
      cbn [e1 GestorBanderas.cola GestorBanderas.grupo] in Hm2. lia.
Qed.

End Agrupacion.

Lemma agrupar_total (g : GestorBanderas.t) :
  bienFormado (GestorBanderas.tablero g) ->
  exists grupos,
    GestorBanderas.agruparRestriccionesPorCeldasComunes g = Devuelve grupos
    /\ forall grupo, In grupo grupos ->
         grupoDeRestricciones (GestorBanderas.tablero g) grupo.
Proof.
  intros Hbf. unfold GestorBanderas.agruparRestriccionesPorCeldasComunes.
  cbv zeta.
  set (tb := GestorBanderas.tablero g) in *.
  set (numericas := Tablero.obtenerCeldasNumericas tb).
  set (mapa := GestorBanderas.construirMapaCeldas tb numericas).
  assert (Hocho : forall k, (length (default [] (mapa !! k)) <= 8)%nat).
  { intros k. unfold mapa. rewrite (construirMapaCeldas_spec tb _ k Hbf).
    apply restringen_a_lo_sumo_ocho; [exact Hbf|].
    apply numericas_sin_repetir, Hbf. }
  match goal with
  | |- context [plegarR ?F numericas _] => set (cuerpo := F)
  end.
  assert (Hpaso : forall grupos procesadas (c : Celda.t),
            (forall grupo, In grupo grupos -> grupoDeRestricciones tb grupo) ->
            exists estado',
              cuerpo (grupos, procesadas) c = Devuelve estado'
              /\ forall grupo, In grupo (fst estado') ->
                   grupoDeRestricciones tb grupo).
  { intros grupos procesadas c HG. unfold cuerpo.
    destruct (bool_decide (Celda.pos c ∈ procesadas)).
    - exists (grupos, procesadas). split; [reflexivity | exact HG].
    - unfold GestorBanderas.obtenerGrupoConectado.
      destruct (bucleGrupo_termina tb mapa Hbf Hocho
                  (GestorBanderas.combustibleGrupo tb)
                  {| GestorBanderas.cola := [c];
                     GestorBanderas.procesadas := procesadas;
                     GestorBanderas.celdasEnGrupo := ∅;
                     GestorBanderas.grupo :=
                       {| GestorBanderas.g_restricciones := [];
                          GestorBanderas.g_celdas := [] |} |})
        as (e' & Hrun & Hinv').
      { unfold invarianteGrupo. cbn [GestorBanderas.grupo
          GestorBanderas.g_celdas GestorBanderas.celdasEnGrupo map].
        split; [apply NoDup_nil_2|].
        split; [|intros x []].
        intros p. split; [intros H; destruct (not_elem_of_empty p H)
                         | intros []]. }
      { cbn [GestorBanderas.cola GestorBanderas.grupo
             GestorBanderas.g_celdas length].
        unfold GestorBanderas.combustibleGrupo.
        rewrite <- (length_map Celda.pos (Tablero.todas tb)).
        rewrite (todas_pos tb Hbf). lia. }
      rewrite Hrun. cbn [mret resultado_ret mbind resultado_bind].
      destruct (2 <=? largo _) eqn:E2; eexists; (split; [reflexivity|]);
        cbn [fst]; [|exact HG].
      intros grupo Hin. apply in_app_or in Hin as [Hin|[<-|[]]];
        [apply HG, Hin|].
      destruct Hinv' as (Hnd & _ & Hcel).
      split; [|split; assumption].
      apply Z.leb_le in E2. unfold largo in E2. lia. }
  assert (Hgen : forall (cs : list Celda.t)
                        (estado : list GestorBanderas.Grupo * gset Pos),
            (forall grupo, In grupo (fst estado) ->
               grupoDeRestricciones tb grupo) ->
            exists estado',
              plegarR cuerpo cs estado = Devuelve estado'
              /\ forall grupo, In grupo (fst estado') ->
                   grupoDeRestricciones tb grupo).
  { induction cs as [|c cs IH]; intros [grupos procesadas] HG.
    - exists (grupos, procesadas). split; [reflexivity | exact HG].
    - destruct (Hpaso grupos procesadas c HG) as (s' & Hs & HG').
      cbn [plegarR]. rewrite Hs. cbn [mbind resultado_bind].
      apply IH, HG'. }
  destruct (Hgen numericas ([], ∅)) as ([grupos procesadas] & Hrun & HG);
    [intros grupo [] |].
  rewrite Hrun. cbn [mret resultado_ret mbind resultado_bind fst].
  exists grupos. split; [reflexivity | exact HG].
Qed.

Lemma plegarR_no_se_agota {A S} (f : S -> A -> Resultado S) (l : list A) :
  (forall s x, f s x <> SinCombustible) ->
  forall s, plegarR f l s <> SinCombustible.
Proof.
  intros Hf. induction l as [|x l IH]; intros s; cbn [plegarR];
    [discriminate|].
  destruct (f s x) as [s'| |] eqn:E; cbn [mbind resultado_bind].
  - apply IH.
  - discriminate.
  - exfalso. exact (Hf s x E).
Qed.

Lemma analizarSistemasEcuaciones_no_se_agota g :
  bienFormado (GestorBanderas.tablero g) ->
  GestorBanderas.analizarSistemasEcuaciones g <> SinCombustible.
Proof.
  intros Hbf. unfold GestorBanderas.analizarSistemasEcuaciones.
  destruct (agrupar_total g Hbf) as (grupos & -> & _).
  cbn [mbind resultado_bind]. apply plegarR_no_se_agota.
  intros s grupo. destruct (2 <=? _); [|discriminate].
  destruct (GestorBanderas.resolverSistemaEcuaciones s grupo)
    as [[soluciones celdas]|]; [|discriminate].
  apply plegarR_no_se_agota. intros s1 [i valor].
  destruct (JS.mayorIgual _ _); [|discriminate].
  destruct (celdas !! i); [|discriminate].
  destruct (_ && _); discriminate.
Qed.

Lemma validarConsistenciaGlobal_no_se_agota g :
  GestorBanderas.validarConsistenciaGlobal g <> SinCombustible.
Proof.
  unfold GestorBanderas.validarConsistenciaGlobal. cbv zeta.
  apply plegarR_no_se_agota. intros s b.
  unfold GestorBanderas.esConsistenteGlobal.
  destruct (Tablero.obtenerCelda _ _ _); cbn [mbind resultado_bind mret
    resultado_ret]; [|discriminate].
  destruct (forallb _ _); discriminate.
Qed.

(** X21: en un tablero rectangular, [agruparRestriccionesPorCeldasComunes]
    siempre devuelve: el bucle [while] de [obtenerGrupoConectado] termina
    (en a lo sumo 8 N + 1 vueltas, con N el número de celdas) y nada lanza.
    El mapa que construye da, para cada posición, las celdas numéricas
    que tienen ahí una adyacente sin revelar, que son a lo sumo ocho; y
    todo grupo devuelto tiene al menos dos restricciones y sus celdas son
    celdas sin revelar del tablero, de posiciones distintas. Por eso
    [colocarBanderasSeguras] nunca se queda en un bucle: o devuelve su
    lote o lanza un [TypeError]. *)
Theorem X21_agrupacion_de_restricciones (g : GestorBanderas.t) :
  bienFormado (GestorBanderas.tablero g) ->
  let tb := GestorBanderas.tablero g in
  (exists grupos,
     GestorBanderas.agruparRestriccionesPorCeldasComunes g = Devuelve grupos
     /\ forall grupo, In grupo grupos -> grupoDeRestricciones tb grupo)
  /\ (forall clave,
        default [] (GestorBanderas.construirMapaCeldas tb
                      (Tablero.obtenerCeldasNumericas tb) !! clave)
        = List.filter (restringeA tb clave)
                      (Tablero.obtenerCeldasNumericas tb)
        /\ (length (List.filter (restringeA tb clave)
                                (Tablero.obtenerCeldasNumericas tb))
            <= 8)%nat)
  /\ GestorBanderas.colocarBanderasSeguras g <> SinCombustible.
Proof.
  intros Hbf tb. split; [apply agrupar_total, Hbf|]. split.
  { intros clave. split; [apply construirMapaCeldas_spec, Hbf|].
    apply restringen_a_lo_sumo_ocho; [exact Hbf|].
    apply numericas_sin_repetir, Hbf. }
  unfold GestorBanderas.colocarBanderasSeguras. cbv zeta.
  set (tb1 := Tablero.actualizarRestricciones (GestorBanderas.tablero g)).
  assert (Hbf1 : bienFormado tb1)
    by (apply actualizarRestricciones_bienFormado, Hbf).
  match goal with
  | |- context [GestorBanderas.analizarRestriccionesBasicas ?g0] =>
      assert (H0 : invariante tb1 g0)
        by (split; [apply mismaEstructura_refl | constructor])
  end.
  apply (invariante_basicas _ _ Hbf1) in H0.
  apply (invariante_subconjuntos _ _ Hbf1) in H0.
  apply (invariante_patrones _ _ Hbf1) in H0.
  match goal with
  | |- context [GestorBanderas.analizarSistemasEcuaciones ?g3] =>
      pose proof (analizarSistemasEcuaciones_no_se_agota g3) as Hs;
      destruct (GestorBanderas.analizarSistemasEcuaciones g3)
        as [g4| |] eqn:H4; cbn [mbind resultado_bind]
  end.
  - pose proof (validarConsistenciaGlobal_no_se_agota g4) as Hv.
    destruct (GestorBanderas.validarConsistenciaGlobal g4) as [g5| |];
      cbn [mbind resultado_bind mret resultado_ret]; try discriminate.
    exfalso. apply Hv. reflexivity.
  - discriminate.
  - exfalso. apply Hs; [|reflexivity].
    eapply bienFormado_mismaForma; [|exact Hbf1].
    apply mismaForma_sim, mismaForma_de_estructura, H0.
Qed.

Lemma X21_agrupacion_de_restricciones_testigo :
  GestorBanderas.colocarBanderasSeguras gestor_dos_pasadas <> SinCombustible.
Proof.
  apply (X21_agrupacion_de_restricciones gestor_dos_pasadas).
  apply bienFormadoB_correcto. vm_compute. reflexivity.
Defined.

(** ** La revisión global de las candidatas *)

Lemma forallb_falso {A} (f : A -> bool) (l : list A) :
  forallb f l = false <-> exists x, In x l /\ f x = false.
Proof.
  induction l as [|x l IH]; cbn [forallb In].
  - split; [discriminate | intros (x & [] & _)].
  - rewrite andb_false_iff, IH. split.
    + intros [H | (y & Hy & Hf)]; [exists x | exists y]; auto.
    + intros (y & [<- | Hy] & Hf); [left; exact Hf | right; exists y; auto].
Qed.

(** [esConsistenteGlobal] rechaza exactamente las candidatas que harían
    superar su dígito a alguna restricción. *)
Lemma esConsistenteGlobal_spec g b celdaB :
  Tablero.obtenerCelda (GestorBanderas.tablero g)
    (GestorBanderas.b_fila b) (GestorBanderas.b_columna b) = Some celdaB ->
  exists consistente,
    GestorBanderas.esConsistenteGlobal g b = Devuelve consistente
    /\ (consistente = false
        <-> superaAlguna (GestorBanderas.tablero g)
              (GestorBanderas.banderasColocadas g) b).
Proof.
  intros Hc. unfold GestorBanderas.esConsistenteGlobal. rewrite Hc.
  eexists. split; [reflexivity|]. rewrite forallb_falso. split.
  - intros (r & Hr & Hno). cbv beta zeta in Hno.
    destruct (Tablero.obtenerCelda _ (fst (Celda.celdaOrigen r)) _)
      as [celdaO|] eqn:HO;
      [|discriminate].
    destruct (Celda.tieneValorNumerico celdaO) eqn:Hn; [|discriminate].
    apply negb_false_iff, Z.ltb_lt in Hno.
    exists celdaB, r, celdaO. rewrite recuento_app. auto.
  - intros (celdaB' & r & celdaO & HcB & Hr & HO & Hn & Hlt).
    rewrite Hc in HcB. injection HcB as <-.
    exists r. split; [exact Hr|]. cbv beta zeta. rewrite HO, Hn.
    apply negb_false_iff, Z.ltb_lt. rewrite recuento_app in Hlt. exact Hlt.
Qed.

(** [validarConsistenciaGlobal] es la revisión de la especificación: sobre
    candidatas que caen en el tablero siempre devuelve, no toca el tablero
    y deja el lote revisado. *)
Lemma validar_revisa g :
  (forall b, In b (GestorBanderas.banderasColocadas g) ->
     exists celda,
       Tablero.obtenerCelda (GestorBanderas.tablero g)
         (GestorBanderas.b_fila b) (GestorBanderas.b_columna b) = Some celda) ->
  exists g',
    GestorBanderas.validarConsistenciaGlobal g = Devuelve g'
    /\ GestorBanderas.tablero g' = GestorBanderas.tablero g
    /\ revisadas (GestorBanderas.tablero g) []
         (GestorBanderas.banderasColocadas g)
         (GestorBanderas.banderasColocadas g').
Proof.
  unfold GestorBanderas.validarConsistenciaGlobal. cbv zeta.
  set (tb := GestorBanderas.tablero g).
  assert (Hgen : forall candidatas s,
            GestorBanderas.tablero s = tb ->
            (forall b, In b candidatas ->
               exists celda,
                 Tablero.obtenerCelda tb (GestorBanderas.b_fila b)
                   (GestorBanderas.b_columna b) = Some celda) ->
            exists g',
              plegarR (fun g bandera =>
                         consistente ← GestorBanderas.esConsistenteGlobal
                                         g bandera;
                         if (consistente : bool)
                         then mret (GestorBanderas.conBanderas g
                                      (GestorBanderas.banderasColocadas g
                                       ++ [bandera]))
                         else mret g) candidatas s = Devuelve g'
              /\ GestorBanderas.tablero g' = tb
              /\ revisadas tb (GestorBanderas.banderasColocadas s)
                   candidatas (GestorBanderas.banderasColocadas g')).
  { induction candidatas as [|b resto IH]; intros s Hs Hcel.
    - exists s. split; [reflexivity|]. split; [exact Hs|]. constructor.
    - destruct (Hcel b (or_introl eq_refl)) as (celdaB & HcB).
      rewrite <- Hs in HcB.
      destruct (esConsistenteGlobal_spec s b celdaB HcB)
        as (consistente & Hrun & Hspec).
      cbn [plegarR]. rewrite Hrun. cbn [mbind resultado_bind].
      rewrite Hs in Hspec.
      destruct consistente; cbn [mret resultado_ret].
      + destruct (IH (GestorBanderas.conBanderas s
                        (GestorBanderas.banderasColocadas s ++ [b])))
          as (g' & Hrun' & HT & Hrev).
        { exact Hs. }
        { intros b' Hb'. apply Hcel. right. exact Hb'. }
        exists g'. split; [exact Hrun'|]. split; [exact HT|].
        apply revisadas_acepta; [|exact Hrev].
        intros Hsup. apply Hspec in Hsup. discriminate.
      + destruct (IH s Hs) as (g' & Hrun' & HT & Hrev).
        { intros b' Hb'. apply Hcel. right. exact Hb'. }
        exists g'. split; [exact Hrun'|]. split; [exact HT|].
        apply revisadas_descarta; [|exact Hrev].
        apply Hspec. reflexivity. }
  intros Hcel.
  apply (Hgen (GestorBanderas.banderasColocadas g)
              (GestorBanderas.conBanderas g [])); [reflexivity | exact Hcel].
Qed.

(** El lote de [colocarBanderasSeguras] es la revisión de las candidatas
    que anotan los cuatro análisis. *)
Lemma colocar_revisa g g' lote :
  coherente (GestorBanderas.tablero g) ->
  GestorBanderas.colocarBanderasSeguras g = Devuelve (g', lote) ->
  exists g4,
    GestorBanderas.analizarSistemasEcuaciones
      (GestorBanderas.analizarPatrones
         (GestorBanderas.analizarSubconjuntos
            (GestorBanderas.analizarRestriccionesBasicas
               {| GestorBanderas.tablero :=
                    Tablero.actualizarRestricciones (GestorBanderas.tablero g);
                  GestorBanderas.banderasColocadas := [];
                  GestorBanderas.ultimaIteracion :=
                    GestorBanderas.ultimaIteracion g + 1 |})))
    = Devuelve g4
    /\ revisadas (GestorBanderas.tablero g') []
         (GestorBanderas.banderasColocadas g4) lote.
Proof.
  intros Hcoh. unfold GestorBanderas.colocarBanderasSeguras. cbv zeta.
  set (tb1 := Tablero.actualizarRestricciones (GestorBanderas.tablero g)).
  assert (Hbf1 : bienFormado tb1)
    by (apply actualizarRestricciones_bienFormado, Hcoh).
  match goal with
  | |- context [GestorBanderas.analizarRestriccionesBasicas ?g0] =>
      assert (H0 : invariante tb1 g0)
        by (split; [apply mismaEstructura_refl | constructor])
  end.
  apply (invariante_basicas _ _ Hbf1) in H0.
  apply (invariante_subconjuntos _ _ Hbf1) in H0.
  apply (invariante_patrones _ _ Hbf1) in H0.
  match goal with
  | |- context [GestorBanderas.analizarSistemasEcuaciones ?g3] =>
      destruct (GestorBanderas.analizarSistemasEcuaciones g3)
        as [g4| |] eqn:H4; cbn [mbind resultado_bind]; try discriminate
  end.
  apply (invariante_sistemas _ _ _ Hbf1 H0) in H4 as [Hm4 Hc4].
  destruct (validar_revisa g4) as (g5 & Hrun5 & HT & Hrev).
  { intros b Hb. pose proof (Forall_In _ _ _ Hc4 Hb) as Hcb.
    apply (candidataEn_mismaEstructura _ (GestorBanderas.tablero g4)) in Hcb;
      [|apply mismaEstructura_sim, Hm4].
    destruct Hcb as (celda & Hcel & _). exists celda. exact Hcel. }
  rewrite Hrun5. cbn [mbind resultado_bind mret resultado_ret].
  intros [= <- <-]. exists g4. split; [reflexivity|].
  rewrite HT. exact Hrev.
Qed.

(** C1: el lote que devuelve [colocarBanderasSeguras], sobre un tablero
    coherente, no hace que ninguna restricción vea superado su dígito: para
    cada restricción que afecta a una bandera del lote, y en general para
    cada celda numérica, las banderas ya puestas más las del lote a su
    alrededor no pasan de su dígito, o bien el lote no añade ninguna a su
    alrededor; y la pasada no revela ni abandera nada. Ese lote es el que
    deja la revisión final de las candidatas anotadas por los cuatro
    análisis. La revisión ([validarConsistenciaGlobal]), sobre cualquier
    lista de candidatas que caigan en el tablero, las repasa en orden
    contando, alrededor de cada restricción que referencia a la candidata,
    las banderas ya puestas, las candidatas ya aceptadas y la propia
    candidata: descarta exactamente las que harían superar su dígito a
    alguna restricción y acepta las demás, sin tocar el tablero; y si las
    restricciones están al día y las candidatas caen en celdas sin
    revelar, el lote revisado respeta todas las restricciones. *)
Theorem C1_lote_respeta_restricciones (g g' : GestorBanderas.t)
    (lote : list GestorBanderas.Bandera) (h : GestorBanderas.t) :
  coherente (GestorBanderas.tablero g) ->
  GestorBanderas.colocarBanderasSeguras g = Devuelve (g', lote) ->
  (forall b, In b (GestorBanderas.banderasColocadas h) ->
     exists celda,
       Tablero.obtenerCelda (GestorBanderas.tablero h)
         (GestorBanderas.b_fila b) (GestorBanderas.b_columna b) = Some celda) ->
  lote = GestorBanderas.banderasColocadas g'
  /\ mismaForma (GestorBanderas.tablero g') (GestorBanderas.tablero g)
  /\ respetaRestricciones (GestorBanderas.tablero g') lote
  /\ (forall fila columna celdaNumerica valor,
        Tablero.obtenerCelda (GestorBanderas.tablero g') fila columna
        = Some celdaNumerica ->
        Celda.tieneValorNumerico celdaNumerica = true ->
        Celda.obtenerValorNumerico celdaNumerica = Some valor ->
        recuento (GestorBanderas.tablero g') lote (fila, columna) <= valor
        \/ recuento (GestorBanderas.tablero g') lote (fila, columna)
           = banderasPuestas (GestorBanderas.tablero g') (fila, columna))
  /\ (exists g4,
        GestorBanderas.analizarSistemasEcuaciones
          (GestorBanderas.analizarPatrones
             (GestorBanderas.analizarSubconjuntos
                (GestorBanderas.analizarRestriccionesBasicas
                   {| GestorBanderas.tablero :=
                        Tablero.actualizarRestricciones
                          (GestorBanderas.tablero g);
                      GestorBanderas.banderasColocadas := [];
                      GestorBanderas.ultimaIteracion :=
                        GestorBanderas.ultimaIteracion g + 1 |})))
        = Devuelve g4
        /\ revisadas (GestorBanderas.tablero g') []
             (GestorBanderas.banderasColocadas g4) lote)
  /\ (exists h',
        GestorBanderas.validarConsistenciaGlobal h = Devuelve h'
        /\ GestorBanderas.tablero h' = GestorBanderas.tablero h
        /\ revisadas (GestorBanderas.tablero h) []
             (GestorBanderas.banderasColocadas h)
             (GestorBanderas.banderasColocadas h')
        /\ (bienFormado (GestorBanderas.tablero h) ->
            restriccionesCompletas (GestorBanderas.tablero h) ->
            Forall (candidataEn (GestorBanderas.tablero h))
                   (GestorBanderas.banderasColocadas h) ->
            respetaRestricciones (GestorBanderas.tablero h)
              (GestorBanderas.banderasColocadas h'))).
Proof.
  intros Hcoh Hrun Hh.
  destruct (colocar_invariante g g' lote Hcoh Hrun) as (Hl & Hm & Hcand & HK).
  set (tb1 := Tablero.actualizarRestricciones (GestorBanderas.tablero g)) in *.
  assert (Hbf1 : bienFormado tb1)
    by (apply actualizarRestricciones_bienFormado, Hcoh).
  assert (Hbf' : bienFormado (GestorBanderas.tablero g')).
  { eapply bienFormado_mismaForma; [|exact Hbf1].
    apply mismaForma_sim, mismaForma_de_estructura, Hm. }
  assert (Hrc' : restriccionesCompletas (GestorBanderas.tablero g')).
  { eapply restriccionesCompletas_mismaEstructura;
      [apply mismaEstructura_sim, Hm|].
    apply actualizarRestricciones_completas, Hcoh. }
  split; [exact Hl|]. split.
  { eapply mismaForma_trans; [apply mismaForma_de_estructura, Hm|].
    apply actualizarRestricciones_forma. }
  split; [exact HK|]. split.
  { intros fila columna celdaNumerica valor Hc Hnum Hval.
    destruct (existsb (GestorBanderas.enLista lote)
                (Tablero.obtenerCeldasAdyacentes (GestorBanderas.tablero g')
                   fila columna)) eqn:Hex.
    - left. apply existsb_exists in Hex as (c & Hc' & Hen).
      apply enLista_existe in Hen as (b & Hb & Hbf & Hbc).
      pose proof (Forall_In _ _ _ Hcand Hb) as Hcb.
      apply (candidataEn_mismaEstructura _ _ _ (mismaEstructura_sim _ _ Hm))
        in Hcb as (celdaB & HcB & HdB & _).
      assert (c = celdaB).
      { eapply (adyacente_en_posicion (GestorBanderas.tablero g')
                  (fila, columna));
          [exact Hbf' | exact Hc' | symmetry; exact Hbf | symmetry; exact Hbc
          | exact HcB]. }
      subst c.
      destruct (Hrc' fila columna celdaNumerica celdaB Hc Hnum Hc' HdB)
        as (r & Hr & Ho).
      specialize (HK b celdaB r celdaNumerica Hb HcB Hr).
      rewrite Ho in HK. cbn [fst snd] in HK.
      specialize (HK Hc Hnum). rewrite Hval in HK. exact HK.
    - right. unfold recuento, banderasPuestas. cbn [fst snd].
      apply filter_largo_ext. intros c Hc'.
      replace (GestorBanderas.enLista lote c) with false;
        [apply orb_false_r|].
      symmetry. destruct (GestorBanderas.enLista lote c) eqn:E;
        [|reflexivity].
      rewrite <- Hex. symmetry. apply existsb_exists. exists c.
      split; assumption. }
  split; [exact (colocar_revisa g g' lote Hcoh Hrun)|].
  destruct (validar_revisa h Hh) as (h' & Hrunh & HT & Hrev).
  exists h'. split; [exact Hrunh|]. split; [exact HT|].
  split; [exact Hrev|].
  intros Hbfh Hrch Hcandh.
  apply (validar_respeta h h' Hbfh Hrch Hcandh Hrunh).
Qed.

Lemma C1_lote_respeta_restricciones_testigo :
  exists g' lote h',
    GestorBanderas.colocarBanderasSeguras gestor_dos_pasadas
    = Devuelve (g', lote)
    /\ posicionesDe lote = [(0, 0); (0, 1)]
    /\ respetaRestricciones (GestorBanderas.tablero g') lote
    /\ posicionesDe (GestorBanderas.banderasColocadas gestor_revision)
       = [(0, 0); (0, 1)]
    /\ GestorBanderas.validarConsistenciaGlobal gestor_revision
       = Devuelve h'
    /\ posicionesDe (GestorBanderas.banderasColocadas h') = [(0, 0)]
    /\ revisadas (GestorBanderas.tablero gestor_revision) []
         (GestorBanderas.banderasColocadas gestor_revision)
         (GestorBanderas.banderasColocadas h').
Proof.
  destruct (GestorBanderas.colocarBanderasSeguras gestor_dos_pasadas)
    as [[g' lote]| |] eqn:Hrun; try (vm_compute in Hrun; discriminate).
  assert (Hcoh : coherente (GestorBanderas.tablero gestor_dos_pasadas)).
  { split; [apply bienFormadoB_correcto; vm_compute; reflexivity|].
    intros H. vm_compute in H. discriminate. }
  assert (Hh : forall b,
             In b (GestorBanderas.banderasColocadas gestor_revision) ->
             exists celda,
               Tablero.obtenerCelda (GestorBanderas.tablero gestor_revision)
                 (GestorBanderas.b_fila b) (GestorBanderas.b_columna b)
               = Some celda).
  { intros b [<- | [<- | []]];
      match goal with
      | |- exists celda, ?x = Some celda =>
          destruct x as [celda|] eqn:E;
          [exists celda; reflexivity | exfalso; vm_compute in E; discriminate]
      end. }
  destruct (C1_lote_respeta_restricciones gestor_dos_pasadas g' lote
              gestor_revision Hcoh Hrun Hh)
    as (_ & _ & HK & _ & _ & (h' & Hrunh & _ & Hrev & _)).
  exists g', lote, h'.
  split; [reflexivity|]. split.
  { vm_compute in Hrun. injection Hrun as _ <-. reflexivity. }
  split; [exact HK|]. split; [reflexivity|]. split; [exact Hrunh|].
  split; [|exact Hrev].
  assert (E : match GestorBanderas.validarConsistenciaGlobal gestor_revision
              with
              | Devuelve x =>
                  posicionesDe (GestorBanderas.banderasColocadas x)
              | _ => []
              end = [(0, 0)]) by (vm_compute; reflexivity).
  rewrite Hrunh in E. exact E.
Defined.

(** ** El filtro de la enumeración *)

Lemma indiceEn_fuera (celdas : list Pos) (p : Pos) :
  ~ In p celdas -> indiceEn celdas p = None.
Proof.
  induction celdas as [|q celdas IH]; intros Hn; cbn [indiceEn];
    [reflexivity|].
  destruct (mismaPos q p) eqn:E.
  - apply mismaPos_eq in E. subst q. exfalso. apply Hn. left. reflexivity.
  - rewrite IH; [reflexivity|]. intros H. apply Hn. right. exact H.
Qed.

(** El mapa [indiceCeldas] da a cada celda del grupo su índice. *)
Lemma indiceDeCeldas_spec (celdas : list Pos) (p : Pos) :
  NoDup celdas ->
  MotorProbabilidad.indiceDeCeldas celdas !! p = indiceEn celdas p.
Proof.
  unfold MotorProbabilidad.indiceDeCeldas, enumerar.
  assert (H : forall l k (mapa : gmap Pos nat),
            NoDup l ->
            fold_left (fun (mapa : gmap Pos nat) '(indice, q) =>
                         <[q := indice]> mapa)
                      (combine (seq k (length l)) l) mapa !! p
            = match indiceEn l p with
              | Some j => Some (k + j)%nat
              | None => mapa !! p
              end).
  { induction l as [|q l IH]; intros k mapa Hnd; [reflexivity|].
    apply NoDup_cons in Hnd as [Hq Hnd].
    cbn [length seq combine fold_left indiceEn]. rewrite (IH _ _ Hnd).
    destruct (mismaPos q p) eqn:E.
    - apply mismaPos_eq in E. subst q.
      rewrite indiceEn_fuera
        by (intros H; apply Hq, list_elem_of_In; exact H).
      rewrite lookup_insert_eq. f_equal. lia.
    - destruct (indiceEn l p) as [j|]; cbn [option_map].
      + f_equal. lia.
      + apply lookup_insert_ne. intros ->.
        rewrite mismaPos_refl in E. discriminate. }
  intros Hnd. rewrite (H celdas 0%nat ∅ Hnd), lookup_empty.
  destruct (indiceEn celdas p); reflexivity.
Qed.

(** La suma [reduce] del filtro es la cuenta de minas en torno a la
    restricción. *)
Lemma minasEnRestriccion_spec tb (celdas : list Pos)
    (c : MotorProbabilidad.Combinacion) (origen : Pos) :
  NoDup celdas ->
  fold_left (fun count indice => count + default 0 (c !! indice))
    (omap (fun v : Celda.t =>
             MotorProbabilidad.indiceDeCeldas celdas !! Celda.pos v)
          (List.filter (fun v => negb (Celda.descubierta v))
             (Tablero.obtenerCeldasAdyacentes tb (fst origen) (snd origen))))
    0
  = minasEnTorno tb celdas c origen.
Proof.
  intros Hnd. unfold minasEnTorno.
  generalize (List.filter (fun v => negb (Celda.descubierta v))
                (Tablero.obtenerCeldasAdyacentes tb (fst origen) (snd origen))).
  intros vs.
  assert (H : forall acc,
            fold_left (fun count indice => count + default 0 (c !! indice))
              (omap (fun v : Celda.t =>
                       MotorProbabilidad.indiceDeCeldas celdas !! Celda.pos v)
                    vs) acc
            = acc + fold_right Z.add 0
                      (map (fun v => minaAsignada celdas c (Celda.pos v)) vs)).
  { induction vs as [|v vs IH]; intros acc;
      cbn [omap list_omap map fold_right fold_left]; [lia|].
    unfold minaAsignada at 1.
    rewrite (indiceDeCeldas_spec celdas (Celda.pos v) Hnd).
    destruct (indiceEn celdas (Celda.pos v)) as [i|]; cbn [fold_left];
      rewrite IH; lia. }
  rewrite H. lia.
Qed.

(** El filtro del código, en los términos de la especificación: una
    combinación pasa si alrededor de cada restricción pone tantas minas
    como su número menos las banderas que la rodean. *)
Lemma esValida_spec tb (grupo : MotorProbabilidad.Grupo)
    (c : MotorProbabilidad.Combinacion) :
  NoDup (MotorProbabilidad.g_celdas grupo) ->
  MotorProbabilidad.esValida
    (MotorProbabilidad.prepararRestricciones tb grupo) c
  = forallb (fun '(origen, valor) =>
               minasEnTorno tb (MotorProbabilidad.g_celdas grupo) c origen
               =? numeroDe valor - banderasPuestas tb origen)
            (MotorProbabilidad.g_restricciones grupo).
Proof.
  intros Hnd.
  unfold MotorProbabilidad.esValida, MotorProbabilidad.prepararRestricciones.
  cbv zeta.
  induction (MotorProbabilidad.g_restricciones grupo) as [|[origen valor] rs IH];
    [reflexivity|].
  cbn [map forallb]. rewrite IH. f_equal.
  rewrite (minasEnRestriccion_spec tb _ c origen Hnd). reflexivity.
Qed.

Lemma esValida_sin_banderas tb (grupo : MotorProbabilidad.Grupo)
    (c : MotorProbabilidad.Combinacion) :
  NoDup (MotorProbabilidad.g_celdas grupo) ->
  sinBanderasEnTorno tb grupo ->
  MotorProbabilidad.esValida
    (MotorProbabilidad.prepararRestricciones tb grupo) c
  = consistenteCon tb grupo c.
Proof.
  intros Hnd Hsin. rewrite (esValida_spec tb grupo c Hnd).
  unfold consistenteCon.
  unfold sinBanderasEnTorno in Hsin.
  induction (MotorProbabilidad.g_restricciones grupo) as [|[o v] rs IH];
    [reflexivity|].
  cbn [forallb]. rewrite (Hsin o v (or_introl eq_refl)), Z.sub_0_r.
  f_equal. apply IH. intros o' v' H. apply (Hsin o' v'). right. exact H.
Qed.

(** Los grupos que forma el motor sobre las celdas sin revelar de un
    tablero con las restricciones al día son cerrados. *)
Lemma grupos_cerrados tb grupos grupo :
  bienFormado tb -> restriccionesCompletas tb -> restriccionesJustas tb ->
  MotorProbabilidad.obtenerGruposConectados tb
    (map Celda.pos (Tablero.obtenerCeldasSinRevolar tb)) = Devuelve grupos ->
  In grupo grupos ->
  grupoCerrado tb grupo.
Proof.
  intros Hbf Hcomp Hj Hrun Hg.
  set (celdas := map Celda.pos (Tablero.obtenerCeldasSinRevolar tb)) in *.
  assert (Hval : forall p, In p celdas ->
            Tablero.esPosicionValida tb (fst p) (snd p) = true).
  { intros p Hp. destruct (sinRevelar_validas tb p Hbf Hp) as (c & Hc & _).
    eapply obtenerCelda_valida, Hc. }
  destruct (grupos_conexos_total tb celdas Hbf Hj Hval)
    as (grupos' & A & Hrun' & _ & _ & H3 & _).
  rewrite Hrun in Hrun'. injection Hrun' as <-. cbn [fst] in H3.
  destruct (H3 grupo Hg)
    as (Hnd & (ini & cini & Hini & Hcini & Hres & Hcon) & _ & Horig & Hnum).
  assert (Hde : forall origen valor,
            In (origen, valor) (MotorProbabilidad.g_restricciones grupo) ->
            exists p celda celdaNumerica numero,
              In p (MotorProbabilidad.g_celdas grupo)
              /\ MotorProbabilidad.celdaEn tb p = Some celda
              /\ In origen (map Celda.celdaOrigen (Celda.restricciones celda))
              /\ Tablero.obtenerCelda tb (fst origen) (snd origen)
                 = Some celdaNumerica
              /\ Celda.tieneValorNumerico celdaNumerica = true
              /\ Celda.obtenerValorNumerico celdaNumerica = Some numero
              /\ valor = Some numero).
  { intros origen valor Hin.
    assert (Ho : In origen
                   (map fst (MotorProbabilidad.g_restricciones grupo))).
    { apply in_map_iff. exists (origen, valor). split; [reflexivity|exact Hin]. }
    apply Horig in Ho as (p & celda & Hp & Hc & Ho).
    pose proof Ho as Ho'.
    apply in_map_iff in Ho' as (r & Hor & Hr).
    destruct p as [f c]. unfold MotorProbabilidad.celdaEn in Hc.
    cbn [fst snd] in Hc.
    destruct (Hj f c celda Hc) as [_ Hjs].
    destruct (Hjs r Hr) as (cn & numero & Hcn & Htn & Hvn & _).
    cbv zeta in Hcn. rewrite Hor in Hcn.
    destruct (Hnum origen valor Hin) as (cn' & numero' & Hcn' & Hvn' & ->).
    unfold MotorProbabilidad.celdaEn in Hcn'. rewrite Hcn in Hcn'.
    injection Hcn' as <-. rewrite Hvn in Hvn'. injection Hvn' as <-.
    exists (f, c), celda, cn, numero. repeat split; assumption. }
  split; [exact Hnd|]. split.
  { intros p Hp. apply Hval.
    apply (conectadas_con_restricciones tb celdas ini cini p Hini Hcini Hres).
    apply Hcon, Hp. }
  split.
  { intros origen valor Hin.
    destruct (Hde origen valor Hin)
      as (p & celda & cn & numero & _ & _ & _ & Hcn & Htn & Hvn & Hv).
    exists cn, numero. repeat split; assumption. }
  intros origen valor vecina Hin Hady Hdes.
  destruct (Hde origen valor Hin)
    as (p & celda & cn & numero & Hp & Hc & Ho & Hcn & Htn & _ & _).
  destruct (Hcomp (fst origen) (snd origen) cn vecina Hcn Htn Hady Hdes)
    as (r' & Hr' & Hor').
  assert (Hcv : Tablero.obtenerCelda tb (Celda.fila vecina)
                  (Celda.columna vecina) = Some vecina).
  { apply adyacente_es_celda in Hady as (d & _ & Hcv).
    destruct (bienFormado_pos _ _ _ _ Hbf Hcv) as [-> ->]. exact Hcv. }
  assert (Hvc : In (Celda.pos vecina) celdas).
  { unfold celdas. apply in_map. unfold Tablero.obtenerCeldasSinRevolar.
    apply filter_In. split; [eapply en_todas; exact Hcv|].
    rewrite Hdes. reflexivity. }
  apply Hcon. eapply conectadas_paso; [apply Hcon, Hp | exact Hvc |].
  exists celda, vecina, origen.
  split; [exact Hc|]. split; [exact Hcv|]. split; [exact Ho|].
  apply in_map_iff. exists r'. split; [|exact Hr'].
  rewrite Hor'. destruct origen; reflexivity.
Qed.

(** C5 (enmendada): para todo grupo conexo de a lo sumo 12 celdas que no
    tiene banderas alrededor de sus restricciones, el motor enumera las
    2^n asignaciones (n <= 10) o, con 11 o 12 celdas, las combinaciones
    distintas de 1000 muestras al azar; se queda exactamente con las
    consistentes con todas las restricciones del grupo (las que ponen
    alrededor de cada celda numérica tantas minas como dice su número) y,
    si hay alguna, ofrece a cada celda la fracción de ellas que le pone
    mina, siempre con confianza 0.8 y origen 'probabilidad', tanto en el
    caso exacto como en el muestreado. El valor se guarda solo si la regla
    de actualización de la celda lo acepta; si no, o si ninguna
    combinación es consistente, la celda queda como estaba. Los grupos que
    el propio motor forma sobre un tablero íntegro con las restricciones
    al día cumplen lo que se pide del grupo y son cerrados: todas las
    celdas sin revelar que rodean a sus restricciones son del grupo. *)
Theorem C5_enumeracion_y_confianza (azar : nat -> float)
    (m : MotorProbabilidad.t) (grupo : MotorProbabilidad.Grupo) :
  let tb := MotorProbabilidad.tablero m in
  let n := length (MotorProbabilidad.g_celdas grupo) in
  let combinaciones :=
    snd (MotorProbabilidad.generarCombinaciones azar m n) in
  let consistentes := List.filter (consistenteCon tb grupo) combinaciones in
  (n <= 12)%nat ->
  NoDup (MotorProbabilidad.g_celdas grupo) ->
  (forall p, In p (MotorProbabilidad.g_celdas grupo) ->
     Tablero.esPosicionValida tb (fst p) (snd p) = true) ->
  sinBanderasEnTorno tb grupo ->
  NoDup combinaciones
  /\ ((n <= 10)%nat ->
      forall c, In c combinaciones <-> esAsignacion n c)
  /\ ((10 < n)%nat ->
      forall c, In c combinaciones
                <-> exists i, (i < 1000)%nat
                              /\ c = MotorProbabilidad.muestra azar
                                       (MotorProbabilidad.usosAzar m) n i)
  /\ (exists m',
        MotorProbabilidad.procesarGrupo azar m grupo = Devuelve m'
        /\ forall i p celda,
             MotorProbabilidad.g_celdas grupo !! i = Some p ->
             MotorProbabilidad.celdaEn tb p = Some celda ->
             exists celda',
               MotorProbabilidad.celdaEn (MotorProbabilidad.tablero m') p
               = Some celda'
               /\ (consistentes <> [] ->
                   Celda.debeActualizar (Celda.probabilidades celda)
                     0.8 "probabilidad" = true ->
                   Celda.probabilidadMina (Celda.probabilidades celda')
                   = fraccionConMina consistentes i
                   /\ Celda.confianza (Celda.probabilidades celda')
                      = 0.8%float
                   /\ Celda.origen (Celda.probabilidades celda')
                      = "probabilidad"%string)
               /\ (consistentes = []
                   \/ Celda.debeActualizar (Celda.probabilidades celda)
                        0.8 "probabilidad" = false ->
                   celda' = celda))
  /\ (forall grupos,
        integro tb ->
        Tablero.restriccionesActualizadas tb = true ->
        MotorProbabilidad.obtenerGruposConectados tb
          (map Celda.pos (Tablero.obtenerCeldasSinRevolar tb))
        = Devuelve grupos ->
        In grupo grupos ->
        grupoCerrado tb grupo).
Proof.
  intros tb n combinaciones consistentes Hn Hnd Hval Hsin.
  assert (Heq : List.filter
                  (MotorProbabilidad.esValida
                     (MotorProbabilidad.prepararRestricciones tb grupo))
                  combinaciones
                = consistentes).
  { apply filter_ext. intros c.
    apply esValida_sin_banderas; assumption. }
  destruct (procesarGrupo_enumera azar m grupo Hn Hnd Hval)
    as (H1 & H2 & H3 & H4).
  fold tb in H4. fold n in H1, H2, H3, H4. fold combinaciones in H1, H2, H3, H4.
  rewrite Heq in H4.
  split; [exact H1|]. split; [exact H2|]. split; [exact H3|].
  split; [exact H4|].
  intros grupos (Hbf & _ & Hres) Hflag Hrun Hg.
  destruct (Hres Hflag) as [Hcomp Hj].
  exact (grupos_cerrados tb grupos grupo Hbf Hcomp Hj Hrun Hg).
Qed.

Lemma C5_enumeracion_y_confianza_testigo :
  sinBanderasEnTorno (MotorProbabilidad.tablero motor_muestreo) grupo_muestreo
  /\ exists m',
       MotorProbabilidad.procesarGrupo azar_por_bits motor_muestreo
         grupo_muestreo = Devuelve m'.
Proof.
  assert (Hn : (length (MotorProbabilidad.g_celdas grupo_muestreo) <= 12)%nat)
    by (cbn; lia).
  assert (Hnd : NoDup (MotorProbabilidad.g_celdas grupo_muestreo))
    by (apply (bool_decide_unpack _); vm_compute; exact I).
  assert (Hval : forall p,
             In p (MotorProbabilidad.g_celdas grupo_muestreo) ->
             Tablero.esPosicionValida
               (MotorProbabilidad.tablero motor_muestreo) (fst p) (snd p)
             = true).
  { intros p Hp. cbn in Hp.
    repeat (destruct Hp as [<-|Hp]; [vm_compute; reflexivity|]).
    destruct Hp. }
  assert (Hsin : sinBanderasEnTorno
                   (MotorProbabilidad.tablero motor_muestreo) grupo_muestreo).
  { intros origen valor Hin. cbn in Hin.
    repeat (destruct Hin as [[= <- <-]|Hin]; [vm_compute; reflexivity|]).
    destruct Hin. }
  split; [exact Hsin|].
  destruct (C5_enumeracion_y_confianza azar_por_bits motor_muestreo
              grupo_muestreo Hn Hnd Hval Hsin)
    as (_ & _ & _ & (m' & Hrun & _) & _).
  exists m'. exact Hrun.
Defined.

(** ** Confianzas por debajo de la certeza *)

(** El orden de [binary64] frente a una constante positiva: lo que no
    supera a [m * 2^e] queda por debajo de toda constante mayor. *)
Lemma SF_bajo_constante (x : spec_float) (m1 m2 : positive) (e1 e2 : Z) :
  e1 < e2 \/ (e1 = e2 /\ (m1 < m2)%positive) ->
  SFleb x (S754_finite false m1 e1) = true ->
  SFltb x (S754_finite false m2 e2) = true.
Proof.
  intros Hlt. unfold SFleb, SFltb.
  destruct x as [s|s| |s m e]; cbn [SFcompare];
    try destruct s; try reflexivity; try discriminate.
  change (PosDef.Pos.compare_cont Eq m m1) with (Pos.compare m m1).
  change (PosDef.Pos.compare_cont Eq m m2) with (Pos.compare m m2).
  destruct (Z.compare_spec e e1) as [->|He|He]; [| |discriminate].
  - destruct (Pos.compare_spec m m1) as [->|Hm|Hm]; try discriminate; intros _.
    + destruct (Z.compare_spec e1 e2) as [->|H|H]; [|reflexivity|lia].
      destruct (Pos.compare_spec m1 m2); [lia|reflexivity|lia].
    + destruct (Z.compare_spec e1 e2) as [->|H|H]; [|reflexivity|lia].
      destruct (Pos.compare_spec m m2); [lia|reflexivity|lia].
  - intros _. destruct (Z.compare_spec e e2) as [->|H|H];
      [lia|reflexivity|lia].
Qed.

Lemma SFltb_SFleb (x y : spec_float) : SFltb x y = true -> SFleb x y = true.
Proof.
  unfold SFltb, SFleb. destruct (SFcompare x y) as [[]|]; auto.
Qed.

(** Lo que una constante positiva no supera, o es [NaN], o no la pasa. *)
Lemma SF_no_superado (x : spec_float) (m1 : positive) (e1 : Z) :
  SFltb (S754_finite false m1 e1) x = false ->
  x = S754_nan \/ SFleb x (S754_finite false m1 e1) = true.
Proof.
  unfold SFleb, SFltb.
  destruct x as [s|s| |s m e]; cbn [SFcompare];
    try destruct s; auto; try discriminate.
  change (PosDef.Pos.compare_cont Eq m1 m) with (Pos.compare m1 m).
  change (PosDef.Pos.compare_cont Eq m m1) with (Pos.compare m m1).
  rewrite (Z.compare_antisym e e1), (Pos.compare_antisym m m1).
  destruct (e ?= e1); cbn [CompOpp]; auto; try discriminate.
  destruct (m ?= m1)%positive; cbn [CompOpp]; auto; discriminate.
Qed.

Lemma no_es_nan (x : float) : Prim2SF x <> S754_nan -> is_nan x = false.
Proof.
  intros H. unfold is_nan. rewrite FloatAxioms.eqb_spec. unfold SFeqb.
  destruct (Prim2SF x) as [s|s| |s m e]; cbn [SFcompare];
    try destruct s; try reflexivity; try congruence.
  - rewrite Z.compare_refl.
    change (PosDef.Pos.compare_cont Eq m m) with (Pos.compare m m).
    rewrite Pos.compare_refl. reflexivity.
  - rewrite Z.compare_refl.
    change (PosDef.Pos.compare_cont Eq m m) with (Pos.compare m m).
    rewrite Pos.compare_refl. reflexivity.
Qed.

Lemma es_nan (x : float) : Prim2SF x = S754_nan -> is_nan x = true.
Proof.
  intros H. unfold is_nan. rewrite FloatAxioms.eqb_spec, H. reflexivity.
Qed.

Lemma SFleb_no_SFltb (x : spec_float) (m1 : positive) (e1 : Z) :
  SFleb x (S754_finite false m1 e1) = true ->
  SFltb (S754_finite false m1 e1) x = false.
Proof.
  unfold SFleb, SFltb.
  destruct x as [s|s| |s m e]; cbn [SFcompare];
    try destruct s; try reflexivity; try discriminate.
  change (PosDef.Pos.compare_cont Eq m1 m) with (Pos.compare m1 m).
  change (PosDef.Pos.compare_cont Eq m m1) with (Pos.compare m m1).
  rewrite (Z.compare_antisym e e1), (Pos.compare_antisym m m1).
  destruct (e ?= e1); cbn [CompOpp]; try reflexivity; try discriminate.
  destruct (m ?= m1)%positive; cbn [CompOpp]; try reflexivity; discriminate.
Qed.

Lemma representacion_095 :
  Prim2SF 0.95 = S754_finite false 8556839292003942 (-53).
Proof. vm_compute. reflexivity. Qed.

(** Una confianza que no pasa de 0.95 no supera el umbral de certeza y
    queda por debajo de 1. *)
Lemma hasta095_no_es_certeza (x : float) :
  JS.menorIgual x 0.95 = true -> JS.mayor x 0.95 = false.
Proof.
  unfold JS.menorIgual, JS.mayor.
  rewrite FloatAxioms.leb_spec, FloatAxioms.ltb_spec, representacion_095.
  apply SFleb_no_SFltb.
Qed.

Lemma hasta095_bajo_uno (x : float) :
  JS.menorIgual x 0.95 = true -> JS.mayor 1 x = true.
Proof.
  unfold JS.menorIgual, JS.mayor.
  rewrite FloatAxioms.leb_spec, FloatAxioms.ltb_spec, representacion_095.
  assert (H1 : Prim2SF 1 = S754_finite false 4503599627370496 (-52))
    by (vm_compute; reflexivity).
  rewrite H1. apply SF_bajo_constante. left. lia.
Qed.

(** Una confianza que la regla de actualización acepta no es [NaN]. *)
Lemma aceptada_no_es_nan (p : Celda.Probabilidades) (conf : float)
    (o : string) :
  Celda.debeActualizar p conf o = true -> Prim2SF conf <> S754_nan.
Proof.
  unfold Celda.debeActualizar, JS.mayor, JS.igual.
  rewrite FloatAxioms.ltb_spec, FloatAxioms.eqb_spec. unfold SFltb, SFeqb. intros H E.
  rewrite E in H.
  destruct (Prim2SF (Celda.confianza p)) as [s|s| |s m e];
    cbn [SFcompare] in H; try destruct s; discriminate.
Qed.

(** [Math.min(k, y)] con [k] igual a 0.7 o a 0.8: o es [NaN], o no pasa
    de 0.95. *)
Lemma min_hasta095 (k y : float) :
  k = 0.7%float \/ k = 0.8%float ->
  Prim2SF (JS.min k y) = S754_nan \/ JS.menorIgual (JS.min k y) 0.95 = true.
Proof.
  intros Hk.
  assert (Hsf : exists mk,
            Prim2SF k = S754_finite false mk (-53)
            /\ (mk < 8556839292003942)%positive).
  { destruct Hk as [-> | ->]; eexists; (split; [vm_compute; reflexivity|lia]). }
  destruct Hsf as (mk & Hsf & Hmk).
  pose proof representacion_095 as H95.
  assert (Hbajo : forall x, SFleb (Prim2SF x) (Prim2SF k) = true ->
                            JS.menorIgual x 0.95 = true).
  { intros x Hx. unfold JS.menorIgual. rewrite FloatAxioms.leb_spec, H95.
    apply SFltb_SFleb. rewrite Hsf in Hx.
    eapply SF_bajo_constante; [|exact Hx]. right. split; [reflexivity|exact Hmk]. }
  assert (Hkk : JS.menorIgual k 0.95 = true).
  { apply Hbajo. rewrite Hsf. unfold SFleb. cbn [SFcompare].
    change (PosDef.Pos.compare_cont Eq mk mk) with (Pos.compare mk mk).
    rewrite Z.compare_refl, Pos.compare_refl. reflexivity. }
  unfold JS.min.
  destruct (is_nan k || is_nan y) eqn:En; [left; vm_compute; reflexivity|].
  apply orb_false_iff in En as [_ Hy].
  destruct (PrimFloat.ltb k y) eqn:E1; [right; exact Hkk|].
  assert (Hyk : JS.menorIgual y 0.95 = true).
  { apply Hbajo. rewrite FloatAxioms.ltb_spec, Hsf in E1.
    destruct (SF_no_superado _ _ _ E1) as [Hn | Hle].
    - apply es_nan in Hn. congruence.
    - rewrite Hsf. exact Hle. }
  destruct (PrimFloat.ltb y k); [right; exact Hyk|].
  destruct (get_sign k); right; assumption.
Qed.

(** [Math.max(a, b)] cuando [b > a] es [b]. *)
Lemma max_del_mayor (a b : float) : JS.mayor b a = true -> JS.max a b = b.
Proof.
  unfold JS.mayor, JS.max. intros H. rewrite H.
  assert (Hn : is_nan a = false /\ is_nan b = false).
  { rewrite FloatAxioms.ltb_spec in H. unfold SFltb in H.
    split; apply no_es_nan; intros E; rewrite E in H.
    - discriminate.
    - destruct (Prim2SF a) as [s|s| |s m e]; cbn [SFcompare] in H;
        try destruct s; discriminate. }
  destruct Hn as [-> ->]. reflexivity.
Qed.

(** La confianza de la etapa local, [0.5 + 0.3 / sqrt(n)], con a lo sumo
    ocho celdas bajo la misma restricción. *)
Lemma confianza_local_hasta095 (n : Z) :
  1 <= n <= 8 ->
  JS.menorIgual (0.5 + 0.3 / JS.sqrt (JS.num n))%float 0.95 = true.
Proof.
  intros Hn.
  assert (H : n = 1 \/ n = 2 \/ n = 3 \/ n = 4 \/ n = 5 \/ n = 6 \/ n = 7
              \/ n = 8) by lia.
  repeat (destruct H as [-> | H]; [vm_compute; reflexivity|]).
  subst n. vm_compute. reflexivity.
Qed.

(** ** La anulación junto a un cero *)

Lemma mayor_no_es_nan (x y : float) :
  JS.mayor x y = true -> Prim2SF x <> S754_nan.
Proof.
  unfold JS.mayor. rewrite FloatAxioms.ltb_spec. unfold SFltb. intros H E.
  rewrite E in H.
  destruct (Prim2SF y) as [s|s| |s m e]; cbn [SFcompare] in H;
    try destruct s; discriminate.
Qed.

(** *** La etapa local: a lo sumo ocho celdas bajo una restricción *)

Lemma insertarOrdenado_largo q (l : list Pos) :
  length (MotorProbabilidad.insertarOrdenado q l) = S (length l).
Proof.
  induction l as [|x l IH]; cbn [MotorProbabilidad.insertarOrdenado length];
    [reflexivity|].
  destruct (MotorProbabilidad.posMenorIgual q x); cbn [length]; lia.
Qed.

Lemma clave_de_una_restriccion (celda : Celda.t) (o : Pos) :
  MotorProbabilidad.claveDeRestricciones celda = [o] ->
  exists r, Celda.restricciones celda = [r] /\ Celda.celdaOrigen r = o.
Proof.
  unfold MotorProbabilidad.claveDeRestricciones.
  destruct (Celda.restricciones celda) as [|r [|r' rs]]; cbn [map fold_right].
  - discriminate.
  - cbn [MotorProbabilidad.insertarOrdenado]. intros [= <-]. eauto.
  - intros H. apply (f_equal (@length Pos)) in H.
    rewrite !insertarOrdenado_largo in H. cbn [length] in H. lia.
Qed.

Lemma grupoLocalSano_menos tb q pendientes clave grupo :
  grupoLocalSano tb (q :: pendientes) clave grupo ->
  grupoLocalSano tb pendientes clave grupo.
Proof.
  intros (H1 & H2 & H3). split; [exact H1|]. split; [|exact H3].
  intros x Hx. destruct (H2 x Hx) as [Hn Hc]. split; [|exact Hc].
  intros H. apply Hn. right. exact H.
Qed.

Lemma agregarAlGrupo_sano tb pendientes celda
    (grupos : list (list Pos * MotorProbabilidad.GrupoLocal)) :
  MotorProbabilidad.celdaEn tb (Celda.pos celda) = Some celda ->
  ~ In (Celda.pos celda) pendientes ->
  (forall k gr, In (k, gr) grupos ->
     grupoLocalSano tb (Celda.pos celda :: pendientes) k gr) ->
  forall k gr,
    In (k, gr)
       (MotorProbabilidad.agregarAlGrupo
          (MotorProbabilidad.claveDeRestricciones celda) celda grupos) ->
    grupoLocalSano tb pendientes k gr.
Proof.
  intros Hc Hq.
  induction grupos as [|[k1 g1] grupos IH]; intros HG k gr Hin;
    cbn [MotorProbabilidad.agregarAlGrupo] in Hin.
  - destruct Hin as [[= <- <-]|[]].
    split; [apply NoDup_singleton|]. split.
    + intros x [<-|[]]. split; [exact Hq|]. exists celda. auto.
    + exists celda. auto.
  - destruct (bool_decide (k1 = _)) eqn:Eb.
    + apply bool_decide_eq_true in Eb.
      destruct Hin as [[= <- <-]|Hin].
      * destruct (HG k1 g1 (or_introl eq_refl)) as (H1 & H2 & H3).
        cbn [MotorProbabilidad.gl_celdas MotorProbabilidad.gl_restricciones].
        split.
        { apply NoDup_app. split; [exact H1|].
          split; [|apply NoDup_singleton].
          intros x Hx Hx'. apply list_elem_of_In in Hx, Hx'.
          destruct Hx' as [<-|[]]. destruct (H2 _ Hx) as [Hn _].
          apply Hn. left. reflexivity. }
        split; [|exact H3].
        intros x Hx. apply in_app_or in Hx as [Hx|[<-|[]]].
        { destruct (H2 x Hx) as [Hn Hcx]. split; [|exact Hcx].
          intros H. apply Hn. right. exact H. }
        split; [exact Hq|]. exists celda. split; [exact Hc|].
        symmetry. exact Eb.
      * eapply grupoLocalSano_menos. apply HG. right. exact Hin.
    + destruct Hin as [[= <- <-]|Hin].
      * eapply grupoLocalSano_menos. apply HG. left. reflexivity.
      * apply IH; [|exact Hin]. intros k' g' H'. apply HG. right. exact H'.
Qed.

Lemma grupos_locales (tb : Tablero.t) :
  bienFormado tb ->
  forall (resto : list Pos)
         (grupos : list (list Pos * MotorProbabilidad.GrupoLocal)),
    NoDup resto ->
    (forall k gr, In (k, gr) grupos -> grupoLocalSano tb resto k gr) ->
    forall k gr,
      In (k, gr)
         (fold_left (fun grupos q =>
            match MotorProbabilidad.celdaEn tb q with
            | Some celda =>
                if 0 <? largo (Celda.restricciones celda)
                then MotorProbabilidad.agregarAlGrupo
                       (MotorProbabilidad.claveDeRestricciones celda)
                       celda grupos
                else grupos
            | None => grupos
            end) resto grupos) ->
      grupoLocalSano tb [] k gr.
Proof.
  intros Hbf. induction resto as [|q resto IH]; intros grupos Hnd HG k gr Hin;
    cbn [fold_left] in Hin.
  - apply HG, Hin.
  - apply NoDup_cons in Hnd as [Hq Hnd].
    revert Hin. apply IH; [exact Hnd|]. clear k gr.
    destruct (MotorProbabilidad.celdaEn tb q) as [celda|] eqn:Hc.
    2:{ intros k gr Hin. eapply grupoLocalSano_menos, HG, Hin. }
    destruct (0 <? _).
    2:{ intros k gr Hin. eapply grupoLocalSano_menos, HG, Hin. }
    assert (Hpos : Celda.pos celda = q).
    { destruct q as [f c]. unfold MotorProbabilidad.celdaEn in Hc.
      cbn [fst snd] in Hc.
      destruct (bienFormado_pos _ _ _ _ Hbf Hc) as [<- <-]. reflexivity. }
    apply agregarAlGrupo_sano.
    + rewrite Hpos. exact Hc.
    + rewrite Hpos. intros H. apply Hq, list_elem_of_In. exact H.
    + rewrite Hpos. exact HG.
Qed.

(** Bajo una sola restricción hay a lo sumo ocho celdas. *)
Lemma grupo_local_hasta_ocho tb k gr r :
  bienFormado tb -> restriccionesJustas tb ->
  grupoLocalSano tb [] k gr ->
  MotorProbabilidad.gl_restricciones gr = [r] ->
  (length (MotorProbabilidad.gl_celdas gr) <= 8)%nat.
Proof.
  intros Hbf Hj (Hnd & Hcel & celda0 & Hk & Hr0) Hr.
  rewrite Hr in Hr0.
  assert (Hclave : k = [Celda.celdaOrigen r]).
  { rewrite <- Hk. unfold MotorProbabilidad.claveDeRestricciones.
    rewrite <- Hr0. reflexivity. }
  set (o := Celda.celdaOrigen r) in *.
  transitivity (length (map Celda.pos
                          (Tablero.obtenerCeldasAdyacentes tb (fst o) (snd o)))).
  - apply NoDup_incl_length; [apply NoDup_ListNoDup, Hnd|].
    intros q Hq. destruct (Hcel q Hq) as (_ & celda & Hc & Hkc).
    rewrite Hclave in Hkc.
    destruct (clave_de_una_restriccion celda o Hkc) as (rq & Hrq & Ho).
    destruct q as [f c]. unfold MotorProbabilidad.celdaEn in Hc.
    cbn [fst snd] in Hc.
    destruct (Hj f c celda Hc) as [_ Hjs].
    destruct (Hjs rq) as (cn & valor & _ & _ & _ & _ & _ & _ & Haf & Hin).
    { rewrite Hrq. left. reflexivity. }
    cbv zeta in Haf. rewrite Haf, Ho in Hin.
    apply in_map_iff in Hin as (v & Hv & Hvin).
    apply filter_In in Hvin as [Hvin _].
    apply in_map_iff. exists v. auto.
  - rewrite length_map. unfold Tablero.obtenerCeldasAdyacentes.
    etransitivity; [apply omap_acotado|]. reflexivity.
Qed.

Section SinCerteza.
Variable tb0 : Tablero.t.
Variable p : Pos.
Hypothesis Hbf0 : bienFormado tb0.

Lemma sinCertezaTras_bienFormado m :
  sinCertezaTras tb0 p m -> bienFormado (MotorProbabilidad.tablero m).
Proof.
  intros [Hm _]. eapply bienFormado_mismaForma; [|exact Hbf0].
  apply mismaForma_sim, mismaForma_de_estructura, Hm.
Qed.

(** Una anotación que, de caer en [p], no lleva una confianza mayor que
    0.95 deja la celda de [p] sin certeza. *)
Lemma actualizar_sinCerteza m q prob conf o celda :
  sinCertezaTras tb0 p m ->
  MotorProbabilidad.celdaEn (MotorProbabilidad.tablero m) q = Some celda ->
  (q = p ->
   Celda.debeActualizar (Celda.probabilidades celda) conf o = true ->
   JS.menorIgual conf 0.95 = true) ->
  sinCertezaTras tb0 p (MotorProbabilidad.actualizar m q prob conf o).
Proof.
  intros [Hm (cp & Hcp & Hconf)] Hc Hq.
  unfold sinCertezaTras, MotorProbabilidad.actualizar.
  cbn [MotorProbabilidad.conTablero MotorProbabilidad.tablero].
  split.
  { eapply mismaEstructura_trans; [|exact Hm].
    apply mismaEstructura_modificar. intros c.
    apply estructura_actualizarProbabilidades. }
  destruct (decide (q = p)) as [->|Hne].
  - unfold MotorProbabilidad.celdaEn in Hc. rewrite Hcp in Hc.
    injection Hc as <-.
    exists (Celda.actualizarProbabilidades cp prob conf o). split.
    + destruct p as [f c]. cbn [fst snd] in *.
      exact (obtenerCelda_modificar_misma _ f c _ cp Hcp).
    + unfold Celda.actualizarProbabilidades.
      specialize (Hq eq_refl).
      destruct (Celda.debeActualizar _ _ _); [|exact Hconf].
      cbn. apply Hq. reflexivity.
  - exists cp. split; [|exact Hconf].
    rewrite obtenerCelda_modificar_otra; [exact Hcp| |].
    + eapply obtenerCelda_valida. exact Hc.
    + intros E. apply Hne. rewrite <- E. destruct p; reflexivity.
Qed.

Lemma actualizar_sinCerteza_valida m q prob conf o :
  sinCertezaTras tb0 p m ->
  Tablero.esPosicionValida tb0 (fst q) (snd q) = true ->
  JS.menorIgual conf 0.95 = true ->
  sinCertezaTras tb0 p (MotorProbabilidad.actualizar m q prob conf o).
Proof.
  intros HP Hv Hconf.
  destruct (Hbf0 _ _ Hv) as (c0 & Hc0 & _).
  destruct HP as [Hm Hs].
  destruct (mismaEstructura_celda _ _ _ _ _ (mismaEstructura_sim _ _ Hm) Hc0)
    as (c & Hc & _).
  eapply actualizar_sinCerteza; [split; eassumption | exact Hc |].
  intros _ _. exact Hconf.
Qed.

(** Un [forEach] cuyo cuerpo conserva la falta de certeza en [p]. *)
Lemma porCadaCelda_sinCerteza (sub : list Pos)
    (cuerpo : MotorProbabilidad.t -> Celda.t -> MotorProbabilidad.t) :
  (forall m1 celda,
     sinCertezaTras tb0 p m1 ->
     MotorProbabilidad.celdaEn (MotorProbabilidad.tablero m1) (Celda.pos celda)
     = Some celda ->
     sinCertezaTras tb0 p (cuerpo m1 celda)) ->
  forall m, sinCertezaTras tb0 p m ->
    sinCertezaTras tb0 p (MotorProbabilidad.porCadaCelda sub m cuerpo).
Proof.
  intros Hcuerpo m Hm. unfold MotorProbabilidad.porCadaCelda.
  apply fold_left_invariante; [exact Hm|].
  intros m1 q _ H1.
  destruct (MotorProbabilidad.celdaEn (MotorProbabilidad.tablero m1) q)
    as [celda|] eqn:Hc; [|exact H1].
  apply Hcuerpo; [exact H1|].
  assert (Hpos : Celda.pos celda = q).
  { destruct q as [f c]. unfold MotorProbabilidad.celdaEn in Hc.
    cbn [fst snd] in Hc.
    destruct (bienFormado_pos _ _ _ _ (sinCertezaTras_bienFormado _ H1) Hc)
      as [<- <-]. reflexivity. }
  rewrite Hpos. exact Hc.
Qed.

Lemma base_sinCerteza m celdas :
  sinCertezaTras tb0 p m ->
  sinCertezaTras tb0 p
    (MotorProbabilidad.inicializarProbabilidadesBase m celdas).
Proof.
  intros Hm. unfold MotorProbabilidad.inicializarProbabilidadesBase.
  cbv zeta. apply porCadaCelda_sinCerteza; [|exact Hm].
  intros m1 celda H1 Hc.
  destruct (JS.menor _ _); [|exact H1].
  eapply actualizar_sinCerteza; [exact H1 | exact Hc |].
  intros _ _. reflexivity.
Qed.

Lemma frontera_sinCerteza m celdas :
  sinCertezaTras tb0 p m ->
  sinCertezaTras tb0 p
    (MotorProbabilidad.calcularProbabilidadesFrontera m celdas).
Proof.
  intros Hm. unfold MotorProbabilidad.calcularProbabilidadesFrontera.
  cbv zeta. apply porCadaCelda_sinCerteza.
  - intros m1 celda H1 Hc.
    destruct (JS.menor _ _); [|exact H1].
    eapply actualizar_sinCerteza; [exact H1 | exact Hc |].
    intros _ _. reflexivity.
  - apply porCadaCelda_sinCerteza; [|exact Hm].
    intros m1 celda H1 Hc.
    destruct (fold_left _ _ _) as [influenciaTotal factorTotal].
    destruct (JS.mayor _ _); [|exact H1].
    eapply actualizar_sinCerteza; [exact H1 | exact Hc |].
    intros _ Hd. apply aceptada_no_es_nan in Hd.
    destruct (min_hasta095 0.7
                (0.4 + 0.1 * JS.num (largo
                   (List.filter Celda.descubierta
                      (Tablero.obtenerCeldasAdyacentes
                         (MotorProbabilidad.tablero m1)
                         (Celda.fila celda) (Celda.columna celda)))))%float)
      as [Hn | Hle]; [left; reflexivity | contradiction | exact Hle].
Qed.

Lemma memoria_sinCerteza m celdas gm :
  sinCertezaTras tb0 p m ->
  sinCertezaTras tb0 p
    (MotorProbabilidad.integrarMemoriaHistorica m celdas gm).
Proof.
  intros Hm. unfold MotorProbabilidad.integrarMemoriaHistorica.
  cbv zeta. apply porCadaCelda_sinCerteza; [|exact Hm].
  intros m1 celda H1 Hc.
  destruct (_ !! Celda.pos celda) as [info|]; [|exact H1].
  destruct (0 <? _); [|exact H1].
  match goal with
  | |- context [JS.mayor ?h 0.4 && JS.mayor ?h ?a] =>
      set (confianzaHistorica := h);
      destruct (JS.mayor confianzaHistorica 0.4) eqn:E1; [|exact H1];
      destruct (JS.mayor confianzaHistorica a) eqn:E2; [|exact H1]
  end.
  cbn [andb]. rewrite (max_del_mayor _ _ E2).
  eapply actualizar_sinCerteza; [exact H1 | exact Hc |].
  intros _ _. apply mayor_no_es_nan in E1.
  unfold confianzaHistorica in *.
  match goal with
  | |- JS.menorIgual (JS.min 0.8 ?y) _ = true =>
      destruct (min_hasta095 0.8 y) as [Hn | Hle];
      [right; reflexivity | contradiction | exact Hle]
  end.
Qed.

Lemma certezas_sinCerteza m celdas :
  sinCertezaTras tb0 p m ->
  sinCertezaTras tb0 p
    (MotorProbabilidad.identificarCasosConCerteza m celdas).
Proof.
  intros Hm. unfold MotorProbabilidad.identificarCasosConCerteza.
  apply porCadaCelda_sinCerteza; [|exact Hm].
  intros m1 celda H1 Hc. cbv zeta.
  destruct (decide (Celda.pos celda = p)) as [Hp|Hp].
  - destruct H1 as [Hm1 (cp & Hcp & Hconf)].
    unfold MotorProbabilidad.celdaEn in Hc. rewrite Hp, Hcp in Hc.
    injection Hc as <-.
    rewrite (hasta095_no_es_certeza _ Hconf), !andb_false_r.
    split; [exact Hm1|]. exists cp. auto.
  - destruct (_ && _).
    + eapply actualizar_sinCerteza; [exact H1 | exact Hc |].
      intros E. contradiction.
    + destruct (_ && _); [|exact H1].
      eapply actualizar_sinCerteza; [exact H1 | exact Hc |].
      intros E. contradiction.
Qed.

Hypothesis Hj0 : restriccionesJustas tb0.

Lemma locales_sinCerteza m celdas :
  NoDup celdas ->
  sinCertezaTras tb0 p m ->
  sinCertezaTras tb0 p
    (MotorProbabilidad.calcularProbabilidadesLocales m celdas).
Proof.
  intros Hnd Hm. unfold MotorProbabilidad.calcularProbabilidadesLocales.
  cbv zeta.
  pose proof (sinCertezaTras_bienFormado _ Hm) as Hbf.
  assert (Hj : restriccionesJustas (MotorProbabilidad.tablero m)).
  { eapply restriccionesJustas_mismaEstructura; [|exact Hj0].
    apply mismaEstructura_sim, Hm. }
  pose proof (grupos_locales (MotorProbabilidad.tablero m) Hbf celdas []
                Hnd (fun k gr H => match H with end)) as Hg.
  match type of Hg with
  | forall k gr, In (k, gr) ?l -> _ => generalize dependent l
  end.
  intros grupos Hg.
  apply fold_left_invariante; [exact Hm|].
  intros m1 [k gr] Hin H1.
  destruct (0 <? largo (MotorProbabilidad.gl_celdas gr)) eqn:Epos;
    cbn [andb]; [|exact H1].
  destruct (0 <? largo (MotorProbabilidad.gl_restricciones gr)); [|exact H1].
  destruct (MotorProbabilidad.gl_restricciones gr) as [|r [|r' rs]] eqn:Hr;
    try exact H1.
  pose proof (grupo_local_hasta_ocho _ k gr r Hbf Hj (Hg k gr Hin) Hr) as H8.
  apply Z.ltb_lt in Epos.
  apply porCadaCelda_sinCerteza; [|exact H1].
  intros m2 celda H2 Hc.
  eapply actualizar_sinCerteza; [exact H2 | exact Hc |].
  intros _ _. apply confianza_local_hasta095.
  unfold largo in *. lia.
Qed.

Lemma sinCertezaTras_sin_anotar m m1 :
  soloProbabilidades [] m m1 ->
  sinCertezaTras tb0 p m -> sinCertezaTras tb0 p m1.
Proof.
  intros (Hs & Hig & _) [Hm (cp & Hcp & Hconf)]. split.
  - eapply mismaEstructura_trans; eauto.
  - exists cp. split; [|exact Hconf]. rewrite Hig; [exact Hcp|]. intros [].
Qed.

Lemma aplicar_sinCerteza (grupo : MotorProbabilidad.Grupo)
    (probs : list float) (conf : float) m m' :
  (forall q, In q (MotorProbabilidad.g_celdas grupo) ->
     Tablero.esPosicionValida tb0 (fst q) (snd q) = true) ->
  JS.menorIgual conf 0.95 = true ->
  sinCertezaTras tb0 p m ->
  MotorProbabilidad.aplicarProbabilidades m grupo probs conf = Devuelve m' ->
  sinCertezaTras tb0 p m'.
Proof.
  intros Hval Hconf Hm. unfold MotorProbabilidad.aplicarProbabilidades.
  apply plegarR_invariante; [exact Hm|].
  intros s [i prob] s' _ Hs.
  destruct (MotorProbabilidad.g_celdas grupo !! i) as [q|] eqn:Hq;
    [|discriminate].
  intros [= <-]. apply actualizar_sinCerteza_valida; [exact Hs| |exact Hconf].
  apply Hval, list_elem_of_In. eapply list_elem_of_lookup_2. exact Hq.
Qed.

Lemma globales_sinCerteza azar m celdas m' :
  (forall q, In q celdas ->
     Tablero.esPosicionValida tb0 (fst q) (snd q) = true) ->
  sinCertezaTras tb0 p m ->
  MotorProbabilidad.calcularProbabilidadesGlobales azar m celdas
  = Devuelve m' ->
  sinCertezaTras tb0 p m'.
Proof.
  intros Hval Hm. unfold MotorProbabilidad.calcularProbabilidadesGlobales.
  pose proof (sinCertezaTras_bienFormado _ Hm) as Hbf.
  assert (Hj : restriccionesJustas (MotorProbabilidad.tablero m)).
  { eapply restriccionesJustas_mismaEstructura; [|exact Hj0].
    apply mismaEstructura_sim, Hm. }
  assert (Hvalm : forall q, In q celdas ->
            Tablero.esPosicionValida (MotorProbabilidad.tablero m)
              (fst q) (snd q) = true).
  { intros q Hq. destruct Hm as ((Hf & Hc & _) & _).
    unfold Tablero.esPosicionValida in *. rewrite Hf, Hc. apply Hval, Hq. }
  destruct (grupos_conexos_total _ celdas Hbf Hj Hvalm)
    as (grupos & A & Hrun & _ & _ & Hg & _).
  rewrite Hrun. cbn [mbind resultado_bind]. cbn [fst] in Hg.
  destruct (plegarR (MotorProbabilidad.procesarGrupo azar) grupos m)
    as [m1| |] eqn:E1; cbn [mbind resultado_bind mret resultado_ret];
    try discriminate.
  intros [= <-].
  assert (H1 : sinCertezaTras tb0 p m1).
  { revert E1. apply plegarR_invariante; [exact Hm|].
    intros s grupo s' Hin Hs.
    assert (Hvg : forall q, In q (MotorProbabilidad.g_celdas grupo) ->
              Tablero.esPosicionValida tb0 (fst q) (snd q) = true).
    { intros q Hq.
      destruct (Hg grupo Hin)
        as (_ & (ini & cini & Hini & Hcini & Hres & Hcon) & _).
      apply Hcon in Hq.
      destruct (conectadas_con_restricciones _ _ _ _ _ Hini Hcini Hres Hq)
        as [Hqc _].
      apply Hval, Hqc. }
    unfold MotorProbabilidad.procesarGrupo.
    destruct (_ <=? 12).
    - destruct (enumeracion_solo [] azar s grupo) as [Hsolo _].
      destruct (MotorProbabilidad.calcularProbabilidadesPorEnumeracion
                  azar s grupo) as [s1 [probs|]]; cbn [fst] in Hsolo.
      + apply (aplicar_sinCerteza grupo probs 0.8 s1 s' Hvg eq_refl).
        eapply sinCertezaTras_sin_anotar; eauto.
      + intros [= <-]. eapply sinCertezaTras_sin_anotar; eauto.
    - destruct (MotorProbabilidad.calcularProbabilidadesPorModeloLineal
                  s grupo) as [probs|].
      + apply (aplicar_sinCerteza grupo probs 0.6 s s' Hvg eq_refl Hs).
      + intros [= <-]. exact Hs. }
  apply porCadaCelda_sinCerteza; [|exact H1].
  intros m2 celda H2 Hc.
  destruct (_ =? 0); [|exact H2].
  eapply actualizar_sinCerteza; [exact H2 | exact Hc |].
  intros _ _. reflexivity.
Qed.

End SinCerteza.

(** *** El ajuste final *)

(** Sobre una celda sin certeza, la anulación se guarda. *)
Lemma anular_sin_certeza (celda : Celda.t) :
  JS.menorIgual (Celda.confianza (Celda.probabilidades celda)) 0.95 = true ->
  anulada (Celda.actualizarProbabilidades celda 0 1 "analisis100").
Proof.
  intros H. unfold Celda.actualizarProbabilidades, Celda.debeActualizar.
  rewrite (hasta095_bajo_uno _ H). cbn [orb]. repeat split.
Qed.

(** Una celda anulada rechaza toda otra anotación de confianza 1 y origen
    'analisis100'. *)
Lemma anulada_firme (celda : Celda.t) (prob : float) :
  anulada celda ->
  Celda.actualizarProbabilidades celda prob 1 "analisis100" = celda.
Proof.
  intros (_ & _ & Hc & Ho).
  unfold Celda.actualizarProbabilidades, Celda.debeActualizar.
  rewrite Hc, Ho. reflexivity.
Qed.

Lemma casosEspeciales_anula (tb0 : Tablero.t) (p : Pos)
    (celda0 : Celda.t) :
  bienFormado tb0 ->
  Tablero.obtenerCelda tb0 (fst p) (snd p) = Some celda0 ->
  juntoAUnCero tb0 celda0 ->
  forall (celdas : list Pos) (m : MotorProbabilidad.t),
    mismaEstructura (MotorProbabilidad.tablero m) tb0 ->
    (exists celda,
       Tablero.obtenerCelda (MotorProbabilidad.tablero m) (fst p) (snd p)
       = Some celda
       /\ (anulada celda
           \/ (In p celdas
               /\ JS.menorIgual
                    (Celda.confianza (Celda.probabilidades celda)) 0.95
                  = true))) ->
    exists celda,
      Tablero.obtenerCelda
        (MotorProbabilidad.tablero
           (MotorProbabilidad.ajustarCasosEspeciales m celdas))
        (fst p) (snd p) = Some celda
      /\ anulada celda.
Proof.
  intros Hbf0 Hc0 Hcero. unfold MotorProbabilidad.ajustarCasosEspeciales,
    MotorProbabilidad.porCadaCelda.
  induction celdas as [|q celdas IH]; intros m Hm (cp & Hcp & Hest);
    cbn [fold_left].
  - exists cp. split; [exact Hcp|]. destruct Hest as [H | [[] _]]. exact H.
  - assert (Hbf : bienFormado (MotorProbabilidad.tablero m)).
    { eapply bienFormado_mismaForma; [|exact Hbf0].
      apply mismaForma_sim, mismaForma_de_estructura, Hm. }
    destruct (MotorProbabilidad.celdaEn (MotorProbabilidad.tablero m) q)
      as [celda|] eqn:Hc.
    2:{ apply IH; [exact Hm|]. exists cp. split; [exact Hcp|].
        destruct Hest as [H | [[-> | Hin] Hconf]]; auto.
        unfold MotorProbabilidad.celdaEn in Hc. congruence. }
    assert (Hpos : Celda.pos celda = q).
    { destruct q as [f c]. unfold MotorProbabilidad.celdaEn in Hc.
      cbn [fst snd] in Hc.
      destruct (bienFormado_pos _ _ _ _ Hbf Hc) as [<- <-]. reflexivity. }
    cbv zeta. rewrite Hpos.
    set (adyacentes := Tablero.obtenerCeldasAdyacentes
                         (MotorProbabilidad.tablero m)
                         (Celda.fila celda) (Celda.columna celda)).
    set (adyacenteVacia :=
           existsb (fun adj =>
                      Celda.descubierta adj
                      && (Celda.valor_eqb (Celda.valor adj) Celda.Vacia
                          || Celda.valor_eqb (Celda.valor adj)
                               (Celda.Numero 0)))
                   adyacentes).
    set (m1 := if adyacenteVacia
               then MotorProbabilidad.actualizar m q 0 1 "analisis100"
               else m).
    set (m2 := if Celda.esEsquina celda then _ else m1).
    assert (Hm2 : exists x y : bool,
              m2 = (if x
                    then MotorProbabilidad.actualizar m1 q 1 1 "analisis100"
                    else m1)
              /\ m1 = (if y
                       then MotorProbabilidad.actualizar m q 0 1 "analisis100"
                       else m)
              /\ y = adyacenteVacia).
    { unfold m2. destruct (Celda.esEsquina celda);
        [|exists false, adyacenteVacia; repeat split; reflexivity].
      destruct (_ =? 1);
        [|exists false, adyacenteVacia; repeat split; reflexivity].
      match goal with
      | |- context [if ?b then MotorProbabilidad.actualizar m1 _ _ _ _ else _] =>
          exists b, adyacenteVacia
      end.
      repeat split; reflexivity. }
    clearbody m2. destruct Hm2 as (x & y & -> & Hm1 & Hy).
    assert (HmA : forall m' prob,
              mismaEstructura (MotorProbabilidad.tablero m') tb0 ->
              mismaEstructura
                (MotorProbabilidad.tablero
                   (MotorProbabilidad.actualizar m' q prob 1 "analisis100"))
                tb0).
    { intros m' prob Hm'. eapply mismaEstructura_trans; [|exact Hm'].
      apply mismaEstructura_modificar. intros c.
      apply estructura_actualizarProbabilidades. }
    assert (Hm1e : mismaEstructura (MotorProbabilidad.tablero m1) tb0)
      by (rewrite Hm1; destruct y; [apply HmA|]; exact Hm).
    apply IH.
    { destruct x; [apply HmA|]; exact Hm1e. }
    destruct (decide (q = p)) as [->|Hne].
    + (* la celda de [p] *)
      unfold MotorProbabilidad.celdaEn in Hc. rewrite Hcp in Hc.
      injection Hc as <-.
      assert (Hy' : y = true).
      { rewrite Hy. unfold adyacenteVacia. apply existsb_exists.
        destruct Hcero as (ady0 & Hady0 & Hd0 & Hv0).
        destruct (bienFormado_pos _ _ _ _ Hbf0 Hc0) as [Hf0 Hco0].
        destruct (bienFormado_pos _ _ _ _ Hbf Hcp) as [Hf Hco].
        rewrite Hf0, Hco0 in Hady0.
        destruct (adyacente_mismaEstructura tb0 (MotorProbabilidad.tablero m)
                    (fst p) (snd p) ady0 (mismaEstructura_sim _ _ Hm) Hady0)
          as (ady & Hady & He).
        apply estructura_campos in He as (_ & _ & Hd & _ & Hv & _).
        exists ady. split.
        - unfold adyacentes. rewrite Hf, Hco. exact Hady.
        - rewrite Hd, Hd0, Hv. cbn [andb].
          destruct Hv0 as [-> | ->]; reflexivity. }
      rewrite Hy' in Hm1. cbv iota in Hm1.
      assert (Hcp1 : exists c1,
                Tablero.obtenerCelda (MotorProbabilidad.tablero m1)
                  (fst p) (snd p) = Some c1 /\ anulada c1).
      { exists (Celda.actualizarProbabilidades cp 0 1 "analisis100").
        split.
        - rewrite Hm1. apply (celdaEn_actualizar_misma m p). exact Hcp.
        - destruct Hest as [H | [_ H]].
          + rewrite (anulada_firme cp 0 H). exact H.
          + apply anular_sin_certeza, H. }
      destruct Hcp1 as (c1 & Hc1 & Ha1).
      exists c1. split; [|left; exact Ha1].
      destruct x; [|exact Hc1].
      rewrite <- (anulada_firme c1 1 Ha1) at 1.
      exact (celdaEn_actualizar_misma m1 p 1 1 "analisis100" c1 Hc1).
    + (* otra celda *)
      assert (Hv : Tablero.esPosicionValida (MotorProbabilidad.tablero m)
                     (fst q) (snd q) = true)
        by (eapply obtenerCelda_valida; exact Hc).
      assert (Hv1 : Tablero.esPosicionValida (MotorProbabilidad.tablero m1)
                      (fst q) (snd q) = true).
      { destruct Hm as (Hf & Hco & _), Hm1e as (Hf1 & Hco1 & _).
        unfold Tablero.esPosicionValida in *. rewrite Hf1, Hco1, <- Hf, <- Hco.
        exact Hv. }
      exists cp. split.
      * assert (Hcp1 : MotorProbabilidad.celdaEn (MotorProbabilidad.tablero m1) p
                       = Some cp).
        { rewrite Hm1. destruct y; [|exact Hcp].
          rewrite celdaEn_actualizar_otra; [exact Hcp | exact Hv |].
          intros E. apply Hne. symmetry. exact E. }
        destruct x; [|exact Hcp1].
        change (MotorProbabilidad.celdaEn
                  (MotorProbabilidad.tablero
                     (MotorProbabilidad.actualizar m1 q 1 1 "analisis100")) p
                = Some cp).
        rewrite celdaEn_actualizar_otra; [exact Hcp1 | exact Hv1 |].
        intros E. apply Hne. symmetry. exact E.
      * destruct Hest as [H | [[E | Hin] Hconf]]; auto. contradiction.
Qed.
(** [actualizarRestricciones] no toca el registro de probabilidades de
    ninguna celda. *)
Lemma probabilidades_actualizarRestricciones tb fila columna :
  option_map Celda.probabilidades
    (Tablero.obtenerCelda (Tablero.actualizarRestricciones tb) fila columna)
  = option_map Celda.probabilidades (Tablero.obtenerCelda tb fila columna).
Proof.
  unfold Tablero.actualizarRestricciones.
  destruct (Tablero.restriccionesActualizadas tb); [reflexivity|].
  set (limpio := Tablero.conCeldas tb _).
  assert (Hr : forall ps t,
            option_map Celda.probabilidades
              (Tablero.obtenerCelda (fold_left Tablero.restringirDesde ps t)
                 fila columna)
            = option_map Celda.probabilidades
                (Tablero.obtenerCelda t fila columna)).
  { intros ps t.
    apply (fold_left_invariante
             (fun t' => option_map Celda.probabilidades
                          (Tablero.obtenerCelda t' fila columna)
                        = option_map Celda.probabilidades
                            (Tablero.obtenerCelda t fila columna)));
      [reflexivity|].
    intros s x _ Hs. rewrite <- Hs. unfold Tablero.restringirDesde.
    destruct (Tablero.obtenerCelda s (fst x) (snd x)); [|reflexivity].
    destruct (Celda.tieneValorNumerico t0); [|reflexivity].
    destruct (Celda.obtenerValorNumerico t0); [|reflexivity].
    cbv zeta. destruct (0 <? _); [|reflexivity].
    apply (fold_left_invariante
             (fun t' => option_map Celda.probabilidades
                          (Tablero.obtenerCelda t' fila columna)
                        = option_map Celda.probabilidades
                            (Tablero.obtenerCelda s fila columna)));
      [reflexivity|].
    intros s' y _ Hs'. rewrite <- Hs'. apply proyeccion_modificar.
    intros c. unfold Celda.agregarRestriccion. cbv zeta.
    destruct (negb _); reflexivity. }
  transitivity
    (option_map Celda.probabilidades
       (Tablero.obtenerCelda
          (fold_left Tablero.restringirDesde (Tablero.posiciones tb) limpio)
          fila columna)); [reflexivity|].
  rewrite Hr. unfold limpio. rewrite obtenerCelda_limpio.
  destruct (Tablero.obtenerCelda tb fila columna); reflexivity.
Qed.

(** La vecindad es simétrica: el opuesto de un desplazamiento es otro. *)
Lemma desplazamiento_opuesto (d : Z * Z) :
  In d Tablero.desplazamientos ->
  In (- fst d, - snd d) Tablero.desplazamientos.
Proof.
  intros H. apply desplazamientos_spec in H as (Hne & Hf & Hc).
  apply desplazamientos_spec. cbn [fst snd]. split; [|lia].
  intros [= H1 H2]. apply Hne. destruct d as [a b]. cbn [fst snd] in *.
  f_equal; lia.
Qed.

(** C8 (enmendada): sobre cualquier tablero íntegro, con cualquier memoria
    y cualesquiera números al azar, la pasada [calcularProbabilidades]
    devuelve, y toda celda sin revelar adyacente a una celda revelada como
    vacía o como "0" cuya confianza anotada antes de la pasada no pasa de
    0.95 queda con probabilidad de mina 0, probabilidad de ser segura 1,
    confianza 1 y origen 'analisis100': cuenta como segura con certeza.
    Cuando la celda revelada es la esquina (0,0), esas adyacentes están
    entre (0,1), (1,0) y (1,1). *)
Theorem C8_vecinas_de_un_cero_seguras
    (azar : nat -> float) (ahora : Z) (m : MotorProbabilidad.t)
    (gestorMemoria : option GestorMemoria.t)
    (fila columna : Z) (cero vecina : Celda.t) :
  integro (MotorProbabilidad.tablero m) ->
  Tablero.obtenerCelda (MotorProbabilidad.tablero m) fila columna
  = Some cero ->
  Celda.descubierta cero = true ->
  Celda.valor cero = Celda.Vacia \/ Celda.valor cero = Celda.Numero 0 ->
  In vecina
     (Tablero.obtenerCeldasAdyacentes (MotorProbabilidad.tablero m)
        fila columna) ->
  Celda.descubierta vecina = false ->
  JS.menorIgual (Celda.confianza (Celda.probabilidades vecina)) 0.95
  = true ->
  exists m' celdas vecina',
    MotorProbabilidad.calcularProbabilidades azar ahora m gestorMemoria
    = Devuelve (m', celdas)
    /\ In (Celda.pos vecina) celdas
    /\ Tablero.obtenerCelda (MotorProbabilidad.tablero m')
         (Celda.fila vecina) (Celda.columna vecina) = Some vecina'
    /\ In vecina'
          (Tablero.obtenerCeldasAdyacentes (MotorProbabilidad.tablero m')
             fila columna)
    /\ Celda.probabilidadMina (Celda.probabilidades vecina') = 0%float
    /\ Celda.probabilidadSegura (Celda.probabilidades vecina') = 1%float
    /\ Celda.confianza (Celda.probabilidades vecina') = 1%float
    /\ Celda.origen (Celda.probabilidades vecina') = "analisis100"%string
    /\ Celda.es100PorCientoSegura vecina' = true
    /\ (fila = 0 -> columna = 0 ->
        In (Celda.pos vecina) [(0, 1); (1, 0); (1, 1)]).
Proof.
  intros Hint Hcero Hdc Hvc Hady Hdv Hconf.
  set (tb0 := Tablero.actualizarRestricciones (MotorProbabilidad.tablero m)).
  pose proof (integro_actualizarRestricciones _ Hint) as Hint0.
  fold tb0 in Hint0. destruct Hint0 as (Hbf0 & _ & Hres0).
  pose proof (actualizarRestricciones_indicador (MotorProbabilidad.tablero m))
    as Hflag0. fold tb0 in Hflag0.
  destruct (Hres0 Hflag0) as [_ Hjus0].
  destruct Hint as (Hbf & _).
  destruct (adyacente_es_celda _ _ _ _ Hady) as (d & Hd & Hv).
  destruct (bienFormado_pos _ _ _ _ Hbf Hv) as [Hfv Hcv].
  destruct (bienFormado_pos _ _ _ _ Hbf Hcero) as [Hfc Hcc].
  assert (Hforma : mismaForma (MotorProbabilidad.tablero m) tb0)
    by apply mismaForma_sim, actualizarRestricciones_forma.
  destruct (mismaForma_celda _ _ _ _ _ Hforma Hv) as (v0 & Hv0 & Hfv0).
  destruct (mismaForma_celda _ _ _ _ _ Hforma Hcero) as (c0 & Hc0 & Hfc0).
  apply forma_campos in Hfv0 as (Hvf & Hvc0 & Hvd & _).
  apply forma_campos in Hfc0 as (_ & _ & Hcd & _ & Hcv0).
  pose proof (probabilidades_actualizarRestricciones
                (MotorProbabilidad.tablero m)
                (fila + fst d) (columna + snd d)) as Hpr.
  fold tb0 in Hpr. rewrite Hv0, Hv in Hpr. cbn [option_map] in Hpr.
  injection Hpr as Hpr.
  set (p := Celda.pos vecina).
  assert (Hp : p = (fila + fst d, columna + snd d))
    by (unfold p, Celda.pos; rewrite Hfv, Hcv; reflexivity).
  assert (Hv0p : Tablero.obtenerCelda tb0 (fst p) (snd p) = Some v0)
    by (rewrite Hp; exact Hv0).
  assert (Hjunto : juntoAUnCero tb0 v0).
  { exists c0. split; [|split; [congruence|]].
    - apply (celda_es_adyacente tb0 _ _ (- fst d, - snd d)).
      + apply desplazamiento_opuesto, Hd.
      + cbn [fst snd]. rewrite Hvf, Hvc0, Hfv, Hcv.
        replace (fila + fst d + - fst d) with fila by lia.
        replace (columna + snd d + - snd d) with columna by lia.
        exact Hc0.
    - rewrite Hcv0. exact Hvc. }
  unfold MotorProbabilidad.calcularProbabilidades. cbv zeta.
  fold tb0.
  set (m0 := {| MotorProbabilidad.tablero := tb0;
                MotorProbabilidad.registroCalculos :=
                  MotorProbabilidad.registroCalculos m;
                MotorProbabilidad.casosAnalizados := 0;
                MotorProbabilidad.usosAzar := MotorProbabilidad.usosAzar m |}).
  change (Tablero.obtenerCeldasSinRevolar (MotorProbabilidad.tablero m0))
    with (Tablero.obtenerCeldasSinRevolar tb0).
  set (celdas := map Celda.pos (Tablero.obtenerCeldasSinRevolar tb0)).
  assert (Hpin : In p celdas).
  { unfold celdas, p. replace (Celda.pos vecina) with (Celda.pos v0)
      by (unfold Celda.pos; congruence).
    apply in_map. unfold Tablero.obtenerCeldasSinRevolar.
    apply filter_In. split; [eapply en_todas; exact Hv0|].
    rewrite Hvd, Hdv. reflexivity. }
  assert (Hnd : NoDup celdas).
  { unfold celdas, Tablero.obtenerCeldasSinRevolar.
    apply sin_repetir_filtro. rewrite (todas_pos _ Hbf0).
    apply posiciones_sin_repetidos. }
  assert (Hval0 : forall q, In q celdas ->
            Tablero.esPosicionValida tb0 (fst q) (snd q) = true).
  { intros q Hq. destruct (sinRevelar_validas tb0 q Hbf0 Hq) as (c & Hc & _).
    eapply obtenerCelda_valida, Hc. }
  assert (H0 : sinCertezaTras tb0 p m0).
  { split; [apply mismaEstructura_refl|].
    exists v0. split; [exact Hv0p|]. rewrite Hpr. exact Hconf. }
  set (m1 := MotorProbabilidad.inicializarProbabilidadesBase m0 celdas).
  assert (H1 : sinCertezaTras tb0 p m1)
    by (apply base_sinCerteza; assumption).
  set (m2 := MotorProbabilidad.calcularProbabilidadesLocales m1 celdas).
  assert (H2 : sinCertezaTras tb0 p m2)
    by (apply locales_sinCerteza; assumption).
  destruct (calcularProbabilidadesGlobales_solo celdas azar m2)
    as (m3 & Hrun3 & _).
  { eapply sinCertezaTras_bienFormado; eauto. }
  { eapply restriccionesJustas_mismaEstructura; [|exact Hjus0].
    apply mismaEstructura_sim, H2. }
  { intros q Hq. destruct H2 as ((Hf & Hc & _) & _).
    unfold Tablero.esPosicionValida in *. rewrite Hf, Hc.
    apply Hval0, Hq. }
  rewrite Hrun3. cbn [mbind resultado_bind mret resultado_ret].
  assert (H3 : sinCertezaTras tb0 p m3)
    by (eapply globales_sinCerteza; eauto).
  set (m4 := MotorProbabilidad.calcularProbabilidadesFrontera m3 celdas).
  assert (H4 : sinCertezaTras tb0 p m4)
    by (apply frontera_sinCerteza; assumption).
  set (m5 := match gestorMemoria with
             | Some gm =>
                 MotorProbabilidad.integrarMemoriaHistorica m4 celdas gm
             | None => m4
             end).
  assert (H5 : sinCertezaTras tb0 p m5).
  { unfold m5. destruct gestorMemoria as [gm|]; [|exact H4].
    apply memoria_sinCerteza; assumption. }
  set (m6 := MotorProbabilidad.identificarCasosConCerteza m5 celdas).
  assert (H6 : sinCertezaTras tb0 p m6)
    by (apply certezas_sinCerteza; assumption).
  unfold MotorProbabilidad.ajustarProbabilidadesFinales. fold m6.
  rewrite (normalizarProbabilidades_no_guarda m6 celdas)
    by (eapply sinCertezaTras_bienFormado; eauto).
  destruct H6 as [Hm6 (c6 & Hc6 & Hconf6)].
  destruct (casosEspeciales_anula tb0 p v0 Hbf0 Hv0p Hjunto celdas m6 Hm6)
    as (vecina' & Hvecina' & Hp0 & Hs1 & Hc1 & Ho).
  { exists c6. split; [exact Hc6|]. right. split; assumption. }
  clearbody m6.
  eexists. exists celdas, vecina'. split; [reflexivity|].
  cbn [MotorProbabilidad.tablero].
  rewrite Hp in Hvecina'. cbn [fst snd] in Hvecina'.
  split; [exact Hpin|].
  split; [rewrite Hfv, Hcv; exact Hvecina'|].
  split; [eapply celda_es_adyacente; [exact Hd | exact Hvecina']|].
  split; [exact Hp0|]. split; [exact Hs1|]. split; [exact Hc1|].
  split; [exact Ho|].
  split; [unfold Celda.es100PorCientoSegura; rewrite Hs1, Hc1; reflexivity|].
  intros -> ->. fold p. rewrite Hp.
  apply obtenerCelda_valida in Hv.
  apply desplazamientos_spec in Hd as (Hne & Hdf & Hdc').
  unfold Tablero.esPosicionValida in Hv.
  destruct d as [a b]. cbn [fst snd] in *.
  assert (Ha : a = 0 \/ a = 1) by lia.
  assert (Hb : b = 0 \/ b = 1) by lia.
  destruct Ha as [-> | ->], Hb as [-> | ->]; cbn; auto.
Qed.
Lemma C8_vecinas_de_un_cero_seguras_testigo :
  exists m' celdas,
    pasada_esquina_cero = Devuelve (m', celdas)
    /\ Forall (fun q =>
                 exists vecina',
                   Tablero.obtenerCelda (MotorProbabilidad.tablero m')
                     (fst q) (snd q) = Some vecina'
                   /\ Celda.probabilidadMina (Celda.probabilidades vecina')
                      = 0%float
                   /\ Celda.confianza (Celda.probabilidades vecina')
                      = 1%float
                   /\ Celda.origen (Celda.probabilidades vecina')
                      = "analisis100"%string)
              [(0, 1); (1, 0); (1, 1)].
Proof.
  assert (Hint : integro (MotorProbabilidad.tablero
                            (MotorProbabilidad.constructor
                               tablero_esquina_cero))).
  { apply integro_alcanzable.
    apply (alcanzable_mutar _ (Revelar 0 0 (Celda.Numero 0))).
    apply alcanzable_nuevo. }
  pose (celdaDe := fun fila columna =>
          match Tablero.obtenerCelda tablero_esquina_cero fila columna with
          | Some celda => celda
          | None => Celda.constructor fila columna
          end).
  assert (Hcero : Tablero.obtenerCelda
                    (MotorProbabilidad.tablero
                       (MotorProbabilidad.constructor tablero_esquina_cero))
                    0 0 = Some (celdaDe 0 0))
    by (vm_compute; reflexivity).
  assert (Hdc : Celda.descubierta (celdaDe 0 0) = true)
    by (vm_compute; reflexivity).
  assert (Hvc : Celda.valor (celdaDe 0 0) = Celda.Vacia
                \/ Celda.valor (celdaDe 0 0) = Celda.Numero 0)
    by (right; vm_compute; reflexivity).
  assert (Hvecina : forall fila columna,
            In (celdaDe fila columna)
               (Tablero.obtenerCeldasAdyacentes
                  (MotorProbabilidad.tablero
                     (MotorProbabilidad.constructor tablero_esquina_cero))
                  0 0) ->
            Celda.descubierta (celdaDe fila columna) = false ->
            JS.menorIgual
              (Celda.confianza (Celda.probabilidades (celdaDe fila columna)))
              0.95 = true ->
            exists m' celdas vecina',
              pasada_esquina_cero = Devuelve (m', celdas)
              /\ Tablero.obtenerCelda (MotorProbabilidad.tablero m')
                   (Celda.fila (celdaDe fila columna))
                   (Celda.columna (celdaDe fila columna)) = Some vecina'
              /\ Celda.probabilidadMina (Celda.probabilidades vecina')
                 = 0%float
              /\ Celda.confianza (Celda.probabilidades vecina') = 1%float
              /\ Celda.origen (Celda.probabilidades vecina')
                 = "analisis100"%string).
  { intros fila columna Hady Hdv Hconf.
    destruct (C8_vecinas_de_un_cero_seguras (fun _ => 0%float) 0
                (MotorProbabilidad.constructor tablero_esquina_cero) None
                0 0 (celdaDe 0 0) (celdaDe fila columna)
                Hint Hcero Hdc Hvc Hady Hdv Hconf)
      as (m' & celdas & vecina' & Hrun & _ & Hv & _ & Hp & _ & Hc & Ho & _).
    exists m', celdas, vecina'. auto. }
  destruct (Hvecina 0 1) as (m' & celdas & v1 & Hrun & H1);
    [vm_compute; left; reflexivity | vm_compute; reflexivity
    | vm_compute; reflexivity |].
  destruct (Hvecina 1 0) as (m2 & celdas2 & v2 & Hrun2 & H2);
    [vm_compute; right; left; reflexivity | vm_compute; reflexivity
    | vm_compute; reflexivity |].
  destruct (Hvecina 1 1) as (m3 & celdas3 & v3 & Hrun3 & H3);
    [vm_compute; right; right; left; reflexivity | vm_compute; reflexivity
    | vm_compute; reflexivity |].
  rewrite Hrun in Hrun2, Hrun3.
  injection Hrun2 as <- <-. injection Hrun3 as <- <-.
  exists m', celdas. split; [exact Hrun|].
  repeat constructor; [exists v1 | exists v2 | exists v3]; assumption.
Defined.
